(* ===== verification/_CoqProject ===== *)
-Q . S2P
Prelude.v
Text.v
OMap.v
Json.v
Externals.v
Toy.v
Host.v
Network.v
Policy.v
Keys.v
World.v
Records.v
Crypto.v
Tickets.v
AuditLog.v
Mfa.v
Provider.v
ProviderSystem.v
ProviderTpm.v
Redaction.v
Recovery.v
Store.v
StoreSpec.v
Vault.v
VaultLogic.v
VaultInvariant.v
VaultRuns.v
VaultSecrets.v
VaultTickets.v
VaultRotation.v
VaultLockdown.v
TicketRaces.v
Files.v
Backup.v
Release.v
ReleaseSpec.v
Typing.v
Dotenv.v
Systemd.v
SystemdSpec.v
Cli.v
CliRun.v
CliSpec.v
CliVault.v
CliProviders.v
CliBroker.v
CliReports.v
CliRelease.v
CliMain.v
CliSteps.v
CliExport.v
CliInvariant.v
Broker.v
Gateway.v
BrokerLogic.v
BrokerState.v
BrokerSecrets.v
BrokerHttp.v
GatewaySpec.v
Serve.v
BrokerInvariant.v
GatewaySetup.v
