(* ===== verification/Prelude.v ===== *)
(** * HBSE: a verification development

    HBSE is a secret store for one host.  A vault is a SQLite file: secrets encrypted under keys
    derived from a root key, which a provider (a pass phrase, the host's fingerprint, a TPM)
    wraps; access policies; tickets, MAC-protected grants that a policy allows and that are
    spent a use at a time; rotation jobs; and an audit log chained by hashes and sealed by MACs.
    A broker daemon keeps a vault unlocked and serves clients of a local socket and of an HTTP
    gateway: tickets, secrets, and HTTP requests it sends for them with a secret injected.
    This library models the crate src/hbse/src/ and proves what its parts promise.

    ** How the program is modelled

    - Fallible code returns [res E A] ([Ok], [Err] or [Panic], an unwinding panic); [?] is
      [res_try], which converts the error by a [From] instance.  Code over the store, the clock
      and the random generator is a computation [ST World E A] ([World.v]): the tables, and a
      counter that numbers the draws, so that no two draws are assumed equal or different.
      A failed operation keeps what it had written, as the code does.
    - Machine integers are [Z] with the width written out where it matters ([u32_wrap],
      [i64_of_u64], the casts of tickets.rs, the shift buffers of mfa.rs); strings are byte
      sequences; a [BTreeMap] and an SQL table are ordered association lists ([OMap.v]);
      serde's forms are a printer to [json] and a parser from it per type ([Json.v]).
    - What is not in src/ is a field of the class [Ext] ([Externals.v]): SHA-256, HMAC, AES-GCM,
      scrypt, base64, serde_json's text, chrono, the UUID and random generators, regular
      expressions, the commands and files of the host, the TPM, and a fault for every call of
      the store.  The law classes ([CodecLaws], [ChronoLaws], [HashLaws], [AeadLaws], [EnvLaws],
      [ScryptLaws], [NoFaults], ...) state documented behaviour; a theorem assumes those it
      uses.  No theorem assumes a hash collision-free or a cipher unforgeable: where security
      rests on that, the conclusion names the collision or the forgery as the alternative.
      [Toy.v] is a concrete instance of every class, on which the witnesses are evaluated.

    ** The parts

    - [Prelude], [Text], [OMap], [Json]: results, the state monad, strings and bytes, ordered
      maps, JSON values and serialization.rs.
    - [Policy] (policy.rs): [evaluate] of a list of policies, and the declarative [grants] it
      decides; [Keys] (keys.rs): the counter KDF and the labelled keys; [Records] (records.rs,
      rotation.rs); [Crypto] (crypto.rs): the envelope of a secret and its associated data;
      [Tickets] (tickets.rs): issue, validate, consume, revoke; [AuditLog] (audit.rs): append
      and verify; [Mfa] (mfa.rs): TOTP and base32; [Redaction] (redaction.rs).
    - [Provider], [ProviderSystem], [ProviderTpm], [Recovery] (the provider_*.rs files and
      recovery.rs): wrapping and unwrapping the root key.
    - [Store] (store.rs): the operations on tables of JSON text.  [StoreSpec]: the contract the
      store offers, on a typed [View]: plain map operations for the calls that are one map
      operation ([exec_refines]), and a promise for those that are more ([operation]: the list of
      secrets, the sealed append, the change of a status, the count and the integrity check);
      [represents] relates view and tables.  What is above uses the store through the contract.
    - [Vault] (vault.rs): every operation of [LocalVault], with the names of the source.
      [VaultLogic] and [VaultInvariant]: triples that hold whatever the outcome, and the
      invariant.  [VaultRuns]: forward rules ([wp]) for a store that works.  [VaultSecrets],
      [VaultTickets], [VaultRotation], [VaultLockdown]: what the operations achieve.
      [TicketRaces]: the calls of concurrent clients interleaved at the store.
    - [Host], [Files]: the machine under the command line (the classes [Host] and [Disk]), and
      the state of a command, a [Site]: the vault's [World], the files, what was printed and the
      children that were started.  [Backup] (backup.rs, and the files of recovery.rs).  [Dotenv]
      (dotenv.rs).  [Systemd] (systemd.rs): the units and their installation; [SystemdSpec]: what
      that does.  [Release] (release.rs): evidence, keys, manifest, signing and verification, over
      the class [Signing]; [ReleaseSpec]: what a report vouches for.  [Typing]: what the readers
      of the JSON documents guarantee.
    - The command line (main.rs): [Cli] and [CliRun], what the commands share, [hbse run] and
      [hbse dotenv run]; [CliVault] (vault, secret, audit, policy, config, ticket, rotation, mfa,
      lockdown), [CliProviders] (provider, model-provider), [CliBroker] (the client, broker,
      resolve), [CliReports] (setup, doctor, readiness), [CliRelease], and [CliMain]: a parsed
      command line, its dispatch ([run]) and exit code.  [CliSpec]: what reaches a child.
      [CliSteps]: the commands as sequences of vault operations and of steps that leave the
      tables alone; [CliInvariant] and [CliExport]: what that gives for a whole run.
    - [Network]: the broker's own parameters (class [Net]) and binary64 numbers.  [Broker] and
      [Gateway] (broker_daemon.rs): the state, the commands, brokered HTTP requests, the HTTP
      gateway.  [BrokerLogic]: relations a computation of the broker keeps.  [BrokerState]: the
      lock as a state machine.  [BrokerSecrets]: the broker over the vault.  [BrokerHttp],
      [GatewaySpec]: URLs, replies, and what the gateway forwards.  [GatewaySetup]: the policy of
      a model provider's set-up and the gateway it prints, together.  [Serve] (and
      bin/hbse-broker.rs): the socket, the arguments and the two threads of the process, run over a
      list of events ([serve_events]); [BrokerInvariant]: that the process keeps the vault.

    ** The theorems

    - The vault, whatever happens: every operation keeps the tables typed, the audit log
      verified and only extended, every row filed ([operations_keep_vault], which names the one
      exception: a recovery package of another root key, [foreign_package_accepted]); no initialiser
      replaces a vault ([init_refused]); a secret leaves through a ticket only within all its
      terms ([materialised_within_terms]); a ticket is issued only for what a policy grants
      ([issued_only_when_granted]); no interleaving overspends one ([races_never_overspend]);
      rotation goes through its states in order ([rotation_in_order]).
    - The vault on a working store: what is put is read, a fresh vault opens, a rewrapped or
      recovered vault reads every secret, a rotation completes, a lockdown revokes all.
    - The broker: a locked one holds nothing ([locked_holds_nothing]) and gives nothing out
      ([asleep_denies]); its flags are earned, the factor by a code that this broker's vault accepted
      ([flags_are_earned]); a secret goes to a client, or into an HTTP request, only as a policy
      grants the peer the kernel names: its pid, user and group from the socket, its executable
      and that file's digest from /proc ([kernel_peer]); of a request the grant is on the
      secret, consumer and purpose that were asked for and on the host, path and method of the URL
      that is called, not on what the client says of them ([materialised_for_the_peer],
      [http_sent_within_policy], [gateway_sends_within_policy]); replies in text are redacted
      ([reply_is_redacted]).  The process as a whole, with its two threads interleaved, keeps the
      vault and its own lock, behind a socket that is its owner's ([broker_keeps_vault]); a socket
      path that is one of the vault's own files is excluded there, and [socket_over_vault] says
      what becomes of that vault.
    - The command line: a child is given everything its caller named and nothing else, each secret
      as a policy grants it for the way it is delivered ([run_child_within_policy],
      [dotenv_child_within_policy]); a backup restores the vault ([backup_restores_vault]), and a
      restore replaces its destination whole or not at all ([restore_is_atomic]); a quoted
      environment file is read back ([dotenv_reads_back]).  Any command but a restoration keeps
      what the operations of the vault keep, under the conditions its comment lists
      ([commands_keep_vault]); plaintext is printed only with every consent there is
      ([plaintext_needs_consent]); the policy a model provider's set-up saves allows what its
      gateway asks for ([setup_policy_serves_gateway]); the units are installed as reported
      ([units_installed]).
    - Releases: a report that passes and names a signature vouches for the manifest and every
      artifact ([verified_release_is_signed]), and what is signed verifies
      ([signed_release_verifies]).
    - Types: every document that is read has its numbers within their widths, and is written back
      as itself ([documents_are_typed]).
    - The cryptographic envelope, the MACs, the chain and the KDF bind what they must bind;
      encodings round-trip; the policy engine decides the declarative condition; the store
      refines its contract; recursion terminates within its fuel.
    - Behaviour that surprises is stated as it is: [unknown_minimum_requires_nothing],
      [oversized_ttl], [promotion_overwrites], [revoke_all_stops], [truncated_log_verifies],
      [refused_unlock_stays_unlocked], [base64_reply_is_raw], [port_defeats_denied_host],
      [upstream_drops_every_version], [bare_name_refused], [scan_mixed_line],
      [disabled_factor_is_gone], [hang_up_ends_broker],
      [foreign_package_accepted], [socket_over_vault],
      [stripped_signature_warns], [unsigned_evidence_unreadable], [source_digest_ambiguous].

    ** Bounds and fuel

    The KDF loop has 32 rounds of fuel and the theorem [counter_kdf_total] that one is enough for
    a 32-byte key.  Decoding of UTF-8 has the length of its input as fuel and takes at least a
    byte a round.  The base32 and mnemonic loops drain a buffer of fewer than 5 (6) + 8 bits in
    at most two rounds and have three.  The walk over a source tree has one more round of fuel
    than the longest path on the disk ([S (depth fs)]), and goes one component down a round.
    Everything else is structural.

    ** Not modelled

    - SQLite itself (durability, file modes, pragmas); a store call is one atomic step that may
      fail with any error, and what [integrity_check] answers is a parameter.  Zeroing of memory,
      and the time a comparison takes.  Symbolic links, [..] in paths and ownership of files;
      standard error.
    - The vault's tables and the files of a [Site] are apart: that a file which is removed is the
      vault's own is modelled for the broker's socket ([remove_file]) and not for the files the
      command line writes.
    - The HTTP agent: what is modelled is the call the broker hands it ([http_send]), which is
      what [br_sent] lists.  ureq follows up to five redirects on its own and sends a credential
      header other than Authorization again, wherever they lead; the theorems on what is sent are
      about the call.
    - The listeners of the broker: its threads run over a list of events, a prefix of what the
      listeners give in some order.  A connection of the socket is one event, as its thread holds
      the mutex throughout; the gateway's thread has a piece before its first critical section's
      end, one for the forwarding, which is outside the mutex, and one for its second.  That the
      store calls of the forwarding interleave with those of the socket's thread is left to
      [TicketRaces], and which steps change the lock to [BrokerState].
      The texts of its error messages are an argument of [answer] and [gateway_answer];
      [max_response_bytes + 1] wraps as in a release build.
    - Argument parsing (clap): a command line is the parsed value [Cli] or [BrokerArgs], and the
      texts that the errors print are parameters of [run]. *)

From stdpp Require Export base tactics option list strings numbers pretty sets.
From Stdlib Require Export ZArith Lia.

#[local] Open Scope Z_scope.

(** ** Machine integers *)

Definition u8_max : Z := 2 ^ 8 - 1.
Definition u32_max : Z := 2 ^ 32 - 1.
Definition u64_max : Z := 2 ^ 64 - 1.
Definition i64_max : Z := 2 ^ 63 - 1.
Definition u32_wrap (z : Z) : Z := z mod 2 ^ 32.
Definition u64_wrap (z : Z) : Z := z mod 2 ^ 64.

(** Rust's [as i64] on a [u64]: the bit pattern read as two's complement. *)
Definition i64_of_u64 (z : Z) : Z := if z <=? i64_max then z else z - 2 ^ 64.

(** ** Results

    [Ok] and [Err] are Rust's; [Panic] is an unwinding panic (a failed [expect], an
    arithmetic overflow the standard library or chrono checks), which no [?] catches. *)

Inductive res (E A : Type) : Type :=
| Ok (a : A)
| Err (e : E)
| Panic.
Arguments Ok {E A} a.
Arguments Err {E A} e.
Arguments Panic {E A}.

#[export] Instance res_ret {E} : MRet (res E) := fun A a => Ok a.
#[export] Instance res_bind {E} : MBind (res E) := fun A B f m =>
  match m with Ok a => f a | Err e => Err e | Panic => Panic end.

#[export] Instance res_fmap {E} : FMap (res E) := fun A B f m =>
  match m with Ok a => Ok (f a) | Err e => Err e | Panic => Panic end.

(** Rust's [?] operator converts the error through [From]. *)
Class From (E F : Type) := from_err : E → F.
#[export] Instance from_refl {E} : From E E | 100 := fun e => e.

Definition res_try {E F A} `{From E F} (r : res E A) : res F A :=
  match r with Ok a => Ok a | Err e => Err (from_err e) | Panic => Panic end.

Definition ok_or {E A} (e : E) (o : option A) : res E A :=
  match o with Some a => Ok a | None => Err e end.

(** [Option::expect] and [Result::expect]: absence is a panic. *)
Definition expect {E A} (o : option A) : res E A :=
  match o with Some a => Ok a | None => Panic end.

Definition res_ok {E A} (r : res E A) : option A :=
  match r with Ok a => Some a | _ => None end.

Definition is_ok {E A} (r : res E A) : bool :=
  match r with Ok _ => true | _ => false end.

(** [iter.map(f).collect::<Result<Vec<_>, _>>()]: the first error wins. *)
Section res_mapM.
Context {E A B : Type} (f : A → res E B).
Fixpoint res_mapM (l : list A) : res E (list B) :=
  match l with
  | [] => Ok []
  | a :: l => b ← f a; bs ← res_mapM l; mret (b :: bs)
  end.
End res_mapM.

(** [iter.filter_map(f).collect()]. *)
Definition filter_map {A B} (f : A → option B) : list A → list B :=
  foldr (λ a l, match f a with Some b => b :: l | None => l end) [].

(** ** Sorting and deduplication

    [sort_by], stable, by a strict order; [dedup_by] drops an element that [same] relates to
    the one kept before it. *)

Section sorting.
Context {A : Type} (lt same : A → A → bool).
Fixpoint insert_by (c : A) (l : list A) : list A :=
  match l with
  | [] => [c]
  | d :: l' => if lt d c then d :: insert_by c l' else c :: l
  end.
Definition sort_by : list A → list A := foldr insert_by [].
Fixpoint dedup_after (prev : A) (l : list A) : list A :=
  match l with
  | [] => []
  | d :: l => if same d prev then dedup_after prev l else d :: dedup_after d l
  end.
Definition dedup_by (l : list A) : list A :=
  match l with [] => [] | c :: l => c :: dedup_after c l end.
End sorting.

(** ** Stateful computations

    A computation over a world [W]: the result together with the world it leaves, which is
    kept on an error, since Rust does not roll the world back. *)

Definition ST (W E A : Type) : Type := W → res E A * W.
Arguments ST : simpl never.

#[export] Instance st_ret {W E} : MRet (ST W E) := fun A a w => (Ok a, w).
#[export] Instance st_bind {W E} : MBind (ST W E) := fun A B f m w =>
  match m w with
  | (Ok a, w') => f a w'
  | (Err e, w') => (Err e, w')
  | (Panic, w') => (Panic, w')
  end.
#[global] Typeclasses Opaque ST.

Definition lift {W E A} (r : res E A) : ST W E A := fun w => (r, w).
Definition throw {W E A} (e : E) : ST W E A := fun w => (Err e, w).
Definition panic {W E A} : ST W E A := fun w => (Panic, w).
Definition get_world {W E} : ST W E W := fun w => (Ok w, w).
Definition put_world {W E} (w : W) : ST W E unit := fun _ => (Ok tt, w).

Definition try_ {W E F A} `{From E F} (m : ST W E A) : ST W F A := fun w =>
  match m w with
  | (Ok a, w') => (Ok a, w')
  | (Err e, w') => (Err (from_err e), w')
  | (Panic, w') => (Panic, w')
  end.

(** [match m { Ok(a) => ..., Err(e) => ... }]: the error as a value. *)
Definition attempt {W E F A} (m : ST W E A) : ST W F (res E A) := fun w =>
  match m w with
  | (Panic, w') => (Panic, w')
  | (r, w') => (Ok r, w')
  end.

(** Early return: [if c { return Err(e) }]. *)
Definition guard_ {W E} (c : bool) (e : E) : ST W E unit := if c then throw e else mret tt.

Fixpoint st_forM {W E A} (f : A → ST W E unit) (l : list A) : ST W E unit :=
  match l with
  | [] => mret tt
  | a :: l => _ ← f a; st_forM f l
  end.

(** ** Relations a computation respects *)

(** [keeps R m]: whatever the outcome, the world [m] leaves is [R]-related to the one it was
    given.  With a preorder [R] this is closed under sequencing. *)
Definition keeps {W E A} (R : W → W → Prop) (m : ST W E A) : Prop :=
  ∀ w, R w (m w).2.

(** ** Lemmas *)

Lemma res_bind_ok_inv {E A B} (m : res E A) (f : A → res E B) b :
  m ≫= f = Ok b → ∃ a, m = Ok a ∧ f a = Ok b.
Proof. destruct m; simpl; intros; [eauto|discriminate..]. Qed.

Section res_lemmas.
Context {E A B : Type}.

Lemma ok_or_ok_inv (e : E) (o : option A) a : ok_or e o = Ok a → o = Some a.
Proof. destruct o; simpl; congruence. Qed.

Lemma res_mapM_ok (f : A → res E B) (g : A → B) l :
  (∀ a, a ∈ l → f a = Ok (g a)) → res_mapM f l = Ok (g <$> l).
Proof.
  induction l as [|a l IH]; intros H; [done|]. simpl.
  rewrite H by set_solver. simpl. rewrite IH by set_solver. done.
Qed.

Lemma res_mapM_ok_inv (f : A → res E B) l bs :
  res_mapM f l = Ok bs → Forall2 (λ a b, f a = Ok b) l bs.
Proof.
  revert bs. induction l as [|a l IH]; intros bs H; simpl in H.
  - injection H as <-. constructor.
  - apply res_bind_ok_inv in H as (b & Hb & H).
    apply res_bind_ok_inv in H as (bs' & Hbs & H). injection H as <-.
    constructor; auto.
Qed.
End res_lemmas.

Lemma res_mapM_fmap {E A B} (f : B → res E A) (g : A → B) l :
  Forall (λ a, f (g a) = Ok a) l → res_mapM f (g <$> l) = Ok l.
Proof. 
  induction 1 as [|a l Ha _ IH]; [done|]. rewrite fmap_cons. cbn [res_mapM].
  rewrite Ha. cbn [mbind res_bind]. by rewrite IH.
Qed.

Lemma elem_of_insert_by {A} (lt : A → A → bool) c l d : d ∈ insert_by lt c l ↔ d = c ∨ d ∈ l.
Proof.
  induction l as [|e l IH]; simpl; [set_solver|].
  destruct (lt _ _); [|set_solver]. rewrite !elem_of_cons, IH. tauto.
Qed.

Lemma elem_of_sort_by {A} (lt : A → A → bool) l d : d ∈ sort_by lt l ↔ d ∈ l.
Proof.
  induction l as [|c l IH]; simpl; [done|]. by rewrite elem_of_insert_by, IH, elem_of_cons.
Qed.

Lemma elem_of_dedup_by {A} (same : A → A → bool) l d :
  (∀ x y, same x y = true → x = y) → d ∈ dedup_by same l ↔ d ∈ l.
Proof.
  intros Hs. destruct l as [|c l]; [done|]. simpl. revert c.
  induction l as [|e l IH]; intros c; simpl; [done|].
  destruct (same e c) eqn:He.
  - apply Hs in He as ->. rewrite IH. set_solver.
  - specialize (IH e). set_solver.
Qed.
Lemma fmap_is_nil {A B} (f : A → B) l : f <$> l = [] ↔ l = [].
Proof. by destruct l. Qed.

Section st_lemmas.
Context {W E A B : Type}.

Lemma st_bind_ok (m : ST W E A) (f : A → ST W E B) w a w1 :
  m w = (Ok a, w1) → (m ≫= f) w = f a w1.
Proof. intros H. unfold mbind, st_bind. by rewrite H. Qed.

Lemma st_ret_bind (a : A) (f : A → ST W E B) w : (mret a ≫= f) w = f a w.
Proof. done. Qed.
Lemma st_lift_ok (a : A) (f : A → ST W E B) w : (lift (Ok a) ≫= f) w = f a w.
Proof. done. Qed.
Lemma st_lift_err e (f : A → ST W E B) w : (lift (Err e) ≫= f) w = (Err e, w).
Proof. done. Qed.
Lemma st_guard_false e (f : unit → ST W E B) w : (guard_ false e ≫= f) w = f tt w.
Proof. done. Qed.
Lemma st_guard_true e (f : unit → ST W E B) w : (guard_ true e ≫= f) w = (Err e, w).
Proof. done. Qed.

Lemma st_bind_assoc {C} (m : ST W E A) (f : A → ST W E B) (g : B → ST W E C) w :
  ((m ≫= f) ≫= g) w = (m ≫= λ a, f a ≫= g) w.
Proof. unfold mbind, st_bind. by destruct (m w) as [[] ?]. Qed.

Lemma st_bind_err (m : ST W E A) (f : A → ST W E B) w e w1 :
  m w = (Err e, w1) → (m ≫= f) w = (Err e, w1).
Proof. intros H. unfold mbind, st_bind. by rewrite H. Qed.

Lemma st_bind_ok_inv (m : ST W E A) (f : A → ST W E B) w b w' :
  (m ≫= f) w = (Ok b, w') → ∃ a w1, m w = (Ok a, w1) ∧ f a w1 = (Ok b, w').
Proof.
  unfold mbind, st_bind. destruct (m w) as [[a|e|] w1]; intros; [eauto|discriminate..].
Qed.

Lemma lift_ok_inv (r : res E A) a (w w' : W) : lift r w = (Ok a, w') → r = Ok a ∧ w = w'.
Proof. unfold lift. by intros [= -> ->]. Qed.

Lemma try_ok_inv {F} `{From E F} (m : ST W E A) w a w' :
  try_ m w = (Ok a, w') → m w = (Ok a, w').
Proof. unfold try_. destruct (m w) as [[?|?|] ?]; congruence. Qed.

Lemma try_ok {F} `{From E F} (m : ST W E A) w a w' :
  m w = (Ok a, w') → try_ m w = (Ok a, w').
Proof. intros Hm. unfold try_. by rewrite Hm. Qed.

Lemma try_err {F} `{From E F} (m : ST W E A) w e w' :
  m w = (Err e, w') → try_ m w = (Err (from_err e), w').
Proof. intros Hm. unfold try_. by rewrite Hm. Qed.

Lemma keeps_ret (R : W → W → Prop) `{!Reflexive R} (a : A) :
  keeps R (mret a : ST W E A).
Proof. intros w. simpl. reflexivity. Qed.

Lemma keeps_lift (R : W → W → Prop) `{!Reflexive R} (r : res E A) : keeps R (lift r : ST W E A).
Proof. intros w. simpl. reflexivity. Qed.

Lemma keeps_throw (R : W → W → Prop) `{!Reflexive R} (e : E) : keeps R (throw e : ST W E A).
Proof. intros w. simpl. reflexivity. Qed.

Lemma keeps_guard (R : W → W → Prop) `{!Reflexive R} c (e : E) : keeps R (guard_ c e : ST W E unit).
Proof. intros w. destruct c; simpl; reflexivity. Qed.

Lemma keeps_bind (R : W → W → Prop) `{!PreOrder R} (m : ST W E A) (f : A → ST W E B) :
  keeps R m → (∀ a, keeps R (f a)) → keeps R (m ≫= f).
Proof.
  intros Hm Hf w. specialize (Hm w). unfold mbind, st_bind.
  destruct (m w) as [[a|e|] w1]; simpl in *; [|done..].
  etrans; [exact Hm|apply Hf].
Qed.

Lemma keeps_try {F} `{From E F} (R : W → W → Prop) (m : ST W E A) :
  keeps R m → keeps R (try_ m : ST W F A).
Proof. intros Hm w. specialize (Hm w). unfold try_. by destruct (m w) as [[?|?|] ?]. Qed.

Lemma keeps_attempt {F} (R : W → W → Prop) (m : ST W E A) :
  keeps R m → keeps R (attempt m : ST W F (res E A)).
Proof. intros Hm w. specialize (Hm w). unfold attempt. by destruct (m w) as [[?|?|] ?]. Qed.

End st_lemmas.

Lemma st_bind_cases {W E A B} (m : ST W E A) (f : A → ST W E B) w r w' :
  (m ≫= f) w = (r, w') →
  (∃ a w1, m w = (Ok a, w1) ∧ f a w1 = (r, w')) ∨
  (∃ o, m w = (o, w') ∧ (∀ a, o ≠ Ok a) ∧ ∀ b, r ≠ Ok b).
Proof.
  unfold mbind, st_bind. destruct (m w) as [[a|e|] w1]; intros Hrun; [left; eauto|right..].
  all: injection Hrun as <- <-; eexists; split; [reflexivity|done].
Qed.

(** A first step that respects [R]: it ended the computation, or the rest goes on from it. *)
Lemma keeps_bind_cases {W E A B} (R : W → W → Prop) (m : ST W E A) (f : A → ST W E B) w r w' :
  keeps R m → (m ≫= f) w = (r, w') →
  R w w' ∨ ∃ a w1, R w w1 ∧ m w = (Ok a, w1) ∧ f a w1 = (r, w').
Proof.
  intros Hm Hrun. pose proof (Hm w) as Hw.
  apply st_bind_cases in Hrun as [(a & w1 & Hr & Hf)|(o & Hr & _)]; rewrite Hr in Hw; [right|by left].
  by exists a, w1.
Qed.

(** A computation that never succeeds, and respects [R]. *)
Definition refuses {W E A} (R : W → W → Prop) (m : ST W E A) : Prop :=
  ∀ w, is_ok (m w).1 = false ∧ R w (m w).2.

Lemma refuses_first {W E A B} (R : W → W → Prop) (m : ST W E A) (f : A → ST W E B) :
  refuses R m → refuses R (m ≫= f).
Proof.
  intros Hm w. destruct (Hm w) as [Ho Hr]. unfold mbind, st_bind.
  by destruct (m w) as [[a|e|] w1].
Qed.
Lemma refuses_later {W E A B} (R : W → W → Prop) `{!PreOrder R} (m : ST W E A) (f : A → ST W E B) :
  keeps R m → (∀ a, refuses R (f a)) → refuses R (m ≫= f).
Proof.
  intros Hm Hf w. specialize (Hm w). unfold mbind, st_bind.
  destruct (m w) as [[a|e|] w1]; [|by split..]. destruct (Hf a w1) as [? ?]. simpl in *.
  split; [done|]. by trans w1.
Qed.

Lemma keeps_forM {W E A} (R : W → W → Prop) `{!PreOrder R} (f : A → ST W E unit) l :
  (∀ a, keeps R (f a)) → keeps R (st_forM f l).
Proof.
  intros Hf. induction l as [|a l IH]; simpl; [apply keeps_ret, _|].
  apply keeps_bind; auto.
Qed.

Create HintDb keeps.
Create HintDb hbse.
#[export] Hint Resolve keeps_ret keeps_lift keeps_throw keeps_guard keeps_try keeps_attempt
  keeps_forM : keeps.

(** Structural closure of [keeps] over binds, matches and conditionals. *)
Ltac keeps_step :=
  match goal with
  | |- keeps _ (_ ≫= _) => apply keeps_bind; [apply _| |intros ?]
  | |- keeps _ (attempt _) => apply keeps_attempt
  | |- keeps _ (try_ _) => apply keeps_try
  | |- keeps _ (st_forM _ _) => apply keeps_forM; [apply _|intros ?]
  | |- keeps _ (if ?b then _ else _) => destruct b
  | |- keeps _ (match ?x with _ => _ end) => destruct x
  | |- keeps _ (let '(_, _) := ?x in _) => destruct x
  | |- _ => solve [eauto with keeps typeclass_instances]
  end.
Ltac keeps_auto := repeat keeps_step.

(** Inversion of a successful run: every bind is split into its two halves. *)
Ltac inv_ok_step :=
  match goal with
  | H : (_ ≫= _) _ = (Ok _, _) |- _ =>
      let a := fresh "a" in let w := fresh "w" in let H1 := fresh "Hrun" in
      apply st_bind_ok_inv in H as (a & w & H1 & H)
  | H : try_ _ _ = (Ok _, _) |- _ => apply try_ok_inv in H
  | H : mret _ _ = (Ok _, _) |- _ => injection H as ??; subst
  | H : lift _ _ = (Ok _, _) |- _ => unfold lift in H; injection H as ??; subst
  | H : throw _ _ = (Ok _, _) |- _ => discriminate H
  | H : guard_ ?c _ _ = (Ok _, _) |- _ =>
      let Hc := fresh "Hguard" in destruct c eqn:Hc; [discriminate H|injection H as ??; subst]
  | H : Ok _ = Ok _ |- _ => injection H as H
  | H : ok_or _ _ = Ok _ |- _ => apply ok_or_ok_inv in H
  | H : _ ≫= _ = Ok _ |- _ =>
      let a := fresh "a" in let H1 := fresh "Hres" in
      apply res_bind_ok_inv in H as (a & H1 & H)
  end.
Ltac inv_ok := repeat (inv_ok_step; simpl in *; try subst).
