(* ===== verification/Text.v ===== *)
(** * Strings and bytes

    The operations of Rust's [str], [String], [char] and [u8] the program uses.  A [str] is
    its UTF-8 byte sequence (Rocq's [string]); a [char] is the one- to four-byte substring
    that encodes it, so [chars] splits a string without loss. *)

From S2P Require Export Prelude.
From Stdlib Require Export Ascii.
From Stdlib Require Export Strings.Byte.
#[local] Open Scope Z_scope.

Abbreviation bytes := (list byte).
Abbreviation as_bytes := String.list_byte_of_string.
Abbreviation of_bytes := String.string_of_list_byte.

#[export] Instance byte_eq_dec : EqDecision byte := Byte.byte_eq_dec.

Definition byte_Z (b : byte) : Z := Z.of_N (Byte.to_N b).
Definition Z_byte (z : Z) : byte :=
  match Byte.of_N (Z.to_N (z mod 256)) with Some b => b | None => x00 end.

(** [to_be_bytes] of an integer of [n] bytes. *)
Fixpoint be_bytes (n : nat) (z : Z) : bytes :=
  match n with
  | O => []
  | S n => Z_byte (Z.shiftr z (8 * Z.of_nat n)) :: be_bytes n z
  end.

(** ** UTF-8

    The length of the sequence at the head of the input, and whether it is well formed; of an
    ill-formed one, the length of its longest prefix that starts a character. *)

Definition in_range (lo hi : Z) (b : byte) : bool := (lo <=? byte_Z b) && (byte_Z b <=? hi).

(** The ranges of the bytes that may follow a first byte; [None] if it starts no character. *)
Definition utf8_tail (first : byte) : option (list (Z * Z)) :=
  let c := (128, 191) in
  if in_range 0 127 first then Some []
  else if in_range 194 223 first then Some [c]
  else if in_range 224 224 first then Some [(160, 191); c]
  else if in_range 237 237 first then Some [(128, 159); c]
  else if in_range 225 239 first then Some [c; c]
  else if in_range 240 240 first then Some [(144, 191); c; c]
  else if in_range 241 243 first then Some [c; c; c]
  else if in_range 244 244 first then Some [(128, 143); c; c]
  else None.

Fixpoint utf8_match (ranges : list (Z * Z)) (b : bytes) : bool * nat :=
  match ranges, b with
  | [], _ => (true, O)
  | (lo, hi) :: ranges, x :: b =>
      if in_range lo hi x then let '(ok, n) := utf8_match ranges b in (ok, S n) else (false, O)
  | _ :: _, [] => (false, O)
  end.

Definition utf8_step (b : bytes) : bool * nat :=
  match b with
  | [] => (true, O)
  | x :: b =>
      match utf8_tail x with
      | Some ranges => let '(ok, n) := utf8_match ranges b in (ok, S n)
      | None => (false, 1%nat)
      end
  end.

(** [String::from_utf8_lossy]: every ill-formed sequence becomes U+FFFD. *)
Definition replacement_character : bytes := [xef; xbf; xbd].
Fixpoint utf8_lossy (fuel : nat) (b : bytes) : bytes :=
  match fuel, b with
  | S fuel, _ :: _ =>
      let '(ok, n) := utf8_step b in
      (if ok then take n b else replacement_character) ++ utf8_lossy fuel (drop n b)
  | _, _ => []
  end.
Definition from_utf8_lossy (b : bytes) : string := of_bytes (utf8_lossy (length b) b).

(** [str::from_utf8]. *)
Fixpoint utf8_valid (fuel : nat) (b : bytes) : bool :=
  match fuel, b with
  | S fuel, _ :: _ => let '(ok, n) := utf8_step b in ok && utf8_valid fuel (drop n b)
  | _, _ => true
  end.
Definition from_utf8 (b : bytes) : option string :=
  if utf8_valid (length b) b then Some (of_bytes b) else None.

(** ** Characters *)

Definition is_continuation (a : ascii) : bool :=
  let n := N_of_ascii a in ((128 <=? n) && (n <? 192))%N.

Fixpoint chars (s : string) : list string :=
  match s with
  | EmptyString => []
  | String a s' =>
      match chars s' with
      | (String c _ as x) :: r =>
          if is_continuation c then String a x :: r else String a EmptyString :: x :: r
      | r => String a EmptyString :: r
      end
  end.

Definition concat_str : list string → string := foldr String.append EmptyString.

Definition str_of_codes (l : list N) : string := foldr (λ n, String (ascii_of_N n)) EmptyString l.

(** The code points with the Unicode property White_Space, in UTF-8. *)
Definition whitespace_chars : list string :=
  str_of_codes <$>
    [ [9]; [10]; [11]; [12]; [13]; [32]; [194; 133]; [194; 160]; [225; 154; 128];
      [226; 128; 128]; [226; 128; 129]; [226; 128; 130]; [226; 128; 131]; [226; 128; 132];
      [226; 128; 133]; [226; 128; 134]; [226; 128; 135]; [226; 128; 136]; [226; 128; 137];
      [226; 128; 138]; [226; 128; 168]; [226; 128; 169]; [226; 128; 175]; [226; 129; 159];
      [227; 128; 128] ]%N.

Definition is_whitespace (c : string) : bool := existsb (String.eqb c) whitespace_chars.

Definition ascii_in (lo hi : N) (a : ascii) : bool :=
  let n := N_of_ascii a in ((lo <=? n) && (n <=? hi))%N.
Definition ascii_is_digit : ascii → bool := ascii_in 48 57.
Definition ascii_is_upper : ascii → bool := ascii_in 65 90.
Definition ascii_is_lower : ascii → bool := ascii_in 97 122.
Definition ascii_is_alnum (a : ascii) : bool :=
  ascii_is_digit a || ascii_is_upper a || ascii_is_lower a.

Definition ascii_upper (a : ascii) : ascii :=
  if ascii_is_lower a then ascii_of_N (N_of_ascii a - 32) else a.
Definition ascii_lower (a : ascii) : ascii :=
  if ascii_is_upper a then ascii_of_N (N_of_ascii a + 32) else a.

Definition is_ascii_digit (c : string) : bool :=
  match c with String a EmptyString => ascii_is_digit a | _ => false end.

Fixpoint str_map (f : ascii → ascii) (s : string) : string :=
  match s with EmptyString => EmptyString | String a s => String (f a) (str_map f s) end.
Definition to_ascii_uppercase : string → string := str_map ascii_upper.
Definition to_ascii_lowercase : string → string := str_map ascii_lower.
Definition eq_ignore_ascii_case (s t : string) : bool :=
  String.eqb (to_ascii_lowercase s) (to_ascii_lowercase t).

(** ** Slicing and searching *)

Fixpoint str_drop (n : nat) (s : string) : string :=
  match n, s with S n, String _ s => str_drop n s | _, _ => s end.

Definition is_empty (s : string) : bool := match s with EmptyString => true | _ => false end.
Definition starts_with (s p : string) : bool := String.prefix p s.
Definition strip_prefix (p s : string) : option string :=
  if String.prefix p s then Some (str_drop (String.length p) s) else None.
Definition strip_suffix (p s : string) : option string :=
  String.rev <$> strip_prefix (String.rev p) (String.rev s).
Definition ends_with (s p : string) : bool := String.prefix (String.rev p) (String.rev s).

Fixpoint contains (s p : string) : bool :=
  String.prefix p s || match s with EmptyString => false | String _ s => contains s p end.

(** [split_once]: around the first occurrence of a non-empty separator. *)
Fixpoint split_once (sep s : string) : option (string * string) :=
  if String.prefix sep s then Some (EmptyString, str_drop (String.length sep) s)
  else match s with
       | EmptyString => None
       | String a s => prod_map (String a) id <$> split_once sep s
       end.

(** [split(sep)] for one character. *)
Fixpoint split_char (sep : ascii) (s : string) : list string :=
  match s with
  | EmptyString => [EmptyString]
  | String a s =>
      if Ascii.eqb a sep then EmptyString :: split_char sep s
      else match split_char sep s with
           | x :: r => String a x :: r
           | [] => [String a EmptyString]
           end
  end.

(** [replace(from, to)] for a non-empty [from]: occurrences left to right, not overlapping;
    [skip] counts the bytes of the current occurrence still to drop. *)
Fixpoint replace_go (from to : string) (skip : nat) (s : string) : string :=
  match s with
  | EmptyString => EmptyString
  | String a s' =>
      match skip with
      | S k => replace_go from to k s'
      | O => if String.prefix from s
             then (to +:+ replace_go from to (pred (String.length from)) s')%string
             else String a (replace_go from to 0 s')
      end
  end.
Definition replace (from to s : string) : string := replace_go from to 0 s.

(** ** Trimming *)

Fixpoint drop_while {A} (p : A → bool) (l : list A) : list A :=
  match l with [] => [] | a :: l' => if p a then drop_while p l' else l end.
Definition drop_while_end {A} (p : A → bool) (l : list A) : list A :=
  rev (drop_while p (rev l)).

Definition trim (s : string) : string :=
  concat_str (drop_while_end is_whitespace (drop_while is_whitespace (chars s))).
Definition trim_end (s : string) : string :=
  concat_str (drop_while_end is_whitespace (chars s)).
Definition trim_end_chars (cs : list string) (s : string) : string :=
  concat_str (drop_while_end (λ c, existsb (String.eqb c) cs) (chars s)).
Definition trim_start_chars (cs : list string) (s : string) : string :=
  concat_str (drop_while (λ c, existsb (String.eqb c) cs) (chars s)).

(** [trim_start_matches(p)]: every leading repetition of [p] goes. *)
Fixpoint trim_start_matches_go (fuel : nat) (p s : string) : string :=
  match fuel with
  | O => s
  | S fuel => match strip_prefix p s with
              | Some s' => trim_start_matches_go fuel p s'
              | None => s
              end
  end.
Definition trim_start_matches (p s : string) : string :=
  trim_start_matches_go (String.length s) p s.

(** [split_whitespace]: the maximal runs of characters that are not white space. *)
Fixpoint split_whitespace_go (cur : string) (cs : list string) : list string :=
  match cs with
  | [] => if is_empty cur then [] else [cur]
  | c :: cs =>
      if is_whitespace c
      then if is_empty cur then split_whitespace_go EmptyString cs
           else cur :: split_whitespace_go EmptyString cs
      else split_whitespace_go (cur +:+ c)%string cs
  end.
Definition split_whitespace (s : string) : list string :=
  split_whitespace_go EmptyString (chars s).

(** [lines]: the pieces up to and with each line feed ([split_inclusive]), each without it and
    without a carriage return before it; nothing follows a final line feed. *)
Definition LF : ascii := "010".
Definition CR : ascii := "013".
Fixpoint split_inclusive (s : string) : list string :=
  match s with
  | EmptyString => []
  | String a s =>
      if Ascii.eqb a LF then String a EmptyString :: split_inclusive s
      else match split_inclusive s with
           | x :: r => String a x :: r
           | [] => [String a EmptyString]
           end
  end.
Definition strip_line_end (line : string) : string :=
  match strip_suffix (String LF EmptyString) line with
  | None => line
  | Some line => default line (strip_suffix (String CR EmptyString) line)
  end.
Definition lines (s : string) : list string := strip_line_end <$> split_inclusive s.

Fixpoint join (sep : string) (l : list string) : string :=
  match l with
  | [] => EmptyString
  | [s] => s
  | s :: l => (s +:+ sep +:+ join sep l)%string
  end.

(** ** Numbers *)

Definition dec (z : Z) : string := pretty z.

Definition hex_digit (upper : bool) (d : Z) : ascii :=
  ascii_of_N (Z.to_N (if d <? 10 then 48 + d else (if upper then 55 else 87) + d)).
(** [format!("{byte:02X}")] and [format!("{byte:02x}")]. *)
Definition hex_byte (upper : bool) (b : byte) : string :=
  let z := byte_Z b in
  String (hex_digit upper (z / 16)) (String (hex_digit upper (z mod 16)) EmptyString).

(** [format!("{:0width$}", n)]. *)
Definition pad_left (c : ascii) (width : nat) (s : string) : string :=
  (Nat.iter (width - String.length s) (String c) EmptyString +:+ s)%string.

Fixpoint parse_digits (acc : Z) (s : string) : option Z :=
  match s with
  | EmptyString => Some acc
  | String a s =>
      if ascii_is_digit a
      then let acc := acc * 10 + (Z.of_N (N_of_ascii a) - 48) in
           if acc <=? u64_max then parse_digits acc s else None
      else None
  end.
(** [str::parse::<u64>]: an optional plus sign, then at least one digit, no overflow. *)
Definition parse_u64 (s : string) : option Z :=
  let s := match strip_prefix "+" s with Some s' => s' | None => s end in
  if is_empty s then None else parse_digits 0 s.

(** ** Lemmas *)

Lemma byte_Z_bound b : 0 <= byte_Z b < 256.
Proof.
  unfold byte_Z. pose proof (Byte.to_N_bounded b). split; [apply N2Z.is_nonneg|].
  change 256 with (Z.of_N 256). apply N2Z.inj_lt. lia.
Qed.

Lemma Z_byte_byte_Z b : Z_byte (byte_Z b) = b.
Proof.
  unfold Z_byte. rewrite Z.mod_small by apply byte_Z_bound.
  unfold byte_Z. by rewrite N2Z.id, Byte.of_to_N.
Qed.

Lemma byte_Z_Z_byte z : byte_Z (Z_byte z) = z mod 256.
Proof.
  unfold Z_byte. pose proof (Z.mod_pos_bound z 256 ltac:(lia)) as Hb.
  destruct (Byte.of_N (Z.to_N (z mod 256))) as [b|] eqn:Hof.
  - unfold byte_Z. apply Byte.to_of_N in Hof. rewrite Hof. lia.
  - apply Byte.of_N_None_iff in Hof. lia.
Qed.

Lemma byte_Z_inj a b : byte_Z a = byte_Z b → a = b.
Proof. intros H. by rewrite <-(Z_byte_byte_Z a), H, Z_byte_byte_Z. Qed.

Lemma length_be_bytes n z : length (be_bytes n z) = n.
Proof. induction n; simpl; congruence. Qed.

Lemma as_bytes_inj s t : as_bytes s = as_bytes t → s = t.
Proof.
  intros H. by rewrite <-(String.string_of_list_byte_of_string s), H,
    String.string_of_list_byte_of_string.
Qed.

Lemma str_app_cons a (s t : string) : (String a s +:+ t = String a (s +:+ t))%string.
Proof. done. Qed.

Lemma str_app_nil_l (s : string) : ("" +:+ s = s)%string.
Proof. done. Qed.

Lemma str_app_assoc (s t u : string) : ((s +:+ t) +:+ u = s +:+ t +:+ u)%string.
Proof. induction s as [|a s IH]; [done|]. by rewrite !str_app_cons, IH. Qed.

Lemma str_app_nil_r (s : string) : (s +:+ "" = s)%string.
Proof. induction s as [|a s IH]; [done|]. by rewrite str_app_cons, IH. Qed.

Lemma str_length_app (s t : string) :
  String.length (s +:+ t)%string = (String.length s + String.length t)%nat.
Proof. induction s as [|a s IH]; [done|]. rewrite str_app_cons. simpl. by rewrite IH. Qed.

Lemma concat_chars s : concat_str (chars s) = s.
Proof.
  induction s as [|a s IH]; [done|]. simpl.
  destruct (chars s) as [|[|c x] r] eqn:Hs; simpl in *.
  - by rewrite <-IH.
  - by rewrite <-IH.
  - destruct (is_continuation c); simpl; by rewrite <-IH.
Qed.

Lemma str_prefix_app (p s : string) : String.prefix p (p +:+ s)%string = true.
Proof.
  induction p as [|a p IH]; [by destruct s|]. rewrite str_app_cons. simpl.
  by destruct (ascii_dec a a).
Qed.

Lemma str_prefix_inv (p s : string) : String.prefix p s = true → ∃ t, s = (p +:+ t)%string.
Proof.
  revert s. induction p as [|a p IH]; intros s; [by exists s|].
  destruct s as [|b s]; simpl; [done|]. destruct (ascii_dec a b) as [->|]; [|done].
  intros (t & ->)%IH. by exists t.
Qed.

Lemma str_drop_app (p s : string) : str_drop (String.length p) (p +:+ s)%string = s.
Proof. induction p as [|a p IH]; [by destruct s|]. by rewrite str_app_cons. Qed.

Lemma strip_prefix_app p s : strip_prefix p (p +:+ s)%string = Some s.
Proof. unfold strip_prefix. by rewrite str_prefix_app, str_drop_app. Qed.

Lemma strip_prefix_Some p s t : strip_prefix p s = Some t → s = (p +:+ t)%string.
Proof.
  unfold strip_prefix. destruct (String.prefix p s) eqn:H; [|done].
  apply str_prefix_inv in H as (u & ->). rewrite str_drop_app. congruence.
Qed.

Lemma split_once_Some sep s x y : split_once sep s = Some (x, y) → s = (x +:+ sep +:+ y)%string.
Proof.
  revert x. induction s as [|a s IH]; intros x; cbn [split_once].
  - destruct sep; simpl; [|done]. intros [= <- <-]. done.
  - destruct (String.prefix sep (String a s)) eqn:Hp.
    + apply str_prefix_inv in Hp as (t & Ht). intros [= <- <-]. by rewrite Ht, str_drop_app.
    + destruct (split_once sep s) as [[x' y']|]; simpl; [|done].
      intros [= <- <-]. by rewrite str_app_cons, <-(IH x').
Qed.

Lemma contains_app (p s t : string) : contains (s +:+ p +:+ t)%string p = true.
Proof.
  induction s as [|a s IH].
  - rewrite str_app_nil_l. pose proof (str_prefix_app p t) as H.
    destruct (p +:+ t)%string; cbn [contains]; by rewrite H.
  - rewrite str_app_cons. cbn [contains]. by rewrite IH, orb_true_r.
Qed.

Lemma contains_inv (s p : string) : contains s p = true → ∃ x y, s = (x +:+ p +:+ y)%string.
Proof.
  induction s as [|a s IH]; cbn [contains]; intros [H|H]%orb_true_iff.
  - apply str_prefix_inv in H as (t & ->). by exists "", t.
  - done.
  - apply str_prefix_inv in H as (t & ->). by exists "", t.
  - destruct (IH H) as (x & y & ->). by exists (String a x), y.
Qed.

Lemma dec_inj a b : 0 <= a → 0 <= b → dec a = dec b → a = b.
Proof. intros _ _ H. by apply (inj pretty) in H. Qed.

(** ** ASCII strings *)

Definition is_ascii (a : ascii) : bool := (N_of_ascii a <? 128)%N.
Fixpoint all_chars (p : ascii → bool) (s : string) : bool :=
  match s with EmptyString => true | String a s => p a && all_chars p s end.
Fixpoint ascii_list (s : string) : list ascii :=
  match s with EmptyString => [] | String a s => a :: ascii_list s end.

Lemma all_chars_app p s t : all_chars p (s +:+ t)%string = all_chars p s && all_chars p t.
Proof.
  induction s as [|a s IH]; [done|]. rewrite str_app_cons. simpl. by rewrite IH, andb_assoc.
Qed.

Lemma all_chars_impl (p q : ascii → bool) s :
  (∀ a, p a = true → q a = true) → all_chars p s = true → all_chars q s = true.
Proof.
  intros Hpq. induction s as [|a s IH]; simpl; [done|]. rewrite !andb_true_iff. naive_solver.
Qed.

(** An ASCII string is the list of its characters. *)
Lemma chars_ascii s :
  all_chars is_ascii s = true → chars s = (λ a, String a EmptyString) <$> ascii_list s.
Proof.
  induction s as [|a s IH]; cbn [all_chars chars ascii_list]; [done|].
  rewrite andb_true_iff. intros [_ Hs]. rewrite IH by done.
  destruct s as [|b s]; [done|]. cbn [ascii_list fmap list_fmap].
  replace (is_continuation b) with false; [done|].
  simpl in Hs. apply andb_true_iff in Hs as [Hb _]. unfold is_ascii in Hb.
  unfold is_continuation. apply N.ltb_lt in Hb. symmetry. apply andb_false_iff. left.
  apply N.leb_gt. lia.
Qed.

(** Bitwise or of disjoint fields is their sum. *)
Lemma lor_add a b k : 0 <= k → 0 <= b < 2 ^ k → Z.lor (a * 2 ^ k) b = a * 2 ^ k + b.
Proof.
  intros Hk Hb. symmetry. rewrite <-Z.add_lor_land. cut (Z.land (a * 2 ^ k) b = 0); [lia|].
  apply Z.bits_inj'. intros n Hn. rewrite Z.land_spec, Z.bits_0.
  destruct (Z.lt_ge_cases n k) as [Hlt|Hge].
  - by rewrite Z.mul_pow2_bits_low.
  - destruct (Z.eq_dec b 0) as [->|]; [by rewrite Z.bits_0, andb_false_r|].
    rewrite (Z.bits_above_log2 b n), andb_false_r; [done|lia|].
    apply Z.log2_lt_pow2; [lia|]. apply Z.lt_le_trans with (2 ^ k); [lia|].
    by apply Z.pow_le_mono_r; lia.
Qed.

(** ** Lines, suffixes and trimming *)

Lemma str_rev_app (s t : string) : String.rev (s +:+ t)%string = (String.rev t +:+ String.rev s)%string.
Proof.
  assert (Hr : ∀ s acc, String.rev_app s acc = (String.rev s +:+ acc)%string).
  { clear. induction s as [|a s IH]; intros acc; [done|]. unfold String.rev. cbn [String.rev_app].
    rewrite IH, (IH (String a "")), str_app_assoc. done. }
  induction s as [|a s IH]; [by rewrite str_app_nil_r|].
  rewrite str_app_cons. unfold String.rev at 1 3. cbn [String.rev_app].
  by rewrite !Hr, IH, str_app_assoc.
Qed.

Lemma str_rev_involutive (s : string) : String.rev (String.rev s) = s.
Proof.
  induction s as [|a s IH]; [done|]. change (String a s) with (String a "" +:+ s)%string.
  by rewrite !str_rev_app, IH.
Qed.

Lemma strip_suffix_app p s : strip_suffix p (s +:+ p)%string = Some s.
Proof.
  unfold strip_suffix. rewrite str_rev_app, strip_prefix_app. simpl. by rewrite str_rev_involutive.
Qed.

Lemma strip_suffix_Some p s t : strip_suffix p s = Some t → s = (t +:+ p)%string.
Proof.
  unfold strip_suffix. destruct (strip_prefix _ _) as [u|] eqn:Hp; [|done].
  intros [= <-]. apply strip_prefix_Some in Hp.
  by rewrite <-(str_rev_involutive s), Hp, str_rev_app, str_rev_involutive.
Qed.

Lemma strip_suffix_last a b s : a ≠ b → strip_suffix (String a "") (s +:+ String b "")%string = None.
Proof.
  intros Hab. unfold strip_suffix, strip_prefix. rewrite str_rev_app. simpl.
  destruct (ascii_dec a b); [done|]. done.
Qed.

Definition no_char (a : ascii) (s : string) : bool := all_chars (λ b, negb (Ascii.eqb b a)) s.

Lemma split_inclusive_line x t :
  no_char LF x = true →
  split_inclusive (x +:+ String LF t)%string = (x +:+ String LF "")%string :: split_inclusive t.
Proof.
  unfold no_char. induction x as [|a x IH]; cbn [all_chars].
  - rewrite !str_app_nil_l. cbn [split_inclusive]. by rewrite Ascii.eqb_refl.
  - rewrite andb_true_iff, negb_true_iff. intros [Ha Hx]. rewrite !str_app_cons.
    cbn [split_inclusive]. by rewrite Ha, IH.
Qed.

Lemma lines_cons x t :
  no_char LF x = true → strip_suffix (String CR "") x = None →
  lines (x +:+ String LF t)%string = x :: lines t.
Proof.
  intros Hx Hcr. unfold lines. rewrite split_inclusive_line by done. rewrite fmap_cons. f_equal.
  unfold strip_line_end. by rewrite strip_suffix_app, Hcr.
Qed.

Lemma chars_snoc s a :
  is_continuation a = false → chars (s +:+ String a "")%string = chars s ++ [String a ""].
Proof.
  intros Ha. induction s as [|b s IH]; [done|]. rewrite str_app_cons. cbn [chars]. rewrite IH.
  destruct (chars s) as [|[|c x] r] eqn:Hs; cbn [app].
  - by rewrite Ha.
  - done.
  - by destruct (is_continuation c).
Qed.

Lemma chars_head a b s :
  is_continuation b = false → chars (String a (String b s)) = String a "" :: chars (String b s).
Proof.
  intros Hb. cbn [chars]. destruct (chars s) as [|[|c x] r]; [by rewrite Hb..|].
  destruct (is_continuation c); by rewrite Hb.
Qed.

(** What starts and ends with a character that is not white space is its own trimming. *)
Lemma trim_id s c l d l' :
  chars s = c :: l → is_whitespace c = false → chars s = l' ++ [d] → is_whitespace d = false →
  trim s = s.
Proof.
  intros Hc Hwc Hd Hwd. unfold trim. rewrite Hc. cbn [drop_while]. rewrite Hwc, <-Hc, Hd.
  unfold drop_while_end. rewrite rev_app_distr. cbn [rev app drop_while]. rewrite Hwd.
  cbn [rev]. by rewrite rev_involutive, <-Hd, concat_chars.
Qed.

Lemma split_once_char a x y :
  no_char a x = true → split_once (String a "") (x +:+ String a y)%string = Some (x, y).
Proof.
  unfold no_char. induction x as [|b x IH]; cbn [all_chars].
  - intros _. rewrite str_app_nil_l. cbn [split_once].
    change (String a y) with (String a "" +:+ y)%string at 1. by rewrite str_prefix_app.
  - rewrite andb_true_iff, negb_true_iff, Ascii.eqb_neq. intros [Hb Hx]. rewrite str_app_cons.
    cbn [split_once String.prefix]. destruct (ascii_dec a b) as [->|]; [done|]. by rewrite IH.
Qed.
