(* ===== verification/OMap.v ===== *)
(** * Ordered maps

    Rust's [BTreeMap] (hence [serde_json::Map]) and an SQL table with a primary key read
    with [ORDER BY] that key: an association list whose keys increase strictly.  String keys
    compare by bytes, which is both Rust's order on [String] and SQLite's BINARY collation. *)

From S2P Require Export Prelude.
#[local] Open Scope Z_scope.

Class OrdKey (K : Type) := klt : K → K → bool.

Class OrdKeyLaws (K : Type) `{OrdKey K} := {
  klt_irrefl (x : K) : klt x x = false;
  klt_trans (x y z : K) : klt x y = true → klt y z = true → klt x z = true;
  klt_total (x y : K) : klt x y = false → klt y x = false → x = y;
}.

#[export] Instance string_ordkey : OrdKey string := λ s t, negb (String.leb t s).
#[export] Instance Z_ordkey : OrdKey Z := Z.ltb.
(** A composite key compares its first component first. *)
#[export] Instance pair_ordkey {A B} `{EqDecision A, OrdKey A, OrdKey B} : OrdKey (A * B) :=
  λ p q, if decide (p.1 = q.1) then klt p.2 q.2 else klt p.1 q.1.

Abbreviation omap K V := (list (K * V)).

Fixpoint oget {K V} `{EqDecision K} (k : K) (m : omap K V) : option V :=
  match m with
  | [] => None
  | (k', v) :: m => if decide (k = k') then Some v else oget k m
  end.

Fixpoint oput {K V} `{EqDecision K, OrdKey K} (k : K) (v : V) (m : omap K V) : omap K V :=
  match m with
  | [] => [(k, v)]
  | (k', v') :: m' =>
      if decide (k = k') then (k, v) :: m'
      else if klt k k' then (k, v) :: m
      else (k', v') :: oput k v m'
  end.

Definition oremove {K V} `{EqDecision K} (k : K) (m : omap K V) : omap K V :=
  List.filter (λ kv, bool_decide (kv.1 ≠ k)) m.

Definition of_list {K V} `{EqDecision K, OrdKey K} (l : list (K * V)) : omap K V :=
  fold_left (λ m kv, oput kv.1 kv.2 m) l [].
Arguments of_list : simpl never.

Fixpoint osorted {K V} `{OrdKey K} (m : omap K V) : Prop :=
  match m with
  | [] => True
  | (k, _) :: m => Forall (λ kv, klt k kv.1 = true) m ∧ osorted m
  end.

(** Plain association, and whether a literal repeats no key. *)
Fixpoint assoc {V} (k : string) (l : list (string * V)) : option V :=
  match l with
  | [] => None
  | (k', v) :: l => if String.eqb k k' then Some v else assoc k l
  end.
Fixpoint keys_nodup {V} (l : list (string * V)) : bool :=
  match l with
  | [] => true
  | (k, _) :: l => negb (existsb (λ kv, String.eqb k kv.1) l) && keys_nodup l
  end.

(** ** Lemmas *)

Lemma assoc_app {V} k (l1 l2 : list (string * V)) :
  assoc k (l1 ++ l2) = match assoc k l1 with Some v => Some v | None => assoc k l2 end.
Proof. induction l1 as [|[k1 v1] l1 IH]; simpl; [done|]. by destruct (String.eqb k k1). Qed.

Lemma assoc_existsb {V} k (l : list (string * V)) v :
  assoc k l = Some v → existsb (λ kv, String.eqb k kv.1) l = true.
Proof.
  induction l as [|[k1 v1] l IH]; simpl; [done|]. destruct (String.eqb k k1); simpl; auto.
Qed.

#[export] Instance string_ordkey_laws : OrdKeyLaws string.
Proof.
  assert (Hle : ∀ s t, String.leb s t = true ↔ String.le s t).
  { intros s t. unfold String.le. by destruct (String.leb s t). }
  split; unfold klt, string_ordkey.
  - intros x. apply negb_false_iff, Hle. reflexivity.
  - intros x y z. rewrite !negb_true_iff. intros Hxy Hyz.
    apply not_true_iff_false in Hxy, Hyz. apply not_true_iff_false.
    rewrite Hle in *. intros Hzx. destruct (total String.le x y) as [?|?]; [|done].
    apply Hyz. by trans x.
  - intros x y. rewrite !negb_false_iff, !Hle. intros. by apply (anti_symm String.le).
Qed.

#[export] Instance Z_ordkey_laws : OrdKeyLaws Z.
Proof. split; unfold klt, Z_ordkey; intros; lia. Qed.

Lemma klt_pair {A B} `{EqDecision A, OrdKey A, OrdKey B} (p q : A * B) :
  klt p q = if decide (p.1 = q.1) then klt p.2 q.2 else klt p.1 q.1.
Proof. done. Qed.

#[export] Instance pair_ordkey_laws {A B} `{EqDecision A, OrdKeyLaws A, OrdKeyLaws B} :
  OrdKeyLaws (A * B).
Proof.
  split.
  - intros x. rewrite klt_pair. case_decide; [apply klt_irrefl|done].
  - intros [x1 x2] [y1 y2] [z1 z2]. rewrite !klt_pair; simpl. intros Hxy Hyz.
    case_decide as Hd1; case_decide as Hd2; subst.
    + rewrite decide_True by done. by eapply klt_trans.
    + by rewrite decide_False by done.
    + by rewrite decide_False by done.
    + pose proof (klt_trans _ _ _ Hxy Hyz) as Hxz. rewrite decide_False; [done|].
      intros ->. by rewrite klt_irrefl in Hxz.
  - intros [x1 x2] [y1 y2]. rewrite !klt_pair; simpl. intros Hxy Hyx.
    repeat case_decide; subst; try congruence.
    + by rewrite (klt_total x2 y2).
    + by pose proof (klt_total _ _ Hxy Hyx).
Qed.

Section omap_lemmas.
Context {K V : Type} {Keq : EqDecision K} {Kord : OrdKey K} {Klaws : OrdKeyLaws K}.
Implicit Types (m : omap K V) (k : K) (v : V).

Lemma oget_cons_eq k v m : oget k ((k, v) :: m) = Some v.
Proof. simpl. by case_decide. Qed.

Lemma oget_cons_ne k k' v m : k' ≠ k → oget k' ((k, v) :: m) = oget k' m.
Proof. intros. simpl. by case_decide. Qed.

Lemma oget_oput_eq k v m : oget k (oput k v m) = Some v.
Proof.
  induction m as [|[k' v'] m IH]; simpl; [by rewrite decide_True|].
  destruct (decide (k = k')); [simpl; by rewrite decide_True|].
  destruct (klt k k'); simpl; [by rewrite decide_True|by rewrite decide_False].
Qed.

Lemma oget_oput_ne k k' v m : k' ≠ k → oget k' (oput k v m) = oget k' m.
Proof.
  intros Hne. induction m as [|[k1 v1] m IH]; simpl; [by rewrite decide_False|].
  destruct (decide (k = k1)) as [->|].
  - simpl. by rewrite !(decide_False (P:=k' = k1)).
  - destruct (klt k k1); simpl; [by rewrite decide_False|]. by rewrite IH.
Qed.

Lemma oget_oput k k' v m :
  oget k' (oput k v m) = if decide (k' = k) then Some v else oget k' m.
Proof. case_decide; [subst; apply oget_oput_eq|by apply oget_oput_ne]. Qed.

Lemma oput_oput k v v' m : oput k v (oput k v' m) = oput k v m.
Proof.
  induction m as [|[k1 v1] m IH]; simpl; [by rewrite decide_True|].
  destruct (decide (k = k1)) as [->|Hne]; simpl; [by rewrite decide_True|].
  destruct (klt k k1) eqn:Hlt; simpl; [by rewrite decide_True|].
  rewrite decide_False by done. by rewrite Hlt, IH.
Qed.

Lemma elem_of_oput kv k v m : kv ∈ oput k v m → kv = (k, v) ∨ kv ∈ m.
Proof.
  induction m as [|[k1 v1] m IH]; simpl.
  - intros ->%list_elem_of_singleton. by left.
  - case_decide; [|destruct (klt k k1)]; rewrite !elem_of_cons; tauto.
Qed.

Lemma oput_Forall (P : K * V → Prop) k v m :
  P (k, v) → Forall P m → Forall P (oput k v m).
Proof.
  rewrite !Forall_forall. intros Hk Hm kv [->|?]%elem_of_oput; auto.
Qed.

Lemma osorted_oput k v m : osorted m → osorted (oput k v m).
Proof.
  induction m as [|[k1 v1] m IH]; simpl; [done|]. intros [Hall Hs].
  destruct (decide (k = k1)) as [->|Hne]; [done|].
  destruct (klt k k1) eqn:Hlt; simpl.
  - split; [|done]. constructor; [done|].
    eapply Forall_impl; [done|]. simpl. intros kv Hkv. by eapply klt_trans.
  - split; [|auto]. apply oput_Forall; [|done]. simpl.
    destruct (klt k1 k) eqn:Hgt; [done|]. destruct Hne. by apply klt_total.
Qed.

Lemma osorted_of_list (l : list (K * V)) : osorted (of_list l).
Proof.
  unfold of_list. assert (Hs : osorted ([] : omap K V)) by done.
  revert Hs. generalize ([] : omap K V).
  induction l as [|[k v] l IH]; intros m Hm; simpl; [done|]. by apply IH, osorted_oput.
Qed.

Lemma oget_elem_of k v m : oget k m = Some v → (k, v) ∈ m.
Proof.
  induction m as [|[k1 v1] m IH]; simpl; [done|].
  case_decide as Hk; [intros [= ->]; subst; left|]. intros. right. auto.
Qed.

Lemma elem_of_oget k v m : osorted m → (k, v) ∈ m → oget k m = Some v.
Proof.
  induction m as [|[k1 v1] m IH]; simpl; [by intros _ ?%elem_of_nil|].
  intros [Hall Hs] [[= <- <-]|Hin]%elem_of_cons; [by rewrite decide_True|].
  rewrite decide_False; [auto|]. intros ->.
  rewrite Forall_forall in Hall. specialize (Hall _ Hin). simpl in Hall.
  by rewrite klt_irrefl in Hall.
Qed.

Lemma elem_of_oput_sorted k v k' v' m :
  osorted m → (k', v') ∈ oput k v m → (k' = k ∧ v' = v) ∨ (k' ≠ k ∧ (k', v') ∈ m).
Proof.
  intros Hs Hin. apply elem_of_oget in Hin; [|by apply osorted_oput].
  rewrite oget_oput in Hin. case_decide; [left; split; congruence|].
  right. eauto using oget_elem_of.
Qed.

Lemma oget_below k m : Forall (λ kv, klt k kv.1 = true) m → oget k m = None.
Proof.
  induction 1 as [|[k1 v1] m Hlt _ IH]; simpl in *; [done|].
  rewrite decide_False; [done|]. intros ->. by rewrite klt_irrefl in Hlt.
Qed.

(** Two ordered maps with the same lookups are the same list. *)
Lemma omap_eq m1 m2 : osorted m1 → osorted m2 → (∀ k, oget k m1 = oget k m2) → m1 = m2.
Proof.
  revert m2. induction m1 as [|[k1 v1] m1 IH]; intros [|[k2 v2] m2] Hs1 Hs2 Hg.
  - done.
  - specialize (Hg k2). by rewrite oget_cons_eq in Hg.
  - specialize (Hg k1). by rewrite oget_cons_eq in Hg.
  - destruct Hs1 as [Ha1 Hs1], Hs2 as [Ha2 Hs2].
    assert (k1 = k2) as ->.
    { destruct (decide (k1 = k2)) as [|Hne]; [done|]. exfalso.
      pose proof (Hg k1) as Hk1. pose proof (Hg k2) as Hk2.
      rewrite oget_cons_eq, oget_cons_ne in Hk1 by done.
      rewrite oget_cons_eq, oget_cons_ne in Hk2 by done.
      apply eq_sym, oget_elem_of in Hk1. apply oget_elem_of in Hk2.
      rewrite Forall_forall in Ha1, Ha2.
      pose proof (klt_trans _ _ _ (Ha1 _ Hk2) (Ha2 _ Hk1)) as Hc.
      by rewrite klt_irrefl in Hc. }
    pose proof (Hg k2) as Hk. rewrite !oget_cons_eq in Hk. injection Hk as ->.
    f_equal. apply IH; [done..|]. intros k.
    destruct (decide (k = k2)) as [->|Hne]; [by rewrite !oget_below|].
    specialize (Hg k). by rewrite !oget_cons_ne in Hg.
Qed.

Lemma oput_id k v m : osorted m → oget k m = Some v → oput k v m = m.
Proof.
  intros Hs Hg. apply omap_eq; [by apply osorted_oput|done|].
  intros k'. rewrite oget_oput. case_decide; congruence.
Qed.

Lemma oput_comm k1 k2 v1 v2 m :
  osorted m → k1 ≠ k2 → oput k1 v1 (oput k2 v2 m) = oput k2 v2 (oput k1 v1 m).
Proof.
  intros Hs Hne. apply omap_eq; [by repeat apply osorted_oput..|].
  intros k. rewrite !oget_oput. repeat case_decide; congruence.
Qed.

Lemma oget_oremove_eq k m : oget k (oremove k m) = None.
Proof.
  induction m as [|[k1 v1] m IH]; simpl; [done|].
  case_bool_decide as Hne; simpl; [|done]. rewrite decide_False; auto.
Qed.

Lemma oget_oremove_ne k k' m : k' ≠ k → oget k' (oremove k m) = oget k' m.
Proof.
  intros Hne. induction m as [|[k1 v1] m IH]; simpl; [done|].
  case_bool_decide as H1; simpl; [by rewrite IH|].
  rewrite decide_False; [done|]. congruence.
Qed.

Lemma osorted_oremove k m : osorted m → osorted (oremove k m).
Proof.
  induction m as [|[k1 v1] m IH]; simpl; [done|]. intros [Ha Hs].
  case_bool_decide; simpl; [|auto]. split; [|auto].
  rewrite Forall_forall in *. intros kv Hin. apply Ha.
  unfold oremove in Hin. rewrite list_elem_of_In, filter_In, <-list_elem_of_In in Hin. tauto.
Qed.

End omap_lemmas.

#[export] Hint Resolve osorted_oput osorted_of_list osorted_oremove : hbse.

(** ** Lookup in a literal *)

Section of_list_lemmas.
Context {V : Type}.
Implicit Types (l : list (string * V)) (k : string).

Lemma oget_fold_oput l m k :
  oget k (fold_left (λ m kv, oput kv.1 kv.2 m) l m) =
    match assoc k (rev l) with Some v => Some v | None => oget k m end.
Proof.
  revert m. induction l as [|[k1 v1] l IH]; intros m; simpl; [done|].
  rewrite IH, assoc_app. destruct (assoc k (rev l)); [done|]. simpl.
  rewrite oget_oput. destruct (String.eqb_spec k k1); [by rewrite decide_True|].
  by rewrite decide_False.
Qed.

Lemma assoc_rev l k : keys_nodup l = true → assoc k (rev l) = assoc k l.
Proof.
  induction l as [|[k1 v1] l IH]; simpl; [done|].
  rewrite andb_true_iff, negb_true_iff. intros [Hk Hl].
  rewrite assoc_app, IH by done. simpl. destruct (assoc k l) as [v|] eqn:Ha.
  - destruct (String.eqb_spec k k1) as [->|]; [|done].
    by rewrite (assoc_existsb k1 l v Ha) in Hk.
  - done.
Qed.

Lemma oget_of_list l k : keys_nodup l = true → oget k (of_list l) = assoc k l.
Proof.
  intros Hl. unfold of_list. rewrite oget_fold_oput, assoc_rev by done.
  by destruct (assoc k l).
Qed.

Lemma of_list_Forall (P : string * V → Prop) l : Forall P l → Forall P (of_list l).
Proof.
  unfold of_list. intros Hl. assert (Hm : Forall P ([] : omap string V)) by constructor.
  revert Hm. generalize ([] : omap string V).
  induction Hl as [|[k v] l Hp Hl IH]; intros m Hm; simpl; [done|].
  apply IH. by apply oput_Forall.
Qed.
End of_list_lemmas.

Lemma oremove_inj {K V} `{Klaws : OrdKeyLaws K} `{!EqDecision K} k (m m' : omap K V) :
  osorted m → osorted m' → oremove k m = oremove k m' → oget k m = oget k m' → m = m'.
Proof.
  intros Hs Hs' Hr Hk. apply omap_eq; [done..|]. intros k'.
  destruct (decide (k' = k)) as [->|Hne]; [done|].
  by rewrite <-(oget_oremove_ne k k' m), <-(oget_oremove_ne k k' m'), Hr.
Qed.

(** ** Mapping the values *)

Section omap_fmap.
Context {K V V' : Type} `{EqDecision K, OrdKey K} (f : V → V').
Definition map_values (m : omap K V) : omap K V' := (λ kv, (kv.1, f kv.2)) <$> m.

Lemma oget_map_values k m : oget k (map_values m) = f <$> oget k m.
Proof. induction m as [|[k' v'] m IH]; simpl; [done|]. by case_decide. Qed.

Lemma oput_map_values k v m : oput k (f v) (map_values m) = map_values (oput k v m).
Proof.
  induction m as [|[k' v'] m IH]; simpl; [done|]. case_decide; [done|].
  destruct (klt k k'); [done|]. simpl. by rewrite IH.
Qed.

Lemma snd_map_values m : (map_values m).*2 = f <$> m.*2.
Proof. unfold map_values. by rewrite <-!list_fmap_compose. Qed.

Lemma fst_map_values m : (map_values m).*1 = m.*1.
Proof. unfold map_values. by rewrite <-list_fmap_compose. Qed.

Lemma osorted_map_values m : osorted m → osorted (map_values m).
Proof.
  induction m as [|[k v] m IH]; simpl; [done|]. intros [Hk Hm]. split; [|by apply IH].
  clear IH Hm. induction Hk; simpl; constructor; auto.
Qed.
End omap_fmap.

(** ** Filling a map in the order of its keys *)

Section in_order.
Context {K V : Type} `{Klaws : OrdKeyLaws K} `{!EqDecision K}.

Lemma oput_last k (v : V) m :
  Forall (λ kv, klt kv.1 k = true) m → oput k v m = m ++ [(k, v)].
Proof.
  induction 1 as [|[k' v'] m Hk Hm IH]; simpl in *; [done|].
  rewrite decide_False by (intros ->; by rewrite klt_irrefl in Hk).
  destruct (klt k k') eqn:Hlt; [|by rewrite IH].
  pose proof (klt_trans _ _ _ Hk Hlt) as Hc. by rewrite klt_irrefl in Hc.
Qed.

Lemma of_list_sorted (m : omap K V) : osorted m → of_list m = m.
Proof.
  cut (∀ acc, osorted (acc ++ m) → fold_left (λ m kv, oput kv.1 kv.2 m) m acc = acc ++ m).
  { intros Hc Hm. by apply (Hc []). }
  induction m as [|[k v] m IH]; intros acc Hs; simpl; [by rewrite app_nil_r|].
  assert (Hk : Forall (λ kv, klt kv.1 k = true) acc).
  { clear IH. induction acc as [|[k' v'] acc IHa]; [constructor|]. simpl in Hs.
    destruct Hs as [Hf Hs]. constructor; [|by apply IHa].
    rewrite Forall_app, Forall_cons in Hf. by destruct Hf as [_ [Hf _]]. }
  rewrite oput_last by done. rewrite IH by (by rewrite <-(assoc_L (++))).
  by rewrite <-(assoc_L (++)).
Qed.
End in_order.
