(* ===== verification/Json.v ===== *)
(** * JSON values

    [serde_json::Value] as the program builds, inspects and stores it, and [serialization.rs].
    An object is a [Map<String, Value>], that is a [BTreeMap]: its keys are in order whatever
    the order they were inserted in.  Printing and parsing are serde_json's own and stay
    parameters ([Externals]). *)

From S2P Require Export Prelude Text OMap.
#[local] Open Scope Z_scope.
#[local] Set Warnings "-register-all".

(** [serde_json::Number]: [u64], negative [i64], or a float, of which the program only asks
    whether it is one. *)
Inductive jnum : Type :=
| JPos (n : Z)
| JNeg (z : Z)
| JFloat (repr : string).

Inductive json : Type :=
| JNull
| JBool (b : bool)
| JNum (n : jnum)
| JStr (s : string)
| JArr (l : list json)
| JObj (m : list (string * json)).

Definition is_f64 (n : jnum) : bool := match n with JFloat _ => true | _ => false end.

(** The [json!({...})] macro: the entries are inserted in the order they are written. *)
Definition obj (l : list (string * json)) : json := JObj (of_list l).
Arguments obj : simpl never.

(** [Value::get] with a string index, and the [as_*] accessors. *)
Definition jget (k : string) (v : json) : option json :=
  match v with JObj m => oget k m | _ => None end.
Definition as_str (v : json) : option string := match v with JStr s => Some s | _ => None end.
Definition as_bool (v : json) : option bool := match v with JBool b => Some b | _ => None end.
Definition as_u64 (v : json) : option Z := match v with JNum (JPos n) => Some n | _ => None end.
Definition as_object (v : json) : option (omap string json) :=
  match v with JObj m => Some m | _ => None end.
Definition get_str (k : string) (v : json) : option string := jget k v ≫= as_str.
Definition get_bool (k : string) (v : json) : option bool := jget k v ≫= as_bool.

(** [as_object_mut().remove(k)] and [insert]. *)
Definition jremove (k : string) (v : json) : json :=
  match v with JObj m => JObj (oremove k m) | v => v end.
Definition jinsert (k : string) (x : json) (v : json) : json :=
  match v with JObj m => JObj (oput k x m) | v => v end.

(** ** serialization.rs *)

Inductive SerializationError : Type := FloatForbidden | TopLevelMustBeObject | Json.

(** The loop over an object's members, which fills [normalized]. *)
Section members.
Context (f : json → res SerializationError json).
Fixpoint normalize_members (normalized : omap string json) (m : list (string * json))
  : res SerializationError (omap string json) :=
  match m with
  | [] => Ok normalized
  | (key, value) :: m => y ← f value; normalize_members (oput key y normalized) m
  end.
End members.

Fixpoint normalize_value (value : json) : res SerializationError json :=
  match value with
  | JNull | JBool _ | JStr _ => Ok value
  | JNum number => if is_f64 number then Err FloatForbidden else Ok value
  | JArr items => l ← res_mapM normalize_value items; mret (JArr l)
  | JObj m => normalized ← normalize_members normalize_value [] m; mret (JObj normalized)
  end.

(** [canonical_json_bytes] up to printing: the value [serde_json::to_vec] is given. *)
Definition canonical_value (v : json) : res SerializationError json :=
  match v with
  | JObj m => normalize_value (JObj m)
  | _ => Err TopLevelMustBeObject
  end.

(** ** Well-formed values

    What every value of the Rust type satisfies (keys in order, numbers in range), together
    with the absence of floats: the values the canonical encoding is for. *)

Definition jnum_ok (n : jnum) : bool :=
  match n with
  | JPos n => (0 <=? n) && (n <=? u64_max)
  | JNeg z => (- 2 ^ 63 <=? z) && (z <? 0)
  | JFloat _ => false
  end.

Fixpoint keys_above {V} (k : string) (m : omap string V) : bool :=
  match m with
  | [] => true
  | (k', _) :: m => klt k k' && keys_above k' m
  end.
Definition keys_sorted {V} (m : omap string V) : bool :=
  match m with [] => true | (k, _) :: m => keys_above k m end.

Fixpoint has_float (v : json) : bool :=
  match v with
  | JNum n => is_f64 n
  | JArr l => existsb has_float l
  | JObj m => existsb (λ kv, has_float kv.2) m
  | _ => false
  end.

(** The order invariant of every nested map. *)
Fixpoint json_sorted (v : json) : bool :=
  match v with
  | JArr l => forallb json_sorted l
  | JObj m => keys_sorted m && forallb (λ kv, json_sorted kv.2) m
  | _ => true
  end.

Fixpoint json_ok (v : json) : bool :=
  match v with
  | JNull | JBool _ | JStr _ => true
  | JNum n => jnum_ok n
  | JArr l => forallb json_ok l
  | JObj m => keys_sorted m && forallb (λ kv, json_ok kv.2) m
  end.

(** ** Typed values: what [derive(Serialize, Deserialize)] gives a type *)

Class Serde (A : Type) := { to_value : A → json; of_value : json → option A }.

Class SerdeLaws (A : Type) `{Serde A} (wf : A → Prop) := {
  of_to_value (a : A) : wf a → of_value (to_value a) = Some a;
  to_value_ok (a : A) : wf a → json_ok (to_value a) = true;
}.

(** A struct field: required, with [#[serde(default)]], or an [Option]. *)
Definition field {A} (k : string) (f : json → option A) (m : omap string json) : option A :=
  oget k m ≫= f.
Definition field_or {A} (k : string) (f : json → option A) (d : A) (m : omap string json)
  : option A :=
  match oget k m with Some v => f v | None => Some d end.
Definition field_opt {A} (k : string) (f : json → option A) (m : omap string json)
  : option (option A) :=
  match oget k m with
  | None | Some JNull => Some None
  | Some v => Some <$> f v
  end.

Definition de_u64 (v : json) : option Z :=
  n ← as_u64 v; if (0 <=? n) && (n <=? u64_max) then Some n else None.
Definition de_u32 (v : json) : option Z :=
  n ← as_u64 v; if (0 <=? n) && (n <=? u32_max) then Some n else None.
Definition de_list {A} (f : json → option A) (v : json) : option (list A) :=
  match v with JArr l => mapM f l | _ => None end.

Definition ser_opt {A} (f : A → json) (o : option A) : json :=
  match o with Some a => f a | None => JNull end.
Definition ser_u64 (n : Z) : json := JNum (JPos n).
Definition ser_list {A} (f : A → json) (l : list A) : json := JArr (f <$> l).

(** ** Lemmas *)

Section json_ind.
Variable P : json → Prop.
Hypothesis Hnull : P JNull.
Hypothesis Hbool : ∀ b, P (JBool b).
Hypothesis Hnum : ∀ n, P (JNum n).
Hypothesis Hstr : ∀ s, P (JStr s).
Hypothesis Harr : ∀ l, Forall P l → P (JArr l).
Hypothesis Hobj : ∀ m, Forall (λ kv, P kv.2) m → P (JObj m).

Fixpoint json_nested_ind (v : json) : P v :=
  match v with
  | JNull => Hnull
  | JBool b => Hbool b
  | JNum n => Hnum n
  | JStr s => Hstr s
  | JArr l =>
      Harr l ((fix go l : Forall P l :=
                 match l with
                 | [] => Forall_nil_2 _
                 | x :: l => Forall_cons_2 _ _ _ (json_nested_ind x) (go l)
                 end) l)
  | JObj m =>
      Hobj m ((fix go m : Forall (λ kv, P kv.2) m :=
                 match m with
                 | [] => Forall_nil_2 _
                 | kv :: m => Forall_cons_2 _ _ _ (json_nested_ind kv.2) (go m)
                 end) m)
  end.
End json_ind.

Lemma keys_above_osorted {V} k (m : omap string V) :
  keys_above k m = true ↔ Forall (λ kv, klt k kv.1 = true) m ∧ osorted m.
Proof.
  revert k. induction m as [|[k' v'] m IH]; intros k; simpl; [done|].
  rewrite andb_true_iff, IH, Forall_cons. simpl. split; [|tauto].
  intros (Hk & Hall & Hs). repeat split; [done| |done..].
  eapply Forall_impl; [done|]. intros kv Hkv. by eapply klt_trans.
Qed.

Lemma keys_sorted_osorted {V} (m : omap string V) : keys_sorted m = true ↔ osorted m.
Proof. destruct m as [|[k v] m]; [done|]. apply keys_above_osorted. Qed.

Lemma osorted_app_inv {V} (m1 m2 : omap string V) k v :
  osorted (m1 ++ (k, v) :: m2) → Forall (λ kv, klt kv.1 k = true) m1.
Proof.
  induction m1 as [|[k1 v1] m1 IH]; simpl; [constructor|]. intros [Hall Hs].
  apply Forall_app in Hall as [_ Hall]. inversion_clear Hall. constructor; auto.
Qed.

(** The loop over the members, on values [f] answers for by [has_float]. *)
Lemma normalize_members_spec f (m acc : omap string json) :
  Forall (λ kv, f kv.2 = if has_float kv.2 then Err FloatForbidden else Ok kv.2) m →
  osorted (acc ++ m) →
  normalize_members f acc m =
    if existsb (λ kv, has_float kv.2) m then Err FloatForbidden else Ok (acc ++ m).
Proof.
  intros Hf. revert acc. induction Hf as [|[k v] m Hv Hf IH]; intros acc Hs; simpl in *.
  - by rewrite app_nil_r.
  - rewrite Hv. destruct (has_float v); simpl; [done|].
    rewrite oput_last by (by eapply osorted_app_inv).
    rewrite IH, <-(assoc_L (++)); simpl; [done|]. by rewrite <-(assoc_L (++)).
Qed.

Lemma normalize_items_spec f (l : list json) :
  Forall (λ v, f v = if has_float v then Err FloatForbidden else Ok v) l →
  res_mapM f l = if existsb has_float l then Err FloatForbidden else Ok l.
Proof.
  induction 1 as [|v l Hv _ IH]; simpl; [done|]. rewrite Hv.
  destruct (has_float v); simpl; [done|]. rewrite IH. by destruct (existsb _ _).
Qed.

Lemma normalize_value_spec v :
  json_sorted v = true →
  normalize_value v = if has_float v then Err FloatForbidden else Ok v.
Proof.
  induction v as [| | | |l IH|m IH] using json_nested_ind; intros Hs; simpl in *; try done.
  - rewrite normalize_items_spec; [by destruct (existsb _ _)|].
    rewrite forallb_forall in Hs. rewrite Forall_forall in IH |- *. intros x Hx.
    apply IH; [done|]. by apply Hs, list_elem_of_In.
  - apply andb_true_iff in Hs as [Hk Hs]. rewrite normalize_members_spec.
    + by destruct (existsb _ _).
    + rewrite forallb_forall in Hs. rewrite Forall_forall in IH |- *. intros x Hx.
      apply IH; [done|]. by apply Hs, list_elem_of_In.
    + by apply keys_sorted_osorted.
Qed.

Lemma json_ok_sorted v : json_ok v = true → json_sorted v = true ∧ has_float v = false.
Proof.
  induction v as [| |n| |l IH|m IH] using json_nested_ind; intros Hok; simpl in *; try done.
  - split; [done|]. by destruct n.
  - rewrite forallb_forall in Hok |- *. rewrite Forall_forall in IH. split.
    + intros x Hx. apply IH; [by apply list_elem_of_In|auto].
    + apply not_true_iff_false. intros (x & Hx & Hf)%existsb_exists.
      destruct (IH x) as [_ Hno]; [by apply list_elem_of_In|auto|]. congruence.
  - apply andb_true_iff in Hok as [Hk Hok]. rewrite forallb_forall in Hok.
    rewrite Forall_forall in IH. rewrite Hk. simpl. split.
    + apply forallb_forall. intros x Hx. apply IH; [by apply list_elem_of_In|auto].
    + apply not_true_iff_false. intros (x & Hx & Hf)%existsb_exists.
      destruct (IH x) as [_ Hno]; [by apply list_elem_of_In|auto|]. congruence.
Qed.

Lemma canonical_value_ok v m : v = JObj m → json_ok v = true → canonical_value v = Ok v.
Proof.
  intros -> Hok. apply json_ok_sorted in Hok as [Hs Hf].
  unfold canonical_value. by rewrite normalize_value_spec, Hf.
Qed.

Lemma json_ok_obj l : forallb (λ kv, json_ok kv.2) l = true → json_ok (obj l) = true.
Proof.
  rewrite forallb_forall. intros Hl. unfold obj. simpl. apply andb_true_iff. split.
  - apply keys_sorted_osorted, osorted_of_list.
  - apply forallb_forall. intros kv Hin. apply list_elem_of_In in Hin.
    assert (Hall : Forall (λ kv, json_ok kv.2 = true) (of_list l)).
    { apply of_list_Forall, Forall_forall. intros kv' Hin'. by apply Hl, list_elem_of_In. }
    rewrite Forall_forall in Hall. by apply Hall.
Qed.

Lemma field_of_list {A} k (f : json → option A) l v :
  keys_nodup l = true → assoc k l = Some v → field k f (of_list l) = f v.
Proof. intros Hl Hk. unfold field. by rewrite oget_of_list, Hk. Qed.

Lemma field_or_of_list {A} k (f : json → option A) d l v :
  keys_nodup l = true → assoc k l = Some v → field_or k f d (of_list l) = f v.
Proof. intros Hl Hk. unfold field_or. by rewrite oget_of_list, Hk. Qed.

Lemma field_opt_of_list {A} k (f : json → option A) (g : A → json) l o :
  keys_nodup l = true → assoc k l = Some (ser_opt g o) →
  (∀ a, o = Some a → g a ≠ JNull ∧ f (g a) = Some a) →
  field_opt k f (of_list l) = Some o.
Proof.
  intros Hl Hk Hf. unfold field_opt. rewrite oget_of_list, Hk by done.
  destruct o as [a|]; simpl; [|done]. destruct (Hf a eq_refl) as [Hn Ha].
  rewrite Ha. by destruct (g a).
Qed.

Lemma de_ser_u64 n : 0 <= n <= u64_max → de_u64 (ser_u64 n) = Some n.
Proof. intros Hn. unfold de_u64. simpl. by rewrite !(proj2 (Z.leb_le _ _)) by lia. Qed.

Lemma de_ser_u32 n : 0 <= n <= u32_max → de_u32 (ser_u64 n) = Some n.
Proof. intros Hn. unfold de_u32. simpl. by rewrite !(proj2 (Z.leb_le _ _)) by lia. Qed.

Lemma de_ser_list {A} (f : json → option A) (g : A → json) l :
  Forall (λ a, f (g a) = Some a) l → de_list f (ser_list g l) = Some l.
Proof.
  unfold de_list, ser_list. intros Hl. apply mapM_Some.
  induction Hl; rewrite ?fmap_cons; by constructor.
Qed.

Lemma ser_u64_ok n : 0 <= n <= u64_max → json_ok (ser_u64 n) = true.
Proof. intros Hn. simpl. by rewrite !(proj2 (Z.leb_le _ _)) by lia. Qed.

Lemma ser_opt_ok {A} (g : A → json) o :
  (∀ a, o = Some a → json_ok (g a) = true) → json_ok (ser_opt g o) = true.
Proof. destruct o; simpl; auto. Qed.

Lemma ser_list_ok {A} (g : A → json) l :
  Forall (λ a, json_ok (g a) = true) l → json_ok (ser_list g l) = true.
Proof. simpl. induction 1 as [|a l Ha _ IH]; simpl; [done|]. by rewrite Ha. Qed.

(** [serde_step] reads one required or defaulted field of a literal object back; optional
    fields are read first, by [serde_opt]. *)
Ltac serde_step :=
  first
    [ erewrite field_of_list; [|vm_compute; reflexivity|reflexivity]
    | erewrite field_or_of_list; [|vm_compute; reflexivity|reflexivity] ].
Ltac serde_opt tac :=
  eapply field_opt_of_list; [vm_compute; reflexivity|reflexivity|];
  intros ? ?; split; [done|]; tac.

Lemma obj_inj_field k l1 l2 v1 v2 :
  keys_nodup l1 = true → keys_nodup l2 = true →
  assoc k l1 = Some v1 → assoc k l2 = Some v2 → obj l1 = obj l2 → v1 = v2.
Proof.
  intros Hl1 Hl2 Hk1 Hk2 [= Heq]. apply (f_equal (oget k)) in Heq.
  rewrite !oget_of_list in Heq by done. congruence.
Qed.

(** [obj_field H k]: from an equality of literal objects, the equality of their values at [k]. *)
Ltac obj_field H k :=
  let Hf := fresh "Hfield" in
  lazymatch type of H with
  | obj ?l1 = obj ?l2 =>
      pose proof (obj_inj_field k l1 l2 _ _ eq_refl eq_refl eq_refl eq_refl H) as Hf; simpl in Hf
  end.

(** Removing a member: the rest stays well formed, and nothing else is lost. *)
Lemma jremove_ok k v : json_ok v = true → json_ok (jremove k v) = true.
Proof.
  destruct v as [| | | | |m]; simpl; try done. rewrite !andb_true_iff, !keys_sorted_osorted.
  intros [Hs Hm]. split; [by apply osorted_oremove|]. rewrite forallb_forall in *.
  intros kv Hin. apply Hm. unfold oremove in Hin. by apply filter_In in Hin as [Hin _].
Qed.

Lemma jinsert_ok k x v :
  json_ok x = true → json_ok v = true → json_ok (jinsert k x v) = true.
Proof.
  intros Hx. destruct v as [| | | | |m]; simpl; try done. rewrite !andb_true_iff, !keys_sorted_osorted.
  intros [Hs Hm]. split; [by apply osorted_oput|]. rewrite forallb_forall in *.
  intros kv Hin. apply list_elem_of_In, elem_of_oput in Hin as [->|Hin]; [done|].
  by apply Hm, list_elem_of_In.
Qed.

Lemma jremove_obj_inj k l l' :
  jremove k (obj l) = jremove k (obj l') → jget k (obj l) = jget k (obj l') → obj l = obj l'.
Proof.
  unfold obj. simpl. intros [= Hr] Hk. f_equal.
  by apply (oremove_inj k); [apply osorted_of_list..| |].
Qed.

Lemma jget_obj k l v : keys_nodup l = true → assoc k l = Some v → jget k (obj l) = Some v.
Proof. intros Hl Hk. unfold jget, obj. by rewrite oget_of_list. Qed.
