(* ===== verification/Externals.v ===== *)
(** * External components

    What the program takes from its dependencies and from the machine: the primitives of the
    sha2, hmac, aes-gcm, scrypt, base64, serde_json, chrono, rand, uuid, regex and tss-esapi
    crates, the clock, the files and commands of the host, and the faults of SQLite.  They are parameters of the whole model;
    the [*Laws] classes state the documented behaviour a theorem relies on, and only the
    theorems that rely on it assume it.

    A draw from the random generator, a fresh UUID, a reading of the clock and a query of the
    host are functions of the number of the draw: the world counts them, so two draws never
    share a number, and the host may change between two queries. *)

From S2P Require Export Prelude Text Json.
#[local] Open Scope Z_scope.

Inductive fault : Type := SqliteFault | IoFault.

(** What came of running a command: it was not found, it could not be started, or it ended,
    successfully or not, with its output and the files of its working directory after it. *)
Inductive process : Type :=
| NotFound
| SpawnFailed
| Exited (success : bool) (stdout stderr : bytes) (files : omap string bytes).

(** A TPM object template: the builder calls of provider_tpm2_esapi.rs. *)
Inductive TpmAlgorithm : Type := SymCipher_AES_128_CFB | KeyedHash_Null.
Record TpmTemplate : Type := {
  tpl_fixed_tpm : bool; tpl_fixed_parent : bool; tpl_st_clear : bool;
  tpl_sensitive_data_origin : bool; tpl_user_with_auth : bool; tpl_decrypt : bool;
  tpl_restricted : bool; tpl_algorithm : TpmAlgorithm;
}.

Class Ext : Type := {
  (* sha2, hmac *)
  sha256 : bytes → bytes;
  hmac_sha256 : bytes → bytes → bytes;
  hmac_sha1 : bytes → bytes → bytes;
  (* aes-gcm: key, nonce, associated data, message *)
  aes_gcm_encrypt : bytes → bytes → bytes → bytes → option bytes;
  aes_gcm_decrypt : bytes → bytes → bytes → bytes → option bytes;
  (* scrypt: [Params::new] and the derivation; pass phrase, salt, log2 n, r, p *)
  scrypt_kdf : bytes → bytes → Z → Z → Z → option bytes;
  (* base64: BASE64_URL_SAFE_NO_PAD and STANDARD *)
  base64_url_encode : bytes → string;
  base64_url_decode : string → option bytes;
  base64_std_encode : bytes → string;
  base64_std_decode : string → option bytes;
  (* serde_json: [to_vec] and [from_slice] on values *)
  json_to_vec : json → bytes;
  json_from_slice : bytes → option json;
  (* chrono; an instant is a number of nanoseconds since the Unix epoch *)
  rfc3339_millis : Z → string;
  rfc3339_serde : Z → string;
  rfc3339_parse : string → option Z;  (* [DateTime::parse_from_rfc3339] *)
  rfc3339_from_str : string → option Z;  (* [from_str], which serde reads with and is laxer *)
  (* rand, uuid and the clock, by the number of the draw *)
  random_bytes : nat → nat → bytes;
  uuid_new_v4 : nat → string;
  utc_now : nat → Z;
  (* whether the n-th operation on the store fails before it has an effect *)
  store_fault : nat → option fault;
  (* the host: [fs::read_to_string], the mode of [fs::metadata], the directories of PATH,
     [is_file] of a command in one, a fresh temporary directory (its path when it is UTF-8) *)
  read_file : nat → string → option string;
  file_mode : nat → string → option Z;
  path_dirs : nat → option (list string);
  command_in : nat → string → string → bool;
  temp_dir : nat → option (option string);
  (* whether [fs::write] to a path succeeds *)
  write_ok : nat → string → bool;
  (* [Command]: environment, command, arguments, the files of the temporary directory *)
  run_process : nat → list (string * string) → string → list string → omap string bytes → process;
  (* tss-esapi: a context for a TCTI string; in it, [create_primary] of a template; under a
     primary, [create] of a sealed object (private and public part); whether the two parts
     unmarshall; [load] followed by [unseal] *)
  esapi_context : nat → string → option bytes;
  esapi_create_primary : nat → bytes → TpmTemplate → option bytes;
  esapi_create : nat → bytes → bytes → TpmTemplate → bytes → option (bytes * bytes);
  esapi_unmarshall : bytes → bytes → bool;
  esapi_unseal : nat → bytes → bytes → bytes → bytes → option bytes;
  (* regex: [Regex::new(pattern).replace_all(text, replacement)] *)
  regex_replace_all : string → string → string → string;
}.

Definition KEY_SIZE : nat := 32.
Definition NONCE_SIZE : nat := 12.

(** ** Documented behaviour *)

Definition nanos_per_milli : Z := 10 ^ 6.
Definition nanos_per_second : Z := 10 ^ 9.
(** An instant's printed form with milliseconds drops what is below them. *)
Definition trunc_millis (t : Z) : Z := t / nanos_per_milli * nanos_per_milli.
(** The years 0000 to 9999, whose RFC 3339 form has four digits. *)
Definition four_digit_year (t : Z) : Prop :=
  - 62167219200 * nanos_per_second <= t < 253402300800 * nanos_per_second.

Class HashLaws {X : Ext} : Prop := {
  length_sha256 b : length (sha256 b) = 32%nat;
  length_hmac_sha256 k b : length (hmac_sha256 k b) = 32%nat;
  length_hmac_sha1 k b : length (hmac_sha1 k b) = 20%nat;
}.

Class CodecLaws {X : Ext} : Prop := {
  base64_url_round b : base64_url_decode (base64_url_encode b) = Some b;
  base64_std_round b : base64_std_decode (base64_std_encode b) = Some b;
  json_round v : json_ok v = true → json_from_slice (json_to_vec v) = Some v;
}.

Class AeadLaws {X : Ext} : Prop := {
  aes_gcm_total k n a m :
    length k = KEY_SIZE → length n = NONCE_SIZE → is_Some (aes_gcm_encrypt k n a m);
  aes_gcm_round k n a m c :
    aes_gcm_encrypt k n a m = Some c → aes_gcm_decrypt k n a c = Some m;
}.

(** scrypt accepts the program's own parameters and fills the 32 bytes it is asked for. *)
Class ScryptLaws {X : Ext} : Prop := {
  length_scrypt pass salt log_n r p k :
    scrypt_kdf pass salt log_n r p = Some k → length k = KEY_SIZE;
  scrypt_total pass salt : is_Some (scrypt_kdf pass salt 14 8 1);
}.

Class ChronoLaws {X : Ext} : Prop := {
  rfc3339_millis_round t :
    four_digit_year t → rfc3339_parse (rfc3339_millis t) = Some (trunc_millis t);
  rfc3339_serde_round t : four_digit_year t → rfc3339_from_str (rfc3339_serde t) = Some t;
}.

Class EnvLaws {X : Ext} : Prop := {
  length_random_bytes i n : length (random_bytes i n) = n;
  uuid_fresh i j : uuid_new_v4 i = uuid_new_v4 j → i = j;
}.

(** No operation on the store fails. *)
Class NoFaults {X : Ext} : Prop := no_fault i : store_fault i = None.

(** ** serialization.rs over these primitives *)

Definition b64url_no_padding `{Ext} (data : bytes) : string := base64_url_encode data.
Definition b64url_decode_no_padding `{Ext} (data : string) : option bytes := base64_url_decode data.
Definition utc_millis `{Ext} (timestamp : Z) : string := rfc3339_millis timestamp.

Definition canonical_json_bytes `{Ext} (value : json) : res SerializationError bytes :=
  normalized ← canonical_value value; mret (json_to_vec normalized).
Definition canonical_json_string `{Ext} (value : json) : res SerializationError string :=
  of_bytes <$> canonical_json_bytes value.

(** [canonical_json_bytes(..).expect(..)]. *)
Definition canonical_expect `{Ext} {E} (value : json) : res E bytes :=
  match canonical_json_bytes value with Ok b => Ok b | _ => Panic end.
Arguments canonical_expect : simpl never.

(** [serde_json::to_string] and [from_str] of a typed value. *)
Definition json_to_string `{Ext} (v : json) : string := of_bytes (json_to_vec v).
Definition to_string `{Ext, Serde A} (a : A) : string := json_to_string (to_value a).
Definition from_str `{Ext, Serde A} (s : string) : option A :=
  json_from_slice (as_bytes s) ≫= of_value.

(** ** Lemmas *)

Lemma canonical_json_bytes_ok `{Ext} m :
  json_ok (JObj m) = true → canonical_json_bytes (JObj m) = Ok (json_to_vec (JObj m)).
Proof.
  intros Hok. unfold canonical_json_bytes. by rewrite (canonical_value_ok _ m).
Qed.

Lemma canonical_expect_ok `{Ext} {E} m :
  json_ok (JObj m) = true → canonical_expect (E:=E) (JObj m) = Ok (json_to_vec (JObj m)).
Proof. intros Hok. unfold canonical_expect. by rewrite canonical_json_bytes_ok. Qed.

Lemma from_str_to_string `{X : Ext, !CodecLaws, Serde A, !SerdeLaws A wf} a :
  wf a → from_str (to_string a) = Some a.
Proof.
  intros Hwf. unfold from_str, to_string, json_to_string.
  rewrite String.list_byte_of_string_of_list_byte, json_round by (by eapply to_value_ok).
  simpl. by eapply of_to_value.
Qed.

(** The printed form of well-formed values determines them. *)
Lemma json_to_vec_inj `{X : Ext, !CodecLaws} v1 v2 :
  json_ok v1 = true → json_ok v2 = true → json_to_vec v1 = json_to_vec v2 → v1 = v2.
Proof.
  intros H1 H2 Heq. apply (f_equal json_from_slice) in Heq. rewrite !json_round in Heq by done.
  congruence.
Qed.

Lemma b64url_inj `{X : Ext, !CodecLaws} b1 b2 :
  b64url_no_padding b1 = b64url_no_padding b2 → b1 = b2.
Proof.
  unfold b64url_no_padding. intros Heq. apply (f_equal base64_url_decode) in Heq.
  rewrite !base64_url_round in Heq. congruence.
Qed.

(** ** chrono's ranges

    [Duration::seconds] panics when the milliseconds leave [i64], and adding a duration to a
    date panics when the result leaves chrono's calendar. *)

Definition nanos_of_seconds (s : Z) : Z := s * nanos_per_second.
Definition chrono_min : Z := nanos_of_seconds (-8334601228800).
Definition chrono_max : Z := nanos_of_seconds 8210266876799 + (nanos_per_second - 1).

Definition Duration_seconds {E} (s : Z) : res E Z :=
  if (- (i64_max / 1000) <=? s) && (s <=? i64_max / 1000) then Ok (nanos_of_seconds s) else Panic.
Definition datetime_add {E} (t d : Z) : res E Z :=
  if (chrono_min <=? t + d) && (t + d <=? chrono_max) then Ok (t + d) else Panic.
