(* ===== verification/Toy.v ===== *)
(** * A concrete instance of the external components

    Small executable functions that satisfy every law of [Externals]; the witnesses evaluate
    the model with them.  They are stand-ins with the right interface, not the algorithms:
    the "hash" is a polynomial checksum (in seven-bit bytes), the "cipher" authenticates and does not conceal, and
    JSON values are written in a tagged text form. *)

From S2P Require Export Externals.
From stdpp Require Import countable.
#[local] Open Scope Z_scope.

(** ** A text form of JSON values

    A tag byte, numbers by their binary digits up to a colon, strings after their length. *)

Fixpoint pos_bytes (p : positive) : bytes :=
  match p with
  | xH => [x3a]
  | xO p => x30 :: pos_bytes p
  | xI p => x31 :: pos_bytes p
  end.
Fixpoint parse_pos (b : bytes) : option (positive * bytes) :=
  match b with
  | x3a :: b => Some (xH, b)
  | x30 :: b => prod_map xO id <$> parse_pos b
  | x31 :: b => prod_map xI id <$> parse_pos b
  | _ => None
  end.

Definition num_bytes (z : Z) : bytes := pos_bytes (encode z).
Definition parse_num (b : bytes) : option (Z * bytes) :=
  '(p, b) ← parse_pos b; z ← decode p; Some (z, b).

Definition str_bytes (s : string) : bytes :=
  num_bytes (Z.of_nat (length (as_bytes s))) ++ as_bytes s.
Definition parse_str (b : bytes) : option (string * bytes) :=
  '(n, b) ← parse_num b;
  Some (of_bytes (take (Z.to_nat n) b), drop (Z.to_nat n) b).

Fixpoint toy_print_json (v : json) : bytes :=
  match v with
  | JNull => [x6e]
  | JBool true => [x74]
  | JBool false => [x66]
  | JNum (JPos n) => x70 :: num_bytes n
  | JNum (JNeg z) => x6d :: num_bytes z
  | JNum (JFloat r) => x64 :: str_bytes r
  | JStr s => x73 :: str_bytes s
  | JArr l => x5b :: foldr (λ v b, toy_print_json v ++ b) [x5d] l
  | JObj m => x7b :: foldr (λ kv b, x2c :: str_bytes kv.1 ++ toy_print_json kv.2 ++ b) [x7d] m
  end.

Fixpoint parse_json (fuel : nat) (b : bytes) : option (json * bytes) :=
  match fuel with
  | O => None
  | S fuel =>
      match b with
      | x6e :: b => Some (JNull, b)
      | x74 :: b => Some (JBool true, b)
      | x66 :: b => Some (JBool false, b)
      | x70 :: b => '(n, b) ← parse_num b; Some (JNum (JPos n), b)
      | x6d :: b => '(n, b) ← parse_num b; Some (JNum (JNeg n), b)
      | x64 :: b => '(r, b) ← parse_str b; Some (JNum (JFloat r), b)
      | x73 :: b => '(s, b) ← parse_str b; Some (JStr s, b)
      | x5b :: b => '(l, b) ← parse_items fuel b; Some (JArr l, b)
      | x7b :: b => '(m, b) ← parse_members fuel b; Some (JObj m, b)
      | _ => None
      end
  end
with parse_items (fuel : nat) (b : bytes) : option (list json * bytes) :=
  match fuel with
  | O => None
  | S fuel =>
      match b with
      | x5d :: b => Some ([], b)
      | _ => '(v, b) ← parse_json fuel b; '(l, b) ← parse_items fuel b; Some (v :: l, b)
      end
  end
with parse_members (fuel : nat) (b : bytes) : option (list (string * json) * bytes) :=
  match fuel with
  | O => None
  | S fuel =>
      match b with
      | x7d :: b => Some ([], b)
      | x2c :: b =>
          '(k, b) ← parse_str b; '(v, b) ← parse_json fuel b; '(m, b) ← parse_members fuel b;
          Some ((k, v) :: m, b)
      | _ => None
      end
  end.

Definition parse_text (b : bytes) : option json :=
  match parse_json (length b) b with Some (v, []) => Some v | _ => None end.

(** ** Stand-ins *)

Definition toy_hash (n : nat) (b : bytes) : bytes :=
  be_bytes n (Z.land (fold_left (λ acc b, Z.land (33 * acc + byte_Z b + 1) 4294967295) b 5381)
                2139062143).
Definition toy_tag (k n a m : bytes) : bytes :=
  toy_hash 16 (k ++ [x00] ++ n ++ [x00] ++ a ++ [x00] ++ m).

Definition toy_encrypt (k n a m : bytes) : option bytes :=
  if decide (length k = KEY_SIZE ∧ length n = NONCE_SIZE)
  then Some (toy_tag k n a m ++ m) else None.
Definition toy_decrypt (k n a c : bytes) : option bytes :=
  let m := drop 16 c in
  if decide (length k = KEY_SIZE ∧ length n = NONCE_SIZE ∧ take 16 c = toy_tag k n a m)
  then Some m else None.

Definition toy_date (c : ascii) (t : Z) : string := String c (of_bytes (num_bytes t)).
Definition toy_parse_num (b : bytes) : option Z := fst <$> parse_num b.
Definition toy_parse_date (s : string) : option Z :=
  match s with
  | String "m" s => (λ t, t * nanos_per_milli) <$> toy_parse_num (as_bytes s)
  | String "n" s => toy_parse_num (as_bytes s)
  | _ => None
  end%char.

(** A host with two machine identifiers, and TPM commands that keep the key in a file. *)
Definition toy_env_file : string :=
  ("APP_ENV='it's #1 = dev'" +:+ String LF "TOKEN='secret://default/api'" +:+ String LF "")%string.
Definition toy_file (i : nat) (path : string) : option string :=
  if String.eqb path "/etc/machine-id" then Some "4c4c4544-0042"
  else if String.eqb path "/sys/class/dmi/id/board_serial" then Some "None"
  else if String.eqb path "/home/alice/.env" then Some toy_env_file else None.
Definition toy_process (i : nat) (env : list (string * string)) (command : string)
  (args : list string) (files : OMap.omap string bytes) : process :=
  let file name := default [] (oget name files) in
  if String.eqb command "tpm2_create"
  then Exited true [] [] (oput "sealed.priv" (file "root.key")
                           (oput "sealed.pub" (toy_hash 8 (file "root.key")) files))
  else if String.eqb command "tpm2_readpublic" then Exited true (file "sealed.pub") [] files
  else if String.eqb command "tpm2_unseal" then Exited true (file "sealed.priv") [] files
  else Exited true [] [] files.

#[export] Instance toy_ext : Ext := {
  sha256 := toy_hash 32;
  hmac_sha256 k b := toy_hash 32 (k ++ [x00] ++ b);
  hmac_sha1 k b := toy_hash 20 (k ++ [x00] ++ b);
  aes_gcm_encrypt := toy_encrypt;
  aes_gcm_decrypt := toy_decrypt;
  scrypt_kdf pass salt _ _ _ := Some (toy_hash 32 (pass ++ [x00] ++ salt));
  base64_url_encode := of_bytes;
  base64_url_decode s := Some (as_bytes s);
  base64_std_encode := of_bytes;
  base64_std_decode s := Some (as_bytes s);
  json_to_vec := toy_print_json;
  json_from_slice := parse_text;
  rfc3339_millis t := toy_date "m" (t / nanos_per_milli);
  rfc3339_serde t := toy_date "n" t;
  rfc3339_parse := toy_parse_date;
  rfc3339_from_str := toy_parse_date;
  random_bytes i n := be_bytes n (Z.of_nat i);
  uuid_new_v4 i := ("uuid-" +:+ dec (Z.of_nat i))%string;
  utc_now i := 1700000000 * nanos_per_second + Z.of_nat i * nanos_per_milli;
  store_fault _ := None;
  read_file := toy_file;
  file_mode _ path := if String.eqb path "/dev/tpmrm0" then Some 432 else None;
  path_dirs _ := Some ["/usr/bin"];
  command_in _ _ _ := true;
  temp_dir i := Some (Some ("/tmp/" +:+ dec (Z.of_nat i))%string);
  write_ok _ _ := true;
  run_process := toy_process;
  esapi_context _ tcti := Some (as_bytes tcti);
  esapi_create_primary _ ctx _ := Some ctx;
  esapi_create _ ctx primary _ key := Some (ctx ++ primary ++ key, toy_hash 8 key);
  esapi_unmarshall _ _ := true;
  esapi_unseal _ ctx primary private public := Some (drop (length (ctx ++ primary)) private);
  regex_replace_all _ _ text := text;
}.

(** ** The laws hold *)

Lemma parse_pos_bytes p b : parse_pos (pos_bytes p ++ b) = Some (p, b).
Proof. induction p as [p IH|p IH|]; simpl; by rewrite ?IH. Qed.

Lemma parse_num_bytes z b : parse_num (num_bytes z ++ b) = Some (z, b).
Proof. unfold parse_num, num_bytes. rewrite parse_pos_bytes. cbn [mbind option_bind].
  by rewrite decode_encode. Qed.

Lemma parse_str_bytes s b : parse_str (str_bytes s ++ b) = Some (s, b).
Proof.
  unfold parse_str, str_bytes. rewrite <-(assoc_L (++)), parse_num_bytes. simpl.
  rewrite Nat2Z.id, take_app_length, drop_app_length.
  by rewrite String.string_of_list_byte_of_string.
Qed.

Lemma print_json_head v : ∃ t b, toy_print_json v = t :: b ∧ t ≠ x5d.
Proof. destruct v as [|[]|[]| | |]; simpl; eauto. Qed.

Lemma parse_items_step fuel t b :
  t ≠ x5d →
  parse_items (S fuel) (t :: b) =
    ('(v, b) ← parse_json fuel (t :: b); '(l, b) ← parse_items fuel b; Some (v :: l, b)).
Proof. by destruct t. Qed.

Lemma parse_print v fuel b :
  (length (toy_print_json v) <= fuel)%nat → parse_json fuel (toy_print_json v ++ b) = Some (v, b).
Proof.
  revert fuel b. induction v as [|[]|[]|s|l IH|m IH] using json_nested_ind; intros fuel b Hf;
    (destruct fuel as [|fuel]; [simpl in Hf; lia|]); cbn [toy_print_json app parse_json]; try done.
  1,2: by rewrite parse_num_bytes. 1,2: by rewrite parse_str_bytes.
  - assert (Hl : parse_items fuel (foldr (λ v b, toy_print_json v ++ b) [x5d] l ++ b) = Some (l, b)).
    { cbn [toy_print_json length] in Hf. apply le_S_n in Hf. revert fuel Hf.
      induction IH as [|v l Hv Hl IHl]; intros fuel Hf; cbn [foldr] in *.
      - by destruct fuel; [simpl in Hf; lia|].
      - rewrite length_app in Hf. destruct fuel as [|fuel].
        { destruct (print_json_head v) as (t & c & Ht & _). rewrite Ht in Hf. simpl in Hf. lia. }
        rewrite <-(assoc_L (++)). destruct (print_json_head v) as (t & c & Ht & Hne).
        rewrite Ht. cbn [app]. rewrite parse_items_step by done.
        change (t :: c ++ ?x) with ((t :: c) ++ x). rewrite <-Ht.
        assert (1 <= length (toy_print_json v))%nat by (rewrite Ht; simpl; lia).
        assert (1 <= length (foldr (λ v b, toy_print_json v ++ b) [x5d] l))%nat.
        { clear. induction l; simpl; [lia|]. rewrite length_app. lia. }
        rewrite Hv by lia. simpl. rewrite IHl by lia. done. }
    by rewrite Hl.
  - set (pm := foldr (λ kv b, x2c :: str_bytes kv.1 ++ toy_print_json kv.2 ++ b) [x7d]) in *.
    assert (Hm : parse_members fuel (pm m ++ b) = Some (m, b)).
    { cbn [toy_print_json length] in Hf. apply le_S_n in Hf. revert fuel Hf. fold pm.
      induction IH as [|[k v] m Hv Hm IHm]; intros fuel Hf; subst pm; cbn [foldr fst snd] in *.
      - by destruct fuel; [simpl in Hf; lia|].
      - simpl in Hf. rewrite !length_app in Hf. destruct fuel as [|fuel]; [lia|].
        cbn [app parse_members]. rewrite <-!(assoc_L (++)), parse_str_bytes. simpl.
        rewrite Hv by lia. simpl. rewrite IHm by lia. done. }
    by rewrite Hm.
Qed.

Lemma parse_text_print v : parse_text (toy_print_json v) = Some v.
Proof.
  unfold parse_text. rewrite <-(app_nil_r (toy_print_json v)) at 2. by rewrite parse_print.
Qed.

#[export] Instance toy_hash_laws : HashLaws.
Proof. split; intros; apply length_be_bytes. Qed.

#[export] Instance toy_codec_laws : CodecLaws.
Proof.
  split; intros; simpl.
  - by rewrite String.list_byte_of_string_of_list_byte.
  - by rewrite String.list_byte_of_string_of_list_byte.
  - apply parse_text_print.
Qed.

#[export] Instance toy_aead_laws : AeadLaws.
Proof.
  split; intros k n a m; unfold aes_gcm_encrypt, aes_gcm_decrypt, toy_ext, toy_encrypt, toy_decrypt.
  - intros Hk Hn. rewrite decide_True by done. eauto.
  - intros c Henc. case_decide as Hlen; [|done]. apply (inj Some) in Henc as <-.
    assert (length (toy_tag k n a m) = 16%nat) as Ht by apply length_be_bytes.
    cbv zeta. rewrite (drop_app_length' _ _ 16), (take_app_length' _ _ 16) by done.
    by rewrite decide_True by (destruct Hlen; auto).
Qed.

#[export] Instance toy_scrypt_laws : ScryptLaws.
Proof.
  split; simpl; [|eauto]. intros pass salt _ _ _ k Hk. injection Hk as <-. apply length_be_bytes.
Qed.

Lemma toy_parse_millis z : toy_parse_date (toy_date "m" z) = Some (z * nanos_per_milli).
Proof.
  change (((λ t, t * nanos_per_milli) <$> toy_parse_num (as_bytes (of_bytes (num_bytes z))))
          = Some (z * nanos_per_milli)).
  rewrite String.list_byte_of_string_of_list_byte. unfold toy_parse_num.
  by rewrite <-(app_nil_r (num_bytes z)), parse_num_bytes.
Qed.

Lemma toy_parse_nanos z : toy_parse_date (toy_date "n" z) = Some z.
Proof.
  change (toy_parse_num (as_bytes (of_bytes (num_bytes z))) = Some z).
  rewrite String.list_byte_of_string_of_list_byte. unfold toy_parse_num.
  by rewrite <-(app_nil_r (num_bytes z)), parse_num_bytes.
Qed.

#[export] Instance toy_chrono_laws : ChronoLaws.
Proof. split; intros t _; [apply toy_parse_millis|apply toy_parse_nanos]. Qed.

#[export] Instance toy_env_laws : EnvLaws.
Proof.
  split; intros i j; simpl; [apply length_be_bytes|].
  intros Heq. apply (inj (String.app "uuid-")) in Heq. apply dec_inj in Heq; lia.
Qed.

#[export] Instance toy_no_faults : NoFaults.
Proof. done. Qed.
