(* ===== verification/Host.v ===== *)
(** * The machine under the command line

    What main.rs, dotenv.rs, backup.rs and systemd.rs take from the regex crate, from
    serde_json's pretty printer and from the operating system beyond what the vault does: the
    environment, the standard input, temporary files, file descriptors and child processes, in
    the class [Host] beside [Ext]; and [toy_host], a concrete machine for the witnesses. *)

From S2P Require Export Externals.
From S2P Require Import Toy.
#[local] Open Scope Z_scope.

(** ** Processes

    A child as it is started: the program and its arguments, its whole environment, what is
    piped into it, and the files it can reach by path or by inherited descriptor. *)

Record SecretFile : Type := {
  tf_path : string;
  tf_mode : Z;
  tf_data : bytes;
}.

Record Child : Type := {
  ch_program : string;
  ch_args : list string;
  ch_env : omap string string;
  ch_stdin : option bytes;
  ch_files : list SecretFile;
  ch_fds : list (Z * bytes);
}.

(** [spawn] failed; or the child took its input or not, and ended, with an exit code unless a
    signal ended it, or could not be waited for. *)
Inductive ChildEnd : Type :=
| NotSpawned
| Spawned (stdin_taken : bool) (output : option (option Z * bytes * bytes)).

Definition FD_CLOEXEC : Z := 1.
(** The mode [tempfile] creates its files with. *)
Definition TEMPFILE_MODE : Z := 384.
Definition mode_0600 : Z := 384.

Class Host : Type := {
  (* regex: [is_match], the matches of [find_iter], the groups of [captures] *)
  regex_is_match : string → string → bool;
  regex_find_iter : string → string → list string;
  regex_captures : string → string → option (list (option string));
  (* serde_json: [to_string_pretty] *)
  json_to_string_pretty : json → string;
  (* the environment of the process, its standard input, its effective user *)
  environ : omap string string;
  stdin_text : nat → option string;
  geteuid : Z;
  (* [current_exe] when it is UTF-8, and the bytes read from it *)
  exe_path : nat → option string;
  exe_bytes : nat → option bytes;
  (* a fresh temporary file with a prefix; [set_permissions]; [write_all] and [flush] *)
  tempfile : nat → string → option string;
  chmod_ok : nat → string → bool;
  file_write_ok : nat → string → bool;
  (* [reopen] of a temporary file as a descriptor, [seek] to its start, and [fcntl] *)
  reopen : nat → string → option Z;
  seek_ok : nat → Z → bool;
  fcntl_getfd : nat → Z → Z;
  fcntl_setfd : nat → Z → Z → Z;
  (* a line written to a local socket, and the line read back *)
  socket_exchange : nat → string → string → option string;
  (* [spawn], [write_all] to its standard input, [wait_with_output] *)
  run_child : nat → Child → ChildEnd;
}.

(** [env::var]: the value when it is UTF-8. *)
Definition env_var `{Host} (name : string) : option string :=
  oget name environ ≫= λ v, from_utf8 (as_bytes v).

(** ** Regular expressions

    The patterns of dotenv.rs and what the regex crate documents of them. *)

Definition SECRET_REF_PATTERN : string := "secret://[A-Za-z0-9_.:/@+-]+".
Definition SECRET_REF_ANCHORED : string := "^secret://[A-Za-z0-9_.:/@+-]+$".
Definition LIKELY_SECRET_PATTERN : string :=
  "(?i)(api[_-]?key|token|secret|password|passwd|pwd)\s*=\s*['" +:+ str_of_codes [34]%N +:+
  "]?([^'" +:+ str_of_codes [34]%N +:+ "\s#]{12,})".

Definition ref_char (a : ascii) : bool :=
  ascii_is_alnum a || existsb (Ascii.eqb a) (ascii_list "_.:/@+-").

(** Whether a whole text is a reference. *)
Definition is_secret_ref (s : string) : bool :=
  match Text.strip_prefix "secret://" s with
  | Some (String _ _ as name) => all_chars ref_char name
  | _ => false
  end.

Class RegexLaws {HS : Host} : Prop :=
  anchored_ref s : regex_is_match SECRET_REF_ANCHORED s = is_secret_ref s.

(** ** A concrete machine

    Of [find_iter] it knows the matches that begin at a [secret://], of the groups a key and a
    value of twelve characters or more after a fixed few names. *)

Fixpoint ref_run (s : string) : string :=
  match s with
  | String a s => if ref_char a then String a (ref_run s) else EmptyString
  | EmptyString => EmptyString
  end.
Fixpoint toy_find (skip : nat) (s : string) : list string :=
  match s with
  | EmptyString => []
  | String a s' =>
      match skip with
      | S skip => toy_find skip s'
      | O => match ref_run <$> Text.strip_prefix "secret://" s with
             | Some (String _ _ as name) =>
                 ("secret://" +:+ name)%string :: toy_find (8 + String.length name) s'
             | _ => toy_find 0 s'
             end
      end
  end.

Definition toy_captures (s : string) : option (list (option string)) :=
  '(k, v) ← split_once "=" s;
  let k := to_ascii_lowercase k in
  if existsb (λ p, ends_with k p) ["api_key"; "token"; "secret"; "password"]
  then let v := concat_str (drop_while is_whitespace (chars v)) in
       if (12 <=? Z.of_nat (String.length v)) && all_chars (λ a, negb (Ascii.eqb a " ")) v
       then Some [Some s; Some k; Some v] else None
  else None.

#[export] Instance toy_host : Host := {
  regex_is_match _ s := is_secret_ref s;
  regex_find_iter _ s := toy_find 0 s;
  regex_captures _ s := toy_captures s;
  json_to_string_pretty v := of_bytes (json_to_vec v);
  environ := [("HBSE_PASSPHRASE", "correct horse"); ("HOME", "/home/alice")];
  stdin_text _ := Some "from stdin";
  geteuid := 1000;
  exe_path _ := Some "/usr/bin/client";
  exe_bytes _ := Some [x7f];
  tempfile i prefix := Some ("/tmp/" +:+ prefix +:+ dec (Z.of_nat i))%string;
  chmod_ok _ _ := true;
  file_write_ok _ _ := true;
  reopen i _ := Some (Z.of_nat i);
  seek_ok _ _ := true;
  fcntl_getfd _ _ := FD_CLOEXEC;
  fcntl_setfd _ _ _ := 0;
  socket_exchange _ _ _ := None;
  run_child _ c := Spawned true (Some (Some 0, as_bytes (ch_program c), []));
}.

#[export] Instance toy_regex_laws : RegexLaws.
Proof. done. Qed.
