(* ===== verification/Network.v ===== *)
(** * External components of the broker

    What broker_daemon.rs takes from the ureq crate, from serde_json's floats, from the standard
    library's address parser and from the /proc file system, in the class [Net] beside [Ext];
    binary64 numbers and the conversion of seconds to a duration; and [toy_net], a concrete
    network for the witnesses. *)

From S2P Require Export Externals.
From S2P Require Import Toy.
From Stdlib Require Export SpecFloat.
#[local] Open Scope Z_scope.

(** ** f64 *)

Definition f64 : Type := spec_float.
Definition f64_zero : f64 := S754_zero false.

(** [x > 0.0] and [x <= 0.0]; a NaN is neither. *)
Definition f64_positive (x : f64) : bool :=
  match x with S754_finite false _ _ | S754_infinity false => true | _ => false end.
Definition f64_not_positive (x : f64) : bool :=
  match x with
  | S754_zero _ | S754_finite true _ _ | S754_infinity true => true
  | _ => false
  end.

(** [m * 2^e] rounded to an integer, ties to even. *)
Definition round_half_even (m e : Z) : Z :=
  if 0 <=? e then m * 2 ^ e else
  let d := 2 ^ (- e) in
  let q := m / d in
  match (2 * (m mod d) ?= d) with
  | Lt => q
  | Gt => q + 1
  | Eq => if Z.even q then q else q + 1
  end.

(** [Duration::from_secs_f64], in nanoseconds: a panic on what is negative, not finite, or
    beyond [u64] seconds. *)
Definition Duration_from_secs_f64 {E} (secs : f64) : res E Z :=
  match secs with
  | S754_zero _ => Ok 0
  | S754_finite false m e =>
      let nanos := round_half_even (Zpos m * nanos_per_second) e in
      if nanos <? 2 ^ 64 * nanos_per_second then Ok nanos else Panic
  | _ => Panic
  end.

(** ** HTTP *)

(** How a request is sent: [call], [send_bytes] or [send] of a reader. *)
Inductive HttpBody : Type := CallNoBody | SendBytes (b : bytes) | SendReader (b : bytes).

(** What the agent is told: the method and URL, [timeout], the calls of [set] in their order. *)
Record HttpCall : Type := {
  call_method : string;
  call_url : string;
  call_timeout : option Z;
  call_headers : list (string * string);
  call_body : HttpBody;
}.

(** [headers_names], [header] of a name, and the bytes of the body; a broken body ends in a
    read error instead of its end. *)
Record HttpReply : Type := {
  reply_status : Z;
  reply_header_names : list string;
  reply_header : string → option string;
  reply_body : bytes;
  reply_broken : bool;
}.

(** [Result<Response, ureq::Error>]; a transport error has a text. *)
Inductive HttpResult : Type :=
| HttpOk (r : HttpReply)
| HttpStatus (r : HttpReply)
| HttpTransport (text : string).

Inductive IpAddr : Type := V4 (octets : Z) | V6 (segments : Z).

Class Net : Type := {
  (* ureq: what comes of the n-th call, after the redirects the agent follows on its own *)
  http_send : nat → HttpCall → HttpResult;
  (* serde_json: [as_f64] of a number and the number of an [f64], [null] when it has none *)
  number_as_f64 : jnum → f64;
  json_of_f64 : f64 → json;
  (* the text of a base64 decoding error *)
  base64_error_text : string → string;
  (* [str::parse::<SocketAddr>]: the address and port, or the text of the error *)
  parse_socket_addr : string → string + IpAddr * Z;
  (* [fs::read_link] (lossily a string) and [fs::read] *)
  read_link : nat → string → option string;
  read_bytes : nat → string → option bytes;
  (* [std::env::current_exe], and the process, user and group of the daemon *)
  current_exe : nat → option string;
  process_id : Z;
  effective_uid : Z;
  effective_gid : Z;
}.

(** [IpAddr::is_loopback]: 127.0.0.0/8 and ::1. *)
Definition is_loopback (ip : IpAddr) : bool :=
  match ip with V4 n => Z.shiftr n 24 =? 127 | V6 n => n =? 1 end.

(** ** A concrete network

    An upstream that answers every request with the credential it was sent, in a header and in
    the body. *)
Definition toy_reply (c : HttpCall) : HttpReply :=
  let credential := default EmptyString
    (snd <$> List.find (λ h, String.eqb h.1 "Authorization") (call_headers c)) in
  {| reply_status := 200;
     reply_header_names := ["x-echo"];
     reply_header name := if String.eqb name "x-echo" then Some credential else None;
     reply_body := as_bytes ("you sent " +:+ credential)%string;
     reply_broken := false |}.

#[export] Instance toy_net : Net := {
  http_send _ c := HttpOk (toy_reply c);
  number_as_f64 n := match n with JPos (Zpos p) => S754_finite false p 0 | _ => f64_zero end;
  json_of_f64 x := match x with
                   | S754_zero _ => JNum (JFloat "0.0")
                   | S754_finite _ p _ => JNum (JFloat (pretty (Zpos p)))
                   | _ => JNull
                   end;
  base64_error_text s := s;
  parse_socket_addr s :=
    if String.eqb s "127.0.0.1:8080" then inr (V4 (Z.shiftl 127 24 + 1), 8080)
    else if String.eqb s "0.0.0.0:8080" then inr (V4 0, 8080)
    else inl "invalid socket address syntax";
  read_link _ _ := Some "/usr/bin/client";
  read_bytes _ _ := Some [x7f];
  current_exe _ := Some "/usr/bin/hbse-broker";
  process_id := 7;
  effective_uid := 1000;
  effective_gid := 1000;
}.
