(* ===== verification/Policy.v ===== *)
(** * Access policies (policy.rs)

    [AccessPolicy] and [AccessRequest], the decision of one policy ([evaluate_policy], with its
    brokered-HTTP part) and of a list of policies ([evaluate]), and the condition under which
    a policy grants a request, which the decision is proved to implement. *)

From S2P Require Export Externals.
From S2P Require Import Toy.
#[local] Open Scope Z_scope.

Inductive DeliveryMode : Type :=
| BrokeredHttp | BrokeredOperation | Callback | Pipe | Fd | TempFile | ChildEnv | Raw
| TerminalPrint.

#[export] Instance DeliveryMode_eq_dec : EqDecision DeliveryMode.
Proof. solve_decision. Defined.

Definition DeliveryMode_names : list (string * DeliveryMode) :=
  [("brokered_http", BrokeredHttp); ("brokered_operation", BrokeredOperation);
   ("callback", Callback); ("pipe", Pipe); ("fd", Fd); ("temp_file", TempFile);
   ("child_env", ChildEnv); ("raw", Raw); ("terminal_print", TerminalPrint)].

Definition DeliveryMode_name (d : DeliveryMode) : string :=
  match d with
  | BrokeredHttp => "brokered_http" | BrokeredOperation => "brokered_operation"
  | Callback => "callback" | Pipe => "pipe" | Fd => "fd" | TempFile => "temp_file"
  | ChildEnv => "child_env" | Raw => "raw" | TerminalPrint => "terminal_print"
  end.

#[export] Instance DeliveryMode_serde : Serde DeliveryMode := {
  to_value d := JStr (DeliveryMode_name d);
  of_value v := s ← as_str v; assoc s DeliveryMode_names;
}.

Record AccessPolicy : Type := {
  pol_policy_id : string;
  pol_secret_refs : list string;
  pol_allowed_consumers : list string;
  pol_denied_consumers : list string;
  pol_allowed_purposes : list string;
  pol_denied_purposes : list string;
  pol_allowed_delivery_modes : list DeliveryMode;
  pol_allowed_http_hosts : list string;
  pol_denied_http_hosts : list string;
  pol_allowed_http_methods : list string;
  pol_denied_http_methods : list string;
  pol_allowed_http_path_prefixes : list string;
  pol_denied_http_path_prefixes : list string;
  pol_require_https_for_brokered_http : bool;
  pol_max_http_request_body_bytes : option Z;
  pol_allowed_os_uids : list Z;
  pol_denied_os_uids : list Z;
  pol_allowed_executable_paths : list string;
  pol_denied_executable_paths : list string;
  pol_allowed_executable_sha256 : list string;
  pol_denied_executable_sha256 : list string;
  pol_exportable : bool;
  pol_max_ticket_ttl_seconds : Z;
  pol_max_uses : Z;
  pol_minimum_provider_assurance : string;
  pol_require_mfa : bool;
  pol_allow_unbound_plaintext_export : bool;
  pol_expires_at : option Z;
}.

Definition default_ticket_ttl : Z := 60.
Definition default_max_uses : Z := 1.
Definition default_minimum_provider_assurance : string := "A1".

Record AccessRequest : Type := {
  req_secret_ref : string;
  req_consumer : string;
  req_purpose : string;
  req_delivery_mode : DeliveryMode;
  req_provider_assurance : string;
  req_raw_export_requested : bool;
  req_http_host : option string;
  req_http_scheme : option string;
  req_http_method : option string;
  req_http_path : option string;
  req_http_request_body_bytes : option Z;
  req_os_uid : option Z;
  req_executable_path : option string;
  req_executable_sha256 : option string;
  req_mfa_verified : bool;
  req_broker_session_id : option string;
  req_now : Z;
}.

Inductive PolicyDecision : Type := Allow | Deny.

#[export] Instance PolicyDecision_eq_dec : EqDecision PolicyDecision.
Proof. solve_decision. Defined.

Record EvaluationResult : Type := {
  decision : PolicyDecision;
  reason : string;
  policy : option AccessPolicy;
}.

Definition allowed (r : EvaluationResult) : bool := bool_decide (decision r = Allow).

(** ** The typed form of a policy document *)

(** chrono's serde form of a date. *)
Definition DateTime_to_value `{Ext} (t : Z) : json := JStr (rfc3339_serde t).
Definition DateTime_of_value `{Ext} (v : json) : option Z := s ← as_str v; rfc3339_from_str s.

Definition ser_strs : list string → json := ser_list JStr.
Definition de_strs : json → option (list string) := de_list as_str.

Definition AccessPolicy_fields `{Ext} (p : AccessPolicy) : list (string * json) :=
  [ ("policy_id", JStr (pol_policy_id p));
    ("secret_refs", ser_strs (pol_secret_refs p));
    ("allowed_consumers", ser_strs (pol_allowed_consumers p));
    ("denied_consumers", ser_strs (pol_denied_consumers p));
    ("allowed_purposes", ser_strs (pol_allowed_purposes p));
    ("denied_purposes", ser_strs (pol_denied_purposes p));
    ("allowed_delivery_modes", ser_list to_value (pol_allowed_delivery_modes p));
    ("allowed_http_hosts", ser_strs (pol_allowed_http_hosts p));
    ("denied_http_hosts", ser_strs (pol_denied_http_hosts p));
    ("allowed_http_methods", ser_strs (pol_allowed_http_methods p));
    ("denied_http_methods", ser_strs (pol_denied_http_methods p));
    ("allowed_http_path_prefixes", ser_strs (pol_allowed_http_path_prefixes p));
    ("denied_http_path_prefixes", ser_strs (pol_denied_http_path_prefixes p));
    ("require_https_for_brokered_http", JBool (pol_require_https_for_brokered_http p));
    ("max_http_request_body_bytes", ser_opt ser_u64 (pol_max_http_request_body_bytes p));
    ("allowed_os_uids", ser_list ser_u64 (pol_allowed_os_uids p));
    ("denied_os_uids", ser_list ser_u64 (pol_denied_os_uids p));
    ("allowed_executable_paths", ser_strs (pol_allowed_executable_paths p));
    ("denied_executable_paths", ser_strs (pol_denied_executable_paths p));
    ("allowed_executable_sha256", ser_strs (pol_allowed_executable_sha256 p));
    ("denied_executable_sha256", ser_strs (pol_denied_executable_sha256 p));
    ("exportable", JBool (pol_exportable p));
    ("max_ticket_ttl_seconds", ser_u64 (pol_max_ticket_ttl_seconds p));
    ("max_uses", ser_u64 (pol_max_uses p));
    ("minimum_provider_assurance", JStr (pol_minimum_provider_assurance p));
    ("require_mfa", JBool (pol_require_mfa p));
    ("allow_unbound_plaintext_export", JBool (pol_allow_unbound_plaintext_export p));
    ("expires_at", ser_opt DateTime_to_value (pol_expires_at p)) ].

Definition AccessPolicy_of_object `{Ext} (m : omap string json) : option AccessPolicy :=
  policy_id ← field "policy_id" as_str m;
  secret_refs ← field_or "secret_refs" de_strs [] m;
  allowed_consumers ← field_or "allowed_consumers" de_strs [] m;
  denied_consumers ← field_or "denied_consumers" de_strs [] m;
  allowed_purposes ← field_or "allowed_purposes" de_strs [] m;
  denied_purposes ← field_or "denied_purposes" de_strs [] m;
  allowed_delivery_modes ← field_or "allowed_delivery_modes" (de_list of_value) [] m;
  allowed_http_hosts ← field_or "allowed_http_hosts" de_strs [] m;
  denied_http_hosts ← field_or "denied_http_hosts" de_strs [] m;
  allowed_http_methods ← field_or "allowed_http_methods" de_strs [] m;
  denied_http_methods ← field_or "denied_http_methods" de_strs [] m;
  allowed_http_path_prefixes ← field_or "allowed_http_path_prefixes" de_strs [] m;
  denied_http_path_prefixes ← field_or "denied_http_path_prefixes" de_strs [] m;
  require_https ← field_or "require_https_for_brokered_http" as_bool false m;
  max_body ← field_opt "max_http_request_body_bytes" de_u64 m;
  allowed_os_uids ← field_or "allowed_os_uids" (de_list de_u32) [] m;
  denied_os_uids ← field_or "denied_os_uids" (de_list de_u32) [] m;
  allowed_executable_paths ← field_or "allowed_executable_paths" de_strs [] m;
  denied_executable_paths ← field_or "denied_executable_paths" de_strs [] m;
  allowed_executable_sha256 ← field_or "allowed_executable_sha256" de_strs [] m;
  denied_executable_sha256 ← field_or "denied_executable_sha256" de_strs [] m;
  exportable ← field_or "exportable" as_bool false m;
  max_ticket_ttl_seconds ← field_or "max_ticket_ttl_seconds" de_u64 default_ticket_ttl m;
  max_uses ← field_or "max_uses" de_u32 default_max_uses m;
  minimum ← field_or "minimum_provider_assurance" as_str default_minimum_provider_assurance m;
  require_mfa ← field_or "require_mfa" as_bool false m;
  allow_unbound ← field_or "allow_unbound_plaintext_export" as_bool false m;
  expires_at ← field_opt "expires_at" DateTime_of_value m;
  Some {| pol_policy_id := policy_id; pol_secret_refs := secret_refs;
          pol_allowed_consumers := allowed_consumers; pol_denied_consumers := denied_consumers;
          pol_allowed_purposes := allowed_purposes; pol_denied_purposes := denied_purposes;
          pol_allowed_delivery_modes := allowed_delivery_modes;
          pol_allowed_http_hosts := allowed_http_hosts;
          pol_denied_http_hosts := denied_http_hosts;
          pol_allowed_http_methods := allowed_http_methods;
          pol_denied_http_methods := denied_http_methods;
          pol_allowed_http_path_prefixes := allowed_http_path_prefixes;
          pol_denied_http_path_prefixes := denied_http_path_prefixes;
          pol_require_https_for_brokered_http := require_https;
          pol_max_http_request_body_bytes := max_body;
          pol_allowed_os_uids := allowed_os_uids; pol_denied_os_uids := denied_os_uids;
          pol_allowed_executable_paths := allowed_executable_paths;
          pol_denied_executable_paths := denied_executable_paths;
          pol_allowed_executable_sha256 := allowed_executable_sha256;
          pol_denied_executable_sha256 := denied_executable_sha256;
          pol_exportable := exportable;
          pol_max_ticket_ttl_seconds := max_ticket_ttl_seconds; pol_max_uses := max_uses;
          pol_minimum_provider_assurance := minimum; pol_require_mfa := require_mfa;
          pol_allow_unbound_plaintext_export := allow_unbound;
          pol_expires_at := expires_at |}.

#[export] Instance AccessPolicy_serde `{Ext} : Serde AccessPolicy := {
  to_value p := obj (AccessPolicy_fields p);
  of_value v := as_object v ≫= AccessPolicy_of_object;
}.

(** The ranges of the Rust field types, and dates RFC 3339 can print. *)
Record AccessPolicy_wf (p : AccessPolicy) : Prop := {
  wf_max_body : ∀ n, pol_max_http_request_body_bytes p = Some n → 0 <= n <= u64_max;
  wf_allowed_uids : Forall (λ n, 0 <= n <= u32_max) (pol_allowed_os_uids p);
  wf_denied_uids : Forall (λ n, 0 <= n <= u32_max) (pol_denied_os_uids p);
  wf_ttl : 0 <= pol_max_ticket_ttl_seconds p <= u64_max;
  wf_pol_uses : 0 <= pol_max_uses p <= u32_max;
  wf_expires : ∀ t, pol_expires_at p = Some t → four_digit_year t;
}.

(** ** The decision *)

Definition assurance_rank (level : string) : Z :=
  if String.eqb level "A0" then 0 else
  if String.eqb level "A1" then 1 else
  if String.eqb level "A2" then 2 else
  if String.eqb level "A3" then 3 else
  if String.eqb level "A4" then 4 else
  if String.eqb level "A5" then 5 else -1.

Definition policy_has_peer_binding (p : AccessPolicy) : bool :=
  bool_decide (pol_allowed_os_uids p ≠ []) ||
  bool_decide (pol_allowed_executable_paths p ≠ []) ||
  bool_decide (pol_allowed_executable_sha256 p ≠ []).

(** [list.contains(x)] and [list.iter().any(|item| item == "*")]. *)
Definition has {A} `{EqDecision A} (x : A) (l : list A) : bool := bool_decide (x ∈ l).
Definition has_star (l : list string) : bool := existsb (λ item, String.eqb item "*") l.
(** [option.is_some_and(f)]. *)
Definition is_some_and {A} (f : A → bool) (o : option A) : bool :=
  match o with Some a => f a | None => false end.

Definition deny (p : AccessPolicy) (why : string) : EvaluationResult :=
  {| decision := Deny; reason := why; policy := Some p |}.

Definition evaluate_brokered_http (p : AccessPolicy) (request : AccessRequest)
  : res EvaluationResult unit :=
  match req_http_host request with
  | None => Err (deny p "HTTP host required for brokered_http")
  | Some host =>
  if pol_require_https_for_brokered_http p &&
     negb (bool_decide (req_http_scheme request = Some "https"))
  then Err (deny p "HTTPS required for brokered_http") else
  if has host (pol_denied_http_hosts p) then Err (deny p "HTTP host explicitly denied") else
  if bool_decide (pol_allowed_http_hosts p ≠ []) && negb (has host (pol_allowed_http_hosts p)) &&
     negb (has_star (pol_allowed_http_hosts p))
  then Err (deny p "HTTP host not allowed") else
  match req_http_method request with
  | None => Err (deny p "HTTP method required for brokered_http")
  | Some method =>
  let method := to_ascii_uppercase method in
  let allowed_methods := to_ascii_uppercase <$> pol_allowed_http_methods p in
  let denied_methods := to_ascii_uppercase <$> pol_denied_http_methods p in
  if has method denied_methods then Err (deny p "HTTP method explicitly denied") else
  if bool_decide (allowed_methods ≠ []) && negb (has method allowed_methods) &&
     negb (has_star allowed_methods)
  then Err (deny p "HTTP method not allowed") else
  match req_http_path request with
  | None => Err (deny p "HTTP path required for brokered_http")
  | Some path =>
  if existsb (starts_with path) (pol_denied_http_path_prefixes p)
  then Err (deny p "HTTP path explicitly denied") else
  if bool_decide (pol_allowed_http_path_prefixes p ≠ []) &&
     negb (existsb (starts_with path) (pol_allowed_http_path_prefixes p))
  then Err (deny p "HTTP path not allowed") else
  match pol_max_http_request_body_bytes p, req_http_request_body_bytes request with
  | Some limit, Some size =>
      if limit <? size then Err (deny p "HTTP request body too large") else Ok tt
  | _, _ => Ok tt
  end end end end.

Definition evaluate_policy (p : AccessPolicy) (request : AccessRequest) : EvaluationResult :=
  if negb (has (req_secret_ref request) (pol_secret_refs p)) && negb (has_star (pol_secret_refs p))
  then deny p "secret reference not covered" else
  if is_some_and (λ expires_at, expires_at <? req_now request) (pol_expires_at p)
  then deny p "policy expired" else
  if has (req_consumer request) (pol_denied_consumers p)
  then deny p "consumer explicitly denied" else
  if has (req_purpose request) (pol_denied_purposes p)
  then deny p "purpose explicitly denied" else
  if negb (has (req_consumer request) (pol_allowed_consumers p)) &&
     negb (has_star (pol_allowed_consumers p))
  then deny p "consumer not allowed" else
  if negb (has (req_purpose request) (pol_allowed_purposes p)) &&
     negb (has_star (pol_allowed_purposes p))
  then deny p "purpose not allowed" else
  if negb (has (req_delivery_mode request) (pol_allowed_delivery_modes p))
  then deny p "delivery mode not allowed" else
  if is_some_and (λ uid, has uid (pol_denied_os_uids p)) (req_os_uid request)
  then deny p "OS user explicitly denied" else
  if bool_decide (pol_allowed_os_uids p ≠ []) &&
     negb (is_some_and (λ uid, has uid (pol_allowed_os_uids p)) (req_os_uid request))
  then deny p "OS user not allowed" else
  if is_some_and (λ path, has path (pol_denied_executable_paths p)) (req_executable_path request)
  then deny p "executable path explicitly denied" else
  if bool_decide (pol_allowed_executable_paths p ≠ []) &&
     negb (is_some_and (λ path, has path (pol_allowed_executable_paths p))
             (req_executable_path request))
  then deny p "executable path not allowed" else
  if is_some_and (λ hash, has hash (pol_denied_executable_sha256 p)) (req_executable_sha256 request)
  then deny p "executable hash explicitly denied" else
  if bool_decide (pol_allowed_executable_sha256 p ≠ []) &&
     negb (is_some_and (λ hash, has hash (pol_allowed_executable_sha256 p))
             (req_executable_sha256 request))
  then deny p "executable hash not allowed" else
  match (if decide (req_delivery_mode request = BrokeredHttp)
         then evaluate_brokered_http p request else Ok tt) with
  | Err result => result
  | _ =>
  if req_raw_export_requested request && negb (pol_exportable p)
  then deny p "raw export not allowed" else
  if req_raw_export_requested request &&
     (match req_delivery_mode request with Raw | TerminalPrint => true | _ => false end) &&
     negb (pol_allow_unbound_plaintext_export p) && negb (policy_has_peer_binding p)
  then deny p "raw plaintext export requires a non-spoofable peer binding" else
  if assurance_rank (req_provider_assurance request) <?
     assurance_rank (pol_minimum_provider_assurance p)
  then deny p "provider assurance too low" else
  if pol_require_mfa p && negb (req_mfa_verified request)
  then deny p "MFA required" else
  {| decision := Allow; reason := "allowed"; policy := Some p |}
  end.

(** [PolicyEngine::evaluate]: the first policy that allows decides. *)
Fixpoint evaluate (policies : list AccessPolicy) (request : AccessRequest) : EvaluationResult :=
  match policies with
  | [] => {| decision := Deny; reason := "no matching allow policy"; policy := None |}
  | p :: policies =>
      let result := evaluate_policy p request in
      if decide (decision result = Allow) then result else evaluate policies request
  end.

(** A policy document with only an identifier, and a policy and a request like those of the
    program's own tests. *)
Definition default_policy (policy_id : string) : AccessPolicy := {|
  pol_policy_id := policy_id; pol_secret_refs := []; pol_allowed_consumers := [];
  pol_denied_consumers := []; pol_allowed_purposes := []; pol_denied_purposes := [];
  pol_allowed_delivery_modes := []; pol_allowed_http_hosts := []; pol_denied_http_hosts := [];
  pol_allowed_http_methods := []; pol_denied_http_methods := [];
  pol_allowed_http_path_prefixes := []; pol_denied_http_path_prefixes := [];
  pol_require_https_for_brokered_http := false; pol_max_http_request_body_bytes := None;
  pol_allowed_os_uids := []; pol_denied_os_uids := []; pol_allowed_executable_paths := [];
  pol_denied_executable_paths := []; pol_allowed_executable_sha256 := [];
  pol_denied_executable_sha256 := []; pol_exportable := false;
  pol_max_ticket_ttl_seconds := default_ticket_ttl; pol_max_uses := default_max_uses;
  pol_minimum_provider_assurance := default_minimum_provider_assurance;
  pol_require_mfa := false; pol_allow_unbound_plaintext_export := false;
  pol_expires_at := None |}.

Definition sample_policy : AccessPolicy := {|
  pol_policy_id := "p1"; pol_secret_refs := ["secret://default/api"];
  pol_allowed_consumers := ["cli"];
  pol_denied_consumers := []; pol_allowed_purposes := ["deploy"]; pol_denied_purposes := [];
  pol_allowed_delivery_modes := [TerminalPrint; BrokeredHttp; ChildEnv; TempFile; Fd; Pipe];
  pol_allowed_http_hosts := ["api.example"];
  pol_denied_http_hosts := [];
  pol_allowed_http_methods := []; pol_denied_http_methods := [];
  pol_allowed_http_path_prefixes := []; pol_denied_http_path_prefixes := [];
  pol_require_https_for_brokered_http := false; pol_max_http_request_body_bytes := None;
  pol_allowed_os_uids := [1000]; pol_denied_os_uids := []; pol_allowed_executable_paths := [];
  pol_denied_executable_paths := []; pol_allowed_executable_sha256 := [];
  pol_denied_executable_sha256 := []; pol_exportable := true;
  pol_max_ticket_ttl_seconds := 60; pol_max_uses := 2;
  pol_minimum_provider_assurance := "A1";
  pol_require_mfa := false; pol_allow_unbound_plaintext_export := false;
  pol_expires_at := None |}.

Definition sample_request (now : Z) : AccessRequest := {|
  req_secret_ref := "secret://default/api"; req_consumer := "cli"; req_purpose := "deploy";
  req_delivery_mode := TerminalPrint; req_provider_assurance := "A1";
  req_raw_export_requested := true; req_http_host := None; req_http_scheme := None;
  req_http_method := None; req_http_path := None; req_http_request_body_bytes := None;
  req_os_uid := Some 1000; req_executable_path := None; req_executable_sha256 := None;
  req_mfa_verified := false; req_broker_session_id := None; req_now := now |}.

(** A request that claims another assurance level. *)
Definition claim_assurance (level : string) (r : AccessRequest) : AccessRequest := {|
  req_secret_ref := req_secret_ref r; req_consumer := req_consumer r;
  req_purpose := req_purpose r; req_delivery_mode := req_delivery_mode r;
  req_provider_assurance := level;
  req_raw_export_requested := req_raw_export_requested r; req_http_host := req_http_host r;
  req_http_scheme := req_http_scheme r; req_http_method := req_http_method r;
  req_http_path := req_http_path r;
  req_http_request_body_bytes := req_http_request_body_bytes r; req_os_uid := req_os_uid r;
  req_executable_path := req_executable_path r;
  req_executable_sha256 := req_executable_sha256 r; req_mfa_verified := req_mfa_verified r;
  req_broker_session_id := req_broker_session_id r; req_now := req_now r |}.

(** ** What a policy grants *)

(** A list entry names the value, or is the wildcard. *)
Definition covers (x : string) (l : list string) : Prop := x ∈ l ∨ "*" ∈ l.

(** An optional attribute against a deny list and an allow list that restricts when it is not
    empty: a missing attribute is never denied, and never satisfies a restriction. *)
Definition attribute_ok {A} (o : option A) (denied allowed : list A) : Prop :=
  (∀ x, o = Some x → x ∉ denied) ∧ (allowed = [] ∨ ∃ x, o = Some x ∧ x ∈ allowed).

Record http_grants (p : AccessPolicy) (r : AccessRequest) : Prop := {
  hg_host : ∃ host, req_http_host r = Some host ∧
    (pol_require_https_for_brokered_http p = true → req_http_scheme r = Some "https") ∧
    (host ∉ pol_denied_http_hosts p) ∧
    (pol_allowed_http_hosts p = [] ∨ covers host (pol_allowed_http_hosts p));
  hg_method : ∃ method, req_http_method r = Some method ∧
    (to_ascii_uppercase method ∉ to_ascii_uppercase <$> pol_denied_http_methods p) ∧
    (pol_allowed_http_methods p = [] ∨
     covers (to_ascii_uppercase method) (to_ascii_uppercase <$> pol_allowed_http_methods p));
  hg_path : ∃ path, req_http_path r = Some path ∧
    (∀ prefix rest, prefix ∈ pol_denied_http_path_prefixes p → path ≠ (prefix +:+ rest)%string) ∧
    (pol_allowed_http_path_prefixes p = [] ∨
     ∃ prefix rest, prefix ∈ pol_allowed_http_path_prefixes p ∧ path = (prefix +:+ rest)%string);
  hg_body : ∀ limit size, pol_max_http_request_body_bytes p = Some limit →
    req_http_request_body_bytes r = Some size → size <= limit;
}.

Record policy_grants (p : AccessPolicy) (r : AccessRequest) : Prop := {
  g_secret : covers (req_secret_ref r) (pol_secret_refs p);
  g_unexpired : ∀ t, pol_expires_at p = Some t → req_now r <= t;
  g_consumer : (req_consumer r ∉ pol_denied_consumers p) ∧
    covers (req_consumer r) (pol_allowed_consumers p);
  g_purpose : (req_purpose r ∉ pol_denied_purposes p) ∧
    covers (req_purpose r) (pol_allowed_purposes p);
  g_delivery : req_delivery_mode r ∈ pol_allowed_delivery_modes p;
  g_uid : attribute_ok (req_os_uid r) (pol_denied_os_uids p) (pol_allowed_os_uids p);
  g_path : attribute_ok (req_executable_path r) (pol_denied_executable_paths p)
             (pol_allowed_executable_paths p);
  g_hash : attribute_ok (req_executable_sha256 r) (pol_denied_executable_sha256 p)
             (pol_allowed_executable_sha256 p);
  g_http : req_delivery_mode r = BrokeredHttp → http_grants p r;
  g_export : req_raw_export_requested r = true → pol_exportable p = true;
  g_bound : req_raw_export_requested r = true → req_delivery_mode r ∈ [Raw; TerminalPrint] →
    pol_allow_unbound_plaintext_export p = true ∨ policy_has_peer_binding p = true;
  g_assurance :
    assurance_rank (pol_minimum_provider_assurance p) <=
    assurance_rank (req_provider_assurance r);
  g_mfa : pol_require_mfa p = true → req_mfa_verified r = true;
}.

(** ** Lemmas on the tests *)

Lemma allow_if (b : bool) p why X :
  decision (if b then deny p why else X) = Allow ↔ b = false ∧ decision X = Allow.
Proof. destruct b; simpl; naive_solver. Qed.

Lemma ok_if {E} (b : bool) (e : E) X : (if b then Err e else X) = Ok tt ↔ b = false ∧ X = Ok tt.
Proof. destruct b; naive_solver. Qed.

Lemma has_star_true l : has_star l = true ↔ "*" ∈ l.
Proof.
  unfold has_star. rewrite existsb_exists. setoid_rewrite <-list_elem_of_In.
  setoid_rewrite String.eqb_eq. naive_solver.
Qed.

Lemma covers_false x l : negb (has x l) && negb (has_star l) = false ↔ covers x l.
Proof.
  unfold covers, has. rewrite <-has_star_true, andb_false_iff, !negb_false_iff.
  by rewrite bool_decide_eq_true.
Qed.

Lemma restrict_false {A} (l : list A) b :
  bool_decide (l ≠ []) && b = false ↔ l = [] ∨ b = false.
Proof.
  rewrite andb_false_iff, bool_decide_eq_false. destruct l; naive_solver.
Qed.

Lemma attribute_false {A} `{EqDecision A} (o : option A) denied allowed_ :
  is_some_and (λ x, has x denied) o = false ∧
  bool_decide (allowed_ ≠ []) && negb (is_some_and (λ x, has x allowed_) o) = false ↔
  attribute_ok o denied allowed_.
Proof.
  unfold attribute_ok, has. rewrite restrict_false, negb_false_iff.
  destruct o as [x|]; simpl.
  - rewrite bool_decide_eq_false, bool_decide_eq_true. naive_solver.
  - naive_solver.
Qed.

Lemma starts_with_any path l :
  existsb (starts_with path) l = true ↔ ∃ prefix rest, prefix ∈ l ∧ path = (prefix +:+ rest)%string.
Proof.
  rewrite existsb_exists. setoid_rewrite <-list_elem_of_In. unfold starts_with. split.
  - intros (p & Hp & (t & ->)%str_prefix_inv). by exists p, t.
  - intros (p & t & Hp & ->). exists p. split; [done|apply str_prefix_app].
Qed.

Lemma starts_with_none path l :
  existsb (starts_with path) l = false ↔
  ∀ prefix rest, prefix ∈ l → path ≠ (prefix +:+ rest)%string.
Proof. rewrite <-not_true_iff_false, starts_with_any. naive_solver. Qed.

Lemma starts_with_some path l :
  negb (existsb (starts_with path) l) = false ↔
  ∃ prefix rest, prefix ∈ l ∧ path = (prefix +:+ rest)%string.
Proof. by rewrite negb_false_iff, starts_with_any. Qed.

Lemma implies_false (b : bool) P `{Decision P} :
  b && negb (bool_decide P) = false ↔ (b = true → P).
Proof. rewrite andb_false_iff, negb_false_iff, bool_decide_eq_true. destruct b; naive_solver. Qed.

Lemma implies_negb_false (b c : bool) : b && negb c = false ↔ (b = true → c = true).
Proof. destruct b, c; naive_solver. Qed.

Lemma has_false {A} `{EqDecision A} (x : A) l : has x l = false ↔ x ∉ l.
Proof. apply bool_decide_eq_false. Qed.

Lemma body_limit p r :
  match pol_max_http_request_body_bytes p, req_http_request_body_bytes r with
  | Some limit, Some size =>
      if limit <? size then Err (deny p "HTTP request body too large") else Ok tt
  | _, _ => Ok tt
  end = Ok tt ↔
  ∀ limit size, pol_max_http_request_body_bytes p = Some limit →
    req_http_request_body_bytes r = Some size → size <= limit.
Proof.
  destruct (pol_max_http_request_body_bytes p) as [l|]; [|naive_solver].
  destruct (req_http_request_body_bytes r) as [s|]; [|naive_solver].
  rewrite ok_if, Z.ltb_ge. naive_solver.
Qed.

Lemma evaluate_brokered_http_ok p r : evaluate_brokered_http p r = Ok tt ↔ http_grants p r.
Proof.
  unfold evaluate_brokered_http.
  destruct (req_http_host r) as [host|] eqn:Hhost; [|split; [done|intros []; naive_solver]].
  rewrite !ok_if.
  destruct (req_http_method r) as [method|] eqn:Hm; [|split; [naive_solver|intros []; naive_solver]].
  rewrite !ok_if.
  destruct (req_http_path r) as [path|] eqn:Hp; [|split; [naive_solver|intros []; naive_solver]].
  rewrite !ok_if, body_limit. cbv zeta.
  rewrite implies_false, <-!andb_assoc, !restrict_false, !covers_false, !has_false.
  rewrite starts_with_none, starts_with_some, fmap_is_nil. split.
  - intros (Hs & Hd & Ha & Hdm & Ham & Hdp & Hap & Hb); split; eauto 10.
  - intros [(h & ? & Hs & Hd & Ha) (m & ? & Hdm & Ham) (pa & ? & Hdp & Hap) Hb]; simplify_eq.
    naive_solver.
Qed.

Lemma http_part p r X :
  decision (match (if decide (req_delivery_mode r = BrokeredHttp)
                   then evaluate_brokered_http p r else Ok tt) with
            | Err result => result | _ => X end) = Allow ↔
  (req_delivery_mode r = BrokeredHttp → http_grants p r) ∧ decision X = Allow.
Proof.
  assert (Herr : ∀ e, evaluate_brokered_http p r = Err e → decision e = Deny).
  { intros e. unfold evaluate_brokered_http. by repeat case_match; intros; simplify_eq. }
  assert (Hpanic : evaluate_brokered_http p r ≠ Panic).
  { unfold evaluate_brokered_http. by repeat case_match. }
  rewrite <-evaluate_brokered_http_ok. case_decide as Hmode; [|naive_solver].
  destruct (evaluate_brokered_http p r) as [[]|e|] eqn:He; [naive_solver| |done].
  rewrite (Herr e eq_refl). split; [done|]. intros [Hok _]. by specialize (Hok Hmode).
Qed.

Lemma unexpired_false p r :
  is_some_and (λ t, t <? req_now r) (pol_expires_at p) = false ↔
  ∀ t, pol_expires_at p = Some t → req_now r <= t.
Proof. destruct (pol_expires_at p); simpl; rewrite ?Z.ltb_ge; naive_solver. Qed.

Lemma bound_false p r :
  req_raw_export_requested r &&
  (match req_delivery_mode r with Raw | TerminalPrint => true | _ => false end) &&
  negb (pol_allow_unbound_plaintext_export p) && negb (policy_has_peer_binding p) = false ↔
  (req_raw_export_requested r = true → req_delivery_mode r ∈ [Raw; TerminalPrint] →
   pol_allow_unbound_plaintext_export p = true ∨ policy_has_peer_binding p = true).
Proof.
  assert (Hmode : (match req_delivery_mode r with Raw | TerminalPrint => true | _ => false end) =
                  bool_decide (req_delivery_mode r ∈ [Raw; TerminalPrint])).
  { by destruct (req_delivery_mode r). }
  rewrite Hmode, !andb_false_iff, !negb_false_iff, bool_decide_eq_false.
  destruct (req_raw_export_requested r), (pol_allow_unbound_plaintext_export p),
    (policy_has_peer_binding p); try naive_solver.
Qed.

(** The decision of one policy is exactly what the policy grants. *)
Lemma evaluate_policy_grants p r : decision (evaluate_policy p r) = Allow ↔ policy_grants p r.
Proof.
  unfold evaluate_policy. rewrite !allow_if, http_part, !allow_if.
  rewrite !covers_false, unexpired_false, !has_false, bound_false, !implies_negb_false, Z.ltb_ge.
  rewrite negb_false_iff. unfold has at 1. rewrite bool_decide_eq_true. split.
  - intros (H1 & H2 & H3 & H4 & H5 & H6 & H7 & H8 & H9 & H10 & H11 & H12 & H13 & H14 & H15 & H16 &
      H17 & H18 & _).
    split; auto; apply attribute_false; rewrite implies_negb_false; auto.
  - intros [? ? [] [] ? Hu Hp Hh]. apply attribute_false in Hu, Hp, Hh.
    rewrite implies_negb_false in Hu, Hp, Hh. tauto.
Qed.

Lemma evaluate_policy_allowed p r :
  policy_grants p r →
  evaluate_policy p r = {| decision := Allow; reason := "allowed"; policy := Some p |}.
Proof.
  intros Hg%evaluate_policy_grants. unfold evaluate_policy in *.
  rewrite !allow_if, http_part, !allow_if in Hg.
  destruct Hg as (-> & -> & -> & -> & -> & -> & -> & -> & -> & -> & -> & -> & -> & Hh &
    -> & -> & -> & -> & _).
  case_decide as Hmode; [|done]. apply Hh, evaluate_brokered_http_ok in Hmode. by rewrite Hmode.
Qed.

Lemma evaluate_first policies r :
  (∃ l1 p l2, policies = l1 ++ p :: l2 ∧ Forall (λ q, ¬ policy_grants q r) l1 ∧
     policy_grants p r ∧
     evaluate policies r = {| decision := Allow; reason := "allowed"; policy := Some p |}) ∨
  (Forall (λ q, ¬ policy_grants q r) policies ∧
     evaluate policies r =
       {| decision := Deny; reason := "no matching allow policy"; policy := None |}).
Proof.
  induction policies as [|p policies IH]; simpl; [by right|].
  case_decide as Hd; rewrite evaluate_policy_grants in Hd.
  - left. exists [], p, policies. auto using evaluate_policy_allowed.
  - destruct IH as [(l1 & q & l2 & -> & Hl1 & Hq & ->)|[Hall ->]].
    + left. exists (p :: l1), q, l2. auto.
    + right. auto.
Qed.

Lemma evaluate_allow policies r :
  decision (evaluate policies r) = Allow ↔ ∃ p, p ∈ policies ∧ policy_grants p r.
Proof.
  destruct (evaluate_first policies r) as [(l1 & p & l2 & -> & _ & Hp & ->)|[Hall ->]]; simpl.
  - split; [|done]. intros _. exists p. set_solver.
  - split; [done|]. intros (p & Hin & Hp). rewrite Forall_forall in Hall. by destruct (Hall p Hin).
Qed.

Lemma evaluate_policy_some policies r p :
  policy (evaluate policies r) = Some p →
  decision (evaluate policies r) = Allow ∧ p ∈ policies ∧ policy_grants p r.
Proof.
  destruct (evaluate_first policies r) as [(l1 & q & l2 & -> & _ & Hq & ->)|[Hall ->]]; simpl.
  - intros [= ->]. set_solver.
  - done.
Qed.

(** ** Documents *)

Lemma de_ser_strs l : de_strs (ser_strs l) = Some l.
Proof. apply de_ser_list. induction l; by constructor. Qed.

Lemma ser_strs_ok l : json_ok (ser_strs l) = true.
Proof. apply ser_list_ok. induction l; by constructor. Qed.

Lemma de_ser_modes (l : list DeliveryMode) : de_list of_value (ser_list to_value l) = Some l.
Proof. apply de_ser_list, Forall_forall. by intros [] _. Qed.

Lemma ser_modes_ok (l : list DeliveryMode) : json_ok (ser_list to_value l) = true.
Proof. apply ser_list_ok. induction l; by constructor. Qed.

Lemma de_ser_uids l :
  Forall (λ n, 0 <= n <= u32_max) l → de_list de_u32 (ser_list ser_u64 l) = Some l.
Proof. intros Hl. apply de_ser_list. eapply Forall_impl; [exact Hl|]. apply de_ser_u32. Qed.

Lemma ser_uids_ok l : Forall (λ n, 0 <= n <= u32_max) l → json_ok (ser_list ser_u64 l) = true.
Proof.
  intros Hl. apply ser_list_ok. eapply Forall_impl; [exact Hl|].
  intros n Hn. apply ser_u64_ok. unfold u32_max, u64_max in *. lia.
Qed.

Section documents.
Context {X : Ext} {HC : ChronoLaws}.

Lemma de_ser_datetime t : four_digit_year t → DateTime_of_value (DateTime_to_value t) = Some t.
Proof. intros Ht. by apply rfc3339_serde_round. Qed.

Lemma AccessPolicy_round p :
  AccessPolicy_wf p → AccessPolicy_of_object (of_list (AccessPolicy_fields p)) = Some p.
Proof.
  intros [].
  assert (Hbody : field_opt "max_http_request_body_bytes" de_u64
    (of_list (AccessPolicy_fields p)) = Some (pol_max_http_request_body_bytes p)).
  { serde_opt ltac:(apply de_ser_u64; auto). }
  assert (Hexp : field_opt "expires_at" DateTime_of_value
    (of_list (AccessPolicy_fields p)) = Some (pol_expires_at p)).
  { serde_opt ltac:(apply de_ser_datetime; auto). }
  unfold AccessPolicy_of_object. rewrite Hbody, Hexp. repeat serde_step.
  rewrite !de_ser_strs, de_ser_modes, !de_ser_uids, de_ser_u64, de_ser_u32 by done.
  by destruct p.
Qed.

Lemma AccessPolicy_ok p : AccessPolicy_wf p → json_ok (to_value p) = true.
Proof.
  intros []. apply json_ok_obj. unfold AccessPolicy_fields. cbn [forallb snd].
  rewrite !ser_strs_ok, ser_modes_ok, !ser_uids_ok, !ser_u64_ok, !ser_opt_ok; [done|..].
  all: intros; try done; try apply ser_u64_ok; auto; unfold u32_max, u64_max in *; lia.
Qed.

#[export] Instance AccessPolicy_serde_laws : SerdeLaws AccessPolicy AccessPolicy_wf.
Proof. split; [apply AccessPolicy_round|apply AccessPolicy_ok]. Qed.
End documents.

(** ** Further consequences *)

Lemma grants_bound p r :
  policy_grants p r → req_raw_export_requested r = true →
  req_delivery_mode r ∈ [Raw; TerminalPrint] → pol_allow_unbound_plaintext_export p = false →
  (∃ uid, req_os_uid r = Some uid ∧ uid ∈ pol_allowed_os_uids p) ∨
  (∃ path, req_executable_path r = Some path ∧ path ∈ pol_allowed_executable_paths p) ∨
  (∃ hash, req_executable_sha256 r = Some hash ∧ hash ∈ pol_allowed_executable_sha256 p).
Proof.
  intros [] Hraw Hmode Hunb. destruct (g_bound0 Hraw Hmode) as [Hc|Hb]; [congruence|].
  unfold policy_has_peer_binding, attribute_ok in *.
  rewrite !orb_true_iff, !bool_decide_eq_true in Hb. naive_solver.
Qed.

(** ** Properties *)

(** C8: the engine decides as the specification says. It allows with the first policy of the list
    that grants the request, and that policy is the one it reports; when none does, it denies
    and reports no policy. *)
Theorem evaluate_refines_grants policies request :
  (∃ l1 p l2, policies = l1 ++ p :: l2 ∧ Forall (λ q, ¬ policy_grants q request) l1 ∧
     policy_grants p request ∧
     evaluate policies request =
       {| decision := Allow; reason := "allowed"; policy := Some p |}) ∨
  (Forall (λ q, ¬ policy_grants q request) policies ∧
     evaluate policies request =
       {| decision := Deny; reason := "no matching allow policy"; policy := None |}).
Proof. apply evaluate_first. Qed.

(** Policies are independent and only add. Whatever a set of policies allows, every larger
    set allows too, in any order: a denial in one policy never blocks another. *)
Theorem evaluate_monotone policies policies' request :
  policies ⊆ policies' →
  decision (evaluate policies request) = Allow → decision (evaluate policies' request) = Allow.
Proof. rewrite !evaluate_allow. set_solver. Qed.

Lemma evaluate_monotone_witness :
  decision (evaluate [default_policy "other"; sample_policy] (sample_request 0)) = Allow.
Proof.
  assert (Hsub : [sample_policy] ⊆ [default_policy "other"; sample_policy]).
  { intros p Hp. right. exact Hp. }
  apply (evaluate_monotone _ _ (sample_request 0) Hsub). vm_compute. reflexivity.
Defined.

(** Raw plaintext needs an exportable policy and a peer that cannot be spoofed. When a
    request for the plaintext over [raw] or [terminal_print] is allowed, the deciding policy is
    exportable, and either waives the binding explicitly or names the peer's user,
    executable path or executable hash in an allow list the peer satisfies. *)
Theorem raw_export_is_bound policies request p :
  policy (evaluate policies request) = Some p →
  req_raw_export_requested request = true →
  req_delivery_mode request ∈ [Raw; TerminalPrint] →
  p ∈ policies ∧ pol_exportable p = true ∧
  (pol_allow_unbound_plaintext_export p = true ∨
   (∃ uid, req_os_uid request = Some uid ∧ uid ∈ pol_allowed_os_uids p) ∨
   (∃ path, req_executable_path request = Some path ∧ path ∈ pol_allowed_executable_paths p) ∨
   (∃ hash, req_executable_sha256 request = Some hash ∧
      hash ∈ pol_allowed_executable_sha256 p)).
Proof.
  intros (_ & Hin & Hg)%evaluate_policy_some Hraw Hmode.
  split; [done|]. split; [by apply Hg|].
  destruct (pol_allow_unbound_plaintext_export p) eqn:Hu; [by left|]. right.
  by apply grants_bound.
Qed.

Lemma raw_export_is_bound_witness :
  sample_policy ∈ [sample_policy] ∧ pol_exportable sample_policy = true ∧
  (pol_allow_unbound_plaintext_export sample_policy = true ∨
   (∃ uid, req_os_uid (sample_request 0) = Some uid ∧ uid ∈ pol_allowed_os_uids sample_policy) ∨
   (∃ path, req_executable_path (sample_request 0) = Some path ∧
      path ∈ pol_allowed_executable_paths sample_policy) ∨
   (∃ hash, req_executable_sha256 (sample_request 0) = Some hash ∧
      hash ∈ pol_allowed_executable_sha256 sample_policy)).
Proof.
  apply (raw_export_is_bound [sample_policy] (sample_request 0)); [vm_compute; reflexivity..|].
  right. left.
Defined.

(** A policy whose minimum assurance is not one of the levels A0 to A5 (a misspelling, a
    lower-case [a2]) requires nothing: the level the request claims has no influence on the
    decision, so the requirement fails open. *)
Theorem unknown_minimum_requires_nothing p request level :
  pol_minimum_provider_assurance p ∉ ["A0"; "A1"; "A2"; "A3"; "A4"; "A5"] →
  evaluate_policy p (claim_assurance level request) = evaluate_policy p request.
Proof.
  intros Hmin.
  assert (Hrank : assurance_rank (pol_minimum_provider_assurance p) = -1).
  { unfold assurance_rank. rewrite !not_elem_of_cons in Hmin.
    rewrite !(proj2 (String.eqb_neq _ _)) by tauto. done. }
  assert (Hlow : ∀ l, (assurance_rank l <? -1) = false).
  { intros l. unfold assurance_rank. by repeat case_match. }
  unfold evaluate_policy. rewrite Hrank, !Hlow. reflexivity.
Qed.

Lemma unknown_minimum_requires_nothing_witness :
  evaluate_policy (default_policy "p") (claim_assurance "A0" (sample_request 0)) =
    deny (default_policy "p") "secret reference not covered" ∧
  (∀ p, pol_minimum_provider_assurance p = "a2" →
     evaluate_policy p (claim_assurance "A0" (sample_request 0)) =
     evaluate_policy p (sample_request 0)).
Proof.
  split; [reflexivity|]. intros p Hp. apply (unknown_minimum_requires_nothing p).
  rewrite Hp. by apply (bool_decide_unpack _).
Defined.

(** A policy survives storage. Printing a policy as JSON text and parsing it back gives the
    same policy, whatever its lists, limits and expiry date. *)
Theorem policy_text_round_trip {X : Ext} {HC : CodecLaws} {HT : ChronoLaws} p :
  AccessPolicy_wf p → from_str (to_string p) = Some p.
Proof. apply from_str_to_string. Qed.

Lemma policy_text_round_trip_witness : from_str (to_string sample_policy) = Some sample_policy.
Proof.
  apply policy_text_round_trip.
  split; simpl; try done; try (unfold u64_max, u32_max; lia); repeat constructor; done.
Defined.
