(* ===== verification/Keys.v ===== *)
(** * Key hierarchy (keys.rs)

    The counter-mode KDF over HMAC-SHA256 and the labelled keys a vault derives from its root
    key.  [key_use] lists the purposes a key is derived for; the keys are separated by their
    labels, which no two purposes share. *)

From S2P Require Export Externals.
From S2P Require Import Toy.
#[local] Open Scope Z_scope.

Definition PROTOCOL_VERSION : string := "v1".

Inductive KeyError : Type := InvalidRootKeyLength | InvalidLabel | MissingProtocolVersion.

Record KeyHierarchy : Type := { kh_vault_id : string; kh_root_key : bytes }.

(** [KeyHierarchy::new]. *)
Definition KeyHierarchy_new (vault_id : string) (root_key : bytes) : res KeyError KeyHierarchy :=
  if decide (length root_key = KEY_SIZE)
  then Ok {| kh_vault_id := vault_id; kh_root_key := root_key |}
  else Err InvalidRootKeyLength.

(** The block a counter value hashes. *)
Definition kdf_block (counter : Z) (label : string) : bytes :=
  be_bytes 4 counter ++ as_bytes label ++ [x00] ++ be_bytes 4 (u32_wrap (Z.of_nat KEY_SIZE * 8)).

(** The [while] loop, cut off by fuel ([None]). *)
Fixpoint kdf_loop `{Ext} (fuel : nat) (root_key : bytes) (label : string) (counter : Z)
    (result : bytes) : option bytes :=
  if decide (length result < KEY_SIZE)%nat then
    match fuel with
    | O => None
    | S fuel =>
        kdf_loop fuel root_key label (counter + 1)
          (result ++ hmac_sha256 root_key (kdf_block counter label))
    end
  else Some result.

Definition weak_labels : list string := ["key"; "secret"; "encrypt"; "default"].

Definition counter_kdf_hmac_sha256 `{Ext} (root_key : bytes) (label : string) : res KeyError bytes :=
  if is_empty label || bool_decide (label ∈ weak_labels) then Err InvalidLabel else
  if negb (contains label ("HBSE:" +:+ PROTOCOL_VERSION +:+ ":")%string)
  then Err MissingProtocolVersion else
  result ← expect (kdf_loop KEY_SIZE root_key label 1 []);
  Ok (take KEY_SIZE result).

Section hierarchy.
Context `{Ext} {E : Type}.
Implicit Types kh : KeyHierarchy.

Definition derive kh (label : string) : res KeyError bytes :=
  counter_kdf_hmac_sha256 (kh_root_key kh) label.

(** [self.derive(label).expect("internal label is valid")]. *)
Definition derive_internal kh (label : string) : res E bytes := expect (res_ok (derive kh label)).

Definition metadata_key kh : res E bytes :=
  derive_internal kh ("HBSE:v1:vault:" +:+ kh_vault_id kh +:+ ":metadata").
Definition audit_integrity_key kh : res E bytes :=
  derive_internal kh ("HBSE:v1:vault:" +:+ kh_vault_id kh +:+ ":audit-integrity").
Definition redaction_fingerprint_key kh : res E bytes :=
  derive_internal kh ("HBSE:v1:vault:" +:+ kh_vault_id kh +:+ ":redaction-fingerprint").
Definition ticket_mac_key kh : res E bytes :=
  derive_internal kh ("HBSE:v1:vault:" +:+ kh_vault_id kh +:+ ":ticket-mac").
Definition secret_kek_label kh (secret_id : string) (version : Z) : string :=
  "HBSE:v1:vault:" +:+ kh_vault_id kh +:+ ":secret:" +:+ secret_id +:+ ":version:" +:+
  dec version +:+ ":dek-wrap".
Definition secret_kek kh (secret_id : string) (version : Z) : res E bytes :=
  derive_internal kh (secret_kek_label kh secret_id version).
End hierarchy.

(** ** The purposes of derived keys *)

Inductive key_use : Type :=
| MetadataKey | AuditKey | RedactionKey | TicketKey
| SecretKek (secret_id : string) (version : Z).

Definition derived_key `{Ext} {E} (kh : KeyHierarchy) (u : key_use) : res E bytes :=
  match u with
  | MetadataKey => metadata_key kh
  | AuditKey => audit_integrity_key kh
  | RedactionKey => redaction_fingerprint_key kh
  | TicketKey => ticket_mac_key kh
  | SecretKek secret_id version => secret_kek kh secret_id version
  end.

(** What follows the vault identifier in the label. *)
Definition use_suffix (u : key_use) : string :=
  match u with
  | MetadataKey => ":metadata"
  | AuditKey => ":audit-integrity"
  | RedactionKey => ":redaction-fingerprint"
  | TicketKey => ":ticket-mac"
  | SecretKek secret_id version =>
      ":secret:" +:+ secret_id +:+ ":version:" +:+ dec version +:+ ":dek-wrap"
  end%string.

(** The message the KDF hashes for a purpose. *)
Definition use_message (kh : KeyHierarchy) (u : key_use) : bytes :=
  kdf_block 1 ("HBSE:v1:vault:" +:+ kh_vault_id kh +:+ use_suffix u).

Definition use_ok (u : key_use) : Prop :=
  match u with SecretKek _ version => 0 <= version | _ => True end.

(** ** Lemmas: decimal digits and labels *)

Fixpoint no_colon (s : string) : bool :=
  match s with EmptyString => true | String a s => negb (Ascii.eqb a ":") && no_colon s end.

Lemma no_colon_app s t : no_colon (s +:+ t)%string = no_colon s && no_colon t.
Proof.
  induction s as [|a s IH]; [done|]. rewrite str_app_cons. simpl. by rewrite IH, andb_assoc.
Qed.

Lemma pretty_N_char_no_colon n : Ascii.eqb (pretty_N_char n) ":" = false.
Proof. unfold pretty_N_char. by repeat case_match. Qed.

Lemma pretty_N_go_no_colon n s : no_colon s = true → no_colon (pretty_N_go n s) = true.
Proof.
  revert s. induction (N.lt_wf_0 n) as [n _ IH]; intros s Hs.
  destruct (decide (0 < n)%N) as [Hn|Hn].
  - rewrite pretty_N_go_step by done. apply IH; [by apply N.div_lt|].
    simpl. by rewrite pretty_N_char_no_colon.
  - assert (n = 0%N) as -> by lia. by rewrite pretty_N_go_0.
Qed.

Lemma dec_no_colon z : 0 <= z → no_colon (dec z) = true.
Proof.
  intros Hz. unfold dec, pretty, pretty_Z.
  assert (HN : ∀ n : N, no_colon (pretty n) = true).
  { intros n. unfold pretty, pretty_N. case_decide; [done|]. by apply pretty_N_go_no_colon. }
  destruct z; [done|apply HN|lia].
Qed.

(** A suffix free of the separator is determined by the whole. *)
Lemma last_colon_inj s1 s2 t1 t2 :
  no_colon t1 = true → no_colon t2 = true →
  (s1 +:+ ":" +:+ t1 = s2 +:+ ":" +:+ t2)%string → s1 = s2 ∧ t1 = t2.
Proof.
  intros Ht1 Ht2. revert s2. induction s1 as [|a s1 IH]; intros [|b s2] Heq.
  - split; [done|]. by injection Heq.
  - exfalso. change (String ":" t1 = String b (s2 +:+ ":" +:+ t2)%string) in Heq.
    injection Heq as _ ->. by rewrite no_colon_app, andb_false_r in Ht1.
  - exfalso. change (String a (s1 +:+ ":" +:+ t1)%string = String ":" t2) in Heq.
    injection Heq as _ <-. by rewrite no_colon_app, andb_false_r in Ht2.
  - rewrite !str_app_cons in Heq. injection Heq as -> Heq. by destruct (IH _ Heq) as [-> ->].
Qed.

Lemma str_app_inv_l (p s t : string) : (p +:+ s = p +:+ t)%string → s = t.
Proof. apply (inj (String.app p)). Qed.

Lemma str_app_inv_r (s t p : string) : (s +:+ p = t +:+ p)%string → s = t.
Proof.
  intros Heq. assert (Hlen : String.length s = String.length t).
  { apply (f_equal String.length) in Heq. rewrite !str_length_app in Heq. lia. }
  revert t Heq Hlen. induction s as [|a s IH]; intros [|b t] Heq Hlen; try done.
  rewrite !str_app_cons in Heq. injection Heq as -> Heq. f_equal. apply IH; [done|]. by injection Hlen.
Qed.

(** The last character distinguishes the fixed labels from the wrapping-key labels. *)
Fixpoint last_char (s : string) : option ascii :=
  match s with
  | EmptyString => None
  | String a EmptyString => Some a
  | String _ s => last_char s
  end.

Lemma last_char_app s t : t ≠ EmptyString → last_char (s +:+ t)%string = last_char t.
Proof.
  intros Ht. induction s as [|a s IH]; [done|]. rewrite str_app_cons.
  destruct (s +:+ t)%string eqn:Heq; [|exact IH]. destruct t; [done|]. by destruct s.
Qed.

Lemma str_app_nonempty (s t : string) : t ≠ EmptyString → (s +:+ t)%string ≠ EmptyString.
Proof. intros Ht Heq. apply Ht. by destruct s. Qed.

Lemma use_suffix_inj u1 u2 : use_ok u1 → use_ok u2 → use_suffix u1 = use_suffix u2 → u1 = u2.
Proof.
  assert (Hfix : ∀ sid v (s : string), last_char s ≠ Some "p"%char →
    use_suffix (SecretKek sid v) ≠ s).
  { intros sid v s Hs <-. apply Hs. unfold use_suffix. 
    by rewrite !last_char_app by (repeat apply str_app_nonempty; done). }
  destruct u1 as [| | | |s1 v1], u2 as [| | | |s2 v2]; simpl use_ok; intros H1 H2 Heq; try done;
    try (by destruct (Hfix s1 v1 _ ltac:(done) Heq));
    try (by destruct (Hfix s2 v2 _ ltac:(done) (eq_sym Heq))).
  unfold use_suffix in Heq. apply str_app_inv_l in Heq.
  rewrite <-!(str_app_assoc _ ":version:"), <-!(str_app_assoc _ (dec _)) in Heq.
  apply str_app_inv_r in Heq.
  change ":version:"%string with (":version" +:+ ":")%string in Heq.
  rewrite <-!(str_app_assoc _ ":version" ":"), !(str_app_assoc _ ":") in Heq.
  apply last_colon_inj in Heq as [Heq Hv]; [|by apply dec_no_colon..].
  apply str_app_inv_r in Heq as ->. by apply dec_inj in Hv as ->.
Qed.

(** ** Lemmas: the KDF *)

Lemma kdf_block_inj c label1 label2 : kdf_block c label1 = kdf_block c label2 → label1 = label2.
Proof.
  unfold kdf_block. intros Heq. apply (app_inv_head (be_bytes 4 c)) in Heq.
  apply app_inv_tail in Heq. by apply as_bytes_inj.
Qed.

Section kdf.
Context {X : Ext} {HH : HashLaws}.

(** One round is enough, whatever fuel is left. *)
Lemma kdf_loop_stop fuel root_key label :
  kdf_loop (S fuel) root_key label 1 [] = Some (hmac_sha256 root_key (kdf_block 1 label)).
Proof.
  assert (Hstop : ∀ fuel c r, length r = KEY_SIZE → kdf_loop fuel root_key label c r = Some r).
  { intros fuel' c r Hr. destruct fuel'; simpl; rewrite decide_False; [done|lia|done|lia]. }
  change (kdf_loop (S fuel) root_key label 1 []) with
    (kdf_loop fuel root_key label 2 ([] ++ hmac_sha256 root_key (kdf_block 1 label))).
  apply Hstop. simpl. apply length_hmac_sha256.
Qed.
Lemma kdf_loop_one root_key label :
  kdf_loop KEY_SIZE root_key label 1 [] = Some (hmac_sha256 root_key (kdf_block 1 label)).
Proof. apply kdf_loop_stop. Qed.

(** The KDF on every label. *)
Lemma counter_kdf_spec root_key label :
  counter_kdf_hmac_sha256 root_key label =
    if is_empty label || bool_decide (label ∈ weak_labels) then Err InvalidLabel else
    if contains label "HBSE:v1:" then Ok (hmac_sha256 root_key (kdf_block 1 label))
    else Err MissingProtocolVersion.
Proof.
  unfold counter_kdf_hmac_sha256. rewrite kdf_loop_one.
  change ("HBSE:" +:+ PROTOCOL_VERSION +:+ ":")%string with "HBSE:v1:"%string.
  destruct (_ || _); [done|]. destruct (contains _ _); [|done]. simpl.
  by rewrite take_ge by (rewrite length_hmac_sha256; done).
Qed.

Lemma derive_internal_ok {E} kh suffix :
  derive_internal (E:=E) kh ("HBSE:v1:" +:+ suffix) =
    Ok (hmac_sha256 (kh_root_key kh) (kdf_block 1 ("HBSE:v1:" +:+ suffix))).
Proof.
  unfold derive_internal, derive. rewrite counter_kdf_spec.
  rewrite (contains_app "HBSE:v1:" "" suffix : contains ("HBSE:v1:" +:+ suffix) _ = true).
  rewrite bool_decide_eq_false_2; [done|].
  unfold weak_labels. rewrite !not_elem_of_cons. repeat split; [done..|apply not_elem_of_nil].
Qed.

Lemma derived_key_ok {E} kh u :
  derived_key (E:=E) kh u =
    Ok (hmac_sha256 (kh_root_key kh) (use_message kh u)).
Proof. destruct u; apply (derive_internal_ok kh ("vault:" +:+ _)). Qed.

Lemma audit_integrity_key_ok {E} kh : ∃ k, audit_integrity_key (E:=E) kh = Ok k.
Proof. eexists. apply (derived_key_ok kh AuditKey). Qed.

Lemma redaction_fingerprint_key_ok {E} kh : ∃ k, redaction_fingerprint_key (E:=E) kh = Ok k.
Proof. eexists. apply (derived_key_ok kh RedactionKey). Qed.

Lemma ticket_mac_key_ok {E} kh : ∃ k, ticket_mac_key (E:=E) kh = Ok k.
Proof. eexists. apply (derived_key_ok kh TicketKey). Qed.

Lemma secret_kek_ok {E} kh sid v :
  ∃ k, secret_kek (E:=E) kh sid v = Ok k ∧ length k = KEY_SIZE.
Proof.
  eexists. split; [apply (derived_key_ok kh (SecretKek sid v))|]. apply length_hmac_sha256.
Qed.
End kdf.

Lemma KeyHierarchy_new_ok vault_id root_key :
  length root_key = KEY_SIZE →
  KeyHierarchy_new vault_id root_key =
    Ok {| kh_vault_id := vault_id; kh_root_key := root_key |}.
Proof. intros Hlen. unfold KeyHierarchy_new. by rewrite decide_True. Qed.

(** ** Properties *)

(** C36: the KDF answers for every label, and which answer it is depends on the label alone. The
    empty label and the four weak ones are [InvalidLabel]; any other without HBSE:v1: in it is
    [MissingProtocolVersion]; and any other with it gives, after one iteration of the loop, the
    32 bytes of one HMAC of the block 1, label, zero, 256.  The three cases exclude each other. *)
Theorem counter_kdf_total {X : Ext} {HH : HashLaws} root_key label :
  let weak := label ∈ [""; "key"; "secret"; "encrypt"; "default"] in
  let versioned := ∃ before after, label = (before +:+ "HBSE:v1:" +:+ after)%string in
  let key := hmac_sha256 root_key ([x00; x00; x00; x01] ++ as_bytes label ++
                                   [x00; x00; x00; x01; x00]) in
  (weak ∧ counter_kdf_hmac_sha256 root_key label = Err InvalidLabel) ∨
  (¬ weak ∧ ¬ versioned ∧ counter_kdf_hmac_sha256 root_key label = Err MissingProtocolVersion) ∨
  (¬ weak ∧ versioned ∧ counter_kdf_hmac_sha256 root_key label = Ok key ∧ length key = 32%nat ∧
   kdf_loop 1 root_key label 1 [] = Some key).
Proof.
  intros weak versioned key. rewrite counter_kdf_spec.
  assert (Hkey : hmac_sha256 root_key (kdf_block 1 label) = key) by done. rewrite Hkey.
  assert (Hw : is_empty label || bool_decide (label ∈ weak_labels) = bool_decide weak).
  { destruct label as [|a label]; [done|]. cbn [is_empty orb]. unfold weak, weak_labels.
    apply bool_decide_ext. rewrite (elem_of_cons _ _ ""%string). naive_solver. }
  rewrite Hw. clear Hw. case_bool_decide as Hweak; [left; by split|]. right.
  destruct (contains label "HBSE:v1:") eqn:Hc; [right|left].
  - split; [done|]. split; [by apply contains_inv|]. split; [done|].
    split; [apply length_hmac_sha256|]. rewrite <-Hkey. apply kdf_loop_stop.
  - split; [done|]. split; [|done]. intros (before & after & ->). by rewrite contains_app in Hc.
Qed.

Lemma counter_kdf_total_witness :
  ∃ key, counter_kdf_hmac_sha256 (be_bytes 32 7) "HBSE:v1:vault:v:metadata" = Ok key ∧
    length key = 32%nat.
Proof.
  destruct (counter_kdf_total (be_bytes 32 7) "HBSE:v1:vault:v:metadata")
    as [[_ Hc]|[(_ & _ & Hc)|(_ & _ & Hk & Hlen & _)]].
  - vm_compute in Hc. discriminate Hc.
  - vm_compute in Hc. discriminate Hc.
  - eexists. exact (conj Hk Hlen).
Defined.

(** Derived keys are separated by purpose. The key for a purpose (metadata, audit, redaction,
    tickets, or the wrapping key of a secret and version) is the HMAC, under the root key, of
    a message of that purpose's own: within one hierarchy no two purposes, and no two versions
    or identifiers of secrets, share their message. *)
Theorem derived_keys_separated {X : Ext} {HH : HashLaws} kh u1 u2 :
  use_ok u1 → use_ok u2 → u1 ≠ u2 →
  derived_key (E:=KeyError) kh u1 = Ok (hmac_sha256 (kh_root_key kh) (use_message kh u1)) ∧
  derived_key (E:=KeyError) kh u2 = Ok (hmac_sha256 (kh_root_key kh) (use_message kh u2)) ∧
  use_message kh u1 ≠ use_message kh u2.
Proof.
  intros Ho1 Ho2 Hne. rewrite !derived_key_ok. do 2 (split; [done|]).
  intros Heq%kdf_block_inj. apply Hne, use_suffix_inj; [done..|].
  by apply str_app_inv_l, str_app_inv_l in Heq.
Qed.

Definition sample_keys : KeyHierarchy := {| kh_vault_id := "v"; kh_root_key := be_bytes 32 7 |}.

Lemma derived_keys_separated_witness :
  use_message sample_keys (SecretKek "api" 1) ≠ use_message sample_keys (SecretKek "api" 11).
Proof.
  apply (derived_keys_separated sample_keys (SecretKek "api" 1) (SecretKek "api" 11));
    [simpl; lia..|congruence].
Defined.
