(* ===== verification/World.v ===== *)
(** * The world a vault runs in (the schema of store.rs, and the machine)

    The tables of the vault database, and the counter that numbers the draws from the random
    generator, the UUID generator and the clock.  A table with a primary key is an ordered map
    from that key; the audit log has an AUTOINCREMENT key, so it is the list of its rows in
    insertion order. *)

From S2P Require Export Externals.
#[local] Open Scope Z_scope.

Record SecretRow : Type := {
  row_secret_id : string;
  row_namespace_id : string;
  row_status : string;
  row_secret_type : string;
  row_created_at : string;
  row_record_json : string;
}.

Record RotationRow : Type := {
  rot_secret_ref : string;
  rot_status : string;
  rot_job_json : string;
}.

Record Db : Type := {
  vault_metadata : omap string string;
  secret_records : omap (string * Z) SecretRow;
  policies : omap string string;
  tickets : omap string string;
  audit_events : list (string * string);
  redaction_fingerprints : omap (string * Z) string;
  rotation_jobs : omap string RotationRow;
}.

(** The tables [initialize_schema] creates. *)
Definition empty_db : Db := {|
  vault_metadata := []; secret_records := []; policies := []; tickets := [];
  audit_events := []; redaction_fingerprints := []; rotation_jobs := [];
|}.

Record World : Type := { tick : nat; db : Db }.

Definition set_db (d : Db) (w : World) : World := {| tick := tick w; db := d |}.

(** A fresh number: the next draw, reading of the clock or operation on the store. *)
Definition draw {E} : ST World E nat := λ w,
  (Ok (tick w), {| tick := S (tick w); db := db w |}).

Section env.
Context `{Ext} {E : Type}.

(** [rand::random::<[u8; n]>()], [Uuid::new_v4().to_string()] and [Utc::now()]. *)
Definition random (n : nat) : ST World E bytes := i ← draw; mret (random_bytes i n).
Definition Uuid_new_v4 : ST World E string := i ← draw; mret (uuid_new_v4 i).
Definition Utc_now : ST World E Z := i ← draw; mret (utc_now i).
(** A question to the host, whose answer may change between two of them. *)
Definition query {A} (f : nat → A) : ST World E A := i ← draw; mret (f i).
End env.

(** ** What a computation leaves alone *)

(** The database is the same; time has passed. *)
Definition same_db (w w' : World) : Prop := db w' = db w ∧ (tick w <= tick w')%nat.

#[export] Instance same_db_preorder : PreOrder same_db.
Proof.
  split; [intros w; by split|]. intros w1 w2 w3 [H1 ?] [H2 ?]. split; [congruence|lia].
Qed.

Section env_lemmas.
Context `{Ext} {E : Type}.

Lemma keeps_draw R `{!PreOrder R} :
  (∀ w w', same_db w w' → R w w') → keeps R (draw (E:=E)).
Proof. intros HR w. apply HR. split; simpl; [done|lia]. Qed.

Lemma random_run n w :
  random (E:=E) n w = (Ok (random_bytes (tick w) n), {| tick := S (tick w); db := db w |}).
Proof. done. Qed.

Lemma Uuid_new_v4_run w :
  Uuid_new_v4 (E:=E) w = (Ok (uuid_new_v4 (tick w)), {| tick := S (tick w); db := db w |}).
Proof. done. Qed.

Lemma Utc_now_run w :
  Utc_now (E:=E) w = (Ok (utc_now (tick w)), {| tick := S (tick w); db := db w |}).
Proof. done. Qed.

Lemma random_bind {A} n (f : bytes → ST World E A) w :
  (random n ≫= f) w = f (random_bytes (tick w) n) {| tick := S (tick w); db := db w |}.
Proof. done. Qed.
Lemma uuid_bind {A} (f : string → ST World E A) w :
  (Uuid_new_v4 ≫= f) w = f (uuid_new_v4 (tick w)) {| tick := S (tick w); db := db w |}.
Proof. done. Qed.
Lemma now_bind {A} (f : Z → ST World E A) w :
  (Utc_now ≫= f) w = f (utc_now (tick w)) {| tick := S (tick w); db := db w |}.
Proof. done. Qed.

Lemma keeps_random R `{!PreOrder R} n :
  (∀ w w', same_db w w' → R w w') → keeps R (random (E:=E) n).
Proof. intros HR. apply keeps_bind; [apply _|by apply keeps_draw, HR|intros; apply keeps_ret, _]. Qed.

Lemma keeps_uuid R `{!PreOrder R} :
  (∀ w w', same_db w w' → R w w') → keeps R (Uuid_new_v4 (E:=E)).
Proof. intros HR. apply keeps_bind; [apply _|by apply keeps_draw, HR|intros; apply keeps_ret, _]. Qed.

Lemma keeps_now R `{!PreOrder R} :
  (∀ w w', same_db w w' → R w w') → keeps R (Utc_now (E:=E)).
Proof. intros HR. apply keeps_bind; [apply _|by apply keeps_draw, HR|intros; apply keeps_ret, _]. Qed.

Lemma keeps_query {A} R `{!PreOrder R} (f : nat → A) :
  (∀ w w', same_db w w' → R w w') → keeps R (query (E:=E) f).
Proof. intros HR. apply keeps_bind; [apply _|by apply keeps_draw, HR|intros; apply keeps_ret, _]. Qed.

(** A step that draws leaves the database to the rest. *)
Lemma draw_bind {A} (f : nat → ST World E A) w :
  (draw ≫= f) w = f (tick w) {| tick := S (tick w); db := db w |}.
Proof. done. Qed.
End env_lemmas.

(** A relation that ignores the passing of time. *)
Class Timeless (R : World → World → Prop) := {
  timeless_preorder :: PreOrder R;
  timeless_same w w' : same_db w w' → R w w';
}.
#[export] Instance same_db_timeless : Timeless same_db := {| timeless_same := λ _ _ H, H |}.

#[export] Hint Extern 1 (keeps _ draw) => apply keeps_draw, timeless_same : keeps.
#[export] Hint Extern 1 (keeps _ (random _)) => apply keeps_random, timeless_same : keeps.
#[export] Hint Extern 1 (keeps _ Uuid_new_v4) => apply keeps_uuid, timeless_same : keeps.
#[export] Hint Extern 1 (keeps _ (query _)) => apply keeps_query, timeless_same : keeps.
#[export] Hint Extern 1 (keeps _ Utc_now) => apply keeps_now, timeless_same : keeps.
