(* ===== verification/Records.v ===== *)
(** * Secret records and rotation jobs (records.rs, rotation.rs)

    The record of one version of a secret, the job that stages a new version, their typed JSON
    forms with the defaults of their [serde] attributes, and the jobs' constructor and state
    transition. *)

From S2P Require Export World.
From S2P Require Import Toy.
#[local] Open Scope Z_scope.

Inductive SecretStatus : Type := Active | Staged | Disabled | Destroyed.

#[export] Instance SecretStatus_eq_dec : EqDecision SecretStatus.
Proof. solve_decision. Defined.

Inductive SecretType : Type :=
| ApiKey | AccessToken | RefreshToken | SsoTokenBundle | Password | Passphrase | Token
| MnemonicPhrase | SshKey | PrivateKey | Certificate | Credential | JsonCredential | Generic.

#[export] Instance SecretType_eq_dec : EqDecision SecretType.
Proof. solve_decision. Defined.

Definition SecretStatus_name (s : SecretStatus) : string :=
  match s with
  | Active => "active" | Staged => "staged" | Disabled => "disabled" | Destroyed => "destroyed"
  end.
Definition SecretStatus_names : list (string * SecretStatus) :=
  [("active", Active); ("staged", Staged); ("disabled", Disabled); ("destroyed", Destroyed)].

Definition SecretType_name (t : SecretType) : string :=
  match t with
  | ApiKey => "api_key" | AccessToken => "access_token" | RefreshToken => "refresh_token"
  | SsoTokenBundle => "sso_token_bundle" | Password => "password" | Passphrase => "passphrase"
  | Token => "token" | MnemonicPhrase => "mnemonic_phrase" | SshKey => "ssh_key"
  | PrivateKey => "private_key" | Certificate => "certificate" | Credential => "credential"
  | JsonCredential => "json_credential" | Generic => "generic"
  end.
Definition SecretType_names : list (string * SecretType) :=
  (λ t, (SecretType_name t, t)) <$>
    [ApiKey; AccessToken; RefreshToken; SsoTokenBundle; Password; Passphrase; Token;
     MnemonicPhrase; SshKey; PrivateKey; Certificate; Credential; JsonCredential; Generic].

#[export] Instance SecretStatus_serde : Serde SecretStatus := {
  to_value s := JStr (SecretStatus_name s);
  of_value v := s ← as_str v; assoc s SecretStatus_names;
}.
#[export] Instance SecretType_serde : Serde SecretType := {
  to_value s := JStr (SecretType_name s);
  of_value v := s ← as_str v; assoc s SecretType_names;
}.

Record SecretRecord : Type := {
  rec_schema_version : string;
  rec_vault_id : string;
  rec_namespace_id : string;
  rec_secret_id : string;
  rec_secret_ref : string;
  rec_secret_version : Z;
  rec_status : SecretStatus;
  rec_secret_type : SecretType;
  rec_algorithm_id : string;
  rec_wrap_algorithm_id : string;
  rec_policy_id : string;
  rec_policy_hash : string;
  rec_metadata_hash : string;
  rec_provider_policy_hash : string;
  rec_created_at : string;
  rec_secret_nonce : string;
  rec_ciphertext : string;
  rec_dek_nonce : string;
  rec_wrapped_dek : string;
  rec_secret_aad_hash : string;
  rec_dek_wrap_aad_hash : string;
}.

(** [record.status = status]. *)
Definition set_status (s : SecretStatus) (r : SecretRecord) : SecretRecord := {|
  rec_schema_version := rec_schema_version r; rec_vault_id := rec_vault_id r;
  rec_namespace_id := rec_namespace_id r; rec_secret_id := rec_secret_id r;
  rec_secret_ref := rec_secret_ref r; rec_secret_version := rec_secret_version r;
  rec_status := s; rec_secret_type := rec_secret_type r;
  rec_algorithm_id := rec_algorithm_id r; rec_wrap_algorithm_id := rec_wrap_algorithm_id r;
  rec_policy_id := rec_policy_id r; rec_policy_hash := rec_policy_hash r;
  rec_metadata_hash := rec_metadata_hash r;
  rec_provider_policy_hash := rec_provider_policy_hash r; rec_created_at := rec_created_at r;
  rec_secret_nonce := rec_secret_nonce r; rec_ciphertext := rec_ciphertext r;
  rec_dek_nonce := rec_dek_nonce r; rec_wrapped_dek := rec_wrapped_dek r;
  rec_secret_aad_hash := rec_secret_aad_hash r;
  rec_dek_wrap_aad_hash := rec_dek_wrap_aad_hash r |}.

Definition SecretRecord_fields (r : SecretRecord) : list (string * json) :=
  [ ("schema_version", JStr (rec_schema_version r));
    ("vault_id", JStr (rec_vault_id r));
    ("namespace_id", JStr (rec_namespace_id r));
    ("secret_id", JStr (rec_secret_id r));
    ("secret_ref", JStr (rec_secret_ref r));
    ("secret_version", ser_u64 (rec_secret_version r));
    ("status", to_value (rec_status r));
    ("secret_type", to_value (rec_secret_type r));
    ("algorithm_id", JStr (rec_algorithm_id r));
    ("wrap_algorithm_id", JStr (rec_wrap_algorithm_id r));
    ("policy_id", JStr (rec_policy_id r));
    ("policy_hash", JStr (rec_policy_hash r));
    ("metadata_hash", JStr (rec_metadata_hash r));
    ("provider_policy_hash", JStr (rec_provider_policy_hash r));
    ("created_at", JStr (rec_created_at r));
    ("secret_nonce", JStr (rec_secret_nonce r));
    ("ciphertext", JStr (rec_ciphertext r));
    ("dek_nonce", JStr (rec_dek_nonce r));
    ("wrapped_dek", JStr (rec_wrapped_dek r));
    ("secret_aad_hash", JStr (rec_secret_aad_hash r));
    ("dek_wrap_aad_hash", JStr (rec_dek_wrap_aad_hash r)) ].

Definition default_schema_version : string := "1".
Definition default_algorithm_id : string := "AES-256-GCM".
Definition default_record_policy_id : string := "default-deny".
Definition default_provider_policy_hash : string := "unbound-provider-policy".

Definition SecretRecord_of_object (m : omap string json) : option SecretRecord :=
  schema_version ← field_or "schema_version" as_str default_schema_version m;
  vault_id ← field "vault_id" as_str m;
  namespace_id ← field "namespace_id" as_str m;
  secret_id ← field "secret_id" as_str m;
  secret_ref ← field "secret_ref" as_str m;
  secret_version ← field "secret_version" de_u64 m;
  status ← field_or "status" of_value Active m;
  secret_type ← field_or "secret_type" of_value Generic m;
  algorithm_id ← field_or "algorithm_id" as_str default_algorithm_id m;
  wrap_algorithm_id ← field_or "wrap_algorithm_id" as_str default_algorithm_id m;
  policy_id ← field_or "policy_id" as_str default_record_policy_id m;
  policy_hash ← field "policy_hash" as_str m;
  metadata_hash ← field "metadata_hash" as_str m;
  provider_policy_hash ←
    field_or "provider_policy_hash" as_str default_provider_policy_hash m;
  created_at ← field "created_at" as_str m;
  secret_nonce ← field "secret_nonce" as_str m;
  ciphertext ← field "ciphertext" as_str m;
  dek_nonce ← field "dek_nonce" as_str m;
  wrapped_dek ← field "wrapped_dek" as_str m;
  secret_aad_hash ← field "secret_aad_hash" as_str m;
  dek_wrap_aad_hash ← field "dek_wrap_aad_hash" as_str m;
  Some {| rec_schema_version := schema_version; rec_vault_id := vault_id;
          rec_namespace_id := namespace_id; rec_secret_id := secret_id;
          rec_secret_ref := secret_ref; rec_secret_version := secret_version;
          rec_status := status; rec_secret_type := secret_type;
          rec_algorithm_id := algorithm_id; rec_wrap_algorithm_id := wrap_algorithm_id;
          rec_policy_id := policy_id; rec_policy_hash := policy_hash;
          rec_metadata_hash := metadata_hash;
          rec_provider_policy_hash := provider_policy_hash; rec_created_at := created_at;
          rec_secret_nonce := secret_nonce; rec_ciphertext := ciphertext;
          rec_dek_nonce := dek_nonce; rec_wrapped_dek := wrapped_dek;
          rec_secret_aad_hash := secret_aad_hash;
          rec_dek_wrap_aad_hash := dek_wrap_aad_hash |}.

#[export] Instance SecretRecord_serde : Serde SecretRecord := {
  to_value r := obj (SecretRecord_fields r);
  of_value v := as_object v ≫= SecretRecord_of_object;
}.

(** The version is a [u64]. *)
Definition SecretRecord_wf (r : SecretRecord) : Prop := 0 <= rec_secret_version r <= u64_max.

Section bytes_of_record.
Context `{Ext}.
Definition ciphertext_bytes (r : SecretRecord) : option bytes :=
  b64url_decode_no_padding (rec_ciphertext r).
Definition secret_nonce_bytes (r : SecretRecord) : option bytes :=
  b64url_decode_no_padding (rec_secret_nonce r).
Definition dek_nonce_bytes (r : SecretRecord) : option bytes :=
  b64url_decode_no_padding (rec_dek_nonce r).
Definition wrapped_dek_bytes (r : SecretRecord) : option bytes :=
  b64url_decode_no_padding (rec_wrapped_dek r).
End bytes_of_record.

(** ** Rotation jobs *)

Inductive RotationJobStatus : Type := JobStaged | JobVerified | JobPromoted | JobRolledBack | JobFailed.

#[export] Instance RotationJobStatus_eq_dec : EqDecision RotationJobStatus.
Proof. solve_decision. Defined.

Definition RotationJobStatus_name (s : RotationJobStatus) : string :=
  match s with
  | JobStaged => "staged" | JobVerified => "verified" | JobPromoted => "promoted"
  | JobRolledBack => "rolled_back" | JobFailed => "failed"
  end.
Definition RotationJobStatus_names : list (string * RotationJobStatus) :=
  (λ t, (RotationJobStatus_name t, t)) <$>
    [JobStaged; JobVerified; JobPromoted; JobRolledBack; JobFailed].

#[export] Instance RotationJobStatus_serde : Serde RotationJobStatus := {
  to_value s := JStr (RotationJobStatus_name s);
  of_value v := s ← as_str v; assoc s RotationJobStatus_names;
}.

Record RotationJob : Type := {
  job_id : string;
  job_vault_id : string;
  job_secret_ref : string;
  job_staged_version : Z;
  job_status : RotationJobStatus;
  job_created_at : string;
  job_updated_at : string;
  job_staged_record : SecretRecord;
  job_verifier : string;
  job_failure_reason : option string;
}.

Definition default_verifier : string := "decrypt-self-test".

Definition RotationJob_fields (j : RotationJob) : list (string * json) :=
  [ ("job_id", JStr (job_id j));
    ("vault_id", JStr (job_vault_id j));
    ("secret_ref", JStr (job_secret_ref j));
    ("staged_version", ser_u64 (job_staged_version j));
    ("status", to_value (job_status j));
    ("created_at", JStr (job_created_at j));
    ("updated_at", JStr (job_updated_at j));
    ("staged_record", to_value (job_staged_record j));
    ("verifier", JStr (job_verifier j));
    ("failure_reason", ser_opt JStr (job_failure_reason j)) ].

Definition RotationJob_of_object (m : omap string json) : option RotationJob :=
  id ← field "job_id" as_str m;
  vault_id ← field "vault_id" as_str m;
  secret_ref ← field "secret_ref" as_str m;
  staged_version ← field "staged_version" de_u64 m;
  status ← field "status" of_value m;
  created_at ← field "created_at" as_str m;
  updated_at ← field "updated_at" as_str m;
  staged_record ← field "staged_record" of_value m;
  verifier ← field_or "verifier" as_str default_verifier m;
  failure_reason ← field_opt "failure_reason" as_str m;
  Some {| job_id := id; job_vault_id := vault_id; job_secret_ref := secret_ref;
          job_staged_version := staged_version; job_status := status;
          job_created_at := created_at; job_updated_at := updated_at;
          job_staged_record := staged_record; job_verifier := verifier;
          job_failure_reason := failure_reason |}.

#[export] Instance RotationJob_serde : Serde RotationJob := {
  to_value r := obj (RotationJob_fields r);
  of_value v := as_object v ≫= RotationJob_of_object;
}.

Record RotationJob_wf (j : RotationJob) : Prop := {
  wf_staged_version : 0 <= job_staged_version j <= u64_max;
  wf_staged_record : SecretRecord_wf (job_staged_record j);
}.

Section jobs.
Context `{Ext} {E : Type}.

(** [RotationJob::create] and [RotationJob::transition]. *)
Definition RotationJob_create (vault_id secret_ref : string) (staged_version : Z)
    (staged_record : SecretRecord) : ST World E RotationJob :=
  t ← Utc_now;
  let now := utc_millis t in
  id ← Uuid_new_v4;
  mret {| job_id := id; job_vault_id := vault_id; job_secret_ref := secret_ref;
          job_staged_version := staged_version; job_status := JobStaged;
          job_created_at := now; job_updated_at := now;
          job_staged_record := staged_record; job_verifier := default_verifier;
          job_failure_reason := None |}.

Definition transition (j : RotationJob) (status : RotationJobStatus)
    (failure_reason : option string) : ST World E RotationJob :=
  t ← Utc_now;
  mret {| job_id := job_id j; job_vault_id := job_vault_id j;
          job_secret_ref := job_secret_ref j; job_staged_version := job_staged_version j;
          job_status := status; job_created_at := job_created_at j;
          job_updated_at := utc_millis t; job_staged_record := job_staged_record j;
          job_verifier := job_verifier j; job_failure_reason := failure_reason |}.
End jobs.

(** [rotation_status_string], [rotation_state_string] and [status_string]: the JSON name. *)
Definition enum_string `{Serde A} (a : A) : string :=
  match as_str (to_value a) with Some s => s | None => "unknown" end.
Definition rotation_status_string (s : RotationJobStatus) : string := enum_string s.
Definition status_string (s : SecretStatus) : string := enum_string s.

(** ** Lemmas *)

Lemma SecretStatus_round (s : SecretStatus) : of_value (to_value s) = Some s.
Proof. by destruct s. Qed.

Lemma SecretType_round (t : SecretType) : of_value (to_value t) = Some t.
Proof. by destruct t. Qed.

Lemma RotationJobStatus_round (s : RotationJobStatus) : of_value (to_value s) = Some s.
Proof. by destruct s. Qed.

Lemma SecretRecord_round r :
  SecretRecord_wf r → SecretRecord_of_object (of_list (SecretRecord_fields r)) = Some r.
Proof.
  intros Hwf. unfold SecretRecord_of_object. repeat serde_step.
  rewrite SecretStatus_round, SecretType_round, de_ser_u64 by done. by destruct r.
Qed.

Lemma SecretRecord_json_ok r : SecretRecord_wf r → json_ok (to_value r) = true.
Proof.
  intros Hwf. apply json_ok_obj. unfold SecretRecord_fields. cbn [forallb snd].
  by rewrite ser_u64_ok.
Qed.

#[export] Instance SecretRecord_serde_laws : SerdeLaws SecretRecord SecretRecord_wf.
Proof. split; [apply SecretRecord_round|apply SecretRecord_json_ok]. Qed.

Lemma RotationJob_round j :
  RotationJob_wf j → RotationJob_of_object (of_list (RotationJob_fields j)) = Some j.
Proof.
  intros [].
  assert (Hr : field_opt "failure_reason" as_str (of_list (RotationJob_fields j)) =
               Some (job_failure_reason j)) by serde_opt ltac:(done).
  unfold RotationJob_of_object. rewrite Hr. repeat serde_step.
  rewrite RotationJobStatus_round, de_ser_u64, of_to_value by done. by destruct j.
Qed.

Lemma RotationJob_json_ok j : RotationJob_wf j → json_ok (to_value j) = true.
Proof.
  intros []. apply json_ok_obj. unfold RotationJob_fields. cbn [forallb snd].
  rewrite ser_u64_ok, SecretRecord_json_ok, ser_opt_ok by done. by destruct j as [???? []].
Qed.

#[export] Instance RotationJob_serde_laws : SerdeLaws RotationJob RotationJob_wf.
Proof. split; [apply RotationJob_round|apply RotationJob_json_ok]. Qed.

Lemma set_status_wf s r : SecretRecord_wf r → SecretRecord_wf (set_status s r).
Proof. done. Qed.
#[export] Hint Resolve set_status_wf : hbse.
