(* ===== verification/Crypto.v ===== *)
(** * Envelope encryption of secrets (crypto.rs)

    A secret is encrypted under a fresh data key, and the data key under the wrapping key the
    hierarchy derives for the secret's identifier and version; both ciphertexts are bound to
    the record's metadata by associated data whose hashes the record carries. *)

From S2P Require Export Keys Records.
From S2P Require Import Toy.
#[local] Open Scope Z_scope.

Inductive CryptoError : Type :=
| WrongVault | SecretAadHashMismatch | DekWrapAadHashMismatch | AuthenticationFailed | Decode
| InvalidNonceLength.

Definition hash_bytes `{Ext} (value : bytes) : string := b64url_no_padding (sha256 value).

(** ** Associated data *)

Definition secret_aad_fields (vault_id namespace_id secret_id secret_ref : string) (version : Z)
    (secret_type : SecretType) (policy_id policy_hash metadata_hash created_at : string)
  : list (string * json) :=
  [ ("aad_version", JStr "1");
    ("record_type", JStr "secret");
    ("algorithm_id", JStr "AES-256-GCM");
    ("schema_version", JStr "1");
    ("vault_id", JStr vault_id);
    ("namespace_id", JStr namespace_id);
    ("secret_id", JStr secret_id);
    ("secret_ref", JStr secret_ref);
    ("version", ser_u64 version);
    ("secret_type", to_value secret_type);
    ("policy_id", JStr policy_id);
    ("policy_hash", JStr policy_hash);
    ("metadata_hash", JStr metadata_hash);
    ("created_at", JStr created_at) ].

Definition dek_wrap_aad_fields (vault_id secret_id : string) (version : Z)
    (kdf_label provider_policy_hash created_at : string) : list (string * json) :=
  [ ("aad_version", JStr "1");
    ("wrap_algorithm_id", JStr "AES-256-GCM");
    ("vault_id", JStr vault_id);
    ("secret_id", JStr secret_id);
    ("version", ser_u64 version);
    ("kdf_label", JStr kdf_label);
    ("provider_policy_hash", JStr provider_policy_hash);
    ("created_at", JStr created_at) ].

Section crypto.
Context `{Ext}.

Definition secret_aad {E} (vault_id namespace_id secret_id secret_ref : string) (version : Z)
    (secret_type : SecretType) (policy_id policy_hash metadata_hash created_at : string)
  : res E bytes :=
  canonical_expect (obj (secret_aad_fields vault_id namespace_id secret_id secret_ref version
    secret_type policy_id policy_hash metadata_hash created_at)).

Definition dek_wrap_aad {E} (vault_id secret_id : string) (version : Z)
    (kdf_label provider_policy_hash created_at : string) : res E bytes :=
  canonical_expect (obj (dek_wrap_aad_fields vault_id secret_id version kdf_label
    provider_policy_hash created_at)).

(** ** AES-GCM *)

Definition encrypt_aes_gcm (key nonce plaintext aad : bytes) : res CryptoError bytes :=
  if decide (length key = KEY_SIZE)
  then ok_or AuthenticationFailed (aes_gcm_encrypt key nonce aad plaintext)
  else Err AuthenticationFailed.

Definition decrypt_aes_gcm (key nonce ciphertext aad : bytes) : res CryptoError bytes :=
  if decide (length key = KEY_SIZE)
  then ok_or AuthenticationFailed (aes_gcm_decrypt key nonce aad ciphertext)
  else Err AuthenticationFailed.

Definition to_nonce (value : bytes) : res CryptoError bytes :=
  if decide (length value = NONCE_SIZE) then Ok value else Err InvalidNonceLength.
Definition to_key (value : bytes) : res CryptoError bytes :=
  if decide (length value = KEY_SIZE) then Ok value else Err AuthenticationFailed.

(** ** Encryption *)

Definition encrypt_secret {E} (kh : KeyHierarchy) (namespace_id secret_id secret_ref : string)
    (version : Z) (plaintext : bytes) (secret_type : SecretType)
    (policy_id policy_hash metadata_hash provider_policy_hash : string) : ST World E SecretRecord :=
  now ← Utc_now;
  let created_at := utc_millis now in
  dek ← random KEY_SIZE;
  kek ← lift (secret_kek kh secret_id version);
  let kdf_label := secret_kek_label kh secret_id version in
  aad ← lift (secret_aad (kh_vault_id kh) namespace_id secret_id secret_ref version secret_type
                policy_id policy_hash metadata_hash created_at);
  wrap_aad ← lift (dek_wrap_aad (kh_vault_id kh) secret_id version kdf_label
                     provider_policy_hash created_at);
  secret_nonce ← random NONCE_SIZE;
  dek_nonce ← random NONCE_SIZE;
  ciphertext ← lift (expect (res_ok (encrypt_aes_gcm dek secret_nonce plaintext aad)));
  wrapped_dek ← lift (expect (res_ok (encrypt_aes_gcm kek dek_nonce dek wrap_aad)));
  mret {| rec_schema_version := "1"; rec_vault_id := kh_vault_id kh;
          rec_namespace_id := namespace_id; rec_secret_id := secret_id;
          rec_secret_ref := secret_ref; rec_secret_version := version; rec_status := Active;
          rec_secret_type := secret_type; rec_algorithm_id := "AES-256-GCM";
          rec_wrap_algorithm_id := "AES-256-GCM"; rec_policy_id := policy_id;
          rec_policy_hash := policy_hash; rec_metadata_hash := metadata_hash;
          rec_provider_policy_hash := provider_policy_hash; rec_created_at := created_at;
          rec_secret_nonce := b64url_no_padding secret_nonce;
          rec_ciphertext := b64url_no_padding ciphertext;
          rec_dek_nonce := b64url_no_padding dek_nonce;
          rec_wrapped_dek := b64url_no_padding wrapped_dek;
          rec_secret_aad_hash := hash_bytes aad; rec_dek_wrap_aad_hash := hash_bytes wrap_aad |}.

(** ** Decryption *)

Definition created_at_aad_candidates (created_at : string) : list string :=
  match rfc3339_parse created_at with
  | Some timestamp =>
      let millis := utc_millis timestamp in
      if String.eqb millis created_at then [created_at] else [created_at; millis]
  | None => [created_at]
  end.

(** The loops of [matching_secret_aad] and [matching_dek_wrap_aad]: the first candidate whose
    associated data has the stored hash. *)
Fixpoint first_matching (aad : string → res CryptoError bytes) (stored_hash : string)
    (mismatch : CryptoError) (candidates : list string) : res CryptoError bytes :=
  match candidates with
  | [] => Err mismatch
  | created_at :: candidates =>
      a ← aad created_at;
      if String.eqb (hash_bytes a) stored_hash then Ok a
      else first_matching aad stored_hash mismatch candidates
  end.

Definition record_secret_aad {E} (r : SecretRecord) (created_at : string) : res E bytes :=
  secret_aad (rec_vault_id r) (rec_namespace_id r) (rec_secret_id r) (rec_secret_ref r)
    (rec_secret_version r) (rec_secret_type r) (rec_policy_id r) (rec_policy_hash r)
    (rec_metadata_hash r) created_at.

Definition record_dek_wrap_aad {E} (r : SecretRecord) (kdf_label created_at : string)
  : res E bytes :=
  dek_wrap_aad (rec_vault_id r) (rec_secret_id r) (rec_secret_version r) kdf_label
    (rec_provider_policy_hash r) created_at.

Definition matching_secret_aad (r : SecretRecord) : res CryptoError bytes :=
  first_matching (record_secret_aad r) (rec_secret_aad_hash r) SecretAadHashMismatch
    (created_at_aad_candidates (rec_created_at r)).

Definition matching_dek_wrap_aad (r : SecretRecord) (kdf_label : string) : res CryptoError bytes :=
  first_matching (record_dek_wrap_aad r kdf_label) (rec_dek_wrap_aad_hash r)
    DekWrapAadHashMismatch (created_at_aad_candidates (rec_created_at r)).

Definition decrypt_secret (kh : KeyHierarchy) (record : SecretRecord) : res CryptoError bytes :=
  if negb (String.eqb (rec_vault_id record) (kh_vault_id kh)) then Err WrongVault else
  let kdf_label := secret_kek_label kh (rec_secret_id record) (rec_secret_version record) in
  aad ← matching_secret_aad record;
  wrap_aad ← matching_dek_wrap_aad record kdf_label;
  kek ← secret_kek kh (rec_secret_id record) (rec_secret_version record);
  dek_nonce ← ok_or Decode (dek_nonce_bytes record);
  dek_nonce ← to_nonce dek_nonce;
  wrapped ← ok_or Decode (wrapped_dek_bytes record);
  dek ← decrypt_aes_gcm kek dek_nonce wrapped wrap_aad;
  dek ← to_key dek;
  secret_nonce ← ok_or Decode (secret_nonce_bytes record);
  secret_nonce ← to_nonce secret_nonce;
  ciphertext ← ok_or Decode (ciphertext_bytes record);
  decrypt_aes_gcm dek secret_nonce ciphertext aad.
End crypto.

Arguments record_secret_aad : simpl never.
Arguments record_dek_wrap_aad : simpl never.

(** The bytes of a record's associated data, for a creation time. *)
Definition secret_aad_bytes `{Ext} (r : SecretRecord) (created_at : string) : bytes :=
  json_to_vec (obj (secret_aad_fields (rec_vault_id r) (rec_namespace_id r)
    (rec_secret_id r) (rec_secret_ref r) (rec_secret_version r) (rec_secret_type r)
    (rec_policy_id r) (rec_policy_hash r) (rec_metadata_hash r) created_at)).
Definition wrap_aad_bytes `{Ext} (kh : KeyHierarchy) (r : SecretRecord) (created_at : string) : bytes :=
  json_to_vec (obj (dek_wrap_aad_fields (rec_vault_id r) (rec_secret_id r)
    (rec_secret_version r) (secret_kek_label kh (rec_secret_id r) (rec_secret_version r))
    (rec_provider_policy_hash r) created_at)).
Definition record_kek `{Ext} (kh : KeyHierarchy) (r : SecretRecord) : res CryptoError bytes :=
  secret_kek kh (rec_secret_id r) (rec_secret_version r).

(** The events AES-GCM's authentication excludes: the payload of [r], presented as [r'], opens
    under a wrapping key or associated data other than those it was made with. *)
Definition wrap_forged `{Ext} (kh : KeyHierarchy) (r r' : SecretRecord) : Prop :=
  ∃ kek kek' dn wd ca,
    record_kek kh r = Ok kek ∧ record_kek kh r' = Ok kek' ∧
    dek_nonce_bytes r = Some dn ∧ wrapped_dek_bytes r = Some wd ∧
    ca ∈ created_at_aad_candidates (rec_created_at r') ∧
    (kek', wrap_aad_bytes kh r' ca) ≠ (kek, wrap_aad_bytes kh r (rec_created_at r)) ∧
    is_Some (aes_gcm_decrypt kek' dn (wrap_aad_bytes kh r' ca) wd).
Definition secret_forged `{Ext} (kh : KeyHierarchy) (r r' : SecretRecord) : Prop :=
  ∃ kek dn wd dek sn ct ca,
    record_kek kh r = Ok kek ∧ dek_nonce_bytes r = Some dn ∧ wrapped_dek_bytes r = Some wd ∧
    aes_gcm_decrypt kek dn (wrap_aad_bytes kh r (rec_created_at r)) wd = Some dek ∧
    secret_nonce_bytes r = Some sn ∧ ciphertext_bytes r = Some ct ∧
    ca ∈ created_at_aad_candidates (rec_created_at r') ∧
    secret_aad_bytes r' ca ≠ secret_aad_bytes r (rec_created_at r) ∧
    is_Some (aes_gcm_decrypt dek sn (secret_aad_bytes r' ca) ct).

(** What a record's associated data binds. *)
Definition bound_metadata (r : SecretRecord) :=
  (rec_vault_id r, rec_namespace_id r, rec_secret_id r, rec_secret_ref r, rec_secret_version r,
   rec_secret_type r, rec_policy_id r, rec_policy_hash r, rec_metadata_hash r,
   rec_provider_policy_hash r).

(** Two records with the same encrypted payload. *)
Definition same_payload (r r' : SecretRecord) : Prop :=
  rec_secret_nonce r' = rec_secret_nonce r ∧ rec_ciphertext r' = rec_ciphertext r ∧
  rec_dek_nonce r' = rec_dek_nonce r ∧ rec_wrapped_dek r' = rec_wrapped_dek r.

(** ** Lemmas *)

Section crypto_lemmas.
Context {X : Ext} {HH : HashLaws} {HC : CodecLaws}.

Lemma aad_fields_ok vid ns sid sref v t pid ph mh ca :
  0 <= v <= u64_max → json_ok (obj (secret_aad_fields vid ns sid sref v t pid ph mh ca)) = true.
Proof.
  intros Hv. apply json_ok_obj. unfold secret_aad_fields. cbn [forallb snd].
  by rewrite ser_u64_ok.
Qed.

Lemma wrap_fields_ok vid sid v l pp ca :
  0 <= v <= u64_max → json_ok (obj (dek_wrap_aad_fields vid sid v l pp ca)) = true.
Proof.
  intros Hv. apply json_ok_obj. unfold dek_wrap_aad_fields. cbn [forallb snd].
  by rewrite ser_u64_ok.
Qed.

Lemma secret_aad_ok {E} vid ns sid sref v t pid ph mh ca :
  0 <= v <= u64_max →
  secret_aad (E:=E) vid ns sid sref v t pid ph mh ca =
    Ok (json_to_vec (obj (secret_aad_fields vid ns sid sref v t pid ph mh ca))).
Proof. intros Hv. by apply canonical_expect_ok, aad_fields_ok. Qed.

Lemma dek_wrap_aad_ok {E} vid sid v l pp ca :
  0 <= v <= u64_max →
  dek_wrap_aad (E:=E) vid sid v l pp ca =
    Ok (json_to_vec (obj (dek_wrap_aad_fields vid sid v l pp ca))).
Proof. intros Hv. by apply canonical_expect_ok, wrap_fields_ok. Qed.

Lemma created_at_candidates_head ca : ∃ rest, created_at_aad_candidates ca = ca :: rest.
Proof. unfold created_at_aad_candidates. repeat case_match; eauto. Qed.

Lemma record_secret_aad_ok {E} r ca :
  SecretRecord_wf r → record_secret_aad (E:=E) r ca = Ok (secret_aad_bytes r ca).
Proof. apply secret_aad_ok. Qed.

Lemma record_wrap_aad_ok {E} kh r ca :
  SecretRecord_wf r →
  record_dek_wrap_aad (E:=E) r (secret_kek_label kh (rec_secret_id r) (rec_secret_version r)) ca =
    Ok (wrap_aad_bytes kh r ca).
Proof. apply dek_wrap_aad_ok. Qed.

(** The loop finds the recorded time's own associated data, when that is what was hashed. *)
Lemma first_matching_head f stored e ca rest a :
  f ca = Ok a → hash_bytes a = stored → first_matching f stored e (ca :: rest) = Ok a.
Proof. intros Hf Hs. simpl. rewrite Hf. simpl. by rewrite (proj2 (String.eqb_eq _ _)). Qed.

Lemma matching_secret_aad_head r a :
  record_secret_aad (E:=CryptoError) r (rec_created_at r) = Ok a → hash_bytes a = rec_secret_aad_hash r →
  matching_secret_aad r = Ok a.
Proof.
  intros. unfold matching_secret_aad.
  destruct (created_at_candidates_head (rec_created_at r)) as (rest & ->).
  by apply first_matching_head.
Qed.

Lemma matching_wrap_aad_head r l a :
  record_dek_wrap_aad (E:=CryptoError) r l (rec_created_at r) = Ok a → hash_bytes a = rec_dek_wrap_aad_hash r →
  matching_dek_wrap_aad r l = Ok a.
Proof.
  intros. unfold matching_dek_wrap_aad.
  destruct (created_at_candidates_head (rec_created_at r)) as (rest & ->).
  by apply first_matching_head.
Qed.

Lemma first_matching_ok_inv f stored e cands a :
  first_matching f stored e cands = Ok a → ∃ ca, ca ∈ cands ∧ f ca = Ok a ∧ hash_bytes a = stored.
Proof.
  induction cands as [|ca cands IH]; simpl; [done|]. intros Hm. inv_ok.
  destruct (String.eqb_spec (hash_bytes a0) stored) as [Hs|Hs].
  - injection Hm as ->. exists ca. split; [left|done].
  - apply IH in Hm as (ca' & ? & ?). exists ca'. split; [by right|done].
Qed.

Lemma matching_secret_aad_not_ok r :
  SecretRecord_wf r →
  (∃ a, matching_secret_aad r = Ok a) ∨ matching_secret_aad r = Err SecretAadHashMismatch.
Proof.
  intros Hwf. unfold matching_secret_aad.
  induction (created_at_aad_candidates (rec_created_at r)) as [|ca l IH]; cbn [first_matching];
    [by right|].
  rewrite record_secret_aad_ok by done. cbn [mbind res_bind].
  destruct (String.eqb _ _); [by left; eauto|done].
Qed.

(** What [encrypt_secret] computes, in one equation per encrypted part. *)
Definition encrypted_as (kh : KeyHierarchy) (r : SecretRecord) (plaintext : bytes) : Prop :=
  ∃ dek kek sn dn ct wd,
    record_kek kh r = Ok kek ∧
    length dek = KEY_SIZE ∧ length kek = KEY_SIZE ∧
    length sn = NONCE_SIZE ∧ length dn = NONCE_SIZE ∧
    aes_gcm_encrypt dek sn (secret_aad_bytes r (rec_created_at r)) plaintext = Some ct ∧
    aes_gcm_encrypt kek dn (wrap_aad_bytes kh r (rec_created_at r)) dek = Some wd ∧
    rec_secret_nonce r = b64url_no_padding sn ∧ rec_ciphertext r = b64url_no_padding ct ∧
    rec_dek_nonce r = b64url_no_padding dn ∧ rec_wrapped_dek r = b64url_no_padding wd ∧
    rec_secret_aad_hash r = hash_bytes (secret_aad_bytes r (rec_created_at r)) ∧
    rec_dek_wrap_aad_hash r = hash_bytes (wrap_aad_bytes kh r (rec_created_at r)) ∧
    rec_vault_id r = kh_vault_id kh ∧ SecretRecord_wf r.

Lemma encrypt_aes_gcm_ok {HA : AeadLaws} k n m a :
  length k = KEY_SIZE → length n = NONCE_SIZE →
  ∃ c, encrypt_aes_gcm k n m a = Ok c ∧ aes_gcm_encrypt k n a m = Some c.
Proof.
  intros Hk Hn. destruct (aes_gcm_total k n a m Hk Hn) as [c Hc]. exists c.
  unfold encrypt_aes_gcm. rewrite decide_True by done. by rewrite Hc.
Qed.

Lemma encrypt_secret_run {HA : AeadLaws} {HE : EnvLaws} {E} kh ns sid sref v pt t pid ph mh pp w :
  0 <= v <= u64_max →
  ∃ r, encrypt_secret (E:=E) kh ns sid sref v pt t pid ph mh pp w =
         (Ok r, {| tick := 4 + tick w; db := db w |}) ∧
    encrypted_as kh r pt ∧ rec_status r = Active ∧
    bound_metadata r = (kh_vault_id kh, ns, sid, sref, v, t, pid, ph, mh, pp).
Proof.
  intros Hv. destruct (secret_kek_ok (E:=E) kh sid v) as (kek & Hkek & Hlk).
  assert (Hkek' : secret_kek (E:=CryptoError) kh sid v = Ok kek).
  { pose proof (derived_key_ok (E:=E) kh (SecretKek sid v)) as H1. simpl in H1.
    pose proof (derived_key_ok (E:=CryptoError) kh (SecretKek sid v)) as H2. simpl in H2.
    rewrite H2. rewrite Hkek in H1. by injection H1 as ->. }
  unfold encrypt_secret. repeat (erewrite st_bind_ok; [|reflexivity]).
  erewrite st_bind_ok; [|unfold lift; rewrite Hkek; reflexivity].
  erewrite st_bind_ok; [|unfold lift; rewrite secret_aad_ok by done; reflexivity].
  erewrite st_bind_ok; [|unfold lift; rewrite dek_wrap_aad_ok by done; reflexivity].
  repeat (erewrite st_bind_ok; [|reflexivity]).
  match goal with |- context [encrypt_aes_gcm ?k ?n ?m ?a] =>
    destruct (encrypt_aes_gcm_ok k n m a) as (ct & Hct & Hct');
      [apply length_random_bytes..|] end.
  erewrite st_bind_ok; [|unfold lift; rewrite Hct; reflexivity].
  match goal with |- context [encrypt_aes_gcm ?k ?n ?m ?a] =>
    destruct (encrypt_aes_gcm_ok k n m a) as (wd & Hwd & Hwd');
      [done|apply length_random_bytes|] end.
  erewrite st_bind_ok; [|unfold lift; rewrite Hwd; reflexivity].
  eexists. split; [reflexivity|]. split; [|done].
  do 6 eexists. split; [exact Hkek'|]. repeat split; simpl; try apply length_random_bytes; try done.
  all: try apply Hct'; try apply Hwd'; try apply Hv.
Qed.

Lemma to_nonce_ok n : length n = NONCE_SIZE → to_nonce n = Ok n.
Proof. intros Hn. unfold to_nonce. by rewrite decide_True. Qed.

Lemma to_key_ok k : length k = KEY_SIZE → to_key k = Ok k.
Proof. intros Hk. unfold to_key. by rewrite decide_True. Qed.

Lemma decrypt_aes_gcm_ok {HA : AeadLaws} k n m a c :
  length k = KEY_SIZE → aes_gcm_encrypt k n a m = Some c → decrypt_aes_gcm k n c a = Ok m.
Proof.
  intros Hk Hc. unfold decrypt_aes_gcm. rewrite decide_True by done.
  by rewrite (aes_gcm_round _ _ _ _ _ Hc).
Qed.

Lemma encrypted_decrypts {HA : AeadLaws} kh r pt :
  encrypted_as kh r pt → decrypt_secret kh r = Ok pt.
Proof.
  intros (dek & kek & sn & dn & ct & wd & Hkek & Hld & Hlk & Hls & Hldn & Hct & Hwd & Esn & Ect &
    Edn & Ewd & Eh & Ewh & Hvid & Hwf).
  unfold decrypt_secret. rewrite Hvid, String.eqb_refl. simpl.
  rewrite (matching_secret_aad_head r _ (record_secret_aad_ok r _ Hwf) (eq_sym Eh)).
  simpl.
  rewrite (matching_wrap_aad_head r _ _ (record_wrap_aad_ok kh r _ Hwf) (eq_sym Ewh)). simpl.
  unfold record_kek in Hkek. rewrite Hkek. simpl. unfold dek_nonce_bytes, wrapped_dek_bytes, secret_nonce_bytes, ciphertext_bytes.
  rewrite Esn, Ect, Edn, Ewd. unfold b64url_decode_no_padding, b64url_no_padding.
  rewrite !base64_url_round. simpl. rewrite (to_nonce_ok dn) by done. simpl.
  rewrite (decrypt_aes_gcm_ok _ _ _ _ _ Hlk Hwd). simpl. rewrite (to_key_ok dek) by done. simpl.
  rewrite (to_nonce_ok sn) by done. simpl. by rewrite (decrypt_aes_gcm_ok _ _ _ _ _ Hld Hct).
Qed.

(** The status is not part of the associated data. *)
Lemma decrypt_set_status kh s r : decrypt_secret kh (set_status s r) = decrypt_secret kh r.
Proof. done. Qed.

(** What a successful decryption checked. *)
Lemma decrypt_ok_inv kh r pt :
  decrypt_secret kh r = Ok pt → SecretRecord_wf r →
  ∃ ca ca' kek dek sn dn ct wd,
    rec_vault_id r = kh_vault_id kh ∧
    ca ∈ created_at_aad_candidates (rec_created_at r) ∧
    ca' ∈ created_at_aad_candidates (rec_created_at r) ∧
    record_kek kh r = Ok kek ∧ dek_nonce_bytes r = Some dn ∧ wrapped_dek_bytes r = Some wd ∧
    secret_nonce_bytes r = Some sn ∧ ciphertext_bytes r = Some ct ∧
    aes_gcm_decrypt kek dn (wrap_aad_bytes kh r ca') wd = Some dek ∧
    aes_gcm_decrypt dek sn (secret_aad_bytes r ca) ct = Some pt.
Proof.
  unfold decrypt_secret. intros Hd Hwf.
  destruct (String.eqb_spec (rec_vault_id r) (kh_vault_id kh)) as [Hvid|]; [|done]. simpl in Hd.
  inv_ok. unfold to_nonce, to_key, decrypt_aes_gcm in *. repeat case_decide; try done.
  inv_ok.
  match goal with H : matching_secret_aad _ = _ |- _ =>
    apply first_matching_ok_inv in H as (ca & Hca & Haad & _) end.
  match goal with H : matching_dek_wrap_aad _ _ = _ |- _ =>
    apply first_matching_ok_inv in H as (ca' & Hca' & Hwaad & _) end.
  rewrite record_secret_aad_ok in Haad by done. rewrite record_wrap_aad_ok in Hwaad by done.
  inv_ok.
  do 8 eexists. split; [done|]. split; [exact Hca|]. split; [exact Hca'|]. eauto 10.
Qed.

Lemma payload_bytes r r' sn ct dn wd :
  rec_secret_nonce r = b64url_no_padding sn → rec_ciphertext r = b64url_no_padding ct →
  rec_dek_nonce r = b64url_no_padding dn → rec_wrapped_dek r = b64url_no_padding wd →
  same_payload r r' →
  secret_nonce_bytes r' = Some sn ∧ ciphertext_bytes r' = Some ct ∧
  dek_nonce_bytes r' = Some dn ∧ wrapped_dek_bytes r' = Some wd.
Proof.
  intros E1 E2 E3 E4 (F1 & F2 & F3 & F4).
  unfold secret_nonce_bytes, ciphertext_bytes, dek_nonce_bytes, wrapped_dek_bytes.
  rewrite F1, F2, F3, F4, E1, E2, E3, E4. unfold b64url_decode_no_padding, b64url_no_padding.
  by rewrite !base64_url_round.
Qed.

(** Equal associated data means equal metadata. *)
Lemma aad_fields_inj r r' ca ca' :
  obj (secret_aad_fields (rec_vault_id r) (rec_namespace_id r) (rec_secret_id r)
    (rec_secret_ref r) (rec_secret_version r) (rec_secret_type r) (rec_policy_id r)
    (rec_policy_hash r) (rec_metadata_hash r) ca) =
  obj (secret_aad_fields (rec_vault_id r') (rec_namespace_id r') (rec_secret_id r')
    (rec_secret_ref r') (rec_secret_version r') (rec_secret_type r') (rec_policy_id r')
    (rec_policy_hash r') (rec_metadata_hash r') ca') →
  rec_vault_id r = rec_vault_id r' ∧ rec_namespace_id r = rec_namespace_id r' ∧
  rec_secret_id r = rec_secret_id r' ∧ rec_secret_ref r = rec_secret_ref r' ∧
  rec_secret_version r = rec_secret_version r' ∧ rec_secret_type r = rec_secret_type r' ∧
  rec_policy_id r = rec_policy_id r' ∧ rec_policy_hash r = rec_policy_hash r' ∧
  rec_metadata_hash r = rec_metadata_hash r' ∧ ca = ca'.
Proof.
  intros Ha. obj_field Ha "vault_id".
  obj_field Ha "namespace_id". obj_field Ha "secret_id". obj_field Ha "secret_ref".
  obj_field Ha "version". obj_field Ha "secret_type". obj_field Ha "policy_id".
  obj_field Ha "policy_hash". obj_field Ha "metadata_hash". obj_field Ha "created_at".
  assert (rec_secret_type r = rec_secret_type r').
  { destruct (rec_secret_type r), (rec_secret_type r'); done. }
  unfold ser_u64 in *. repeat split; congruence.
Qed.

Lemma encrypted_opens {HA : AeadLaws} kh r r' pt pt' :
  encrypted_as kh r pt → same_payload r r' → SecretRecord_wf r' →
  decrypt_secret kh r' = Ok pt' →
  wrap_forged kh r r' ∨ secret_forged kh r r' ∨
  (bound_metadata r' = bound_metadata r ∧ pt' = pt ∧
   rec_created_at r ∈ created_at_aad_candidates (rec_created_at r')).
Proof.
  intros (dek & kek & sn & dn & ct & wd & Hkek & Hld & Hlk & Hls & Hldn & Hct & Hwd & Esn & Ect &
    Edn & Ewd & Eh & Ewh & Hvid & Hwf) Hsame Hwf' Hdec.
  destruct (payload_bytes _ _ _ _ _ _ Esn Ect Edn Ewd Hsame) as (F1 & F2 & F3 & F4).
  destruct (payload_bytes r r _ _ _ _ Esn Ect Edn Ewd ltac:(by repeat split)) as (K1 & K2 & K3 & K4).
  destruct (decrypt_ok_inv _ _ _ Hdec Hwf') as (ca & ca' & kek' & dek' & sn' & dn' & ct' & wd' &
    Hvid' & Hca & Hca' & Hkek' & G3 & G4 & G1 & G2 & Hwd' & Hct').
  rewrite F1 in G1. rewrite F2 in G2. rewrite F3 in G3. rewrite F4 in G4.
  injection G1 as <-. injection G2 as <-. injection G3 as <-. injection G4 as <-.
  destruct (decide ((kek', wrap_aad_bytes kh r' ca') = (kek, wrap_aad_bytes kh r (rec_created_at r))))
    as [Hw|Hw]; [|left; by exists kek, kek', dn, wd, ca'].
  injection Hw as -> Hwa. rewrite Hwa, (aes_gcm_round _ _ _ _ _ Hwd) in Hwd'. injection Hwd' as <-.
  destruct (decide (secret_aad_bytes r' ca = secret_aad_bytes r (rec_created_at r))) as [Ha|Ha].
  - right. right. rewrite Ha, (aes_gcm_round _ _ _ _ _ Hct) in Hct'. injection Hct' as <-.
    apply json_to_vec_inj in Hwa; [|by apply wrap_fields_ok..].
    apply json_to_vec_inj in Ha; [|by apply aad_fields_ok..].
    destruct (aad_fields_inj _ _ _ _ Ha) as (? & ? & ? & ? & ? & ? & ? & ? & ? & ?).
    obj_field Hwa "provider_policy_hash". unfold bound_metadata. repeat split; congruence.
  - right. left. exists kek, dn, wd, dek, sn, ct, ca.
    repeat split; eauto using aes_gcm_round.
Qed.
End crypto_lemmas.

(** ** Properties *)

(** Encryption is total and decryption inverts it. For every plaintext and all metadata,
    [encrypt_secret] yields an active record without touching the database, and decrypting
    that record with the same hierarchy gives the plaintext back, whatever status the record
    is later given. *)
Theorem encrypt_then_decrypt {X : Ext} {HH : HashLaws} {HC : CodecLaws} {HA : AeadLaws}
    {HE : EnvLaws} kh ns sid sref v pt t pid ph mh pp w :
  0 <= v <= u64_max →
  ∃ r w', encrypt_secret (E:=CryptoError) kh ns sid sref v pt t pid ph mh pp w = (Ok r, w') ∧
    db w' = db w ∧ rec_status r = Active ∧ rec_secret_ref r = sref ∧ rec_secret_version r = v ∧
    ∀ status, decrypt_secret kh (set_status status r) = Ok pt.
Proof.
  intros Hv.
  destruct (encrypt_secret_run (E:=CryptoError) kh ns sid sref v pt t pid ph mh pp w Hv)
    as (r & Hrun & Henc & Hst & Hb).
  unfold bound_metadata in Hb. injection Hb as ??????????.
  eexists r, _. split; [exact Hrun|]. repeat split; try done. intros status.
  rewrite decrypt_set_status. by apply encrypted_decrypts.
Qed.

Lemma encrypt_then_decrypt_witness : ∃ r w',
  encrypt_secret (E:=CryptoError) sample_keys "default" "api" "secret://default/api" 1
    (as_bytes "sk-test") ApiKey "p" "ph" "mh" "pp" {| tick := 0; db := empty_db |} = (Ok r, w') ∧
  decrypt_secret sample_keys (set_status Disabled r) = Ok (as_bytes "sk-test").
Proof.
  destruct (encrypt_then_decrypt sample_keys "default" "api" "secret://default/api" 1
    (as_bytes "sk-test") ApiKey "p" "ph" "mh" "pp" {| tick := 0; db := empty_db |})
    as (r & w' & Hrun & _ & _ & _ & _ & Hdec).
  - unfold u64_max. lia.
  - exists r, w'. split; [exact Hrun|apply Hdec].
Defined.

(** C32: a record's payload opens only as the record it was made for. Take the ciphertexts and
    nonces of an encrypted record and present them under any metadata, stored hashes
    included. If decryption succeeds, the metadata (vault, namespace, identifier, reference,
    version, type, policies and their hashes) is the original and so is the plaintext;
    otherwise AES-GCM itself opened the wrapped key or the ciphertext under a key or
    associated data other than those it was made with. *)
Theorem payload_opens_only_as_itself {X : Ext} {HH : HashLaws} {HC : CodecLaws} {HA : AeadLaws}
    {HE : EnvLaws} kh ns sid sref v pt t pid ph mh pp w r w' r' pt' :
  0 <= v <= u64_max →
  encrypt_secret (E:=CryptoError) kh ns sid sref v pt t pid ph mh pp w = (Ok r, w') →
  same_payload r r' → SecretRecord_wf r' → decrypt_secret kh r' = Ok pt' →
  wrap_forged kh r r' ∨ secret_forged kh r r' ∨
  (bound_metadata r' = (kh_vault_id kh, ns, sid, sref, v, t, pid, ph, mh, pp) ∧ pt' = pt ∧
   rec_created_at r ∈ created_at_aad_candidates (rec_created_at r')).
Proof.
  intros Hv Hrun Hsame Hwf Hdec.
  destruct (encrypt_secret_run (E:=CryptoError) kh ns sid sref v pt t pid ph mh pp w Hv)
    as (r0 & Hrun0 & Henc & _ & Hb).
  rewrite Hrun0 in Hrun. injection Hrun as -> _. rewrite <-Hb. by eapply encrypted_opens.
Qed.

Lemma payload_opens_only_as_itself_witness : ∃ r w',
  encrypt_secret (E:=CryptoError) sample_keys "default" "api" "secret://default/api" 1
    (as_bytes "sk-test") ApiKey "p" "ph" "mh" "pp" {| tick := 0; db := empty_db |} = (Ok r, w') ∧
  let r' := set_status Staged r in
  (wrap_forged sample_keys r r' ∨ secret_forged sample_keys r r' ∨
   (bound_metadata r' = ("v", "default", "api", "secret://default/api", 1, ApiKey, "p", "ph",
                         "mh", "pp") ∧
    as_bytes "sk-test" = as_bytes "sk-test" ∧
    rec_created_at r ∈ created_at_aad_candidates (rec_created_at r'))).
Proof.
  eexists _, _. split; [vm_compute; reflexivity|].
  eapply (payload_opens_only_as_itself sample_keys "default" "api" "secret://default/api" 1
    (as_bytes "sk-test") ApiKey "p" "ph" "mh" "pp" {| tick := 0; db := empty_db |}).
  - unfold u64_max. lia.
  - vm_compute. reflexivity.
  - repeat split.
  - unfold SecretRecord_wf, u64_max. simpl. lia.
  - vm_compute. reflexivity.
Defined.

(** Editing a record's metadata without its hashes is detected before any key is used.
    A record that keeps the vault and the stored hash of an encrypted record but whose
    metadata differs is refused with [SecretAadHashMismatch] under every hierarchy of the
    vault, unless its associated data collides with the original's under SHA-256. *)
Theorem edited_metadata_is_refused {X : Ext} {HH : HashLaws} {HC : CodecLaws} {HA : AeadLaws}
    {HE : EnvLaws} kh kh' ns sid sref v pt t pid ph mh pp w r w' r' :
  0 <= v <= u64_max →
  encrypt_secret (E:=CryptoError) kh ns sid sref v pt t pid ph mh pp w = (Ok r, w') →
  SecretRecord_wf r' → rec_vault_id r' = kh_vault_id kh' →
  rec_secret_aad_hash r' = rec_secret_aad_hash r →
  (rec_namespace_id r', rec_secret_id r', rec_secret_ref r', rec_secret_version r',
   rec_secret_type r', rec_policy_id r', rec_policy_hash r', rec_metadata_hash r') ≠
    (ns, sid, sref, v, t, pid, ph, mh) →
  decrypt_secret kh' r' = Err SecretAadHashMismatch ∨
  ∃ ca, ca ∈ created_at_aad_candidates (rec_created_at r') ∧
    secret_aad_bytes r' ca ≠ secret_aad_bytes r (rec_created_at r) ∧
    sha256 (secret_aad_bytes r' ca) = sha256 (secret_aad_bytes r (rec_created_at r)).
Proof.
  intros Hv Hrun Hwf Hvid Hhash Hdiff.
  destruct (encrypt_secret_run (E:=CryptoError) kh ns sid sref v pt t pid ph mh pp w Hv)
    as (r0 & Hrun0 & Henc & _ & Hb).
  rewrite Hrun0 in Hrun. injection Hrun as -> _. clear Hrun0.
  destruct Henc as (_ & _ & _ & _ & _ & _ & _ & _ & _ & _ & _ & _ & _ & _ & _ & _ & _ & Eh & _ & _ & Hwf0).
  destruct (matching_secret_aad r') as [a|e|] eqn:Hm.
  - right. apply first_matching_ok_inv in Hm as (ca & Hca & Ha & Hh). exists ca.
    rewrite record_secret_aad_ok in Ha by done. injection Ha as <-.
    split; [done|]. split.
    + intros Heq. apply Hdiff. apply json_to_vec_inj in Heq; [|by apply aad_fields_ok..].
      apply aad_fields_inj in Heq. unfold bound_metadata in Hb. intuition congruence.
    + apply b64url_inj. unfold hash_bytes in *. congruence.
  - left. unfold decrypt_secret. rewrite Hvid, String.eqb_refl. cbn [negb]. rewrite Hm.
    destruct (matching_secret_aad_not_ok r' Hwf) as [(a & Ha)|Ha]; rewrite Ha in Hm; [done|].
    by injection Hm as <-.
  - by destruct (matching_secret_aad_not_ok r' Hwf) as [(a & Ha)|Ha]; rewrite Ha in Hm.
Qed.

(** The record C10's witness edits: another reference, the same stored hash. *)
Definition edit_ref (sref : string) (r : SecretRecord) : SecretRecord := {|
  rec_schema_version := rec_schema_version r; rec_vault_id := rec_vault_id r;
  rec_namespace_id := rec_namespace_id r; rec_secret_id := rec_secret_id r;
  rec_secret_ref := sref; rec_secret_version := rec_secret_version r;
  rec_status := rec_status r; rec_secret_type := rec_secret_type r;
  rec_algorithm_id := rec_algorithm_id r; rec_wrap_algorithm_id := rec_wrap_algorithm_id r;
  rec_policy_id := rec_policy_id r; rec_policy_hash := rec_policy_hash r;
  rec_metadata_hash := rec_metadata_hash r;
  rec_provider_policy_hash := rec_provider_policy_hash r; rec_created_at := rec_created_at r;
  rec_secret_nonce := rec_secret_nonce r; rec_ciphertext := rec_ciphertext r;
  rec_dek_nonce := rec_dek_nonce r; rec_wrapped_dek := rec_wrapped_dek r;
  rec_secret_aad_hash := rec_secret_aad_hash r;
  rec_dek_wrap_aad_hash := rec_dek_wrap_aad_hash r |}.

Lemma edited_metadata_is_refused_witness : ∃ r w',
  encrypt_secret (E:=CryptoError) sample_keys "default" "api" "secret://default/api" 1
    (as_bytes "sk-test") ApiKey "p" "ph" "mh" "pp" {| tick := 0; db := empty_db |} = (Ok r, w') ∧
  let r' := edit_ref "secret://default/other" r in
  (decrypt_secret sample_keys r' = Err SecretAadHashMismatch ∨
   ∃ ca, ca ∈ created_at_aad_candidates (rec_created_at r') ∧
     secret_aad_bytes r' ca ≠ secret_aad_bytes r (rec_created_at r) ∧
     sha256 (secret_aad_bytes r' ca) = sha256 (secret_aad_bytes r (rec_created_at r))).
Proof.
  eexists _, _. split; [vm_compute; reflexivity|].
  eapply (edited_metadata_is_refused sample_keys sample_keys "default" "api"
    "secret://default/api" 1 (as_bytes "sk-test") ApiKey "p" "ph" "mh" "pp"
    {| tick := 0; db := empty_db |}).
  - unfold u64_max. lia.
  - vm_compute. reflexivity.
  - unfold SecretRecord_wf, u64_max. simpl. lia.
  - reflexivity.
  - reflexivity.
  - simpl. congruence.
Defined.
