(* ===== verification/Tickets.v ===== *)
(** * Access tickets (tickets.rs)

    A ticket carries the context of one request, a number of uses and an expiry, under a MAC
    of all its other fields.  [validate] is specified by [ticket_admits]. *)

From S2P Require Export Policy Keys Records.
From S2P Require Import Toy.
#[local] Open Scope Z_scope.

Inductive TicketValidationError : Type :=
| MacMismatch | Revoked | ReplayDenied | Expired | SecretContextMismatch
| ConsumerContextMismatch | PurposeContextMismatch | DeliveryContextMismatch
| HttpHostContextMismatch | HttpSchemeContextMismatch | HttpMethodContextMismatch
| HttpPathContextMismatch | HttpRequestBodyContextMismatch | OsUserContextMismatch
| ExecutablePathContextMismatch | ExecutableHashContextMismatch | PolicyContextMismatch
| BrokerSessionContextMismatch.

Record SecretAccessTicket : Type := {
  tk_ticket_id : string;
  tk_vault_id : string;
  tk_secret_id : string;
  tk_secret_ref : string;
  tk_secret_version : Z;
  tk_consumer : string;
  tk_purpose : string;
  tk_delivery_mode : DeliveryMode;
  tk_http_host : option string;
  tk_http_scheme : option string;
  tk_http_method : option string;
  tk_http_path : option string;
  tk_http_request_body_bytes : option Z;
  tk_os_uid : option Z;
  tk_executable_path : option string;
  tk_executable_sha256 : option string;
  tk_policy_id : string;
  tk_policy_hash : string;
  tk_exportable : bool;
  tk_model_visible : bool;
  tk_shell_visible : bool;
  tk_broker_session_id : option string;
  tk_issued_at : string;
  tk_expires_at : string;
  tk_max_uses : Z;
  tk_uses_remaining : Z;
  tk_revoked : bool;
  tk_mac : string;
}.

#[export] Instance SecretAccessTicket_eq_dec : EqDecision SecretAccessTicket.
Proof. solve_decision. Defined.

(** The mutable fields: [uses_remaining], [revoked] and [mac]. *)
Definition set_ticket (uses_remaining : Z) (revoked : bool) (mac : string)
    (t : SecretAccessTicket) : SecretAccessTicket := {|
  tk_ticket_id := tk_ticket_id t; tk_vault_id := tk_vault_id t; tk_secret_id := tk_secret_id t;
  tk_secret_ref := tk_secret_ref t; tk_secret_version := tk_secret_version t;
  tk_consumer := tk_consumer t; tk_purpose := tk_purpose t;
  tk_delivery_mode := tk_delivery_mode t; tk_http_host := tk_http_host t;
  tk_http_scheme := tk_http_scheme t; tk_http_method := tk_http_method t;
  tk_http_path := tk_http_path t; tk_http_request_body_bytes := tk_http_request_body_bytes t;
  tk_os_uid := tk_os_uid t; tk_executable_path := tk_executable_path t;
  tk_executable_sha256 := tk_executable_sha256 t; tk_policy_id := tk_policy_id t;
  tk_policy_hash := tk_policy_hash t; tk_exportable := tk_exportable t;
  tk_model_visible := tk_model_visible t; tk_shell_visible := tk_shell_visible t;
  tk_broker_session_id := tk_broker_session_id t; tk_issued_at := tk_issued_at t;
  tk_expires_at := tk_expires_at t; tk_max_uses := tk_max_uses t;
  tk_uses_remaining := uses_remaining; tk_revoked := revoked; tk_mac := mac |}.

Definition SecretAccessTicket_fields (t : SecretAccessTicket) : list (string * json) :=
  [ ("ticket_id", JStr (tk_ticket_id t));
    ("vault_id", JStr (tk_vault_id t));
    ("secret_id", JStr (tk_secret_id t));
    ("secret_ref", JStr (tk_secret_ref t));
    ("secret_version", ser_u64 (tk_secret_version t));
    ("consumer", JStr (tk_consumer t));
    ("purpose", JStr (tk_purpose t));
    ("delivery_mode", to_value (tk_delivery_mode t));
    ("http_host", ser_opt JStr (tk_http_host t));
    ("http_scheme", ser_opt JStr (tk_http_scheme t));
    ("http_method", ser_opt JStr (tk_http_method t));
    ("http_path", ser_opt JStr (tk_http_path t));
    ("http_request_body_bytes", ser_opt ser_u64 (tk_http_request_body_bytes t));
    ("os_uid", ser_opt ser_u64 (tk_os_uid t));
    ("executable_path", ser_opt JStr (tk_executable_path t));
    ("executable_sha256", ser_opt JStr (tk_executable_sha256 t));
    ("policy_id", JStr (tk_policy_id t));
    ("policy_hash", JStr (tk_policy_hash t));
    ("exportable", JBool (tk_exportable t));
    ("model_visible", JBool (tk_model_visible t));
    ("shell_visible", JBool (tk_shell_visible t));
    ("broker_session_id", ser_opt JStr (tk_broker_session_id t));
    ("issued_at", JStr (tk_issued_at t));
    ("expires_at", JStr (tk_expires_at t));
    ("max_uses", ser_u64 (tk_max_uses t));
    ("uses_remaining", ser_u64 (tk_uses_remaining t));
    ("revoked", JBool (tk_revoked t));
    ("mac", JStr (tk_mac t)) ].

Definition SecretAccessTicket_of_object (m : omap string json) : option SecretAccessTicket :=
  ticket_id ← field "ticket_id" as_str m;
  vault_id ← field "vault_id" as_str m;
  secret_id ← field_or "secret_id" as_str "" m;
  secret_ref ← field "secret_ref" as_str m;
  secret_version ← field_or "secret_version" de_u64 0 m;
  consumer ← field "consumer" as_str m;
  purpose ← field "purpose" as_str m;
  delivery_mode ← field "delivery_mode" of_value m;
  http_host ← field_opt "http_host" as_str m;
  http_scheme ← field_opt "http_scheme" as_str m;
  http_method ← field_opt "http_method" as_str m;
  http_path ← field_opt "http_path" as_str m;
  http_request_body_bytes ← field_opt "http_request_body_bytes" de_u64 m;
  os_uid ← field_opt "os_uid" de_u32 m;
  executable_path ← field_opt "executable_path" as_str m;
  executable_sha256 ← field_opt "executable_sha256" as_str m;
  policy_id ← field "policy_id" as_str m;
  policy_hash ← field "policy_hash" as_str m;
  exportable ← field_or "exportable" as_bool false m;
  model_visible ← field_or "model_visible" as_bool false m;
  shell_visible ← field_or "shell_visible" as_bool false m;
  broker_session_id ← field_opt "broker_session_id" as_str m;
  issued_at ← field "issued_at" as_str m;
  expires_at ← field "expires_at" as_str m;
  max_uses ← field "max_uses" de_u32 m;
  uses_remaining ← field "uses_remaining" de_u32 m;
  revoked ← field "revoked" as_bool m;
  mac ← field "mac" as_str m;
  Some {| tk_ticket_id := ticket_id; tk_vault_id := vault_id; tk_secret_id := secret_id;
          tk_secret_ref := secret_ref; tk_secret_version := secret_version;
          tk_consumer := consumer; tk_purpose := purpose; tk_delivery_mode := delivery_mode;
          tk_http_host := http_host; tk_http_scheme := http_scheme;
          tk_http_method := http_method; tk_http_path := http_path;
          tk_http_request_body_bytes := http_request_body_bytes; tk_os_uid := os_uid;
          tk_executable_path := executable_path; tk_executable_sha256 := executable_sha256;
          tk_policy_id := policy_id; tk_policy_hash := policy_hash;
          tk_exportable := exportable; tk_model_visible := model_visible;
          tk_shell_visible := shell_visible; tk_broker_session_id := broker_session_id;
          tk_issued_at := issued_at; tk_expires_at := expires_at; tk_max_uses := max_uses;
          tk_uses_remaining := uses_remaining; tk_revoked := revoked; tk_mac := mac |}.

#[export] Instance SecretAccessTicket_serde : Serde SecretAccessTicket := {
  to_value t := obj (SecretAccessTicket_fields t);
  of_value v := as_object v ≫= SecretAccessTicket_of_object;
}.

(** The ranges of the Rust field types. *)
Record SecretAccessTicket_wf (t : SecretAccessTicket) : Prop := {
  wf_tk_version : 0 <= tk_secret_version t <= u64_max;
  wf_tk_body : ∀ n, tk_http_request_body_bytes t = Some n → 0 <= n <= u64_max;
  wf_tk_uid : ∀ n, tk_os_uid t = Some n → 0 <= n <= u32_max;
  wf_tk_max : 0 <= tk_max_uses t <= u32_max;
  wf_tk_uses : 0 <= tk_uses_remaining t <= u32_max;
}.
Record AccessRequest_wf (r : AccessRequest) : Prop := {
  wf_req_body : ∀ n, req_http_request_body_bytes r = Some n → 0 <= n <= u64_max;
  wf_req_uid : ∀ n, req_os_uid r = Some n → 0 <= n <= u32_max;
}.

(** ** The manager's operations *)

Definition payload (t : SecretAccessTicket) : json := jremove "mac" (to_value t).

Definition shell_modes : list DeliveryMode := [ChildEnv; TerminalPrint; Raw].

Section manager.
Context `{Ext} {E : Type}.

Definition ticket_mac (mac_key : bytes) (payload : json) : res E string :=
  b ← canonical_expect payload; mret (b64url_no_padding (hmac_sha256 mac_key b)).

Definition issue (mac_key : bytes) (vault_id secret_id : string) (secret_version : Z)
    (request : AccessRequest) (policy : AccessPolicy) (policy_hash : string)
    (broker_session_id : option string) : ST World E SecretAccessTicket :=
  let issued_at := req_now request in
  ttl ← lift (Duration_seconds (i64_of_u64 (pol_max_ticket_ttl_seconds policy)));
  expires_at ← lift (datetime_add issued_at ttl);
  ticket_id ← Uuid_new_v4;
  let ticket := {|
    tk_ticket_id := ticket_id; tk_vault_id := vault_id; tk_secret_id := secret_id;
    tk_secret_ref := req_secret_ref request; tk_secret_version := secret_version;
    tk_consumer := req_consumer request; tk_purpose := req_purpose request;
    tk_delivery_mode := req_delivery_mode request; tk_http_host := req_http_host request;
    tk_http_scheme := req_http_scheme request; tk_http_method := req_http_method request;
    tk_http_path := req_http_path request;
    tk_http_request_body_bytes := req_http_request_body_bytes request;
    tk_os_uid := req_os_uid request; tk_executable_path := req_executable_path request;
    tk_executable_sha256 := req_executable_sha256 request;
    tk_policy_id := pol_policy_id policy; tk_policy_hash := policy_hash;
    tk_exportable := pol_exportable policy; tk_model_visible := false;
    tk_shell_visible := has (req_delivery_mode request) shell_modes;
    tk_broker_session_id := broker_session_id; tk_issued_at := utc_millis issued_at;
    tk_expires_at := utc_millis expires_at; tk_max_uses := pol_max_uses policy;
    tk_uses_remaining := pol_max_uses policy; tk_revoked := false; tk_mac := "" |} in
  mac ← lift (ticket_mac mac_key (payload ticket));
  mret (set_ticket (tk_uses_remaining ticket) (tk_revoked ticket) mac ticket).
End manager.

Definition broker_session_id_matches (t : SecretAccessTicket) (session : option string) : bool :=
  match tk_broker_session_id t, session with
  | Some ticket_session, Some request_session => String.eqb ticket_session request_session
  | Some _, None => false
  | None, _ => true
  end.

(** [a != b] on field types with decidable equality. *)
Definition differ {A} `{EqDecision A} (a b : A) : bool := bool_decide (a ≠ b).

Section validation.
Context `{Ext}.

Definition validate (mac_key : bytes) (t : SecretAccessTicket) (r : AccessRequest) (now : Z)
  : res TicketValidationError unit :=
  mac ← ticket_mac mac_key (payload t);
  if differ mac (tk_mac t) then Err MacMismatch else
  if tk_revoked t then Err Revoked else
  if tk_uses_remaining t <? 1 then Err ReplayDenied else
  expires_at ← ok_or Expired (rfc3339_parse (tk_expires_at t));
  if expires_at <? now then Err Expired else
  if differ (tk_secret_ref t) (req_secret_ref r) then Err SecretContextMismatch else
  if negb (broker_session_id_matches t (req_broker_session_id r))
  then Err BrokerSessionContextMismatch else
  if differ (tk_consumer t) (req_consumer r) then Err ConsumerContextMismatch else
  if differ (tk_purpose t) (req_purpose r) then Err PurposeContextMismatch else
  if differ (tk_delivery_mode t) (req_delivery_mode r) then Err DeliveryContextMismatch else
  if differ (tk_http_host t) (req_http_host r) then Err HttpHostContextMismatch else
  if differ (tk_http_scheme t) (req_http_scheme r) then Err HttpSchemeContextMismatch else
  if differ (tk_http_method t) (req_http_method r) then Err HttpMethodContextMismatch else
  if differ (tk_http_path t) (req_http_path r) then Err HttpPathContextMismatch else
  if differ (tk_http_request_body_bytes t) (req_http_request_body_bytes r)
  then Err HttpRequestBodyContextMismatch else
  if differ (tk_os_uid t) (req_os_uid r) then Err OsUserContextMismatch else
  if differ (tk_executable_path t) (req_executable_path r)
  then Err ExecutablePathContextMismatch else
  if differ (tk_executable_sha256 t) (req_executable_sha256 r)
  then Err ExecutableHashContextMismatch else Ok tt.

Definition validate_policy (t : SecretAccessTicket) (p : AccessPolicy) (current_hash : string)
  : res TicketValidationError unit :=
  if differ (tk_policy_id t) (pol_policy_id p) || differ (tk_policy_hash t) current_hash
  then Err PolicyContextMismatch else Ok tt.

Definition consume (mac_key : bytes) (t : SecretAccessTicket) (r : AccessRequest) (now : Z)
  : res TicketValidationError SecretAccessTicket :=
  _ ← validate mac_key t r now;
  let updated := set_ticket (tk_uses_remaining t - 1) (tk_revoked t) (tk_mac t) t in
  mac ← ticket_mac mac_key (payload updated);
  mret (set_ticket (tk_uses_remaining updated) (tk_revoked updated) mac updated).

Definition revoke (mac_key : bytes) (t : SecretAccessTicket)
  : res TicketValidationError SecretAccessTicket :=
  mac ← ticket_mac mac_key (payload t);
  if differ mac (tk_mac t) then Err MacMismatch else
  let updated := set_ticket (tk_uses_remaining t) true (tk_mac t) t in
  mac ← ticket_mac mac_key (payload updated);
  mret (set_ticket (tk_uses_remaining updated) (tk_revoked updated) mac updated).

Definition policy_hash {E} (p : AccessPolicy) : res E string :=
  canonical ← canonical_expect (to_value p); mret (b64url_no_padding (sha256 canonical)).
End validation.

(** ** What a ticket admits *)

(** The request is the one the ticket was issued for; a ticket without a broker session admits
    every session. *)
Record ticket_context (t : SecretAccessTicket) (r : AccessRequest) : Prop := {
  tc_ref : tk_secret_ref t = req_secret_ref r;
  tc_session : tk_broker_session_id t = None ∨ tk_broker_session_id t = req_broker_session_id r;
  tc_consumer : tk_consumer t = req_consumer r;
  tc_purpose : tk_purpose t = req_purpose r;
  tc_mode : tk_delivery_mode t = req_delivery_mode r;
  tc_host : tk_http_host t = req_http_host r;
  tc_scheme : tk_http_scheme t = req_http_scheme r;
  tc_method : tk_http_method t = req_http_method r;
  tc_path : tk_http_path t = req_http_path r;
  tc_body : tk_http_request_body_bytes t = req_http_request_body_bytes r;
  tc_uid : tk_os_uid t = req_os_uid r;
  tc_exec_path : tk_executable_path t = req_executable_path r;
  tc_exec_hash : tk_executable_sha256 t = req_executable_sha256 r;
}.

(** The ticket carries the key's MAC of its other fields. *)
Definition authentic `{Ext} (mac_key : bytes) (t : SecretAccessTicket) : Prop :=
  tk_mac t = b64url_no_padding (hmac_sha256 mac_key (json_to_vec (payload t))).

Record ticket_admits `{Ext} (mac_key : bytes) (t : SecretAccessTicket) (r : AccessRequest)
    (now : Z) : Prop := {
  ta_mac : authentic mac_key t;
  ta_live : tk_revoked t = false;
  ta_uses : 1 <= tk_uses_remaining t;
  ta_unexpired : ∃ t_exp, rfc3339_parse (tk_expires_at t) = Some t_exp ∧ now <= t_exp;
  ta_context : ticket_context t r;
}.

(** ** Lemmas: the typed form *)

Lemma de_ser_str s : as_str (JStr s) = Some s.
Proof. done. Qed.

Lemma SecretAccessTicket_round t :
  SecretAccessTicket_wf t →
  SecretAccessTicket_of_object (of_list (SecretAccessTicket_fields t)) = Some t.
Proof.
  intros [].
  set (m := of_list (SecretAccessTicket_fields t)).
  assert (H1 : field_opt "http_host" as_str m = Some (tk_http_host t)) by serde_opt ltac:(done).
  assert (H2 : field_opt "http_scheme" as_str m = Some (tk_http_scheme t)) by serde_opt ltac:(done).
  assert (H3 : field_opt "http_method" as_str m = Some (tk_http_method t)) by serde_opt ltac:(done).
  assert (H4 : field_opt "http_path" as_str m = Some (tk_http_path t)) by serde_opt ltac:(done).
  assert (H5 : field_opt "http_request_body_bytes" de_u64 m = Some (tk_http_request_body_bytes t))
    by serde_opt ltac:(apply de_ser_u64; auto).
  assert (H6 : field_opt "os_uid" de_u32 m = Some (tk_os_uid t))
    by serde_opt ltac:(apply de_ser_u32; auto).
  assert (H7 : field_opt "executable_path" as_str m = Some (tk_executable_path t))
    by serde_opt ltac:(done).
  assert (H8 : field_opt "executable_sha256" as_str m = Some (tk_executable_sha256 t))
    by serde_opt ltac:(done).
  assert (H9 : field_opt "broker_session_id" as_str m = Some (tk_broker_session_id t))
    by serde_opt ltac:(done).
  unfold SecretAccessTicket_of_object. rewrite H1, H2, H3, H4, H5, H6, H7, H8, H9.
  unfold m. repeat serde_step. rewrite !de_ser_str, de_ser_u64, !de_ser_u32 by done.
  replace (of_value (to_value (tk_delivery_mode t))) with (Some (tk_delivery_mode t))
    by by destruct (tk_delivery_mode t).
  by destruct t.
Qed.

Lemma SecretAccessTicket_json_ok t : SecretAccessTicket_wf t → json_ok (to_value t) = true.
Proof.
  intros []. apply json_ok_obj. unfold SecretAccessTicket_fields. cbn [forallb snd].
  rewrite !ser_u64_ok, !ser_opt_ok; [done|..].
  all: intros; try done; try apply ser_u64_ok; auto; unfold u32_max, u64_max in *;
    try (specialize (wf_tk_uid0 _ ltac:(eassumption))); lia.
Qed.

#[export] Instance SecretAccessTicket_serde_laws :
  SerdeLaws SecretAccessTicket SecretAccessTicket_wf.
Proof. split; [apply SecretAccessTicket_round|apply SecretAccessTicket_json_ok]. Qed.

Lemma set_ticket_wf n b mac t :
  SecretAccessTicket_wf t → 0 <= n <= u32_max → SecretAccessTicket_wf (set_ticket n b mac t).
Proof. intros [] Hn. by split. Qed.

(** The payload leaves out exactly the MAC. *)
Lemma payload_inj t t' :
  SecretAccessTicket_wf t → SecretAccessTicket_wf t' → tk_mac t = tk_mac t' →
  payload t = payload t' → t = t'.
Proof.
  intros Hwf Hwf' Hmac Hp.
  assert (Hv : to_value t = to_value t').
  { apply (jremove_obj_inj "mac"); [exact Hp|].
    rewrite (jget_obj "mac" _ (JStr (tk_mac t))), (jget_obj "mac" _ (JStr (tk_mac t')));
      [congruence|reflexivity..]. }
  assert (Some t = Some t') by (rewrite <-!of_to_value, Hv; done). congruence.
Qed.

Lemma payload_ok t : SecretAccessTicket_wf t → json_ok (payload t) = true.
Proof. intros. by apply jremove_ok, SecretAccessTicket_json_ok. Qed.

(** ** Lemmas: the manager *)

Section ticket_lemmas.
Context {X : Ext}.
Implicit Types (t : SecretAccessTicket) (r : AccessRequest).

Lemma payload_obj t : ∃ m, payload t = JObj m.
Proof. eexists. reflexivity. Qed.

Lemma ticket_mac_ok {E} k t :
  SecretAccessTicket_wf t →
  ticket_mac (E:=E) k (payload t) =
    Ok (b64url_no_padding (hmac_sha256 k (json_to_vec (payload t)))).
Proof.
  intros Hwf. unfold ticket_mac. pose proof (payload_ok t Hwf) as Hok.
  destruct (payload_obj t) as (m & Hm). rewrite Hm in *. by rewrite canonical_expect_ok.
Qed.

(** The MAC of a ticket does not depend on the MAC it carries. *)
Lemma payload_set_mac n b mac t : payload (set_ticket n b mac t) = payload (set_ticket n b "" t).
Proof.
  assert (Hof : ∀ u, payload u = JObj (oremove "mac" (of_list (SecretAccessTicket_fields u)))) by done.
  rewrite !Hof. apply (f_equal JObj).
  apply omap_eq; [apply osorted_oremove, osorted_of_list..|].
  intros k. destruct (decide (k = "mac")) as [->|Hne]; [by rewrite !oget_oremove_eq|].
  rewrite !oget_oremove_ne, !oget_of_list by done.
  unfold SecretAccessTicket_fields. cbn [assoc]. repeat case_match; try done.
  exfalso. apply Hne. by apply String.eqb_eq.
Qed.

#[local] Opaque payload.

Lemma authentic_set_mac k n b mac' t :
  authentic k (set_ticket n b
    (b64url_no_padding (hmac_sha256 k (json_to_vec (payload (set_ticket n b mac' t))))) t).
Proof.
  unfold authentic. simpl tk_mac.
  by rewrite (payload_set_mac n b mac'), (payload_set_mac n b (b64url_no_padding _)).
Qed.

Lemma authentic_self k t :
  authentic k (set_ticket (tk_uses_remaining t) (tk_revoked t)
    (b64url_no_padding (hmac_sha256 k (json_to_vec (payload t)))) t).
Proof.
  assert (Ht : set_ticket (tk_uses_remaining t) (tk_revoked t) (tk_mac t) t = t) by by destruct t.
  rewrite <-Ht at 3. apply authentic_set_mac.
Qed.

Lemma differ_false {A} `{EqDecision A} (a b : A) : differ a b = false ↔ a = b.
Proof. unfold differ. rewrite bool_decide_eq_false. destruct (decide (a = b)); naive_solver. Qed.

Lemma session_false t s :
  negb (broker_session_id_matches t s) = false ↔
  tk_broker_session_id t = None ∨ tk_broker_session_id t = s.
Proof.
  rewrite negb_false_iff. unfold broker_session_id_matches.
  destruct (tk_broker_session_id t), s; rewrite ?String.eqb_eq; naive_solver.
Qed.

Lemma validate_spec k t r now :
  SecretAccessTicket_wf t → validate k t r now = Ok tt ↔ ticket_admits k t r now.
Proof.
  intros Hwf. unfold validate. rewrite ticket_mac_ok by done. cbn [mbind res_bind].
  rewrite !ok_if, differ_false, Z.ltb_ge.
  destruct (rfc3339_parse (tk_expires_at t)) as [e|] eqn:He.
  - cbn [ok_or mbind res_bind]. rewrite !ok_if, !differ_false, session_false, Z.ltb_ge. split.
    + intros (Hm & ? & ? & ? & H). split; [done|done|done|by eauto|]. split; tauto.
    + intros [Hm ? ? (e' & He' & ?) []]. simplify_eq. apply eq_sym in Hm. tauto.
  - split; [naive_solver|]. intros [_ _ _ (e & ? & _) _]. congruence.
Qed.

Lemma consume_spec k t r now :
  SecretAccessTicket_wf t → ticket_admits k t r now →
  ∃ t', consume k t r now = Ok t' ∧ t' = set_ticket (tk_uses_remaining t - 1) false (tk_mac t') t ∧
    authentic k t'.
Proof.
  intros Hwf Hadm. unfold consume. rewrite (proj2 (validate_spec k t r now Hwf) Hadm).
  destruct Hadm as [_ Hl Hu _ _]. destruct Hwf.
  cbn [mbind res_bind].
  rewrite ticket_mac_ok by (apply set_ticket_wf; [by split|lia]). cbn [mbind res_bind].
  eexists. split; [reflexivity|]. rewrite Hl. split; [done|].
  apply (authentic_set_mac k (tk_uses_remaining t - 1) false (tk_mac t) t).
Qed.

Lemma consume_admits k t r now t' :
  SecretAccessTicket_wf t → consume k t r now = Ok t' → ticket_admits k t r now.
Proof.
  intros Hwf Hc. unfold consume in Hc. apply res_bind_ok_inv in Hc as ([] & Hv & _).
  by apply validate_spec.
Qed.

Lemma consume_err k t r now e : validate k t r now = Err e → consume k t r now = Err e.
Proof. intros Hv. unfold consume. by rewrite Hv. Qed.

Lemma revoke_spec k t :
  SecretAccessTicket_wf t → authentic k t →
  ∃ t', revoke k t = Ok t' ∧ t' = set_ticket (tk_uses_remaining t) true (tk_mac t') t ∧
    authentic k t'.
Proof.
  intros Hwf Ha. unfold revoke. rewrite (ticket_mac_ok (E:=TicketValidationError) k t Hwf). cbn [mbind res_bind].
  apply eq_sym, differ_false in Ha. rewrite Ha. destruct Hwf.
  rewrite ticket_mac_ok by (apply set_ticket_wf; [by split|lia]). cbn [mbind res_bind].
  eexists. split; [reflexivity|]. split; [done|].
  apply (authentic_set_mac k (tk_uses_remaining t) true (tk_mac t) t).
Qed.

Lemma revoke_authentic k t t' :
  SecretAccessTicket_wf t → revoke k t = Ok t' → authentic k t.
Proof.
  intros Hwf Hr. unfold revoke in Hr. rewrite (ticket_mac_ok (E:=TicketValidationError) k t Hwf) in Hr.
  cbn [mbind res_bind] in Hr. destruct (differ _ _) eqn:Hd; [done|].
  rewrite differ_false in Hd. symmetry. exact Hd.
Qed.

Lemma revoke_forged k t :
  SecretAccessTicket_wf t → ¬ authentic k t → revoke k t = Err MacMismatch.
Proof.
  intros Hwf Hna. unfold revoke.
  rewrite (ticket_mac_ok (E:=TicketValidationError) k t Hwf). cbn [mbind res_bind].
  destruct (differ _ _) eqn:Hd; [done|]. rewrite differ_false in Hd. by symmetry in Hd.
Qed.

Lemma ticket_context_set n b mac t r : ticket_context t r → ticket_context (set_ticket n b mac t) r.
Proof. by intros []. Qed.

(** The ticket [issue] builds. *)
Lemma issue_run {E} k vid sid v r p ph s w ttl :
  Duration_seconds (E:=E) (i64_of_u64 (pol_max_ticket_ttl_seconds p)) = Ok ttl →
  datetime_add (E:=E) (req_now r) ttl = Ok (req_now r + ttl) →
  0 <= v <= u64_max → AccessRequest_wf r → AccessPolicy_wf p →
  ∃ t, issue (E:=E) k vid sid v r p ph s w = (Ok t, {| tick := S (tick w); db := db w |}) ∧
    SecretAccessTicket_wf t ∧ authentic k t ∧
    tk_ticket_id t = uuid_new_v4 (tick w) ∧ tk_secret_version t = v ∧ tk_secret_id t = sid ∧
    tk_policy_id t = pol_policy_id p ∧ tk_policy_hash t = ph ∧ tk_vault_id t = vid ∧
    tk_broker_session_id t = s ∧
    tk_revoked t = false ∧ tk_uses_remaining t = pol_max_uses p ∧ tk_max_uses t = pol_max_uses p ∧
    tk_expires_at t = utc_millis (req_now r + ttl) ∧
    (s = None ∨ s = req_broker_session_id r → ticket_context t r).
Proof.
  intros Hd Ha Hv [] []. unfold issue.
  erewrite st_bind_ok; [|unfold lift; rewrite Hd; reflexivity].
  erewrite st_bind_ok; [|unfold lift; rewrite Ha; reflexivity].
  erewrite st_bind_ok; [|reflexivity].
  erewrite st_bind_ok; [|unfold lift; rewrite ticket_mac_ok; [reflexivity|by split]].
  eexists. split; [reflexivity|]. split; [by split|]. split; [|by repeat split].
  apply authentic_self.
Qed.
End ticket_lemmas.

(** A sequence of uses of one ticket, each of the ticket the last one left. *)
Fixpoint consume_all `{Ext} (mac_key : bytes) (t : SecretAccessTicket) (r : AccessRequest)
    (nows : list Z) : res TicketValidationError SecretAccessTicket :=
  match nows with
  | [] => Ok t
  | now :: nows => t' ← consume mac_key t r now; consume_all mac_key t' r nows
  end.

Section use_lemmas.
Context {X : Ext}.

Lemma exhausted_denied k t r now :
  SecretAccessTicket_wf t → authentic k t → tk_revoked t = false → tk_uses_remaining t = 0 →
  consume k t r now = Err ReplayDenied.
Proof.
  intros Hwf Ha Hl Hu. apply consume_err. unfold validate.
  rewrite (ticket_mac_ok (E:=TicketValidationError) k t Hwf). cbn [mbind res_bind].
  apply eq_sym, differ_false in Ha. by rewrite Ha, Hl, Hu.
Qed.

Lemma consume_all_spec k t r nows t_exp :
  SecretAccessTicket_wf t → authentic k t → tk_revoked t = false →
  rfc3339_parse (tk_expires_at t) = Some t_exp → Forall (λ now, now <= t_exp) nows →
  ticket_context t r →
  (Z.of_nat (length nows) <= tk_uses_remaining t →
     ∃ t', consume_all k t r nows = Ok t' ∧
       tk_uses_remaining t' = tk_uses_remaining t - Z.of_nat (length nows)) ∧
  (tk_uses_remaining t < Z.of_nat (length nows) → consume_all k t r nows = Err ReplayDenied).
Proof.
  intros Hwf Ha Hl He Hall. revert t Hwf Ha Hl He.
  induction Hall as [|now nows Hnow Hall IH]; intros t Hwf Ha Hl He Hc; cbn [length consume_all].
  - pose proof (wf_tk_uses _ Hwf). split; intros; [|lia]. exists t. split; [done|]. simpl. lia.
  - pose proof (wf_tk_uses _ Hwf) as Hu.
    destruct (decide (tk_uses_remaining t = 0)) as [Hz|Hnz].
    { split; intros; [lia|]. by rewrite exhausted_denied. }
    destruct (consume_spec k t r now Hwf) as (t' & Hrun & Ht' & Ha').
    { split; [done..|lia|by eauto|done]. }
    rewrite Hrun. cbn [mbind res_bind].
    assert (Hwf' : SecretAccessTicket_wf t') by (rewrite Ht'; apply set_ticket_wf; [done|lia]).
    destruct (IH t') as [IH1 IH2]; [done|done|by rewrite Ht'|by rewrite Ht'| |].
    { rewrite Ht'. by apply ticket_context_set. }
    assert (Hn : tk_uses_remaining t' = tk_uses_remaining t - 1) by by rewrite Ht'.
    split; intros Hlen.
    + destruct IH1 as (t'' & ? & ?); [lia|]. exists t''. split; [done|]. lia.
    + apply IH2. lia.
Qed.
End use_lemmas.

Lemma max_seconds : i64_max / 1000 = 9223372036854775.
Proof. done. Qed.

Lemma ttl_in_range {E} p :
  0 <= pol_max_ticket_ttl_seconds p <= i64_max / 1000 →
  Duration_seconds (E:=E) (i64_of_u64 (pol_max_ticket_ttl_seconds p)) =
    Ok (nanos_of_seconds (pol_max_ticket_ttl_seconds p)).
Proof.
  unfold i64_of_u64, Duration_seconds. rewrite max_seconds. intros Hr.
  rewrite (proj2 (Z.leb_le _ i64_max)) by (unfold i64_max; lia).
  by rewrite !(proj2 (Z.leb_le _ _)) by lia.
Qed.

Lemma four_digit_in_range {E} t d :
  four_digit_year (t + d) → datetime_add (E:=E) t d = Ok (t + d).
Proof.
  unfold four_digit_year, datetime_add, chrono_min, chrono_max, nanos_of_seconds, nanos_per_second.
  intros Hr. by rewrite !(proj2 (Z.leb_le _ _)) by lia.
Qed.

(** ** Properties *)

(** C34: [validate] accepts exactly what the ticket admits: an authentic, live, unexpired ticket
    with a use left, presented with the very context (secret, session, consumer, purpose,
    delivery mode, HTTP target, peer) it was issued for. *)
Theorem validate_iff_admits {X : Ext} k t r now :
  SecretAccessTicket_wf t → validate k t r now = Ok tt ↔ ticket_admits k t r now.
Proof. apply validate_spec. Qed.

Definition no_ticket : SecretAccessTicket := {|
  tk_ticket_id := "t"; tk_vault_id := "v"; tk_secret_id := "s"; tk_secret_ref := "r";
  tk_secret_version := 1; tk_consumer := "c"; tk_purpose := "p"; tk_delivery_mode := Pipe;
  tk_http_host := None; tk_http_scheme := None; tk_http_method := None; tk_http_path := None;
  tk_http_request_body_bytes := None; tk_os_uid := None; tk_executable_path := None;
  tk_executable_sha256 := None; tk_policy_id := "p1"; tk_policy_hash := "h";
  tk_exportable := false; tk_model_visible := false; tk_shell_visible := false;
  tk_broker_session_id := None; tk_issued_at := ""; tk_expires_at := ""; tk_max_uses := 1;
  tk_uses_remaining := 1; tk_revoked := false; tk_mac := "forged" |}.

Lemma validate_iff_admits_witness :
  validate (be_bytes 32 7) no_ticket (sample_request 0) 0 = Ok tt ↔
  ticket_admits (be_bytes 32 7) no_ticket (sample_request 0) 0.
Proof. apply validate_iff_admits. split; done. Defined.

(** A ticket grants exactly its policy's number of uses. A ticket issued for a request under a
    policy with a representable lifetime can be consumed, before it expires and for that
    request, [max_uses] times in sequence, each use leaving one less; any longer sequence
    ends in [ReplayDenied]. *)
Theorem issued_ticket_uses {X : Ext} {HT : ChronoLaws} k vid sid v r p ph w nows :
  0 <= v <= u64_max → AccessRequest_wf r → AccessPolicy_wf p →
  pol_max_ticket_ttl_seconds p <= i64_max / 1000 →
  let expiry := req_now r + nanos_of_seconds (pol_max_ticket_ttl_seconds p) in
  four_digit_year expiry → Forall (λ now, now <= trunc_millis expiry) nows →
  ∃ t w', issue (E:=TicketValidationError) k vid sid v r p ph (req_broker_session_id r) w =
            (Ok t, w') ∧
    (Z.of_nat (length nows) <= pol_max_uses p →
       ∃ t', consume_all k t r nows = Ok t' ∧
         tk_uses_remaining t' = pol_max_uses p - Z.of_nat (length nows)) ∧
    (pol_max_uses p < Z.of_nat (length nows) → consume_all k t r nows = Err ReplayDenied).
Proof.
  intros Hv Hr Hp Httl expiry Hy Hall. pose proof (wf_ttl _ Hp) as Ht.
  destruct (issue_run (E:=TicketValidationError) k vid sid v r p ph (req_broker_session_id r) w
    _ (ttl_in_range p ltac:(lia)) (four_digit_in_range _ _ Hy) Hv Hr Hp)
    as (t & Hrun & Hwf & Ha & _ & _ & _ & _ & _ & _ & _ & Hl & Hu & _ & He & Hc).
  exists t. eexists. split; [exact Hrun|]. rewrite <-Hu.
  apply consume_all_spec with (t_exp := trunc_millis expiry); try done.
  - rewrite He. by apply rfc3339_millis_round.
  - apply Hc. by right.
Qed.

Lemma issued_ticket_uses_witness :
  ∃ t w', issue (E:=TicketValidationError) (be_bytes 32 7) "v" "s" 1 (sample_request 0)
      sample_policy "h" None {| tick := 0; db := empty_db |} = (Ok t, w') ∧
    (3 <= 2 → ∃ t', consume_all (be_bytes 32 7) t (sample_request 0) [1; 2; 3] = Ok t' ∧
       tk_uses_remaining t' = 2 - 3) ∧
    (2 < 3 → consume_all (be_bytes 32 7) t (sample_request 0) [1; 2; 3] = Err ReplayDenied).
Proof.
  apply (issued_ticket_uses (be_bytes 32 7) "v" "s" 1 (sample_request 0) sample_policy "h"
    {| tick := 0; db := empty_db |} [1; 2; 3]).
  - unfold u64_max. lia.
  - split; simpl; [done|]. intros n [= <-]. unfold u32_max. lia.
  - split; simpl; try done; try (unfold u64_max, u32_max; lia); repeat constructor; done.
  - vm_compute. congruence.
  - vm_compute. split; congruence.
  - repeat constructor; vm_compute; congruence.
Defined.

(** C33: the MAC binds every field of a ticket. Two authentic tickets under the same key that
    carry the same MAC are equal, unless HMAC-SHA256 collides on their two payloads; and
    revoking a ticket yields one that no request at any time can use. *)
Theorem ticket_mac_binds {X : Ext} {HC : CodecLaws} k t t' :
  SecretAccessTicket_wf t → SecretAccessTicket_wf t' →
  authentic k t → authentic k t' → tk_mac t = tk_mac t' →
  (t = t' ∨ (json_to_vec (payload t) ≠ json_to_vec (payload t') ∧
     hmac_sha256 k (json_to_vec (payload t)) = hmac_sha256 k (json_to_vec (payload t')))) ∧
  ∃ revoked, revoke k t = Ok revoked ∧
    ∀ r now, validate k revoked r now = Err Revoked ∧ consume k revoked r now = Err Revoked.
Proof.
  intros Hwf Hwf' Ha Ha' Hmac. split.
  - assert (Hh : hmac_sha256 k (json_to_vec (payload t)) = hmac_sha256 k (json_to_vec (payload t'))).
    { apply b64url_inj. unfold authentic in *. congruence. }
    destruct (decide (json_to_vec (payload t) = json_to_vec (payload t'))) as [Heq|Hne]; [left|right; exact (conj Hne Hh)].
    apply json_to_vec_inj in Heq; [|by apply payload_ok..]. by apply payload_inj.
  - destruct (revoke_spec k t Hwf Ha) as (tr & Hrun & Htr & Hatr). exists tr. split; [done|].
    assert (Hwfr : SecretAccessTicket_wf tr).
    { rewrite Htr. apply set_ticket_wf; [exact Hwf|apply (wf_tk_uses _ Hwf)]. }
    assert (Hv : ∀ r now, validate k tr r now = Err Revoked).
    { intros r now. unfold validate.
      rewrite (ticket_mac_ok (E:=TicketValidationError) k tr Hwfr). cbn [mbind res_bind].
      apply eq_sym, differ_false in Hatr. rewrite Hatr. by rewrite Htr. }
    intros r now. auto using consume_err.
Qed.

Lemma ticket_mac_binds_witness : ∃ t w',
  issue (E:=TicketValidationError) (be_bytes 32 7) "v" "s" 1 (sample_request 0)
      sample_policy "h" None {| tick := 0; db := empty_db |} = (Ok t, w') ∧
  ∃ revoked, revoke (be_bytes 32 7) t = Ok revoked ∧
    ∀ r now, validate (be_bytes 32 7) revoked r now = Err Revoked ∧
             consume (be_bytes 32 7) revoked r now = Err Revoked.
Proof.
  eexists _, _. split; [vm_compute; reflexivity|].
  eapply (ticket_mac_binds (be_bytes 32 7)).
  5: reflexivity. 1-2: split; simpl; try done; try (unfold u64_max, u32_max; lia).
  1: intros n [= <-]; unfold u32_max; lia.
  1: intros n [= <-]; unfold u32_max; lia.
  all: vm_compute; reflexivity.
Defined.

(** Lifetimes are read as signed. A policy's [max_ticket_ttl_seconds] is a [u64] that
    [issue] casts to [i64]: beyond chrono's range of durations it panics, and for the largest
    values it is negative, so that a ticket issued with [u64::MAX] seconds has expired the
    moment it is issued. *)
Theorem oversized_ttl {X : Ext} {HT : ChronoLaws} k vid sid v r p ph s w :
  AccessPolicy_wf p → 0 <= v <= u64_max → AccessRequest_wf r →
  (i64_max / 1000 < pol_max_ticket_ttl_seconds p < 2 ^ 64 - i64_max / 1000 →
     issue (E:=TicketValidationError) k vid sid v r p ph s w = (Panic, w)) ∧
  (pol_max_ticket_ttl_seconds p = u64_max → four_digit_year (req_now r - nanos_per_second) →
     1 <= pol_max_uses p →
     ∃ t w', issue (E:=TicketValidationError) k vid sid v r p ph s w = (Ok t, w') ∧
       ∀ now r', req_now r <= now → validate k t r' now = Err Expired).
Proof.
  intros Hp Hv Hr. split.
  - intros Ht. unfold issue.
    assert (Hd : Duration_seconds (E:=TicketValidationError)
      (i64_of_u64 (pol_max_ticket_ttl_seconds p)) = Panic).
    { unfold Duration_seconds, i64_of_u64. rewrite max_seconds in *.
      destruct (Z.leb_spec (pol_max_ticket_ttl_seconds p) i64_max).
      - rewrite (proj2 (Z.leb_gt _ 9223372036854775)) by lia. by rewrite andb_false_r.
      - by rewrite (proj2 (Z.leb_gt (- _) _)) by lia. }
    unfold mbind, st_bind, lift. by rewrite Hd.
  - intros Ht Hy Hu.
    assert (Hd : Duration_seconds (E:=TicketValidationError)
      (i64_of_u64 (pol_max_ticket_ttl_seconds p)) = Ok (- nanos_per_second)) by by rewrite Ht.
    destruct (issue_run (E:=TicketValidationError) k vid sid v r p ph s w
      _ Hd (four_digit_in_range _ _ Hy) Hv Hr Hp)
      as (t & Hrun & Hwf & Ha & _ & _ & _ & _ & _ & _ & _ & Hl & Hur & _ & He & _).
    exists t. eexists. split; [exact Hrun|]. intros now r' Hnow. unfold validate.
    rewrite (ticket_mac_ok (E:=TicketValidationError) k t Hwf). cbn [mbind res_bind].
    apply eq_sym, differ_false in Ha. rewrite Ha, Hl, Hur.
    rewrite (proj2 (Z.ltb_ge _ 1)) by lia. rewrite He. unfold utc_millis.
    rewrite rfc3339_millis_round by done. cbn [ok_or mbind res_bind].
    assert (trunc_millis (req_now r + - nanos_per_second) <= req_now r - nanos_per_second).
    { unfold trunc_millis. pose proof (Z.mul_div_le (req_now r + - nanos_per_second)
        nanos_per_milli ltac:(vm_compute; done)). lia. }
    by rewrite (proj2 (Z.ltb_lt _ _)) by (unfold nanos_per_second in *; lia).
Qed.

(** [sample_policy] with the largest lifetime. *)
Definition set_ttl (ttl : Z) (p : AccessPolicy) : AccessPolicy := {|
  pol_policy_id := pol_policy_id p; pol_secret_refs := pol_secret_refs p;
  pol_allowed_consumers := pol_allowed_consumers p;
  pol_denied_consumers := pol_denied_consumers p;
  pol_allowed_purposes := pol_allowed_purposes p; pol_denied_purposes := pol_denied_purposes p;
  pol_allowed_delivery_modes := pol_allowed_delivery_modes p;
  pol_allowed_http_hosts := pol_allowed_http_hosts p;
  pol_denied_http_hosts := pol_denied_http_hosts p;
  pol_allowed_http_methods := pol_allowed_http_methods p;
  pol_denied_http_methods := pol_denied_http_methods p;
  pol_allowed_http_path_prefixes := pol_allowed_http_path_prefixes p;
  pol_denied_http_path_prefixes := pol_denied_http_path_prefixes p;
  pol_require_https_for_brokered_http := pol_require_https_for_brokered_http p;
  pol_max_http_request_body_bytes := pol_max_http_request_body_bytes p;
  pol_allowed_os_uids := pol_allowed_os_uids p; pol_denied_os_uids := pol_denied_os_uids p;
  pol_allowed_executable_paths := pol_allowed_executable_paths p;
  pol_denied_executable_paths := pol_denied_executable_paths p;
  pol_allowed_executable_sha256 := pol_allowed_executable_sha256 p;
  pol_denied_executable_sha256 := pol_denied_executable_sha256 p;
  pol_exportable := pol_exportable p; pol_max_ticket_ttl_seconds := ttl;
  pol_max_uses := pol_max_uses p;
  pol_minimum_provider_assurance := pol_minimum_provider_assurance p;
  pol_require_mfa := pol_require_mfa p;
  pol_allow_unbound_plaintext_export := pol_allow_unbound_plaintext_export p;
  pol_expires_at := pol_expires_at p |}.

Lemma oversized_ttl_witness : ∃ t w',
  issue (E:=TicketValidationError) (be_bytes 32 7) "v" "s" 1 (sample_request 0)
      (set_ttl u64_max sample_policy) "h" None {| tick := 0; db := empty_db |} = (Ok t, w') ∧
  ∀ now r', 0 <= now → validate (be_bytes 32 7) t r' now = Err Expired.
Proof.
  apply (oversized_ttl (be_bytes 32 7) "v" "s" 1 (sample_request 0)
    (set_ttl u64_max sample_policy) "h" None {| tick := 0; db := empty_db |}).
  - split; simpl; try done; try (unfold u64_max, u32_max; lia); repeat constructor; done.
  - unfold u64_max. lia.
  - split; simpl; [done|]. intros n [= <-]. unfold u32_max. lia.
  - reflexivity.
  - vm_compute. split; congruence.
  - simpl. lia.
Defined.
