(* ===== verification/AuditLog.v ===== *)
(** * The audit chain (audit.rs)

    Events carry the hash of their predecessor, their own hash and a MAC.  [append] extends a
    chain and [verify_audit_chain] checks one from the start. *)

From S2P Require Export World.
From S2P Require Import Toy.
#[local] Open Scope Z_scope.

Definition ZERO_HASH : string := "AAAAAAAAAAAAAAAAAAAAAAAAAAAAAAAAAAAAAAAAAAA".

Inductive AuditVerificationError : Type :=
| PreviousHashMismatch | EventHashMismatch | EventMacMismatch.

Record AuditEvent : Type := {
  ev_event_id : string;
  ev_timestamp : string;
  ev_vault_id : string;
  ev_namespace_id : string;
  ev_event_type : string;
  ev_severity : string;
  ev_decision : string;
  ev_previous_hash : string;
  ev_event_hash : string;
  ev_event_mac : string;
  ev_metadata : omap string json;
}.

(** The fields of [base] in [append], which are those [hash_payload] leaves. *)
Definition base_fields (event_id timestamp vault_id namespace_id event_type severity decision
    previous_hash : string) (metadata : omap string json) : list (string * json) :=
  [ ("event_id", JStr event_id);
    ("timestamp", JStr timestamp);
    ("vault_id", JStr vault_id);
    ("namespace_id", JStr namespace_id);
    ("event_type", JStr event_type);
    ("severity", JStr severity);
    ("decision", JStr decision);
    ("previous_hash", JStr previous_hash);
    ("metadata", JObj metadata) ].

Definition AuditEvent_fields (e : AuditEvent) : list (string * json) :=
  [ ("event_id", JStr (ev_event_id e));
    ("timestamp", JStr (ev_timestamp e));
    ("vault_id", JStr (ev_vault_id e));
    ("namespace_id", JStr (ev_namespace_id e));
    ("event_type", JStr (ev_event_type e));
    ("severity", JStr (ev_severity e));
    ("decision", JStr (ev_decision e));
    ("previous_hash", JStr (ev_previous_hash e));
    ("event_hash", JStr (ev_event_hash e));
    ("event_mac", JStr (ev_event_mac e));
    ("metadata", JObj (ev_metadata e)) ].

Definition AuditEvent_of_object (m : omap string json) : option AuditEvent :=
  event_id ← field "event_id" as_str m;
  timestamp ← field "timestamp" as_str m;
  vault_id ← field "vault_id" as_str m;
  namespace_id ← field "namespace_id" as_str m;
  event_type ← field "event_type" as_str m;
  severity ← field "severity" as_str m;
  decision ← field "decision" as_str m;
  previous_hash ← field "previous_hash" as_str m;
  event_hash ← field "event_hash" as_str m;
  event_mac ← field "event_mac" as_str m;
  metadata ← field "metadata" as_object m;
  Some {| ev_event_id := event_id; ev_timestamp := timestamp; ev_vault_id := vault_id;
          ev_namespace_id := namespace_id; ev_event_type := event_type;
          ev_severity := severity; ev_decision := decision;
          ev_previous_hash := previous_hash; ev_event_hash := event_hash;
          ev_event_mac := event_mac; ev_metadata := metadata |}.

#[export] Instance AuditEvent_serde : Serde AuditEvent := {
  to_value e := obj (AuditEvent_fields e);
  of_value v := as_object v ≫= AuditEvent_of_object;
}.

(** The metadata is a value the canonical encoding accepts. *)
Definition AuditEvent_wf (e : AuditEvent) : Prop := json_ok (JObj (ev_metadata e)) = true.

Definition mac_payload (e : AuditEvent) : json := jremove "event_mac" (to_value e).
Definition hash_payload (e : AuditEvent) : json :=
  jremove "event_mac" (jremove "event_hash" (to_value e)).

Section audit.
Context `{Ext} {E : Type}.

Definition audit_mac (mac_key : bytes) (payload : json) : res E string :=
  b ← canonical_expect payload; mret (b64url_no_padding (hmac_sha256 mac_key b)).

(** [AuditManager::append]: the new event, and the manager's events with it. *)
Definition AuditManager_append (mac_key : bytes) (events : list AuditEvent)
    (vault_id namespace_id event_type severity decision : string) (metadata : omap string json)
  : ST World E (AuditEvent * list AuditEvent) :=
  let previous_hash :=
    match last events with Some event => ev_event_hash event | None => ZERO_HASH end in
  event_id ← Uuid_new_v4;
  now ← Utc_now;
  let base := obj (base_fields event_id (utc_millis now) vault_id namespace_id event_type
                     severity decision previous_hash metadata) in
  b ← lift (canonical_expect base);
  let event_hash := b64url_no_padding (sha256 b) in
  let payload := jinsert "event_hash" (JStr event_hash) base in
  event_mac ← lift (audit_mac mac_key payload);
  event ← lift (expect (of_value (jinsert "event_mac" (JStr event_mac) payload)));
  mret (event, events ++ [event]).
End audit.

Section verification.
Context `{Ext}.

(** The loop of [verify_audit_chain] from a given [previous_hash]. *)
Fixpoint verify_from (mac_key : bytes) (previous_hash : string) (events : list AuditEvent)
  : res AuditVerificationError unit :=
  match events with
  | [] => Ok tt
  | event :: events =>
      if negb (String.eqb (ev_previous_hash event) previous_hash) then Err PreviousHashMismatch else
      b ← canonical_expect (hash_payload event);
      if negb (String.eqb (b64url_no_padding (sha256 b)) (ev_event_hash event))
      then Err EventHashMismatch else
      expected_mac ← audit_mac mac_key (mac_payload event);
      if negb (String.eqb expected_mac (ev_event_mac event)) then Err EventMacMismatch else
      verify_from mac_key (ev_event_hash event) events
  end.

Definition verify_audit_chain (events : list AuditEvent) (mac_key : bytes)
  : res AuditVerificationError unit := verify_from mac_key ZERO_HASH events.
End verification.

(** ** What a chain is *)

Definition last_hash (previous_hash : string) (events : list AuditEvent) : string :=
  match last events with Some e => ev_event_hash e | None => previous_hash end.

Definition hash_bytes_of `{Ext} (e : AuditEvent) : bytes := json_to_vec (hash_payload e).
Definition mac_bytes_of `{Ext} (e : AuditEvent) : bytes := json_to_vec (mac_payload e).

Definition event_seal `{Ext} (mac_key : bytes) (e : AuditEvent) : Prop :=
  ev_event_hash e = b64url_no_padding (sha256 (hash_bytes_of e)) ∧
  ev_event_mac e = b64url_no_padding (hmac_sha256 mac_key (mac_bytes_of e)).

Fixpoint chain `{Ext} (mac_key : bytes) (previous_hash : string) (events : list AuditEvent) : Prop :=
  match events with
  | [] => True
  | e :: events =>
      ev_previous_hash e = previous_hash ∧ event_seal mac_key e ∧
      chain mac_key (ev_event_hash e) events
  end.

(** ** Lemmas *)

Lemma AuditEvent_round e : AuditEvent_of_object (of_list (AuditEvent_fields e)) = Some e.
Proof. unfold AuditEvent_of_object. repeat serde_step. by destruct e. Qed.

Lemma AuditEvent_json_ok e : AuditEvent_wf e → json_ok (to_value e) = true.
Proof.
  intros Hwf. apply json_ok_obj. unfold AuditEvent_fields. cbn [forallb snd].
  unfold AuditEvent_wf in Hwf. rewrite Hwf. done.
Qed.

#[export] Instance AuditEvent_serde_laws : SerdeLaws AuditEvent AuditEvent_wf.
Proof. split; [intros e _; apply AuditEvent_round|apply AuditEvent_json_ok]. Qed.

(** The hash payload is the [base] object the event was built from. *)
Lemma hash_payload_base e :
  hash_payload e = obj (base_fields (ev_event_id e) (ev_timestamp e) (ev_vault_id e)
    (ev_namespace_id e) (ev_event_type e) (ev_severity e) (ev_decision e) (ev_previous_hash e)
    (ev_metadata e)).
Proof. reflexivity. Qed.

Lemma mac_payload_insert e :
  mac_payload e = jinsert "event_hash" (JStr (ev_event_hash e)) (hash_payload e).
Proof. reflexivity. Qed.

Lemma to_value_insert e : to_value e = jinsert "event_mac" (JStr (ev_event_mac e)) (mac_payload e).
Proof. reflexivity. Qed.

Lemma hash_payload_ok e : AuditEvent_wf e → json_ok (hash_payload e) = true.
Proof. intros. by apply jremove_ok, jremove_ok, AuditEvent_json_ok. Qed.

Lemma mac_payload_ok e : AuditEvent_wf e → json_ok (mac_payload e) = true.
Proof. intros. by apply jremove_ok, AuditEvent_json_ok. Qed.

Section audit_lemmas.
Context {X : Ext}.

Lemma canonical_expect_obj {E} v m :
  v = JObj m → json_ok v = true → canonical_expect (E:=E) v = Ok (json_to_vec v).
Proof. intros -> Hok. by apply canonical_expect_ok. Qed.

Lemma hash_payload_canonical {E} e :
  AuditEvent_wf e → canonical_expect (E:=E) (hash_payload e) = Ok (hash_bytes_of e).
Proof. intros. eapply canonical_expect_obj; [reflexivity|by apply hash_payload_ok]. Qed.

Lemma audit_mac_event {E} k e :
  AuditEvent_wf e →
  audit_mac (E:=E) k (mac_payload e) = Ok (b64url_no_padding (hmac_sha256 k (mac_bytes_of e))).
Proof.
  intros. unfold audit_mac.
  erewrite canonical_expect_obj; [reflexivity|reflexivity|by apply mac_payload_ok].
Qed.

Lemma if_eqb {A} (s t : string) (e : AuditVerificationError) (X' : res AuditVerificationError A) a :
  (if negb (String.eqb s t) then Err e else X') = Ok a ↔ s = t ∧ X' = Ok a.
Proof. destruct (String.eqb_spec s t); simpl; naive_solver. Qed.

#[local] Opaque hash_payload mac_payload.

Lemma verify_from_chain k h l :
  Forall AuditEvent_wf l → verify_from k h l = Ok tt ↔ chain k h l.
Proof.
  intros Hwf. revert h. induction Hwf as [|e l He Hl IH]; intros h; cbn [verify_from chain];
    [done|].
  rewrite if_eqb, hash_payload_canonical by exact He. cbn [mbind res_bind].
  rewrite if_eqb, audit_mac_event by exact He. cbn [mbind res_bind].
  rewrite if_eqb, IH. unfold event_seal. split.
  - intros (Hp & Hh & Hm & Hc). auto.
  - intros (Hp & [Hh Hm] & Hc). auto.
Qed.

Lemma chain_app k h l1 l2 :
  chain k h (l1 ++ l2) ↔ chain k h l1 ∧ chain k (last_hash h l1) l2.
Proof.
  revert h. induction l1 as [|e l1 IH]; intros h; cbn [app chain]; [unfold last_hash; simpl; tauto|].
  rewrite IH. unfold last_hash. simpl. rewrite last_cons. destruct (last l1); tauto.
Qed.

(** The event [append] builds is sealed and follows the last one. *)
Lemma append_run {E} k events vid ns ty sev dec md w :
  json_ok (JObj md) = true →
  ∃ e, AuditManager_append (E:=E) k events vid ns ty sev dec md w =
         (Ok (e, events ++ [e]), {| tick := 2 + tick w; db := db w |}) ∧
    AuditEvent_wf e ∧ event_seal k e ∧ ev_previous_hash e = last_hash ZERO_HASH events ∧
    ev_event_id e = uuid_new_v4 (tick w) ∧
    ev_vault_id e = vid ∧ ev_namespace_id e = ns ∧ ev_event_type e = ty ∧
    ev_severity e = sev ∧ ev_decision e = dec ∧ ev_metadata e = md.
Proof.
  intros Hmd.
  set (base := base_fields (uuid_new_v4 (tick w)) (utc_millis (utc_now (S (tick w)))) vid ns ty sev
    dec (last_hash ZERO_HASH events) md).
  assert (Hb : json_ok (obj base) = true).
  { apply json_ok_obj. unfold base, base_fields. cbn [forallb snd]. by rewrite Hmd. }
  set (h := b64url_no_padding (sha256 (json_to_vec (obj base)))).
  set (e0 m := {| ev_event_id := uuid_new_v4 (tick w);
    ev_timestamp := utc_millis (utc_now (S (tick w))); ev_vault_id := vid;
    ev_namespace_id := ns; ev_event_type := ty; ev_severity := sev; ev_decision := dec;
    ev_previous_hash := last_hash ZERO_HASH events; ev_event_hash := h; ev_event_mac := m;
    ev_metadata := md |}).
  assert (Hh : ∀ m, hash_payload (e0 m) = obj base) by (intros; apply hash_payload_base).
  assert (Hm : ∀ m, mac_payload (e0 m) = jinsert "event_hash" (JStr h) (obj base)).
  { intros m. rewrite mac_payload_insert, Hh. reflexivity. }
  set (mac := b64url_no_padding (hmac_sha256 k (mac_bytes_of (e0 "")))).
  assert (Hwf : ∀ m, AuditEvent_wf (e0 m)) by (intros; exact Hmd).
  exists (e0 mac). split; [|split; [apply Hwf|]].
  - unfold AuditManager_append. fold (last_hash ZERO_HASH events).
    do 2 (erewrite st_bind_ok; [|reflexivity]). cbv beta zeta. cbn [tick db]. fold base.
    erewrite st_bind_ok; [|unfold lift; rewrite (canonical_expect_obj (obj base) _ eq_refl Hb); reflexivity].
    cbv beta. fold h. rewrite <-(Hm "").
    erewrite st_bind_ok; [|unfold lift; rewrite (audit_mac_event k _ (Hwf "")); reflexivity].
    fold mac. rewrite (Hm "" : _ = _), <-(Hm mac).
    change (JStr mac) with (JStr (ev_event_mac (e0 mac))). rewrite <-to_value_insert.
    erewrite st_bind_ok; [|unfold lift; rewrite of_to_value by apply Hwf; reflexivity].
    reflexivity.
  - split; [|repeat split]. unfold event_seal, hash_bytes_of. rewrite Hh. split; [reflexivity|].
    cbn [e0 ev_event_mac]. unfold mac, mac_bytes_of. by rewrite !Hm.
Qed.

Lemma chain_snoc k h events e :
  chain k h events → ev_previous_hash e = last_hash h events → event_seal k e →
  chain k h (events ++ [e]).
Proof. intros Hc Hp Hs. apply chain_app. simpl. auto. Qed.
End audit_lemmas.

Section tampering.
Context {X : Ext} {HC : CodecLaws}.

(** Sealed events with the same hash are the same event, or SHA-256 collides on them. *)
Lemma sealed_hash_inj k e1 e2 :
  AuditEvent_wf e1 → AuditEvent_wf e2 → event_seal k e1 → event_seal k e2 →
  ev_event_hash e1 = ev_event_hash e2 →
  e1 = e2 ∨ (hash_bytes_of e1 ≠ hash_bytes_of e2 ∧
             sha256 (hash_bytes_of e1) = sha256 (hash_bytes_of e2)).
Proof.
  intros Hw1 Hw2 [Hh1 Hm1] [Hh2 Hm2] Heq.
  assert (Hsha : sha256 (hash_bytes_of e1) = sha256 (hash_bytes_of e2)).
  { apply b64url_inj. congruence. }
  destruct (decide (hash_bytes_of e1 = hash_bytes_of e2)) as [Hb|Hne];
    [left|right; exact (conj Hne Hsha)].
  apply json_to_vec_inj in Hb; [|by apply hash_payload_ok..].
  assert (Hmac : ev_event_mac e1 = ev_event_mac e2).
  { rewrite Hm1, Hm2. unfold mac_bytes_of. by rewrite !mac_payload_insert, Hb, Heq. }
  assert (Hv : to_value e1 = to_value e2).
  { by rewrite !to_value_insert, !mac_payload_insert, Hb, Heq, Hmac. }
  assert (Some e1 = Some e2); [|congruence]. by rewrite <-!of_to_value, Hv by done.
Qed.

Lemma last_hash_snoc h l e : last_hash h (l ++ [e]) = ev_event_hash e.
Proof. unfold last_hash. by rewrite last_snoc. Qed.

(** What two logs that end in one hash, but differ, come down to. *)
Definition collision (l1 l2 : list AuditEvent) : Prop :=
  ∃ e1 e2, e1 ∈ l1 ∧ e2 ∈ l2 ∧ hash_bytes_of e1 ≠ hash_bytes_of e2 ∧
    sha256 (hash_bytes_of e1) = sha256 (hash_bytes_of e2).
Lemma collision_app l1 l2 m1 m2 : collision l1 l2 → collision (l1 ++ m1) (l2 ++ m2).
Proof. intros (e1 & e2 & ? & ? & ?). exists e1, e2. rewrite !elem_of_app. tauto. Qed.

Lemma chains_agree k l1 l2 :
  Forall AuditEvent_wf l1 → Forall AuditEvent_wf l2 →
  chain k ZERO_HASH l1 → chain k ZERO_HASH l2 →
  last_hash ZERO_HASH l1 = last_hash ZERO_HASH l2 →
  l1 = l2 ∨ collision l1 l2 ∨
  (length l1 ≠ length l2 ∧ ∃ e, e ∈ l1 ++ l2 ∧ ev_event_hash e = ZERO_HASH).
Proof.
  revert l2. induction l1 as [|e1 l1 IH] using rev_ind; intros l2 Hw1 Hw2 Hc1 Hc2 Hl;
    destruct l2 as [|e2 l2 _] using rev_ind; [by left|..].
  - right. right. rewrite length_app. simpl. split; [lia|]. exists e2.
    rewrite last_hash_snoc in Hl. split; [set_solver|done].
  - right. right. rewrite length_app. simpl. split; [lia|]. exists e1.
    rewrite last_hash_snoc in Hl. split; [set_solver|done].
  - rewrite !last_hash_snoc in Hl.
    apply Forall_app in Hw1 as [Hw1 He1], Hw2 as [Hw2 He2].
    rewrite Forall_singleton in He1, He2.
    apply chain_app in Hc1 as [Hc1 (Hp1 & Hs1 & _)], Hc2 as [Hc2 (Hp2 & Hs2 & _)].
    destruct (sealed_hash_inj k e1 e2 He1 He2 Hs1 Hs2 Hl) as [->|[Hne Hsha]].
    + destruct (IH l2) as [->|[Hcol|(Hlen & e & Hin & ?)]]; [done..|congruence|by left| |].
      * right. left. by apply collision_app.
      * right. right. rewrite !length_app. simpl. split; [lia|]. exists e. split; [|done].
        rewrite !elem_of_app in *. tauto.
    + right. left. exists e1, e2. rewrite !elem_of_app, !list_elem_of_singleton. auto.
Qed.
End tampering.

(** ** Properties *)

(** Appending keeps a chain verifiable. Over any log that verifies, [append] always yields an
    event (whatever the metadata, as long as it has no floats), and the log with that event
    verifies under the same key; in particular every log built by appending to the empty one
    verifies. *)
Theorem append_keeps_chain {X : Ext} k events vid ns ty sev dec md w :
  Forall AuditEvent_wf events → json_ok (JObj md) = true →
  verify_audit_chain events k = Ok tt →
  ∃ e w', AuditManager_append (E:=AuditVerificationError) k events vid ns ty sev dec md w =
            (Ok (e, events ++ [e]), w') ∧
    db w' = db w ∧ ev_metadata e = md ∧ ev_decision e = dec ∧
    verify_audit_chain (events ++ [e]) k = Ok tt.
Proof.
  intros Hwf Hmd Hv.
  destruct (append_run (E:=AuditVerificationError) k events vid ns ty sev dec md w Hmd)
    as (e & Hrun & Hwe & Hseal & Hprev & _ & _ & _ & _ & _ & Hd & Hm).
  exists e. eexists. split; [exact Hrun|]. repeat split; [done..|].
  apply verify_from_chain; [by apply Forall_app; auto|].
  apply chain_snoc; [|done..]. by apply verify_from_chain in Hv.
Qed.

Definition no_metadata : omap string json := [].

Lemma append_keeps_chain_witness : ∃ e w',
  AuditManager_append (E:=AuditVerificationError) (be_bytes 32 9) [] "v" "default"
    "secret.stored" "info" "allow" no_metadata {| tick := 0; db := empty_db |} =
      (Ok (e, [e]), w') ∧
  db w' = empty_db ∧ ev_metadata e = no_metadata ∧ ev_decision e = "allow" ∧
  verify_audit_chain [e] (be_bytes 32 9) = Ok tt.
Proof.
  apply (append_keeps_chain (be_bytes 32 9) [] "v" "default" "secret.stored" "info" "allow"
    no_metadata {| tick := 0; db := empty_db |}); [constructor|reflexivity..].
Defined.

(** C35: the last hash determines the log. Two logs that verify under the same key and end in the
    same event hash are equal event by event, MACs and metadata included, so that no event
    can be edited, inserted, removed or reordered before it, unless SHA-256 collides on an event
    of the one and an event of the other.  Only between logs of different lengths is there another
    way out: that some event's hash is the all-zero start of the chain. *)
Theorem last_hash_determines_log {X : Ext} {HC : CodecLaws} k l1 l2 :
  Forall AuditEvent_wf l1 → Forall AuditEvent_wf l2 →
  verify_audit_chain l1 k = Ok tt → verify_audit_chain l2 k = Ok tt →
  last_hash ZERO_HASH l1 = last_hash ZERO_HASH l2 →
  l1 = l2 ∨
  (∃ e1 e2, e1 ∈ l1 ∧ e2 ∈ l2 ∧ hash_bytes_of e1 ≠ hash_bytes_of e2 ∧
     sha256 (hash_bytes_of e1) = sha256 (hash_bytes_of e2)) ∨
  (length l1 ≠ length l2 ∧ ∃ e, e ∈ l1 ++ l2 ∧ ev_event_hash e = ZERO_HASH).
Proof.
  intros Hw1 Hw2 Hv1 Hv2. unfold verify_audit_chain in *.
  rewrite verify_from_chain in Hv1, Hv2 by done. by eapply chains_agree.
Qed.

(** A log of two events, the second of a namespace.  The hash of [Toy] is a sum of the bytes in
    base 33, on which the namespaces ab and bA collide. *)
Definition log_of (ns : string) : list AuditEvent :=
  match (r ← AuditManager_append (E:=AuditVerificationError) (be_bytes 32 9) [] "v" "default"
               "vault.initialized" "info" "allow" no_metadata;
         AuditManager_append (be_bytes 32 9) r.2 "v" ns "secret.stored" "info" "allow"
           no_metadata) {| tick := 0; db := empty_db |} with
  | (Ok (_, events), _) => events
  | _ => []
  end.
Definition sample_log : list AuditEvent := log_of "default".

Lemma last_hash_determines_log_witness :
  log_of "ab" ≠ log_of "bA" ∧ length (log_of "ab") = 2%nat ∧
  ∃ e1 e2, e1 ∈ log_of "ab" ∧ e2 ∈ log_of "bA" ∧ hash_bytes_of e1 ≠ hash_bytes_of e2 ∧
    sha256 (hash_bytes_of e1) = sha256 (hash_bytes_of e2).
Proof.
  assert (Hne : log_of "ab" ≠ log_of "bA") by (vm_compute; discriminate).
  split; [exact Hne|]. split; [vm_compute; reflexivity|].
  destruct (last_hash_determines_log (be_bytes 32 9) (log_of "ab") (log_of "bA"))
    as [Heq|[Hc|[Hlen _]]];
    [repeat constructor..|vm_compute; reflexivity|vm_compute; reflexivity|vm_compute; reflexivity
    |destruct (Hne Heq)|exact Hc|destruct (Hlen eq_refl)].
Defined.

(** The chain does not see truncation. Every prefix of a log that verifies also verifies: an
    attacker who drops the newest events leaves a log [verify_audit_chain] accepts. *)
Theorem truncated_log_verifies {X : Ext} k l1 l2 :
  Forall AuditEvent_wf (l1 ++ l2) →
  verify_audit_chain (l1 ++ l2) k = Ok tt → verify_audit_chain l1 k = Ok tt.
Proof.
  intros Hwf Hv. unfold verify_audit_chain in *. rewrite verify_from_chain in Hv by done.
  apply chain_app in Hv as [Hv _]. apply Forall_app in Hwf as [Hwf _]. by apply verify_from_chain.
Qed.

Lemma truncated_log_verifies_witness :
  verify_audit_chain (take 1 sample_log) (be_bytes 32 9) = Ok tt.
Proof.
  apply (truncated_log_verifies (be_bytes 32 9) (take 1 sample_log) (drop 1 sample_log)).
  - repeat constructor.
  - vm_compute. reflexivity.
Defined.
