(* ===== verification/Mfa.v ===== *)
(** * One-time codes (mfa.rs)

    TOTP configuration, base32, the code of a time step and the verification window.  The
    32-bit shift buffers of the base32 loops wrap as in the source. *)

From S2P Require Export World.
From S2P Require Import Toy.
#[local] Open Scope Z_scope.

Definition TOTP_SECRET_REF : string := "secret://hbse/internal/mfa/totp".
Definition DEFAULT_TOTP_PERIOD_SECONDS : Z := 30.
Definition DEFAULT_TOTP_DIGITS : Z := 6.

Inductive MfaError : Type := InvalidSeed | InvalidCode | UnsupportedAlgorithm (algorithm : string).

Record TotpConfig : Type := {
  totp_issuer : string;
  totp_account : string;
  totp_algorithm : string;
  totp_digits : Z;
  totp_period_seconds : Z;
  totp_secret_base32 : string;
}.

Record TotpEnrollment : Type := {
  enr_issuer : string;
  enr_account : string;
  enr_algorithm : string;
  enr_digits : Z;
  enr_period_seconds : Z;
  enr_secret_base32 : string;
  enr_otpauth_uri : string;
}.

Definition TotpConfig_fields (c : TotpConfig) : list (string * json) :=
  [ ("issuer", JStr (totp_issuer c));
    ("account", JStr (totp_account c));
    ("algorithm", JStr (totp_algorithm c));
    ("digits", ser_u64 (totp_digits c));
    ("period_seconds", ser_u64 (totp_period_seconds c));
    ("secret_base32", JStr (totp_secret_base32 c)) ].

Definition TotpConfig_of_object (m : omap string json) : option TotpConfig :=
  issuer ← field "issuer" as_str m;
  account ← field "account" as_str m;
  algorithm ← field "algorithm" as_str m;
  digits ← field "digits" de_u32 m;
  period_seconds ← field "period_seconds" de_u64 m;
  secret_base32 ← field "secret_base32" as_str m;
  Some {| totp_issuer := issuer; totp_account := account; totp_algorithm := algorithm;
          totp_digits := digits; totp_period_seconds := period_seconds;
          totp_secret_base32 := secret_base32 |}.

#[export] Instance TotpConfig_serde : Serde TotpConfig := {
  to_value c := obj (TotpConfig_fields c);
  of_value v := as_object v ≫= TotpConfig_of_object;
}.

Record TotpConfig_wf (c : TotpConfig) : Prop := {
  wf_digits : 0 <= totp_digits c <= u32_max;
  wf_period : 0 <= totp_period_seconds c <= u64_max;
}.

(** ** Base32 *)

Definition base32_alphabet : string := "ABCDEFGHIJKLMNOPQRSTUVWXYZ234567".
Definition alphabet_char (index : Z) : ascii :=
  match String.get (Z.to_nat index) base32_alphabet with Some a => a | None => "A"%char end.

(** [buffer << n] and [buffer >> n] on [u32]. *)
Definition u32_shl (x n : Z) : Z := u32_wrap (Z.shiftl x n).
Definition u32_shr (x n : Z) : Z := Z.shiftr x n.

(** The inner loop: the complete groups of five bits of the buffer. *)
Fixpoint drain (fuel : nat) (buffer bits : Z) : list Z * Z :=
  match fuel with
  | O => ([], bits)
  | S fuel =>
      if 5 <=? bits then
        let index := Z.land (u32_shr buffer (bits - 5)) 31 in
        let '(indices, bits) := drain fuel buffer (bits - 5) in (index :: indices, bits)
      else ([], bits)
  end.

(** The outer loop, from a buffer with [bits] pending bits; [bits] is below 5 at its start, so
    that two rounds of the inner loop empty it. *)
Fixpoint encode_groups (value : bytes) (buffer bits : Z) : list Z :=
  match value with
  | [] => if 0 <? bits then [Z.land (u32_shl buffer (5 - bits)) 31] else []
  | byte :: value =>
      let buffer := Z.lor (u32_shl buffer 8) (byte_Z byte) in
      let '(indices, bits) := drain 3 buffer (bits + 8) in
      indices ++ encode_groups value buffer bits
  end.

Fixpoint string_of_indices (l : list Z) : string :=
  match l with [] => EmptyString | i :: l => String (alphabet_char i) (string_of_indices l) end.

Definition base32_encode_no_padding (value : bytes) : string :=
  string_of_indices (encode_groups value 0 0).

(** The index of one character. *)
Definition base32_index (ch : string) : res MfaError Z :=
  match ch with
  | String a EmptyString =>
      if ascii_is_upper (ascii_upper a) then Ok (Z.of_N (N_of_ascii (ascii_upper a)) - 65) else
      if ascii_in 50 55 (ascii_upper a) then Ok (Z.of_N (N_of_ascii a) - 50 + 26)
      else Err InvalidSeed
  | _ => Err InvalidSeed
  end.

Fixpoint decode_groups (chs : list string) (buffer bits : Z) : res MfaError bytes :=
  match chs with
  | [] => Ok []
  | ch :: chs =>
      index ← base32_index ch;
      let buffer := Z.lor (u32_shl buffer 5) index in
      let bits := bits + 5 in
      if 8 <=? bits then
        rest ← decode_groups chs buffer (bits - 8);
        mret (Z_byte (Z.land (u32_shr buffer (bits - 8)) 255) :: rest)
      else decode_groups chs buffer bits
  end.

Definition base32_decode_no_padding (value : string) : res MfaError bytes :=
  output ← decode_groups
    (List.filter (λ ch, negb (is_whitespace ch) && negb (String.eqb ch "=")) (chars value)) 0 0;
  if decide (output = []) then Err InvalidSeed else Ok output.

(** ** Codes *)

Definition byte_at (b : bytes) (i : Z) : res MfaError Z := expect (byte_Z <$> b !! Z.to_nat i).

Definition totp_at_step `{Ext} (secret : bytes) (step digits : Z) : res MfaError string :=
  let digest := hmac_sha1 secret (be_bytes 8 step) in
  b19 ← byte_at digest 19;
  let offset := Z.land b19 15 in
  b0 ← byte_at digest offset;
  b1 ← byte_at digest (offset + 1);
  b2 ← byte_at digest (offset + 2);
  b3 ← byte_at digest (offset + 3);
  let binary := Z.lor (Z.lor (Z.lor (u32_shl (Z.land b0 127) 24) (u32_shl b1 16)) (u32_shl b2 8)) b3 in
  modulo ← (if 10 ^ digits <=? u32_max then Ok (10 ^ digits) else Err InvalidCode);
  mret (pad_left "0" (Z.to_nat digits) (dec (binary mod modulo))).

Definition normalize_code (code : string) : res MfaError string :=
  let normalized := List.filter (λ ch, negb (is_whitespace ch)) (chars code) in
  if is_empty (concat_str normalized) || negb (forallb is_ascii_digit normalized)
  then Err InvalidCode else Ok (concat_str normalized).

(** The loop over the window; [i64] additions wrap. *)
Definition i64_wrap (z : Z) : Z := (z + 2 ^ 63) mod 2 ^ 64 - 2 ^ 63.
Fixpoint try_steps `{Ext} (secret : bytes) (digits step : Z) (code : string) (offsets : list Z)
  : res MfaError bool :=
  match offsets with
  | [] => Ok false
  | offset :: offsets =>
      let candidate_step := i64_wrap (step + offset) in
      if candidate_step <? 0 then try_steps secret digits step code offsets else
      candidate ← totp_at_step secret candidate_step digits;
      if String.eqb candidate code then Ok true else try_steps secret digits step code offsets
  end.

Definition window (allowed_drift_steps : Z) : list Z :=
  seqZ (- allowed_drift_steps) (2 * allowed_drift_steps + 1).

Definition verify_totp_code `{Ext} (config : TotpConfig) (code : string) (unix_time_seconds : Z)
    (allowed_drift_steps : Z) : res MfaError bool :=
  if negb (eq_ignore_ascii_case (totp_algorithm config) "SHA1")
  then Err (UnsupportedAlgorithm (totp_algorithm config)) else
  code ← normalize_code code;
  secret ← base32_decode_no_padding (totp_secret_base32 config);
  let period := Z.max (totp_period_seconds config) 1 in
  let step := i64_of_u64 (unix_time_seconds / period) in
  try_steps secret (totp_digits config) step code (window allowed_drift_steps).

(** ** Enrollment *)

Definition unreserved (a : ascii) : bool :=
  ascii_is_alnum a || bool_decide (a ∈ ["-"; "_"; "."; "~"]%char).
Fixpoint percent_encode (value : string) : string :=
  match value with
  | EmptyString => EmptyString
  | String a value =>
      if unreserved a then String a (percent_encode value)
      else "%" +:+ hex_byte true (byte_of_ascii a) +:+ percent_encode value
  end%string.

Definition otpauth_uri (c : TotpConfig) : string :=
  "otpauth://totp/" +:+ percent_encode (totp_issuer c) +:+ ":" +:+
  percent_encode (totp_account c) +:+ "?secret=" +:+ totp_secret_base32 c +:+ "&issuer=" +:+
  percent_encode (totp_issuer c) +:+ "&algorithm=" +:+ totp_algorithm c +:+ "&digits=" +:+
  dec (totp_digits c) +:+ "&period=" +:+ dec (totp_period_seconds c).

Definition enrollment (c : TotpConfig) : TotpEnrollment := {|
  enr_issuer := totp_issuer c; enr_account := totp_account c;
  enr_algorithm := totp_algorithm c; enr_digits := totp_digits c;
  enr_period_seconds := totp_period_seconds c; enr_secret_base32 := totp_secret_base32 c;
  enr_otpauth_uri := otpauth_uri c |}.

Definition new_totp_config `{Ext} {E} (issuer account : string) : ST World E TotpConfig :=
  secret ← random 20;
  mret {| totp_issuer := issuer; totp_account := account; totp_algorithm := "SHA1";
          totp_digits := DEFAULT_TOTP_DIGITS;
          totp_period_seconds := DEFAULT_TOTP_PERIOD_SECONDS;
          totp_secret_base32 := base32_encode_no_padding secret |}.

(** The enrollment URI of the program's own test. *)
Example otpauth_uri_sample :
  otpauth_uri {| totp_issuer := "HBSE"; totp_account := "local vault"; totp_algorithm := "SHA1";
                 totp_digits := 6; totp_period_seconds := 30;
                 totp_secret_base32 := "JBSWY3DPEHPK3PXP" |} =
  "otpauth://totp/HBSE:local%20vault?secret=JBSWY3DPEHPK3PXP&issuer=HBSE&algorithm=SHA1&digits=6&period=30".
Proof. vm_compute. reflexivity. Qed.

(** ** Lemmas: base32 *)

Lemma u32_shl_mod x n : 0 <= n <= 32 → u32_shl x n = x mod 2 ^ (32 - n) * 2 ^ n.
Proof.
  intros Hn. unfold u32_shl, u32_wrap. rewrite Z.shiftl_mul_pow2 by lia.
  replace (2 ^ 32) with (2 ^ (32 - n) * 2 ^ n) by (rewrite <-Z.pow_add_r by lia; f_equal; lia).
  by rewrite Z.mul_mod_distr_r by (apply Z.pow_nonzero; lia).
Qed.

Lemma shift_in8 x b : 0 <= b < 256 → Z.lor (u32_shl x 8) b = x mod 2 ^ 24 * 256 + b.
Proof. intros Hb. rewrite u32_shl_mod by lia. by rewrite (lor_add _ _ 8) by lia. Qed.

Lemma shift_in5 x d : 0 <= d < 32 → Z.lor (u32_shl x 5) d = x mod 2 ^ 27 * 32 + d.
Proof. intros Hb. rewrite u32_shl_mod by lia. by rewrite (lor_add _ _ 5) by lia. Qed.

Lemma group_at x n : 0 <= n → Z.land (u32_shr x n) 31 = x / 2 ^ n mod 32.
Proof.
  intros Hn. unfold u32_shr. rewrite Z.shiftr_div_pow2 by done.
  change 31 with (Z.ones 5). by rewrite Z.land_ones by lia.
Qed.

Lemma octet_at x n : 0 <= n → Z.land (u32_shr x n) 255 = x / 2 ^ n mod 256.
Proof.
  intros Hn. unfold u32_shr. rewrite Z.shiftr_div_pow2 by done.
  change 255 with (Z.ones 8). by rewrite Z.land_ones by lia.
Qed.

Definition char_of_index (i : Z) : string := String (alphabet_char i) EmptyString.

Lemma forallb_range (p : Z → bool) n i :
  forallb p (seqZ 0 n) = true → 0 <= i < n → p i = true.
Proof.
  rewrite forallb_forall. intros Hall Hi. apply Hall, list_elem_of_In, elem_of_seqZ. lia.
Qed.

Lemma base32_index_char i : 0 <= i < 32 → base32_index (char_of_index i) = Ok i.
Proof.
  intros Hi. pose proof (forallb_range (λ i,
    match base32_index (char_of_index i) with Ok j => Z.eqb j i | _ => false end) 32 i
    ltac:(vm_compute; reflexivity) Hi) as Hp. cbv beta in Hp.
  destruct (base32_index _); [|done..]. by apply Z.eqb_eq in Hp as ->.
Qed.

Lemma alphabet_plain i :
  0 <= i < 32 →
  negb (is_whitespace (char_of_index i)) && negb (String.eqb (char_of_index i) "=") = true ∧
  is_ascii (alphabet_char i) = true.
Proof.
  intros Hi. apply andb_true_iff.
  apply (forallb_range (λ i,
    negb (is_whitespace (char_of_index i)) && negb (String.eqb (char_of_index i) "=") &&
    is_ascii (alphabet_char i)) 32 i ltac:(vm_compute; reflexivity) Hi).
Qed.

(** On characters of the alphabet the decoder works on their indices. *)
Definition indices_ok : list Z → Prop := Forall (λ i, 0 <= i < 32).

Lemma chars_of_indices l :
  indices_ok l →
  List.filter (λ ch, negb (is_whitespace ch) && negb (String.eqb ch "="))
    (chars (string_of_indices l)) = char_of_index <$> l.
Proof.
  intros Hl. rewrite chars_ascii.
  - induction Hl as [|i l Hi _ IH]; [done|].
    cbn [string_of_indices ascii_list fmap list_fmap List.filter].
    destruct (alphabet_plain i Hi) as [Hp _]. unfold char_of_index in Hp. rewrite Hp.
    f_equal. apply IH.
  - induction Hl as [|i l Hi _ IH]; [done|]. cbn [string_of_indices all_chars].
    by rewrite IH, (proj2 (alphabet_plain i Hi)).
Qed.

Lemma decode_step_low i l u k :
  0 <= i < 32 → k + 5 < 8 →
  decode_groups (char_of_index i :: l) u k = decode_groups l (u mod 2 ^ 27 * 32 + i) (k + 5).
Proof.
  intros Hi Hk. cbn [decode_groups]. rewrite base32_index_char by done. cbn [mbind res_bind].
  rewrite shift_in5 by done. by rewrite (proj2 (Z.leb_gt _ _)) by lia.
Qed.

Lemma decode_step_high i l u k rest :
  0 <= i < 32 → 8 <= k + 5 →
  decode_groups l (u mod 2 ^ 27 * 32 + i) (k - 3) = Ok rest →
  decode_groups (char_of_index i :: l) u k =
    Ok (Z_byte ((u mod 2 ^ 27 * 32 + i) / 2 ^ (k - 3)) :: rest).
Proof.
  intros Hi Hk Hr. cbn [decode_groups]. rewrite base32_index_char by done. cbn [mbind res_bind].
  rewrite shift_in5 by done. rewrite (proj2 (Z.leb_le _ _)) by lia.
  replace (k + 5 - 8) with (k - 3) by lia. rewrite Hr. cbn [mbind res_bind mret res_ret].
  rewrite octet_at by lia. do 2 f_equal. apply byte_Z_inj. rewrite !byte_Z_Z_byte.
  by rewrite Z.mod_mod by lia.
Qed.

Lemma encode_groups_ok value buffer bits :
  indices_ok (encode_groups value buffer bits).
Proof.
  assert (Hland : ∀ x, 0 <= Z.land x 31 < 32).
  { intros x. change 31 with (Z.ones 5). rewrite Z.land_ones by lia. apply Z.mod_pos_bound. lia. }
  assert (Hdrain : ∀ fuel b k, indices_ok (drain fuel b k).1).
  { intros fuel b. induction fuel as [|fuel IH]; intros k; cbn [drain]; [constructor|].
    destruct (5 <=? k); [|constructor]. specialize (IH (k - 5)).
    destruct (drain fuel b (k - 5)). by constructor. }
  revert buffer bits. induction value as [|b value IH]; intros buffer bits; cbn [encode_groups].
  - destruct (0 <? bits); repeat constructor; apply Hland.
  - specialize (Hdrain 3%nat (Z.lor (u32_shl buffer 8) (byte_Z b)) (bits + 8)).
    destruct (drain _ _ _) as [l k]. apply Forall_app. split; [exact Hdrain|apply IH].
Qed.

(** The decoder is in step with the encoder: with [e] bits pending in the encoder's buffer the
    decoder holds the first [8 - e] bits of the byte they end. *)
Definition pending (buffer e u k : Z) : bytes :=
  if Z.eqb e 0 then [] else [Z_byte (u mod 2 ^ k * 2 ^ e + buffer mod 2 ^ e)].

Ltac div_lia := Z.to_euclidean_division_equations; lia.

Lemma Z_byte_eq x y : x mod 256 = y mod 256 → Z_byte x = Z_byte y.
Proof. intros H. apply byte_Z_inj. by rewrite !byte_Z_Z_byte. Qed.

Lemma Z_byte_of x b : x mod 256 = byte_Z b → Z_byte x = b.
Proof. intros H. apply byte_Z_inj. by rewrite byte_Z_Z_byte. Qed.

Lemma mod_mod_pow2 x i j : 0 <= j <= i → (x mod 2 ^ i) mod 2 ^ j = x mod 2 ^ j.
Proof.
  intros Hj. apply Z.mod_mod_divide. exists (2 ^ (i - j)).
  rewrite <-Z.pow_add_r by lia. f_equal. lia.
Qed.

Lemma decode_last e k B U :
  0 <= e < 5 → k = (8 - e) mod 8 →
  decode_groups (char_of_index <$> encode_groups [] B e) U k = Ok (pending B e U k).
Proof.
  intros He ->. cbn [encode_groups]. destruct (Z.eq_dec e 0) as [->|Hne]; [done|].
  assert (HB : B mod 2 ^ e = (B mod 2 ^ (32 - (5 - e))) mod 2 ^ e)
    by (symmetry; apply mod_mod_pow2; lia).
  assert (HU : U mod 2 ^ ((8 - e) mod 8) = (U mod 2 ^ 27) mod 2 ^ ((8 - e) mod 8)).
  { symmetry; apply mod_mod_pow2. pose proof (Z.mod_pos_bound (8 - e) 8). lia. }
  unfold pending. rewrite HB, HU. clear HB HU. rewrite u32_shl_mod by lia.
  change 31 with (Z.ones 5). rewrite Z.land_ones by lia.
  rewrite (proj2 (Z.ltb_lt 0 e)) by lia. cbn [fmap list_fmap].
  assert (Hr : (8 - e) mod 8 = 8 - e) by (apply Z.mod_small; lia). rewrite Hr.
  rewrite (decode_step_high _ _ _ _ []); [|apply Z.mod_pos_bound; lia|lia|done].
  rewrite (proj2 (Z.eqb_neq e 0)) by lia. do 2 f_equal. apply Z_byte_eq.
  generalize (U mod 2 ^ 27). generalize (B mod 2 ^ (32 - (5 - e))). intros N M.
  assert (e = 1 ∨ e = 2 ∨ e = 3 ∨ e = 4) as [-> |[-> |[-> | ->]]] by lia; simpl; div_lia.
Qed.

(** The groups one more byte completes, by the number of bits that were pending. *)
Lemma drain_byte B e :
  0 <= e < 5 →
  drain 3 B (e + 8) =
    if e <? 2 then ([B / 2 ^ (e + 3) mod 32], e + 3)
    else ([B / 2 ^ (e + 3) mod 32; B / 2 ^ (e - 2) mod 32], e - 2).
Proof.
  intros He. cbn [drain]. rewrite (proj2 (Z.leb_le 5 (e + 8))) by lia.
  replace (e + 8 - 5) with (e + 3) by lia.
  destruct (Z.ltb_spec e 2).
  - rewrite (proj2 (Z.leb_gt 5 (e + 3))) by lia. by rewrite group_at by lia.
  - rewrite (proj2 (Z.leb_le 5 (e + 3))) by lia. replace (e + 3 - 5) with (e - 2) by lia.
    rewrite (proj2 (Z.leb_gt 5 (e - 2))) by lia. by rewrite !group_at by lia.
Qed.

(** The groups and the rest of a buffer that ends in the byte [b]. *)
Section groups.
Context (N b : Z) (Hb : 0 <= b < 256).
Lemma group3 : (N * 256 + b) / 8 mod 32 = b / 8. Proof. div_lia. Qed.
Lemma group4 : (N * 256 + b) / 16 mod 32 = N mod 2 * 16 + b / 16. Proof. div_lia. Qed.
Lemma group5 : (N * 256 + b) / 32 mod 32 = N mod 4 * 8 + b / 32. Proof. div_lia. Qed.
Lemma group6 : (N * 256 + b) / 64 mod 32 = N mod 8 * 4 + b / 64. Proof. div_lia. Qed.
Lemma group7 : (N * 256 + b) / 128 mod 32 = N mod 16 * 2 + b / 128. Proof. div_lia. Qed.
Lemma group0 : (N * 256 + b) / 1 mod 32 = b mod 32. Proof. div_lia. Qed.
Lemma group1 : (N * 256 + b) / 2 mod 32 = b / 2 mod 32. Proof. div_lia. Qed.
Lemma group2 : (N * 256 + b) / 4 mod 32 = b / 4 mod 32. Proof. div_lia. Qed.
Lemma rest1 : (N * 256 + b) mod 2 = b mod 2. Proof. div_lia. Qed.
Lemma rest2 : (N * 256 + b) mod 4 = b mod 4. Proof. div_lia. Qed.
Lemma rest3 : (N * 256 + b) mod 8 = b mod 8. Proof. div_lia. Qed.
Lemma rest4 : (N * 256 + b) mod 16 = b mod 16. Proof. div_lia. Qed.
End groups.

Ltac step_bytes M :=
  unfold pending;
  try match goal with |- context [?u mod 2 ^ 27] => generalize (u mod 2 ^ 27); intros M end;
  simpl;
  rewrite ?group3, ?group4, ?group5, ?group6, ?group7, ?group0, ?group1, ?group2, ?rest1,
    ?rest2, ?rest3, ?rest4 by done;
  apply (f_equal Ok);
  repeat match goal with |- _ :: _ = _ :: _ => apply f_equal2 end; try reflexivity;
  (apply Z_byte_eq || apply Z_byte_of); div_lia.

Section next.
Context (b : byte) (value : bytes) (B U : Z).
Hypothesis IH : ∀ B e U k, 0 <= e < 5 → k = (8 - e) mod 8 →
  decode_groups (char_of_index <$> encode_groups value B e) U k = Ok (pending B e U k ++ value).
Let B' := B mod 2 ^ 24 * 256 + byte_Z b.

Lemma decode_next e :
  0 <= e < 5 →
  decode_groups (char_of_index <$> encode_groups (b :: value) B e) U ((8 - e) mod 8) =
    Ok (pending B e U ((8 - e) mod 8) ++ b :: value).
Proof.
  intros He. pose proof (byte_Z_bound b) as Hb. cbn [encode_groups].
  rewrite shift_in8 by done. fold B'. rewrite drain_byte by done.
  assert (Hi : ∀ x, 0 <= x mod 32 < 32) by (intros; apply Z.mod_pos_bound; lia).
  assert (Hpow : ∀ j, 0 <= j <= 24 → B mod 2 ^ j = (B mod 2 ^ 24) mod 2 ^ j)
    by (intros; symmetry; apply mod_mod_pow2; lia).
  assert (Hpow' : ∀ x j, 0 <= j <= 27 → x mod 2 ^ j = (x mod 2 ^ 27) mod 2 ^ j)
    by (intros; symmetry; apply mod_mod_pow2; lia).
  unfold pending. rewrite Hpow by lia. clear Hpow. unfold B'. generalize (B mod 2 ^ 24). intros N.
  assert (e = 0 ∨ e = 1 ∨ e = 2 ∨ e = 3 ∨ e = 4) as [-> |[-> |[-> |[-> | ->]]]] by lia;
    cbn [Z.ltb Z.compare Pos.compare Pos.compare_cont fmap list_fmap app];
    [change ((8 - 0) mod 8) with 0|change ((8 - 1) mod 8) with 7|change ((8 - 2) mod 8) with 6
    |change ((8 - 3) mod 8) with 5|change ((8 - 4) mod 8) with 4].
  - rewrite decode_step_low by (done || lia). rewrite IH by done. step_bytes M.
  - erewrite decode_step_high; [|done|lia|by apply IH]. rewrite (Hpow' U 7) by lia. step_bytes M.
  - erewrite decode_step_high;
      [|done|lia|erewrite decode_step_high; [reflexivity|done|lia|by apply IH]].
    rewrite (Hpow' U 6) by lia. step_bytes M.
  - erewrite decode_step_high;
      [|done|lia|rewrite decode_step_low by (done || lia); by apply IH].
    rewrite (Hpow' U 5) by lia. step_bytes M.
  - erewrite decode_step_high;
      [|done|lia|rewrite decode_step_low by (done || lia); by apply IH].
    rewrite (Hpow' U 4) by lia. step_bytes M.
Qed.
End next.

Lemma decode_encode_groups value B e U k :
  0 <= e < 5 → k = (8 - e) mod 8 →
  decode_groups (char_of_index <$> encode_groups value B e) U k = Ok (pending B e U k ++ value).
Proof.
  revert B e U k. induction value as [|b value IH]; intros B e U k He ->.
  - rewrite app_nil_r. by apply decode_last.
  - by apply decode_next.
Qed.

Lemma base32_round value :
  base32_decode_no_padding (base32_encode_no_padding value) =
    if decide (value = []) then Err InvalidSeed else Ok value.
Proof.
  unfold base32_decode_no_padding, base32_encode_no_padding.
  rewrite chars_of_indices by apply encode_groups_ok. rewrite decode_encode_groups by done.
  done.
Qed.

(** ** Lemmas: decimal codes *)

Lemma pretty_N_go_length d n s :
  (n < 10 ^ N.of_nat d)%N → (String.length (pretty_N_go n s) <= d + String.length s)%nat.
Proof.
  revert n s. induction d as [|d IH]; intros n s Hn.
  - assert (n = 0%N) as -> by (simpl in Hn; lia). by rewrite pretty_N_go_0.
  - destruct (decide (0 < n)%N) as [Hp|Hp].
    + rewrite pretty_N_go_step by done. etrans; [apply IH|simpl; lia].
      apply N.Div0.div_lt_upper_bound. rewrite Nat2N.inj_succ, N.pow_succ_r' in Hn. lia.
    + assert (n = 0%N) as -> by lia. rewrite pretty_N_go_0. lia.
Qed.

Lemma pretty_N_char_digit n : ascii_is_digit (pretty_N_char n) = true.
Proof. unfold pretty_N_char. by repeat case_match. Qed.

Lemma pretty_N_go_digits n s :
  all_chars ascii_is_digit s = true → all_chars ascii_is_digit (pretty_N_go n s) = true.
Proof.
  revert s. induction (N.lt_wf_0 n) as [n _ IH]; intros s Hs.
  destruct (decide (0 < n)%N) as [Hn|Hn].
  - rewrite pretty_N_go_step by done. apply IH; [by apply N.div_lt|].
    simpl. by rewrite pretty_N_char_digit.
  - assert (n = 0%N) as -> by lia. by rewrite pretty_N_go_0.
Qed.

Lemma dec_shape z d :
  0 <= z < 10 ^ Z.of_nat d → (1 <= d)%nat →
  (String.length (dec z) <= d)%nat ∧ all_chars ascii_is_digit (dec z) = true.
Proof.
  intros Hz Hd.
  assert (HN : ∀ n : N, (n < 10 ^ N.of_nat d)%N →
    (String.length (pretty n) <= d)%nat ∧ all_chars ascii_is_digit (pretty n) = true).
  { intros n Hn. unfold pretty, pretty_N. case_decide; [split; [simpl; lia|done]|].
    split; [|by apply pretty_N_go_digits].
    pose proof (pretty_N_go_length d n "" Hn). simpl in *. lia. }
  unfold dec, pretty, pretty_Z. destruct z as [|p|p]; [split; [simpl; lia|done]| |lia].
  apply HN. apply N2Z.inj_lt. rewrite N2Z.inj_pow, nat_N_Z. simpl Z.of_N. lia.
Qed.

Lemma pad_left_shape c w s p :
  (String.length s <= w)%nat → p c = true → all_chars p s = true →
  String.length (pad_left c w s) = w ∧ all_chars p (pad_left c w s) = true.
Proof.
  intros Hl Hc Hs. unfold pad_left.
  assert (Hiter : ∀ n, String.length (Nat.iter n (String c) EmptyString) = n ∧
    all_chars p (Nat.iter n (String c) EmptyString) = true).
  { induction n as [|n [IH1 IH2]]; [done|]. simpl. by rewrite IH1, IH2, Hc. }
  destruct (Hiter (w - String.length s)%nat) as [H1 H2].
  rewrite str_length_app, all_chars_app, H1, H2, Hs. split; [lia|done].
Qed.

Section totp.
Context {X : Ext} {HH : HashLaws}.

Lemma byte_at_ok b i : 0 <= i < Z.of_nat (length b) → ∃ z, byte_at b i = Ok z.
Proof.
  intros Hi. unfold byte_at. destruct (lookup_lt_is_Some_2 b (Z.to_nat i)) as [x ->]; [lia|].
  simpl. eauto.
Qed.

Lemma totp_at_step_shape secret step digits :
  1 <= digits →
  (digits <= 9 → ∃ code, totp_at_step secret step digits = Ok code ∧
     String.length code = Z.to_nat digits ∧ all_chars ascii_is_digit code = true) ∧
  (10 <= digits → totp_at_step secret step digits = Err InvalidCode).
Proof.
  intros Hd. unfold totp_at_step.
  set (digest := hmac_sha1 secret (be_bytes 8 step)).
  assert (Hlen : Z.of_nat (length digest) = 20) by (unfold digest; by rewrite length_hmac_sha1).
  destruct (byte_at_ok digest 19) as [b19 ->]; [lia|]. cbn [mbind res_bind].
  assert (Hoff : 0 <= Z.land b19 15 < 16).
  { change 15 with (Z.ones 4). rewrite Z.land_ones by lia. apply Z.mod_pos_bound. lia. }
  destruct (byte_at_ok digest (Z.land b19 15)) as [b0 ->]; [lia|]. cbn [mbind res_bind].
  destruct (byte_at_ok digest (Z.land b19 15 + 1)) as [b1 ->]; [lia|]. cbn [mbind res_bind].
  destruct (byte_at_ok digest (Z.land b19 15 + 2)) as [b2 ->]; [lia|]. cbn [mbind res_bind].
  destruct (byte_at_ok digest (Z.land b19 15 + 3)) as [b3 ->]; [lia|]. cbn [mbind res_bind].
  set (binary := Z.lor _ b3). split; intros Hd'.
  - assert (Hp : 0 < 10 ^ digits <= u32_max).
    { split; [apply Z.pow_pos_nonneg; lia|]. trans (10 ^ 9); [apply Z.pow_le_mono_r; lia|].
      unfold u32_max. lia. }
    rewrite (proj2 (Z.leb_le _ _)) by lia. cbn [mbind res_bind mret res_ret].
    eexists. split; [reflexivity|].
    destruct (dec_shape (binary mod 10 ^ digits) (Z.to_nat digits)) as [Hl Hdig]; [|lia|].
    { rewrite Z2Nat.id by lia. apply Z.mod_pos_bound. lia. }
    by apply pad_left_shape.
  - assert (Hp : u32_max < 10 ^ digits).
    { apply Z.lt_le_trans with (10 ^ 10); [unfold u32_max; lia|]. apply Z.pow_le_mono_r; lia. }
    by rewrite (proj2 (Z.leb_gt _ _)) by lia.
Qed.

(** The window's loop, on steps [i64] can hold. *)
Lemma try_steps_spec secret digits step code offsets :
  1 <= digits <= 9 →
  Forall (λ o, - 2 ^ 63 <= step + o < 2 ^ 63) offsets →
  ∃ b, try_steps secret digits step code offsets = Ok b ∧
    (b = true ↔ ∃ o, o ∈ offsets ∧ 0 <= step + o ∧
       totp_at_step secret (step + o) digits = Ok code).
Proof.
  intros Hd. induction 1 as [|o offsets Ho _ IH]; cbn [try_steps].
  - exists false. split; [done|]. split; [done|]. by intros (o & ?%elem_of_nil & _).
  - destruct IH as (b & Hb & Hspec).
    assert (Hw : i64_wrap (step + o) = step + o).
    { unfold i64_wrap. rewrite Z.mod_small by lia. lia. }
    rewrite Hw. destruct (Z.ltb_spec (step + o) 0) as [Hneg|Hpos].
    { exists b. split; [done|]. rewrite Hspec. split.
      - intros (o' & ? & ?). exists o'. rewrite elem_of_cons. auto.
      - intros (o' & [->|?]%elem_of_cons & ? & ?); [lia|]. eauto. }
    destruct (proj1 (totp_at_step_shape secret (step + o) digits ltac:(lia)) ltac:(lia))
      as (c & Hc & _). rewrite Hc. cbn [mbind res_bind].
    destruct (String.eqb_spec c code) as [->|Hne].
    + exists true. split; [done|]. split; [|done]. intros _. exists o.
      rewrite elem_of_cons. auto.
    + exists b. split; [done|]. rewrite Hspec. split.
      * intros (o' & ? & ?). exists o'. rewrite elem_of_cons. auto.
      * intros (o' & [->|?]%elem_of_cons & ? & Heq); [congruence|]. eauto.
Qed.
End totp.

(** ** Properties *)

(** Base32 round trips. Decoding what [base32_encode_no_padding] prints gives the bytes back,
    for every length: the 32-bit buffers lose nothing although they wrap. Only the empty
    string of bytes is refused, as [InvalidSeed]. *)
Theorem base32_round_trip value :
  base32_decode_no_padding (base32_encode_no_padding value) =
    if decide (value = []) then Err InvalidSeed else Ok value.
Proof. apply base32_round. Qed.

(** C40: the verifier accepts exactly the codes of the window. For a SHA-1 configuration with one to
    nine digits whose seed decodes, and a code of digits, [verify_totp_code] answers [true]
    exactly when the code without white space is that of a time step at most
    [drift] away from the current one (and not before the epoch), and [false] otherwise. *)
Theorem totp_window {X : Ext} {HH : HashLaws} config code secret c now drift :
  eq_ignore_ascii_case (totp_algorithm config) "SHA1" = true →
  base32_decode_no_padding (totp_secret_base32 config) = Ok secret →
  normalize_code code = Ok c →
  1 <= totp_digits config <= 9 → 0 <= drift → 0 <= now < 2 ^ 62 → drift < 2 ^ 62 →
  ∃ b, verify_totp_code config code now drift = Ok b ∧
    (b = true ↔ ∃ step, Z.abs (step - now / Z.max (totp_period_seconds config) 1) <= drift ∧
       0 <= step ∧ totp_at_step secret step (totp_digits config) = Ok c).
Proof.
  intros Ha Hs Hc Hd Hdr Hnow Hdr2. unfold verify_totp_code. rewrite Ha, Hc, Hs.
  cbn [negb mbind res_bind]. set (p := Z.max _ 1).
  assert (Hstep : 0 <= now / p <= now).
  { split; [apply Z.div_pos; lia|]. apply Z.div_le_upper_bound; [lia|]. nia. }
  assert (Hi : i64_of_u64 (now / p) = now / p).
  { unfold i64_of_u64. by rewrite (proj2 (Z.leb_le _ _)) by (unfold i64_max; lia). }
  rewrite Hi.
  destruct (try_steps_spec secret (totp_digits config) (now / p) c (window drift) Hd) as (b & Hb & Hspec).
  { apply Forall_forall. intros o. unfold window. rewrite elem_of_seqZ. lia. }
  exists b. split; [done|]. rewrite Hspec. unfold window. split.
  - intros (o & Ho%elem_of_seqZ & ? & ?). exists (now / p + o). split; [lia|auto].
  - intros (step & ? & ? & Ht). exists (step - now / p). rewrite elem_of_seqZ.
    replace (now / p + (step - now / p)) with step by lia. split; [lia|auto].
Qed.

Definition sample_totp : TotpConfig := {|
  totp_issuer := "HBSE"; totp_account := "test"; totp_algorithm := "SHA1"; totp_digits := 6;
  totp_period_seconds := 30;
  totp_secret_base32 := base32_encode_no_padding (as_bytes "12345678901234567890") |}.

Lemma totp_window_witness :
  ∃ b, verify_totp_code sample_totp "287 082" 59 1 = Ok b ∧
    (b = true ↔ ∃ step, Z.abs (step - 59 / Z.max 30 1) <= 1 ∧ 0 <= step ∧
       totp_at_step (as_bytes "12345678901234567890") step 6 = Ok "287082").
Proof.
  apply (totp_window sample_totp "287 082" (as_bytes "12345678901234567890") "287082" 59 1).
  1-3: vm_compute; reflexivity. all: simpl; lia.
Defined.

(** A code has the configured number of digits. For one to nine digits every step has a code,
    a string of exactly that many decimal digits; for ten or more [10u32.checked_pow] fails and
    every step is [InvalidCode], so that such a configuration never verifies. *)
Theorem totp_code_shape {X : Ext} {HH : HashLaws} secret step digits :
  1 <= digits →
  (digits <= 9 → ∃ code, totp_at_step secret step digits = Ok code ∧
     String.length code = Z.to_nat digits ∧ all_chars ascii_is_digit code = true) ∧
  (10 <= digits → totp_at_step secret step digits = Err InvalidCode).
Proof. apply totp_at_step_shape. Qed.

Lemma totp_code_shape_witness :
  (∃ code, totp_at_step (as_bytes "12345678901234567890") 1 8 = Ok code ∧
     String.length code = 8%nat ∧ all_chars ascii_is_digit code = true) ∧
  totp_at_step (as_bytes "12345678901234567890") 1 10 = Err InvalidCode.
Proof.
  split; [apply (totp_code_shape _ 1 8)|apply (totp_code_shape _ 1 10)]; lia.
Defined.
