(* ===== verification/Provider.v ===== *)
(** * The pass phrase provider (provider.rs)

    The vault's root key under a key derived from a pass phrase: its binding record, the
    derivation with its checks, wrapping and unwrapping; that unwrapping inverts wrapping for
    the vault it was made for, and opens nothing else unless AES-GCM is forged. *)

From S2P Require Export World Crypto.
From S2P Require Import Toy.
#[local] Open Scope Z_scope.

Definition PASSPHRASE_PROVIDER_ID : string := "passphrase-scrypt-aesgcm".

Inductive ProviderError : Type :=
| ProviderInvalidRootKeyLength | EmptyPassphrase | ProviderUnsupported | InvalidKdfParameters
| ProviderDecode | UnlockFailed.

Record ScryptParams : Type := { sp_n : Z; sp_r : Z; sp_p : Z }.
Definition ScryptParams_default : ScryptParams := {| sp_n := 2 ^ 14; sp_r := 8; sp_p := 1 |}.

Record PassphraseProviderBinding : Type := {
  pb_provider_id : string;
  pb_kdf : string;
  pb_kdf_params : ScryptParams;
  pb_salt : string;
  pb_nonce : string;
  pb_wrapped_root_key : string;
  pb_assurance_level : string;
  pb_warning : string;
}.

(** ** JSON forms *)

Definition ScryptParams_fields (p : ScryptParams) : list (string * json) :=
  [ ("n", ser_u64 (sp_n p)); ("r", ser_u64 (sp_r p)); ("p", ser_u64 (sp_p p)) ].
Definition ScryptParams_of_object (m : omap string json) : option ScryptParams :=
  n ← field "n" de_u32 m; r ← field "r" de_u32 m; p ← field "p" de_u32 m;
  Some {| sp_n := n; sp_r := r; sp_p := p |}.
#[export] Instance ScryptParams_serde : Serde ScryptParams := {
  to_value p := obj (ScryptParams_fields p);
  of_value v := as_object v ≫= ScryptParams_of_object;
}.
Record ScryptParams_wf (p : ScryptParams) : Prop := {
  wf_n : 0 <= sp_n p <= u32_max; wf_r : 0 <= sp_r p <= u32_max; wf_p : 0 <= sp_p p <= u32_max;
}.

Definition PassphraseProviderBinding_fields (b : PassphraseProviderBinding)
  : list (string * json) :=
  [ ("provider_id", JStr (pb_provider_id b));
    ("kdf", JStr (pb_kdf b));
    ("kdf_params", to_value (pb_kdf_params b));
    ("salt", JStr (pb_salt b));
    ("nonce", JStr (pb_nonce b));
    ("wrapped_root_key", JStr (pb_wrapped_root_key b));
    ("assurance_level", JStr (pb_assurance_level b));
    ("warning", JStr (pb_warning b)) ].

Definition PassphraseProviderBinding_of_object (m : omap string json)
  : option PassphraseProviderBinding :=
  provider_id ← field "provider_id" as_str m;
  kdf ← field "kdf" as_str m;
  kdf_params ← field "kdf_params" of_value m;
  salt ← field "salt" as_str m;
  nonce ← field "nonce" as_str m;
  wrapped_root_key ← field "wrapped_root_key" as_str m;
  assurance_level ← field "assurance_level" as_str m;
  warning ← field "warning" as_str m;
  Some {| pb_provider_id := provider_id; pb_kdf := kdf; pb_kdf_params := kdf_params;
          pb_salt := salt; pb_nonce := nonce; pb_wrapped_root_key := wrapped_root_key;
          pb_assurance_level := assurance_level; pb_warning := warning |}.

#[export] Instance PassphraseProviderBinding_serde : Serde PassphraseProviderBinding := {
  to_value b := obj (PassphraseProviderBinding_fields b);
  of_value v := as_object v ≫= PassphraseProviderBinding_of_object;
}.
Definition PassphraseProviderBinding_wf (b : PassphraseProviderBinding) : Prop :=
  ScryptParams_wf (pb_kdf_params b).

(** ** Derivation *)

(** [u32::checked_ilog2], and [1u32.checked_shl(k)], [None] from 32 bits on. *)
Definition checked_ilog2 (n : Z) : option Z := if n =? 0 then None else Some (Z.log2 n).
Definition checked_shl_one (k : Z) : option Z := if k <? 32 then Some (Z.shiftl 1 k) else None.

Section provider.
Context `{Ext}.

(** The parameters both scrypt providers check: [n] is a power of two, and scrypt takes them. *)
Definition scrypt_derive {E} (invalid : E) (params : ScryptParams) (secret salt : bytes) : res E bytes :=
  log_n ← ok_or invalid (checked_ilog2 (sp_n params));
  if negb (bool_decide (checked_shl_one log_n = Some (sp_n params))) then Err invalid
  else ok_or invalid (scrypt_kdf secret salt log_n (sp_r params) (sp_p params)).

Definition PassphraseProvider_derive (params : ScryptParams) (passphrase : string) (salt : bytes)
  : res ProviderError bytes :=
  if is_empty passphrase then Err EmptyPassphrase
  else scrypt_derive InvalidKdfParameters params (as_bytes passphrase) salt.

Definition provider_aad {E} (vault_id : string) : res E bytes :=
  canonical_expect (obj [ ("provider_id", JStr PASSPHRASE_PROVIDER_ID);
                          ("record_type", JStr "vault-root-wrap");
                          ("vault_id", JStr vault_id) ]).

(** [[u8; 12]] and [[u8; KEY_SIZE]] from a slice. *)
Definition provider_to_nonce {E} (failed : E) (value : bytes) : res E bytes :=
  if Nat.eqb (length value) NONCE_SIZE then Ok value else Err failed.
Definition provider_to_key {E} (failed : E) (value : bytes) : res E bytes :=
  if Nat.eqb (length value) KEY_SIZE then Ok value else Err failed.

(** ** Wrapping and unwrapping *)

Definition PassphraseProvider_wrap_root_key (params : ScryptParams) (vault_id : string)
  (root_key : bytes) (passphrase : string) : ST World ProviderError PassphraseProviderBinding :=
  _ ← guard_ (negb (Nat.eqb (length root_key) KEY_SIZE)) ProviderInvalidRootKeyLength;
  salt ← random 16;
  nonce ← random 12;
  wrapping_key ← lift (PassphraseProvider_derive params passphrase salt);
  aad ← lift (provider_aad vault_id);
  wrapped_root_key ← lift (ok_or UnlockFailed (aes_gcm_encrypt wrapping_key nonce aad root_key));
  mret {| pb_provider_id := PASSPHRASE_PROVIDER_ID;
          pb_kdf := "scrypt";
          pb_kdf_params := params;
          pb_salt := b64url_no_padding salt;
          pb_nonce := b64url_no_padding nonce;
          pb_wrapped_root_key := b64url_no_padding wrapped_root_key;
          pb_assurance_level := "A1";
          pb_warning :=
            "MVP passphrase provider; enroll a hardware provider before production use." |}.

Definition PassphraseProvider_unwrap_root_key (vault_id : string)
  (binding : PassphraseProviderBinding) (passphrase : string) : res ProviderError bytes :=
  if negb (String.eqb (pb_provider_id binding) PASSPHRASE_PROVIDER_ID)
  then Err ProviderUnsupported else
  salt ← ok_or ProviderDecode (b64url_decode_no_padding (pb_salt binding));
  nonce ← ok_or ProviderDecode (b64url_decode_no_padding (pb_nonce binding));
  wrapped_root_key ← ok_or ProviderDecode (b64url_decode_no_padding (pb_wrapped_root_key binding));
  wrapping_key ← PassphraseProvider_derive (pb_kdf_params binding) passphrase salt;
  nonce ← provider_to_nonce UnlockFailed nonce;
  aad ← provider_aad vault_id;
  root_key ← ok_or UnlockFailed (aes_gcm_decrypt wrapping_key nonce aad wrapped_root_key);
  provider_to_key UnlockFailed root_key.
End provider.

(** ** Lemmas *)

Section lemmas.
Context {X : Ext}.

Lemma ScryptParams_round p :
  ScryptParams_wf p → ScryptParams_of_object (of_list (ScryptParams_fields p)) = Some p.
Proof.
  intros []. unfold ScryptParams_of_object. repeat serde_step. rewrite !de_ser_u32 by done.
  by destruct p.
Qed.

Lemma ScryptParams_json_ok p : ScryptParams_wf p → json_ok (to_value p) = true.
Proof.
  intros []. apply json_ok_obj. unfold ScryptParams_fields. cbn [forallb snd].
  by rewrite !ser_u64_ok by (unfold u32_max, u64_max in *; lia).
Qed.

#[export] Instance ScryptParams_serde_laws : SerdeLaws ScryptParams ScryptParams_wf.
Proof. split; [apply ScryptParams_round|apply ScryptParams_json_ok]. Qed.

Lemma PassphraseProviderBinding_round b :
  PassphraseProviderBinding_wf b →
  PassphraseProviderBinding_of_object (of_list (PassphraseProviderBinding_fields b)) = Some b.
Proof.
  intros Hwf. unfold PassphraseProviderBinding_of_object. repeat serde_step.
  rewrite of_to_value by done. by destruct b.
Qed.

Lemma PassphraseProviderBinding_json_ok b :
  PassphraseProviderBinding_wf b → json_ok (to_value b) = true.
Proof.
  intros Hwf. apply json_ok_obj. unfold PassphraseProviderBinding_fields. cbn [forallb snd].
  by rewrite ScryptParams_json_ok.
Qed.

#[export] Instance PassphraseProviderBinding_serde_laws :
  SerdeLaws PassphraseProviderBinding PassphraseProviderBinding_wf.
Proof. split; [apply PassphraseProviderBinding_round|apply PassphraseProviderBinding_json_ok]. Qed.

Lemma ScryptParams_default_wf : ScryptParams_wf ScryptParams_default.
Proof. split; unfold ScryptParams_default, u32_max; simpl; lia. Qed.

(** The power-of-two check, in closed form. *)
Lemma scrypt_derive_spec {E} (invalid : E) p secret salt :
  0 <= sp_n p <= u32_max →
  scrypt_derive invalid p secret salt =
    match checked_ilog2 (sp_n p) with
    | Some k => if sp_n p =? 2 ^ k then ok_or invalid (scrypt_kdf secret salt k (sp_r p) (sp_p p))
                else Err invalid
    | None => Err invalid
    end.
Proof.
  intros Hn. unfold scrypt_derive, checked_ilog2, checked_shl_one, u32_max in *.
  destruct (Z.eqb_spec (sp_n p) 0) as [|Hz]; [done|]. simpl.
  assert (Z.log2 (sp_n p) < 32) as Hl by (apply Z.log2_lt_pow2; lia).
  rewrite (proj2 (Z.ltb_lt _ _) Hl), Z.shiftl_1_l.
  destruct (Z.eqb_spec (sp_n p) (2 ^ Z.log2 (sp_n p))) as [He|He].
  - rewrite bool_decide_eq_true_2; [done|]. by rewrite <-He.
  - rewrite bool_decide_eq_false_2; [done|]. intros H0. injection H0. auto.
Qed.

Lemma scrypt_derive_default {HS : ScryptLaws} {E} (invalid : E) secret salt :
  ∃ k, scrypt_derive invalid ScryptParams_default secret salt = Ok k ∧ length k = KEY_SIZE.
Proof.
  rewrite scrypt_derive_spec by (unfold u32_max; simpl; lia).
  change (checked_ilog2 _) with (Some 14). cbn beta iota.
  change (sp_n ScryptParams_default =? 2 ^ 14) with true. cbn beta iota.
  destruct (scrypt_total secret salt) as (k & Hk). change (sp_r _) with 8. change (sp_p _) with 1.
  rewrite Hk.
  exists k. split; [done|]. by eapply length_scrypt.
Qed.

Lemma scrypt_derive_length {HS : ScryptLaws} {E} (invalid : E) p secret salt k :
  scrypt_derive invalid p secret salt = Ok k → length k = KEY_SIZE.
Proof.
  unfold scrypt_derive. intros Hk. apply res_bind_ok_inv in Hk as (l & _ & Hk).
  destruct (negb _); [done|]. apply ok_or_ok_inv in Hk. by eapply length_scrypt.
Qed.

Lemma provider_to_nonce_ok {E} (e : E) n : length n = NONCE_SIZE → provider_to_nonce e n = Ok n.
Proof. intros H. unfold provider_to_nonce. by rewrite H. Qed.
Lemma provider_to_key_ok {E} (e : E) n : length n = KEY_SIZE → provider_to_key e n = Ok n.
Proof. intros H. unfold provider_to_key. by rewrite H. Qed.
Lemma provider_to_nonce_inv {E} (e : E) n m :
  provider_to_nonce e n = Ok m → m = n ∧ length n = NONCE_SIZE.
Proof.
  unfold provider_to_nonce. destruct (Nat.eqb_spec (length n) NONCE_SIZE); [|done].
  intros H. by injection H as <-.
Qed.
Lemma provider_to_key_inv {E} (e : E) n m :
  provider_to_key e n = Ok m → m = n ∧ length n = KEY_SIZE.
Proof.
  unfold provider_to_key. destruct (Nat.eqb_spec (length n) KEY_SIZE); [|done].
  intros H. by injection H as <-.
Qed.

Definition provider_aad_bytes (vault_id : string) : bytes :=
  json_to_vec (obj [ ("provider_id", JStr PASSPHRASE_PROVIDER_ID);
                     ("record_type", JStr "vault-root-wrap"); ("vault_id", JStr vault_id) ]).

Lemma provider_aad_ok {E} vid : provider_aad (E:=E) vid = Ok (provider_aad_bytes vid).
Proof. unfold provider_aad. apply canonical_expect_ok. by apply json_ok_obj. Qed.

Lemma provider_aad_inj {HC : CodecLaws} vid vid' :
  provider_aad_bytes vid = provider_aad_bytes vid' → vid = vid'.
Proof.
  intros Heq. apply json_to_vec_inj in Heq; [|by apply json_ok_obj..].
  obj_field Heq "vault_id". congruence.
Qed.

(** What a binding of [wrap_root_key] holds. *)
Definition passphrase_wraps (vid : string) (rk : bytes) (pass : string)
  (b : PassphraseProviderBinding) : Prop :=
  ∃ salt nonce c k,
    pb_provider_id b = PASSPHRASE_PROVIDER_ID ∧
    pb_salt b = b64url_no_padding salt ∧ pb_nonce b = b64url_no_padding nonce ∧
    pb_wrapped_root_key b = b64url_no_padding c ∧
    length nonce = NONCE_SIZE ∧ length rk = KEY_SIZE ∧
    PassphraseProvider_derive (pb_kdf_params b) pass salt = Ok k ∧
    aes_gcm_encrypt k nonce (provider_aad_bytes vid) rk = Some c.

(** The only event in which a wrapped key opens under another vault or another derived key. *)
Definition passphrase_forged (vid vid' pass pass' : string) (b : PassphraseProviderBinding)
  : Prop :=
  ∃ salt nonce c k k',
    pb_salt b = b64url_no_padding salt ∧ pb_nonce b = b64url_no_padding nonce ∧
    pb_wrapped_root_key b = b64url_no_padding c ∧
    PassphraseProvider_derive (pb_kdf_params b) pass salt = Ok k ∧
    PassphraseProvider_derive (pb_kdf_params b) pass' salt = Ok k' ∧
    (k', vid') ≠ (k, vid) ∧
    is_Some (aes_gcm_decrypt k' nonce (provider_aad_bytes vid') c).

Lemma wrap_ok_inv {HE : EnvLaws} p vid rk pass w b w' :
  PassphraseProvider_wrap_root_key p vid rk pass w = (Ok b, w') →
  passphrase_wraps vid rk pass b ∧ pb_kdf_params b = p ∧ same_db w w'.
Proof.
  unfold PassphraseProvider_wrap_root_key. intros H.
  apply st_bind_ok_inv in H as ([] & w1 & Hg & H).
  destruct (Nat.eqb_spec (length rk) KEY_SIZE) as [Hl|]; [|done]. injection Hg as <-.
  unfold random in H. cbn [mbind st_bind] in H. unfold draw, mbind, st_bind, mret, st_ret in H.
  unfold lift in H.
  destruct (PassphraseProvider_derive p pass _) as [k| |] eqn:Hk; [|done..].
  rewrite provider_aad_ok in H.
  destruct (aes_gcm_encrypt _ _ _ _) as [c|] eqn:Hc; [|done]. simpl in H. injection H as <- <-.
  split; [|split; [done|split; simpl; [done|lia]]].
  eexists _, _, c, k. repeat split; try done. apply length_random_bytes.
Qed.

Lemma wrap_default_run {HS : ScryptLaws} {HA : AeadLaws} {HE : EnvLaws} vid rk pass w :
  length rk = KEY_SIZE → pass ≠ EmptyString →
  ∃ b w', PassphraseProvider_wrap_root_key ScryptParams_default vid rk pass w = (Ok b, w').
Proof.
  intros Hl Hp. unfold PassphraseProvider_wrap_root_key. rewrite Hl, Nat.eqb_refl.
  unfold random, lift, guard_, draw, mbind, st_bind, mret, st_ret. cbn [negb].
  assert (is_empty pass = false) as He by (by destruct pass).
  unfold PassphraseProvider_derive. rewrite He.
  destruct (scrypt_derive_default InvalidKdfParameters (as_bytes pass)
    (random_bytes (tick w) 16)) as (k & Hk & Hlk). rewrite Hk, provider_aad_ok.
  set (n := random_bytes _ 12).
  destruct (aes_gcm_total k n (provider_aad_bytes vid) rk Hlk (length_random_bytes _ _)) as (c & Hc).
  rewrite Hc. simpl. eauto.
Qed.

Lemma wraps_unwraps {HC : CodecLaws} {HA : AeadLaws} vid rk pass b :
  passphrase_wraps vid rk pass b → PassphraseProvider_unwrap_root_key vid b pass = Ok rk.
Proof.
  intros (salt & nonce & c & k & Hid & Hs & Hn & Hc & Hln & Hlk & Hk & Henc).
  unfold PassphraseProvider_unwrap_root_key, b64url_no_padding, b64url_decode_no_padding in *.
  rewrite Hid, String.eqb_refl, Hs, Hn, Hc, !base64_url_round. cbn [negb ok_or mbind res_bind].
  rewrite Hk. cbn [mbind res_bind]. rewrite provider_to_nonce_ok by done.
  cbn [mbind res_bind]. rewrite provider_aad_ok. cbn [mbind res_bind].
  rewrite (aes_gcm_round _ _ _ _ _ Henc). by apply provider_to_key_ok.
Qed.

Lemma wraps_opens {HC : CodecLaws} {HA : AeadLaws} vid rk pass b vid' pass' rk' :
  passphrase_wraps vid rk pass b → PassphraseProvider_unwrap_root_key vid' b pass' = Ok rk' →
  passphrase_forged vid vid' pass pass' b ∨ (vid' = vid ∧ rk' = rk).
Proof.
  intros (salt & nonce & c & k & Hid & Hs & Hn & Hc & Hln & Hlk & Hk & Henc) H.
  unfold PassphraseProvider_unwrap_root_key, b64url_no_padding, b64url_decode_no_padding in *.
  rewrite Hid, String.eqb_refl, Hs, Hn, Hc, !base64_url_round in H.
  cbn [negb ok_or mbind res_bind] in H.
  apply res_bind_ok_inv in H as (k' & Hk' & H).
  apply res_bind_ok_inv in H as (n' & Hn' & H). apply provider_to_nonce_inv in Hn' as [-> _].
  rewrite provider_aad_ok in H. cbn [mbind res_bind] in H.
  apply res_bind_ok_inv in H as (m & Hm & H). apply ok_or_ok_inv in Hm.
  apply provider_to_key_inv in H as [-> Hlm].
  destruct (decide ((k', vid') = (k, vid))) as [[= -> ->]|Hne].
  - right. rewrite (aes_gcm_round _ _ _ _ _ Henc) in Hm. split; congruence.
  - left. exists salt, nonce, c, k, k'. repeat split; try done.
Qed.
End lemmas.

(** ** Properties *)

(** The pass phrase provider's round trip. With the default parameters, wrapping a 32-byte
    root key under any non-empty pass phrase succeeds; the binding survives the JSON form the
    vault header stores it in, and unwrapping it for the same vault and pass phrase yields
    the key. *)
Theorem passphrase_wrap_unwrap {X : Ext} {HC : CodecLaws} {HS : ScryptLaws} {HA : AeadLaws}
    {HE : EnvLaws} vid rk pass w :
  length rk = KEY_SIZE → pass ≠ EmptyString →
  ∃ b w', PassphraseProvider_wrap_root_key ScryptParams_default vid rk pass w = (Ok b, w') ∧
    db w' = db w ∧ of_value (to_value b) = Some b ∧
    PassphraseProvider_unwrap_root_key vid b pass = Ok rk.
Proof.
  intros Hl Hp. destruct (wrap_default_run vid rk pass w Hl Hp) as (b & w' & Hrun).
  exists b, w'. split; [done|]. apply wrap_ok_inv in Hrun as (Hw & Hps & [Hd _]).
  split; [done|]. split; [|by apply wraps_unwraps].
  apply of_to_value. unfold PassphraseProviderBinding_wf. rewrite Hps. apply ScryptParams_default_wf.
Qed.

Lemma passphrase_wrap_unwrap_witness : ∃ b w',
  PassphraseProvider_wrap_root_key ScryptParams_default "vault-1" (be_bytes 32 66)
    "correct horse battery staple" {| tick := 0; db := empty_db |} = (Ok b, w') ∧
  db w' = empty_db ∧ of_value (to_value b) = Some b ∧
  PassphraseProvider_unwrap_root_key "vault-1" b "correct horse battery staple"
    = Ok (be_bytes 32 66).
Proof.
  apply (passphrase_wrap_unwrap "vault-1" (be_bytes 32 66) "correct horse battery staple"
    {| tick := 0; db := empty_db |}); [reflexivity|discriminate].
Defined.

(** A wrapped root key opens for its own vault and derived key only. Whatever vault
    identifier and pass phrase a binding of [wrap_root_key] is presented with, a successful
    unwrap is for the vault it was made for and yields the key that was wrapped, unless
    AES-GCM opens the wrapped key under another derived key or another vault's associated
    data than it was made with. *)
Theorem passphrase_binding_is_bound {X : Ext} {HC : CodecLaws} {HA : AeadLaws} {HE : EnvLaws}
    p vid rk pass w b w' vid' pass' rk' :
  PassphraseProvider_wrap_root_key p vid rk pass w = (Ok b, w') →
  PassphraseProvider_unwrap_root_key vid' b pass' = Ok rk' →
  passphrase_forged vid vid' pass pass' b ∨ (vid' = vid ∧ rk' = rk).
Proof. intros Hrun. apply wrap_ok_inv in Hrun as [Hw _]. by apply wraps_opens. Qed.

Lemma passphrase_binding_is_bound_witness : ∃ b w',
  PassphraseProvider_wrap_root_key ScryptParams_default "v" (be_bytes 32 66) "right"
    {| tick := 0; db := empty_db |} = (Ok b, w') ∧
  (passphrase_forged "v" "v" "right" "right" b ∨ ("v" = "v" ∧ be_bytes 32 66 = be_bytes 32 66)) ∧
  PassphraseProvider_unwrap_root_key "v" b "wrong" = Err UnlockFailed.
Proof.
  eexists _, _. split; [vm_compute; reflexivity|]. split; [|vm_compute; reflexivity].
  eapply (passphrase_binding_is_bound ScryptParams_default "v" (be_bytes 32 66) "right"
    {| tick := 0; db := empty_db |}); vm_compute; reflexivity.
Defined.
