(* ===== verification/ProviderSystem.v ===== *)
(** * The system fingerprint provider (provider_system.rs)

    The root key under a key derived from identifiers of the host: the candidate files, the
    values that count, the fingerprint, wrapping and unwrapping; that a binding opens on the
    host it was made on, and on one with other identifiers never. *)

From S2P Require Export Provider.
From S2P Require Import Toy.
From Stdlib Require Import Sorting.Sorted.
#[local] Open Scope Z_scope.

Definition SYSTEM_FINGERPRINT_PROVIDER_ID : string := "system-fingerprint-scrypt-aesgcm".

Inductive SystemFingerprintProviderError : Type :=
| SystemInvalidRootKeyLength | SystemUnsupportedProvider | NoUsableComponents
| FingerprintMismatch | SystemInvalidKdfParameters | SystemDecode | SystemUnlockFailed.

Record SystemFingerprintComponent : Type := {
  comp_name : string; comp_source : string; comp_sha256 : string;
}.
#[export] Instance SystemFingerprintComponent_eq_dec : EqDecision SystemFingerprintComponent.
Proof. solve_decision. Defined.

Record SystemFingerprintStatus : Type := {
  sf_available : bool;
  sf_component_count : Z;
  sf_components : list SystemFingerprintComponent;
  sf_fingerprint_sha256 : string;
  sf_detail : string;
}.

Record SystemFingerprintProviderBinding : Type := {
  sb_provider_id : string;
  sb_kdf : string;
  sb_kdf_params : ScryptParams;
  sb_salt : string;
  sb_nonce : string;
  sb_wrapped_root_key : string;
  sb_fingerprint_sha256 : string;
  sb_components : list SystemFingerprintComponent;
  sb_assurance_level : string;
  sb_warning : string;
}.

(** ** JSON forms *)

Definition SystemFingerprintComponent_fields (c : SystemFingerprintComponent)
  : list (string * json) :=
  [ ("name", JStr (comp_name c)); ("source", JStr (comp_source c));
    ("sha256", JStr (comp_sha256 c)) ].
Definition SystemFingerprintComponent_of_object (m : omap string json)
  : option SystemFingerprintComponent :=
  name ← field "name" as_str m; source ← field "source" as_str m;
  sha ← field "sha256" as_str m;
  Some {| comp_name := name; comp_source := source; comp_sha256 := sha |}.
#[export] Instance SystemFingerprintComponent_serde : Serde SystemFingerprintComponent := {
  to_value c := obj (SystemFingerprintComponent_fields c);
  of_value v := as_object v ≫= SystemFingerprintComponent_of_object;
}.

Definition SystemFingerprintStatus_fields (s : SystemFingerprintStatus) : list (string * json) :=
  [ ("available", JBool (sf_available s));
    ("component_count", ser_u64 (sf_component_count s));
    ("components", ser_list to_value (sf_components s));
    ("fingerprint_sha256", JStr (sf_fingerprint_sha256 s));
    ("detail", JStr (sf_detail s)) ].

Definition SystemFingerprintProviderBinding_fields (b : SystemFingerprintProviderBinding)
  : list (string * json) :=
  [ ("provider_id", JStr (sb_provider_id b));
    ("kdf", JStr (sb_kdf b));
    ("kdf_params", to_value (sb_kdf_params b));
    ("salt", JStr (sb_salt b));
    ("nonce", JStr (sb_nonce b));
    ("wrapped_root_key", JStr (sb_wrapped_root_key b));
    ("fingerprint_sha256", JStr (sb_fingerprint_sha256 b));
    ("components", ser_list to_value (sb_components b));
    ("assurance_level", JStr (sb_assurance_level b));
    ("warning", JStr (sb_warning b)) ].
Definition SystemFingerprintProviderBinding_of_object (m : omap string json)
  : option SystemFingerprintProviderBinding :=
  provider_id ← field "provider_id" as_str m;
  kdf ← field "kdf" as_str m;
  kdf_params ← field "kdf_params" of_value m;
  salt ← field "salt" as_str m;
  nonce ← field "nonce" as_str m;
  wrapped_root_key ← field "wrapped_root_key" as_str m;
  fingerprint_sha256 ← field "fingerprint_sha256" as_str m;
  components ← field "components" (de_list of_value) m;
  assurance_level ← field "assurance_level" as_str m;
  warning ← field "warning" as_str m;
  Some {| sb_provider_id := provider_id; sb_kdf := kdf; sb_kdf_params := kdf_params;
          sb_salt := salt; sb_nonce := nonce; sb_wrapped_root_key := wrapped_root_key;
          sb_fingerprint_sha256 := fingerprint_sha256; sb_components := components;
          sb_assurance_level := assurance_level; sb_warning := warning |}.
#[export] Instance SystemFingerprintProviderBinding_serde :
  Serde SystemFingerprintProviderBinding := {
  to_value b := obj (SystemFingerprintProviderBinding_fields b);
  of_value v := as_object v ≫= SystemFingerprintProviderBinding_of_object;
}.
Definition SystemFingerprintProviderBinding_wf (b : SystemFingerprintProviderBinding) : Prop :=
  ScryptParams_wf (sb_kdf_params b).

(** ** The components *)

(** [sort_by] with the order on name, then source, and [dedup_by] on equal neighbours. *)
Definition component_key (c : SystemFingerprintComponent) : string * string :=
  (comp_name c, comp_source c).
Definition sort_components : list SystemFingerprintComponent → list SystemFingerprintComponent :=
  sort_by (λ left right, klt (component_key left) (component_key right)).

Definition same_component (left right : SystemFingerprintComponent) : bool :=
  String.eqb (comp_name left) (comp_name right) &&
  String.eqb (comp_sha256 left) (comp_sha256 right).
Definition dedup_components : list SystemFingerprintComponent → list SystemFingerprintComponent :=
  dedup_by same_component.

Definition component_candidates : list (string * string) :=
  [ ("machine-id", "/etc/machine-id");
    ("dbus-machine-id", "/var/lib/dbus/machine-id");
    ("dmi-product-uuid", "/sys/class/dmi/id/product_uuid");
    ("dmi-board-serial", "/sys/class/dmi/id/board_serial");
    ("dmi-product-serial", "/sys/class/dmi/id/product_serial") ].

Definition component_value (contents : option string) : option string :=
  value ← contents;
  let value := trim value in
  if is_empty value || eq_ignore_ascii_case value "none" || eq_ignore_ascii_case value "unknown"
     || forallb (λ item, String.eqb item "0" || String.eqb item "-") (chars value)
  then None else Some value.

Section system.
Context `{Ext}.

Definition read_component {E} (path : string) : ST World E (option string) :=
  contents ← query (λ i, read_file i path); mret (component_value contents).

Fixpoint read_components {E} (candidates : list (string * string))
  : ST World E (list SystemFingerprintComponent) :=
  match candidates with
  | [] => mret []
  | (name, source) :: candidates =>
      value ← read_component source;
      rest ← read_components candidates;
      mret (match value with
            | Some value => {| comp_name := name; comp_source := source;
                               comp_sha256 := b64url_no_padding (sha256 (as_bytes value)) |} :: rest
            | None => rest
            end)
  end.

Definition collect_components {E} : ST World E (option (list SystemFingerprintComponent)) :=
  components ← read_components component_candidates;
  let components := dedup_components (sort_components components) in
  mret (match components with [] => None | _ => Some components end).

Definition fingerprint_value (components : list SystemFingerprintComponent) : json :=
  obj [ ("provider_id", JStr SYSTEM_FINGERPRINT_PROVIDER_ID);
        ("components", ser_list to_value components) ].

Definition fingerprint_sha256 {E} (components : list SystemFingerprintComponent) : res E string :=
  bytes ← canonical_expect (fingerprint_value (sort_components components));
  mret (b64url_no_padding (sha256 bytes)).

Definition SystemFingerprintProvider_detect {E} : ST World E SystemFingerprintStatus :=
  collected ← collect_components;
  let components := default [] collected in
  let available := match components with [] => false | _ => true end in
  fingerprint ← lift (if available then fingerprint_sha256 components else Ok EmptyString);
  mret {| sf_available := available;
          sf_component_count := Z.of_nat (length components);
          sf_components := components;
          sf_fingerprint_sha256 := fingerprint;
          sf_detail :=
            if available
            then ("system fingerprint available from " +:+ dec (Z.of_nat (length components)) +:+
                  " stable component(s)")%string
            else "no usable stable system fingerprint components found" |}.

Definition SystemFingerprintProvider_derive (params : ScryptParams)
  (components : list SystemFingerprintComponent) (salt : bytes)
  : res SystemFingerprintProviderError bytes :=
  match canonical_json_bytes (fingerprint_value components) with
  | Ok fingerprint => scrypt_derive SystemInvalidKdfParameters params fingerprint salt
  | _ => Err SystemUnlockFailed
  end.

Definition system_provider_aad {E} (vault_id fingerprint : string) : res E bytes :=
  canonical_expect (obj [ ("provider_id", JStr SYSTEM_FINGERPRINT_PROVIDER_ID);
                          ("record_type", JStr "vault-root-wrap");
                          ("vault_id", JStr vault_id);
                          ("fingerprint_sha256", JStr fingerprint) ]).

(** ** Wrapping and unwrapping *)

Definition SystemFingerprintProvider_wrap_root_key (params : ScryptParams) (vault_id : string)
  (root_key : bytes)
  : ST World SystemFingerprintProviderError SystemFingerprintProviderBinding :=
  _ ← guard_ (negb (Nat.eqb (length root_key) KEY_SIZE)) SystemInvalidRootKeyLength;
  collected ← collect_components;
  components ← lift (ok_or NoUsableComponents collected);
  fingerprint ← lift (fingerprint_sha256 components);
  salt ← random 16;
  nonce ← random 12;
  wrapping_key ← lift (SystemFingerprintProvider_derive params components salt);
  aad ← lift (system_provider_aad vault_id fingerprint);
  wrapped_root_key ←
    lift (ok_or SystemUnlockFailed (aes_gcm_encrypt wrapping_key nonce aad root_key));
  mret {| sb_provider_id := SYSTEM_FINGERPRINT_PROVIDER_ID;
          sb_kdf := "scrypt";
          sb_kdf_params := params;
          sb_salt := b64url_no_padding salt;
          sb_nonce := b64url_no_padding nonce;
          sb_wrapped_root_key := b64url_no_padding wrapped_root_key;
          sb_fingerprint_sha256 := fingerprint;
          sb_components := components;
          sb_assurance_level := "A1";
          sb_warning := "System fingerprint provider binds the vault to local machine identifiers but is not hardware-backed and may break after motherboard, OS identity, or VM image changes." |}.

Definition SystemFingerprintProvider_unwrap_root_key (vault_id : string)
  (binding : SystemFingerprintProviderBinding)
  : ST World SystemFingerprintProviderError bytes :=
  _ ← guard_ (negb (String.eqb (sb_provider_id binding) SYSTEM_FINGERPRINT_PROVIDER_ID))
        SystemUnsupportedProvider;
  collected ← collect_components;
  components ← lift (ok_or NoUsableComponents collected);
  fingerprint ← lift (fingerprint_sha256 components);
  _ ← guard_ (negb (String.eqb fingerprint (sb_fingerprint_sha256 binding))) FingerprintMismatch;
  lift (
    salt ← ok_or SystemDecode (b64url_decode_no_padding (sb_salt binding));
    nonce ← ok_or SystemDecode (b64url_decode_no_padding (sb_nonce binding));
    wrapped_root_key ← ok_or SystemDecode (b64url_decode_no_padding (sb_wrapped_root_key binding));
    wrapping_key ← SystemFingerprintProvider_derive (sb_kdf_params binding) components salt;
    nonce ← provider_to_nonce SystemUnlockFailed nonce;
    aad ← system_provider_aad vault_id (sb_fingerprint_sha256 binding);
    root_key ← ok_or SystemUnlockFailed (aes_gcm_decrypt wrapping_key nonce aad wrapped_root_key);
    provider_to_key SystemUnlockFailed root_key).
End system.

(** ** Lemmas *)

(** The order of [sort_by]. *)
Definition component_le (c d : SystemFingerprintComponent) : Prop :=
  klt (component_key d) (component_key c) = false.
Abbreviation sorted_components := (StronglySorted component_le).

Lemma component_le_of_lt c d :
  klt (component_key c) (component_key d) = true → component_le c d.
Proof.
  intros Hlt. unfold component_le.
  destruct (klt (component_key d) (component_key c)) eqn:Hgt; [|done].
  assert (Hc := klt_trans _ _ _ Hlt Hgt). by rewrite klt_irrefl in Hc.
Qed.

Lemma component_le_trans c d e : component_le c d → component_le d e → component_le c e.
Proof.
  unfold component_le. intros Hcd Hde. destruct (klt (component_key e) (component_key c)) eqn:Hec; [|done].
  destruct (klt (component_key c) (component_key d)) eqn:Hlt.
  - assert (Hed := klt_trans _ _ _ Hec Hlt). congruence.
  - rewrite (klt_total _ _ Hlt Hcd) in Hec. congruence.
Qed.

Lemma insert_component_sorted c l :
  sorted_components l →
  sorted_components
    (insert_by (λ left right, klt (component_key left) (component_key right)) c l).
Proof.
  induction 1 as [|d l Hl IH Hd]; simpl; [repeat constructor|].
  destruct (klt (component_key d) (component_key c)) eqn:Hlt.
  - constructor; [done|]. apply Forall_forall. intros e He.
    apply elem_of_insert_by in He as [->|He]; [by apply component_le_of_lt|].
    by eapply Forall_forall in Hd.
  - constructor; [by constructor|]. constructor; [done|].
    eapply Forall_impl; [exact Hd|]. intros e. by apply component_le_trans.
Qed.

Lemma sort_components_sorted l : sorted_components (sort_components l).
Proof. induction l; simpl; [constructor|by apply insert_component_sorted]. Qed.

Lemma sort_components_id l : sorted_components l → sort_components l = l.
Proof.
  induction 1 as [|c l Hl IH Hc]; [done|]. simpl. rewrite IH.
  destruct Hc as [|d l Hd _]; [done|]. simpl. unfold component_le in Hd. by rewrite Hd.
Qed.

Lemma dedup_after_spec c l :
  sorted_components l → sorted_components (dedup_after same_component c l) ∧
  ∀ P : SystemFingerprintComponent → Prop, Forall P l → Forall P (dedup_after same_component c l).
Proof.
  intros Hl. revert c. induction Hl as [|d l Hl IH Hd]; intros c; simpl; [split; [constructor|done]|].
  destruct (same_component d c).
  - destruct (IH c) as [H1 H2]. split; [done|]. intros P HP. inversion HP; auto.
  - destruct (IH d) as [H1 H2]. split; [constructor; auto|].
    intros P HP. inversion HP; subst. constructor; auto.
Qed.

Lemma dedup_components_sorted l : sorted_components l → sorted_components (dedup_components l).
Proof.
  destruct 1 as [|c l Hl Hc]; simpl; [constructor|].
  destruct (dedup_after_spec c l Hl) as [H1 H2]. constructor; auto.
Qed.

Section lemmas.
Context {X : Ext}.

Lemma read_components_run {E} cands w :
  ∃ l w', read_components (E:=E) cands w = (Ok l, w') ∧ same_db w w'.
Proof.
  revert w. induction cands as [|[name source] cands IH]; intros w; [by exists [], w|].
  cbn [read_components]. unfold read_component, query. cbn [mbind st_bind].
  unfold draw, mbind, st_bind, mret, st_ret.
  destruct (IH {| tick := S (tick w); db := db w |}) as (l & w' & Hrun & Hdb). rewrite Hrun.
  do 2 eexists. split; [done|]. etrans; [|exact Hdb]. split; simpl; [done|lia].
Qed.

(** A host whose files do not change between two queries. *)
Definition stable_host : Prop := ∀ i j path, read_file i path = read_file j path.

Lemma read_components_stable {E} cands w1 w2 :
  stable_host → (read_components (E:=E) cands w1).1 = (read_components cands w2).1.
Proof.
  intros Hst. revert w1 w2. induction cands as [|[name source] cands IH]; intros w1 w2; [done|].
  cbn [read_components]. unfold read_component, query. cbn [mbind st_bind].
  unfold draw, mbind, st_bind, mret, st_ret. rewrite (Hst (tick w1) (tick w2)).
  destruct (read_components_run (E:=E) cands {| tick := S (tick w1); db := db w1 |}) as (l1 & w1' & H1 & _).
  destruct (read_components_run (E:=E) cands {| tick := S (tick w2); db := db w2 |}) as (l2 & w2' & H2 & _).
  specialize (IH {| tick := S (tick w1); db := db w1 |} {| tick := S (tick w2); db := db w2 |}).
  rewrite H1, H2 in *. simpl in *. by injection IH as ->.
Qed.

Lemma collect_run {E} w :
  ∃ o w', collect_components (E:=E) w = (Ok o, w') ∧ same_db w w' ∧
    ∀ cs, o = Some cs → sorted_components cs.
Proof.
  unfold collect_components.
  destruct (read_components_run (E:=E) component_candidates w) as (l & w' & Hrun & Hdb).
  rewrite (st_bind_ok _ _ _ _ _ Hrun). do 2 eexists. split; [done|]. split; [done|].
  intros cs. assert (Hs := dedup_components_sorted _ (sort_components_sorted l)).
  destruct (dedup_components _) as [|c l'] eqn:Hl; [done|]. intros Heq. by injection Heq as <-.
Qed.

Lemma collect_stable {E} w1 w2 :
  stable_host → (collect_components (E:=E) w1).1 = (collect_components (E:=E) w2).1.
Proof.
  intros Hst. unfold collect_components.
  destruct (read_components_run (E:=E) component_candidates w1) as (l1 & w1' & H1 & _).
  destruct (read_components_run (E:=E) component_candidates w2) as (l2 & w2' & H2 & _).
  assert (Heq := read_components_stable (E:=E) component_candidates w1 w2 Hst).
  rewrite (st_bind_ok _ _ _ _ _ H1), (st_bind_ok _ _ _ _ _ H2). rewrite H1, H2 in Heq.
  injection Heq as ->. done.
Qed.

(** ** The fingerprint *)

Definition fingerprint_bytes (cs : list SystemFingerprintComponent) : bytes :=
  json_to_vec (fingerprint_value cs).

Lemma SystemFingerprintComponent_round c :
  SystemFingerprintComponent_of_object (of_list (SystemFingerprintComponent_fields c)) = Some c.
Proof. unfold SystemFingerprintComponent_of_object. repeat serde_step. by destruct c. Qed.

Lemma components_round (cs : list SystemFingerprintComponent) :
  de_list of_value (ser_list to_value cs) = Some cs.
Proof. apply de_ser_list. apply Forall_true. apply SystemFingerprintComponent_round. Qed.

Lemma component_json_ok (c : SystemFingerprintComponent) : json_ok (to_value c) = true.
Proof. by apply json_ok_obj. Qed.

Lemma components_ok (cs : list SystemFingerprintComponent) :
  json_ok (ser_list to_value cs) = true.
Proof. apply ser_list_ok. apply Forall_true. apply component_json_ok. Qed.

Lemma fingerprint_value_ok cs : json_ok (fingerprint_value cs) = true.
Proof. apply json_ok_obj. cbn [forallb snd]. by rewrite components_ok. Qed.

Lemma fingerprint_bytes_inj {HC : CodecLaws} cs cs' :
  fingerprint_bytes cs = fingerprint_bytes cs' → cs = cs'.
Proof.
  intros Heq. apply json_to_vec_inj in Heq; [|by apply fingerprint_value_ok..].
  unfold fingerprint_value in Heq. obj_field Heq "components".
  apply (inj Some). rewrite <-!components_round.
  change (ser_list to_value cs = ser_list to_value cs') in Hfield. by rewrite Hfield.
Qed.

Lemma fingerprint_canonical cs :
  canonical_json_bytes (fingerprint_value cs) = Ok (fingerprint_bytes cs).
Proof. apply canonical_json_bytes_ok, fingerprint_value_ok. Qed.

Lemma fingerprint_sha256_ok {E} cs :
  sorted_components cs →
  fingerprint_sha256 (E:=E) cs = Ok (b64url_no_padding (sha256 (fingerprint_bytes cs))).
Proof.
  intros Hs. unfold fingerprint_sha256. rewrite sort_components_id by done.
  unfold canonical_expect. by rewrite fingerprint_canonical.
Qed.

Lemma derive_ok p cs salt :
  SystemFingerprintProvider_derive p cs salt =
    scrypt_derive SystemInvalidKdfParameters p (fingerprint_bytes cs) salt.
Proof.
  unfold SystemFingerprintProvider_derive. by rewrite fingerprint_canonical.
Qed.

Definition system_aad_bytes (vault_id fingerprint : string) : bytes :=
  json_to_vec (obj [ ("provider_id", JStr SYSTEM_FINGERPRINT_PROVIDER_ID);
                     ("record_type", JStr "vault-root-wrap"); ("vault_id", JStr vault_id);
                     ("fingerprint_sha256", JStr fingerprint) ]).
Lemma system_aad_ok {E} vid f : system_provider_aad (E:=E) vid f = Ok (system_aad_bytes vid f).
Proof. unfold system_provider_aad. apply canonical_expect_ok. by apply json_ok_obj. Qed.
End lemmas.

(** ** Bindings *)

Section bindings.
Context {X : Ext}.

Lemma SystemFingerprintProviderBinding_round b :
  SystemFingerprintProviderBinding_wf b →
  SystemFingerprintProviderBinding_of_object (of_list (SystemFingerprintProviderBinding_fields b))
    = Some b.
Proof.
  intros Hwf. unfold SystemFingerprintProviderBinding_of_object. repeat serde_step.
  rewrite of_to_value by done. by rewrite components_round; destruct b.
Qed.

Lemma SystemFingerprintProviderBinding_json_ok b :
  SystemFingerprintProviderBinding_wf b → json_ok (to_value b) = true.
Proof.
  intros Hwf. apply json_ok_obj. unfold SystemFingerprintProviderBinding_fields.
  cbn [forallb snd]. by rewrite ScryptParams_json_ok, components_ok.
Qed.

#[export] Instance SystemFingerprintProviderBinding_serde_laws :
  SerdeLaws SystemFingerprintProviderBinding SystemFingerprintProviderBinding_wf.
Proof.
  split; [apply SystemFingerprintProviderBinding_round|apply SystemFingerprintProviderBinding_json_ok].
Qed.

(** What a binding of [wrap_root_key] holds. *)
Definition system_wraps (vid : string) (rk : bytes) (b : SystemFingerprintProviderBinding) : Prop :=
  ∃ salt nonce c k,
    sb_provider_id b = SYSTEM_FINGERPRINT_PROVIDER_ID ∧
    sb_salt b = b64url_no_padding salt ∧ sb_nonce b = b64url_no_padding nonce ∧
    sb_wrapped_root_key b = b64url_no_padding c ∧ sorted_components (sb_components b) ∧
    sb_fingerprint_sha256 b = b64url_no_padding (sha256 (fingerprint_bytes (sb_components b))) ∧
    length nonce = NONCE_SIZE ∧ length rk = KEY_SIZE ∧
    scrypt_derive SystemInvalidKdfParameters (sb_kdf_params b)
      (fingerprint_bytes (sb_components b)) salt = Ok k ∧
    aes_gcm_encrypt k nonce (system_aad_bytes vid (sb_fingerprint_sha256 b)) rk = Some c.

(** AES-GCM opens the wrapped key for another vault. *)
Definition system_forged (vid vid' : string) (b : SystemFingerprintProviderBinding) : Prop :=
  ∃ salt nonce c k,
    sb_salt b = b64url_no_padding salt ∧ sb_nonce b = b64url_no_padding nonce ∧
    sb_wrapped_root_key b = b64url_no_padding c ∧
    scrypt_derive SystemInvalidKdfParameters (sb_kdf_params b)
      (fingerprint_bytes (sb_components b)) salt = Ok k ∧
    vid' ≠ vid ∧
    is_Some (aes_gcm_decrypt k nonce (system_aad_bytes vid' (sb_fingerprint_sha256 b)) c).

Lemma system_wrap_inv {HE : EnvLaws} p vid rk w b w' :
  SystemFingerprintProvider_wrap_root_key p vid rk w = (Ok b, w') →
  system_wraps vid rk b ∧ sb_kdf_params b = p ∧ same_db w w' ∧
  (collect_components (E:=SystemFingerprintProviderError) w).1 = Ok (Some (sb_components b)).
Proof.
  unfold SystemFingerprintProvider_wrap_root_key. intros H.
  apply st_bind_ok_inv in H as ([] & w1 & Hg & H).
  destruct (Nat.eqb_spec (length rk) KEY_SIZE) as [Hl|]; [|done]. injection Hg as <-.
  destruct (collect_run (E:=SystemFingerprintProviderError) w) as (o & w1 & Hc & Hdb & Hs).
  rewrite (st_bind_ok _ _ _ _ _ Hc) in H. destruct o as [cs|]; [|done]. specialize (Hs cs eq_refl).
  cbn [ok_or] in H. unfold random, draw, lift, mbind, st_bind, mret, st_ret in H.
  rewrite fingerprint_sha256_ok, derive_ok, system_aad_ok in H by done.
  destruct (scrypt_derive _ p _ _) as [k| |] eqn:Hk; [|done..].
  destruct (aes_gcm_encrypt _ _ _ _) as [c|] eqn:Henc; [|done]. simpl in H. injection H as <- <-.
  rewrite Hc. split; [|repeat split; [..|etrans; [apply Hdb|simpl; lia]]; try done; apply Hdb].
  eexists _, _, c, k. repeat split; try done. apply length_random_bytes.
Qed.

Lemma system_wrap_run {HS : ScryptLaws} {HA : AeadLaws} {HE : EnvLaws} vid rk w cs :
  length rk = KEY_SIZE →
  (collect_components (E:=SystemFingerprintProviderError) w).1 = Ok (Some cs) →
  ∃ b w', SystemFingerprintProvider_wrap_root_key ScryptParams_default vid rk w = (Ok b, w').
Proof.
  intros Hl Hcol. unfold SystemFingerprintProvider_wrap_root_key. rewrite Hl, Nat.eqb_refl.
  cbn [negb guard_]. destruct (collect_run (E:=SystemFingerprintProviderError) w) as (o & w1 & Hc & _ & Hs).
  rewrite Hc in Hcol. injection Hcol as ->. specialize (Hs cs eq_refl).
  unfold mbind at 1, st_bind at 1, mret at 1, st_ret at 1.
  rewrite (st_bind_ok _ _ _ _ _ Hc). unfold random, draw, lift, mbind, st_bind, mret, st_ret.
  cbn [ok_or]. rewrite fingerprint_sha256_ok, derive_ok, system_aad_ok by done.
  destruct (scrypt_derive_default SystemInvalidKdfParameters (fingerprint_bytes cs)
    (random_bytes (tick w1) 16)) as (k & Hk & Hlk). simpl tick. rewrite Hk.
  set (n := random_bytes _ 12). set (a := system_aad_bytes _ _).
  destruct (aes_gcm_total k n a rk Hlk (length_random_bytes _ _)) as (c & Henc).
  rewrite Henc. simpl. eauto.
Qed.

(** Unwrapping in a world whose host shows [cs]. *)
Lemma system_unwrap_run vid' b w cs :
  sb_provider_id b = SYSTEM_FINGERPRINT_PROVIDER_ID →
  (collect_components (E:=SystemFingerprintProviderError) w).1 = Ok (Some cs) →
  ∃ w', same_db w w' ∧
  SystemFingerprintProvider_unwrap_root_key vid' b w =
    (if decide (b64url_no_padding (sha256 (fingerprint_bytes cs)) = sb_fingerprint_sha256 b)
     then salt ← ok_or SystemDecode (b64url_decode_no_padding (sb_salt b));
          nonce ← ok_or SystemDecode (b64url_decode_no_padding (sb_nonce b));
          c ← ok_or SystemDecode (b64url_decode_no_padding (sb_wrapped_root_key b));
          k ← scrypt_derive SystemInvalidKdfParameters (sb_kdf_params b) (fingerprint_bytes cs) salt;
          nonce ← provider_to_nonce SystemUnlockFailed nonce;
          m ← ok_or SystemUnlockFailed
                (aes_gcm_decrypt k nonce (system_aad_bytes vid' (sb_fingerprint_sha256 b)) c);
          provider_to_key SystemUnlockFailed m
     else Err FingerprintMismatch, w').
Proof.
  intros Hid Hcol. unfold SystemFingerprintProvider_unwrap_root_key.
  rewrite Hid, String.eqb_refl. cbn [negb guard_].
  destruct (collect_run (E:=SystemFingerprintProviderError) w) as (o & w1 & Hc & Hdb & Hs).
  rewrite Hc in Hcol. injection Hcol as ->. specialize (Hs cs eq_refl). exists w1. split; [done|].
  rewrite st_ret_bind, (st_bind_ok _ _ _ _ _ Hc). cbn [ok_or].
  rewrite st_lift_ok, fingerprint_sha256_ok, st_lift_ok by done.
  destruct (String.eqb_spec (b64url_no_padding (sha256 (fingerprint_bytes cs)))
    (sb_fingerprint_sha256 b)) as [He|Hne]; cbn [negb].
  - rewrite decide_True, st_guard_false by done. unfold lift. f_equal.
    destruct (ok_or _ (b64url_decode_no_padding (sb_salt b))) as [salt| |];
      cbn [mbind res_bind]; [|done..].
    destruct (ok_or _ (b64url_decode_no_padding (sb_nonce b))) as [nonce| |];
      cbn [mbind res_bind]; [|done..].
    destruct (ok_or _ (b64url_decode_no_padding (sb_wrapped_root_key b))) as [c| |];
      cbn [mbind res_bind]; [|done..].
    by rewrite derive_ok, system_aad_ok.
  - by rewrite decide_False, st_guard_true.
Qed.

Lemma system_wraps_unwraps {HC : CodecLaws} {HA : AeadLaws} vid rk b w :
  system_wraps vid rk b →
  (collect_components (E:=SystemFingerprintProviderError) w).1 = Ok (Some (sb_components b)) →
  ∃ w', SystemFingerprintProvider_unwrap_root_key vid b w = (Ok rk, w') ∧ same_db w w'.
Proof.
  intros (salt & nonce & c & k & Hid & Hs & Hn & Hc & _ & Hf & Hln & Hlk & Hk & Henc) Hcol.
  destruct (system_unwrap_run vid b w _ Hid Hcol) as (w' & Hdb & Hrun). exists w'. split; [|done].
  rewrite Hrun, decide_True, Hs, Hn, Hc by done.
  unfold b64url_no_padding, b64url_decode_no_padding. rewrite !base64_url_round.
  cbn [ok_or mbind res_bind]. rewrite Hk. cbn [mbind res_bind].
  rewrite provider_to_nonce_ok by done. cbn [mbind res_bind].
  rewrite (aes_gcm_round _ _ _ _ _ Henc). cbn [ok_or mbind res_bind]. by rewrite provider_to_key_ok.
Qed.
End bindings.

(** ** Properties *)

(** A system fingerprint binding opens on its own host. On a host whose files do not change
    and that has a usable component, wrapping a 32-byte root key succeeds, the binding
    survives its JSON form, and at any later time unwrapping it for the same vault yields the
    key and leaves the database alone. *)
Theorem system_wrap_unwrap {X : Ext} {HC : CodecLaws} {HS : ScryptLaws} {HA : AeadLaws}
    {HE : EnvLaws} vid rk w cs :
  stable_host → length rk = KEY_SIZE →
  (collect_components (E:=SystemFingerprintProviderError) w).1 = Ok (Some cs) →
  ∃ b w', SystemFingerprintProvider_wrap_root_key ScryptParams_default vid rk w = (Ok b, w') ∧
    db w' = db w ∧ of_value (to_value b) = Some b ∧
    ∀ later, ∃ w2,
      SystemFingerprintProvider_unwrap_root_key vid b later = (Ok rk, w2) ∧ db w2 = db later.
Proof.
  intros Hst Hl Hcol. destruct (system_wrap_run vid rk w cs Hl Hcol) as (b & w' & Hrun).
  exists b, w'. split; [done|]. apply system_wrap_inv in Hrun as (Hw & Hp & [Hd _] & Hcol').
  split; [done|]. split.
  - apply of_to_value. unfold SystemFingerprintProviderBinding_wf. rewrite Hp.
    apply ScryptParams_default_wf.
  - intros later. rewrite (collect_stable w later Hst) in Hcol'.
    destruct (system_wraps_unwraps vid rk b later Hw Hcol') as (w2 & Hrun & [Hd2 _]). eauto.
Qed.

Lemma system_wrap_unwrap_witness : ∃ b w',
  SystemFingerprintProvider_wrap_root_key ScryptParams_default "vault-1" (be_bytes 32 66)
    {| tick := 0; db := empty_db |} = (Ok b, w') ∧
  db w' = empty_db ∧ of_value (to_value b) = Some b ∧
  ∀ later, ∃ w2, SystemFingerprintProvider_unwrap_root_key "vault-1" b later =
                   (Ok (be_bytes 32 66), w2) ∧ db w2 = db later.
Proof.
  eapply (system_wrap_unwrap "vault-1" (be_bytes 32 66) {| tick := 0; db := empty_db |}).
  - intros i j path. reflexivity.
  - reflexivity.
  - vm_compute. reflexivity.
Defined.

(** A system fingerprint binding opens on no other host and for no other vault. If unwrapping
    succeeds, the host shows exactly the components the binding was made from, the vault is
    the one it was made for and the key is the one wrapped, unless SHA-256 collides on the two
    hosts' fingerprints or AES-GCM opens the wrapped key under another vault's associated data.
    A host without a usable component opens nothing. *)
Theorem system_binding_is_bound {X : Ext} {HC : CodecLaws} {HA : AeadLaws} {HE : EnvLaws}
    p vid rk w b w1 vid' rk' later w2 :
  SystemFingerprintProvider_wrap_root_key p vid rk w = (Ok b, w1) →
  SystemFingerprintProvider_unwrap_root_key vid' b later = (Ok rk', w2) →
  ∃ cs, (collect_components (E:=SystemFingerprintProviderError) later).1 = Ok (Some cs) ∧
    ((fingerprint_bytes cs ≠ fingerprint_bytes (sb_components b) ∧
      sha256 (fingerprint_bytes cs) = sha256 (fingerprint_bytes (sb_components b))) ∨
     system_forged vid vid' b ∨
     (cs = sb_components b ∧ vid' = vid ∧ rk' = rk)).
Proof.
  intros Hwrap Hrun. apply system_wrap_inv in Hwrap as (Hw & _ & _ & _).
  destruct Hw as (salt & nonce & c & k & Hid & Hs & Hn & Hc & _ & Hf & Hln & Hlk & Hk & Henc).
  destruct (collect_run (E:=SystemFingerprintProviderError) later) as (o & w3 & Hcol & _ & _).
  destruct o as [cs|].
  2:{ unfold SystemFingerprintProvider_unwrap_root_key in Hrun.
      rewrite Hid, String.eqb_refl in Hrun. cbn [negb] in Hrun.
      rewrite st_guard_false, (st_bind_ok _ _ _ _ _ Hcol) in Hrun. discriminate Hrun. }
  assert (Hcol1 := f_equal fst Hcol). simpl in Hcol1.
  exists cs. split; [done|].
  destruct (system_unwrap_run vid' b later cs Hid Hcol1) as (w4 & _ & Heq).
  rewrite Heq in Hrun. clear Heq. case_decide as Hfp; [|done].
  destruct (decide (fingerprint_bytes cs = fingerprint_bytes (sb_components b))) as [Heqb|Hne].
  2:{ left. split; [done|]. rewrite Hf in Hfp. by apply b64url_inj in Hfp. }
  right. rewrite Hs, Hn, Hc, Heqb in Hrun.
  unfold b64url_no_padding, b64url_decode_no_padding in Hrun. rewrite !base64_url_round in Hrun.
  cbn [ok_or mbind res_bind] in Hrun. rewrite Hk in Hrun. cbn [mbind res_bind] in Hrun.
  rewrite provider_to_nonce_ok in Hrun by done. cbn [mbind res_bind] in Hrun.
  destruct (aes_gcm_decrypt _ _ _ _) as [m|] eqn:Hdec; [|done]. injection Hrun as Hrun _.
  apply provider_to_key_inv in Hrun as [-> _].
  destruct (decide (vid' = vid)) as [->|Hv].
  - right. rewrite (aes_gcm_round _ _ _ _ _ Henc) in Hdec. injection Hdec as ->.
    split; [by apply fingerprint_bytes_inj|done].
  - left. exists salt, nonce, c, k. repeat split; try done.
Qed.

Lemma system_binding_is_bound_witness : ∃ b w1 cs,
  SystemFingerprintProvider_wrap_root_key ScryptParams_default "v" (be_bytes 32 66)
    {| tick := 0; db := empty_db |} = (Ok b, w1) ∧
  (collect_components (E:=SystemFingerprintProviderError) w1).1 = Ok (Some cs) ∧
  ((fingerprint_bytes cs ≠ fingerprint_bytes (sb_components b) ∧
    sha256 (fingerprint_bytes cs) = sha256 (fingerprint_bytes (sb_components b))) ∨
   system_forged "v" "v" b ∨
   (cs = sb_components b ∧ "v" = "v" ∧ be_bytes 32 66 = be_bytes 32 66)).
Proof.
  pose (wr := SystemFingerprintProvider_wrap_root_key ScryptParams_default "v" (be_bytes 32 66)
                {| tick := 0; db := empty_db |}).
  destruct (system_binding_is_bound ScryptParams_default "v" (be_bytes 32 66)
    {| tick := 0; db := empty_db |} (match wr.1 with Ok b => b | _ => Build_SystemFingerprintProviderBinding "" "" ScryptParams_default "" "" "" "" [] "" "" end) wr.2 "v" (be_bytes 32 66) wr.2
    {| tick := 12; db := empty_db |}) as (cs & Hcs & H);
    [vm_compute; reflexivity..|].
  eexists _, _, cs. split; [|split; [exact Hcs|exact H]]. vm_compute. reflexivity.
Defined.
