(* ===== verification/ProviderTpm.v ===== *)
(** * The hardware providers and the provider catalog
    (provider_tpm2.rs, provider_tpm2_esapi.rs, provider_yubikey.rs, provider_catalog.rs)

    The root key sealed by a TPM, through the tpm2-tools commands in a temporary directory or
    through ESAPI calls; the detection of a device, of its tools and of a YubiKey; the list of
    local providers.  The TPM, the commands and the device files are parameters. *)

From S2P Require Export ProviderSystem.
From S2P Require Import Toy.
#[local] Open Scope Z_scope.

Definition TPM2_PROVIDER_ID : string := "linux-tpm2-tools-seal".
Definition TPM2_ESAPI_PROVIDER_ID : string := "linux-tpm2-esapi-seal".
Definition YUBIKEY_PIV_PROVIDER_ID : string := "yubikey-piv".
Definition DEFAULT_TPM_DEVICE : string := "/dev/tpmrm0".

Inductive Tpm2ProviderError : Type :=
| TpmInvalidRootKeyLength | TpmUnsupportedProvider | TpmUnavailable (detail : string)
| MissingCommand (command : string) | CommandFailed (command stderr : string)
| TpmIdentityMismatch | InvalidRootKeyLengthFromTpm | TpmDecode | TpmIo.

Record Tpm2ProviderStatus : Type := {
  ts_available : bool;
  ts_device_path : string;
  ts_tools_available : bool;
  ts_device_accessible : bool;
  ts_detail : string;
}.

Record Tpm2ProviderBinding : Type := {
  tb_provider_id : string;
  tb_vault_id : string;
  tb_device_path : string;
  tb_parent_hierarchy : string;
  tb_public : string;
  tb_private : string;
  tb_public_info_sha256 : string;
  tb_assurance_level : string;
  tb_warning : string;
}.

Definition Tpm2ProviderBinding_fields (b : Tpm2ProviderBinding) : list (string * json) :=
  [ ("provider_id", JStr (tb_provider_id b));
    ("vault_id", JStr (tb_vault_id b));
    ("device_path", JStr (tb_device_path b));
    ("parent_hierarchy", JStr (tb_parent_hierarchy b));
    ("public", JStr (tb_public b));
    ("private", JStr (tb_private b));
    ("public_info_sha256", JStr (tb_public_info_sha256 b));
    ("assurance_level", JStr (tb_assurance_level b));
    ("warning", JStr (tb_warning b)) ].
Definition Tpm2ProviderBinding_of_object (m : omap string json) : option Tpm2ProviderBinding :=
  provider_id ← field "provider_id" as_str m;
  vault_id ← field "vault_id" as_str m;
  device_path ← field "device_path" as_str m;
  parent_hierarchy ← field "parent_hierarchy" as_str m;
  public ← field "public" as_str m;
  private ← field "private" as_str m;
  public_info_sha256 ← field "public_info_sha256" as_str m;
  assurance_level ← field "assurance_level" as_str m;
  warning ← field "warning" as_str m;
  Some {| tb_provider_id := provider_id; tb_vault_id := vault_id; tb_device_path := device_path;
          tb_parent_hierarchy := parent_hierarchy; tb_public := public; tb_private := private;
          tb_public_info_sha256 := public_info_sha256; tb_assurance_level := assurance_level;
          tb_warning := warning |}.
#[export] Instance Tpm2ProviderBinding_serde : Serde Tpm2ProviderBinding := {
  to_value b := obj (Tpm2ProviderBinding_fields b);
  of_value v := as_object v ≫= Tpm2ProviderBinding_of_object;
}.

Definition Tpm2ProviderStatus_fields (s : Tpm2ProviderStatus) : list (string * json) :=
  [ ("available", JBool (ts_available s));
    ("device_path", JStr (ts_device_path s));
    ("tools_available", JBool (ts_tools_available s));
    ("device_accessible", JBool (ts_device_accessible s));
    ("detail", JStr (ts_detail s)) ].

(** ** The host *)

Section host.
Context `{Ext} {E : Type}.

Definition command_exists (command : string) : ST World E bool :=
  query (λ i, match path_dirs i with
              | Some paths => existsb (λ path, command_in i path command) paths
              | None => false
              end).

(** [.into_iter().all(command_exists)] stops at the first command that is missing. *)
Fixpoint all_commands_exist (commands : list string) : ST World E bool :=
  match commands with
  | [] => mret true
  | command :: commands =>
      found ← command_exists command;
      if (found : bool) then all_commands_exist commands else mret false
  end.

Definition device_exists (path : string) : ST World E bool :=
  query (λ i, match file_mode i path with Some _ => true | None => false end).

(** [mode & 0o600 != 0]. *)
Definition readable_writable (path : string) : ST World E bool :=
  query (λ i, match file_mode i path with
              | Some mode => negb (Z.land mode 384 =? 0)
              | None => false
              end).

(** [device.exists() && readable_writable(device)]. *)
Definition device_accessible (path : string) : ST World E bool :=
  exists_ ← device_exists path; if (exists_ : bool) then readable_writable path else mret false.
End host.

(** ** tpm2-tools *)

Section tools.
Context `{Ext}.

Definition tpm2_commands : list string :=
  ["tpm2_createprimary"; "tpm2_create"; "tpm2_load"; "tpm2_unseal"; "tpm2_readpublic"].

Definition LinuxTpm2ToolsProvider_detect {E} (device_path : string)
  : ST World E Tpm2ProviderStatus :=
  tools_available ← all_commands_exist tpm2_commands;
  accessible ← device_accessible device_path;
  exists_ ← device_exists device_path;
  mret {| ts_available := tools_available && accessible;
          ts_device_path := device_path;
          ts_tools_available := tools_available;
          ts_device_accessible := accessible;
          ts_detail :=
            if negb exists_ then (device_path +:+ " does not exist")%string
            else if negb accessible then
              (device_path +:+ " exists but is not readable/writable by this user")%string
            else if negb tools_available then "required tpm2-tools commands are not installed"
            else "TPM device and tpm2-tools are available" |}.

Definition tpm2_require_available (device_path : string) : ST World Tpm2ProviderError unit :=
  status ← LinuxTpm2ToolsProvider_detect device_path;
  if ts_available status then mret tt else throw (TpmUnavailable (ts_detail status)).

Abbreviation files := (omap string bytes).
Abbreviation TPM := (ST World Tpm2ProviderError).

(** [path_str(dir.path().join(name))]. *)
Definition tpm2_path (dir : option string) (name : string) : res Tpm2ProviderError string :=
  match dir with
  | Some dir => Ok (dir +:+ "/" +:+ name)%string
  | None => Err (TpmUnavailable "temporary path is not UTF-8")
  end.

Definition tpm2_write (name : string) (contents : bytes) (fs : files) : TPM files :=
  ok ← query (λ i, write_ok i name);
  if (ok : bool) then mret (oput name contents fs) else throw TpmIo.

Definition tpm2_run (device_path command : string) (args : list string) (capture : bool)
  (fs : files) : TPM (bytes * files) :=
  outcome ← query (λ i, run_process i [("TPM2TOOLS_TCTI", ("device:" +:+ device_path)%string)]
                          command args fs);
  match outcome with
  | NotFound => throw (MissingCommand command)
  | SpawnFailed => throw TpmIo
  | Exited false _ stderr _ => throw (CommandFailed command (trim (from_utf8_lossy stderr)))
  | Exited true stdout _ fs => mret (if capture then stdout else [], fs)
  end.

Definition tpm2_createprimary device_path dir (fs : files) : TPM files :=
  primary_ctx ← lift (tpm2_path dir "primary.ctx");
  r ← tpm2_run device_path "tpm2_createprimary" ["-C"; "o"; "-G"; "ecc"; "-c"; primary_ctx] false fs;
  mret r.2.
Definition tpm2_create device_path dir (fs : files) : TPM files :=
  primary_ctx ← lift (tpm2_path dir "primary.ctx");
  secret_path ← lift (tpm2_path dir "root.key");
  sealed_pub ← lift (tpm2_path dir "sealed.pub");
  sealed_priv ← lift (tpm2_path dir "sealed.priv");
  r ← tpm2_run device_path "tpm2_create"
        ["-C"; primary_ctx; "-i"; secret_path; "-u"; sealed_pub; "-r"; sealed_priv] false fs;
  mret r.2.
Definition tpm2_load device_path dir (fs : files) : TPM files :=
  primary_ctx ← lift (tpm2_path dir "primary.ctx");
  sealed_pub ← lift (tpm2_path dir "sealed.pub");
  sealed_priv ← lift (tpm2_path dir "sealed.priv");
  sealed_ctx ← lift (tpm2_path dir "sealed.ctx");
  r ← tpm2_run device_path "tpm2_load"
        ["-C"; primary_ctx; "-u"; sealed_pub; "-r"; sealed_priv; "-c"; sealed_ctx] false fs;
  mret r.2.
(** [tpm2_readpublic] and [tpm2_unseal]. *)
Definition tpm2_output device_path (command : string) dir (fs : files) : TPM (bytes * files) :=
  sealed_ctx ← lift (tpm2_path dir "sealed.ctx");
  tpm2_run device_path command ["-c"; sealed_ctx] true fs.

Definition tpm2_tempdir : TPM (option string) :=
  dir ← query temp_dir; lift (ok_or TpmIo dir).

Definition LinuxTpm2ToolsProvider_wrap_root_key (device_path vault_id : string) (root_key : bytes)
  : TPM Tpm2ProviderBinding :=
  _ ← guard_ (negb (Nat.eqb (length root_key) KEY_SIZE)) TpmInvalidRootKeyLength;
  _ ← tpm2_require_available device_path;
  dir ← tpm2_tempdir;
  fs ← tpm2_write "root.key" root_key [];
  result ← attempt (fs ← tpm2_createprimary device_path dir fs;
                    fs ← tpm2_create device_path dir fs;
                    fs ← tpm2_load device_path dir fs;
                    tpm2_output device_path "tpm2_readpublic" dir fs);
  _ ← attempt (F:=Tpm2ProviderError) (tpm2_write "root.key" (repeat x00 KEY_SIZE) fs);
  r ← lift result;
  let '(public_info, fs) := r : bytes * files in
  public ← lift (ok_or TpmIo (oget "sealed.pub" fs));
  private ← lift (ok_or TpmIo (oget "sealed.priv" fs));
  mret {| tb_provider_id := TPM2_PROVIDER_ID;
          tb_vault_id := vault_id;
          tb_device_path := device_path;
          tb_parent_hierarchy := "owner";
          tb_public := b64url_no_padding public;
          tb_private := b64url_no_padding private;
          tb_public_info_sha256 := b64url_no_padding (sha256 public_info);
          tb_assurance_level := "A2";
          tb_warning :=
            "tpm2-tools bridge provider; direct TPM bindings are preferred for production." |}.

Definition LinuxTpm2ToolsProvider_unwrap_root_key (device_path : string)
  (binding : Tpm2ProviderBinding) : TPM bytes :=
  _ ← guard_ (negb (String.eqb (tb_provider_id binding) TPM2_PROVIDER_ID)) TpmUnsupportedProvider;
  _ ← tpm2_require_available device_path;
  dir ← tpm2_tempdir;
  public ← lift (ok_or TpmDecode (b64url_decode_no_padding (tb_public binding)));
  fs ← tpm2_write "sealed.pub" public [];
  private ← lift (ok_or TpmDecode (b64url_decode_no_padding (tb_private binding)));
  fs ← tpm2_write "sealed.priv" private fs;
  fs ← tpm2_createprimary device_path dir fs;
  fs ← tpm2_load device_path dir fs;
  r ← tpm2_output device_path "tpm2_readpublic" dir fs;
  let '(public_info, fs) := r : bytes * files in
  let actual_hash := b64url_no_padding (sha256 public_info) in
  _ ← guard_ (negb (is_empty (tb_public_info_sha256 binding)) &&
              negb (String.eqb (tb_public_info_sha256 binding) actual_hash)) TpmIdentityMismatch;
  r ← tpm2_output device_path "tpm2_unseal" dir fs;
  lift (provider_to_key InvalidRootKeyLengthFromTpm r.1).

Definition LinuxTpm2ToolsProvider_self_test (device_path : string) : TPM Tpm2ProviderStatus :=
  status ← LinuxTpm2ToolsProvider_detect device_path;
  if negb (ts_available status) then mret status else
  root_key ← random KEY_SIZE;
  binding ← LinuxTpm2ToolsProvider_wrap_root_key device_path "self-test" root_key;
  unwrapped ← LinuxTpm2ToolsProvider_unwrap_root_key device_path binding;
  if bool_decide (unwrapped = root_key) then mret status
  else throw (CommandFailed "tpm2_unseal" "TPM seal/unseal self-test mismatch").
End tools.

(** ** ESAPI *)

Inductive Tpm2EsapiProviderError : Type :=
| EsapiInvalidRootKeyLength | EsapiUnsupportedProvider | EsapiUnavailable (detail : string)
| EsapiIdentityMismatch | EsapiInvalidRootKeyLengthFromTpm | EsapiDecode | Tss.

Record Tpm2EsapiProviderStatus : Type := {
  es_available : bool;
  es_device_path : string;
  es_tcti : string;
  es_device_accessible : bool;
  es_direct_bindings_available : bool;
  es_detail : string;
}.

Record Tpm2EsapiProviderBinding : Type := {
  eb_provider_id : string;
  eb_vault_id : string;
  eb_device_path : string;
  eb_tcti : string;
  eb_parent_hierarchy : string;
  eb_public : string;
  eb_private : string;
  eb_public_info_sha256 : string;
  eb_assurance_level : string;
  eb_warning : string;
}.

Definition Tpm2EsapiProviderBinding_fields (b : Tpm2EsapiProviderBinding) : list (string * json) :=
  [ ("provider_id", JStr (eb_provider_id b));
    ("vault_id", JStr (eb_vault_id b));
    ("device_path", JStr (eb_device_path b));
    ("tcti", JStr (eb_tcti b));
    ("parent_hierarchy", JStr (eb_parent_hierarchy b));
    ("public", JStr (eb_public b));
    ("private", JStr (eb_private b));
    ("public_info_sha256", JStr (eb_public_info_sha256 b));
    ("assurance_level", JStr (eb_assurance_level b));
    ("warning", JStr (eb_warning b)) ].
Definition Tpm2EsapiProviderBinding_of_object (m : omap string json)
  : option Tpm2EsapiProviderBinding :=
  provider_id ← field "provider_id" as_str m;
  vault_id ← field "vault_id" as_str m;
  device_path ← field "device_path" as_str m;
  tcti ← field "tcti" as_str m;
  parent_hierarchy ← field "parent_hierarchy" as_str m;
  public ← field "public" as_str m;
  private ← field "private" as_str m;
  public_info_sha256 ← field "public_info_sha256" as_str m;
  assurance_level ← field "assurance_level" as_str m;
  warning ← field "warning" as_str m;
  Some {| eb_provider_id := provider_id; eb_vault_id := vault_id; eb_device_path := device_path;
          eb_tcti := tcti; eb_parent_hierarchy := parent_hierarchy; eb_public := public;
          eb_private := private; eb_public_info_sha256 := public_info_sha256;
          eb_assurance_level := assurance_level; eb_warning := warning |}.
#[export] Instance Tpm2EsapiProviderBinding_serde : Serde Tpm2EsapiProviderBinding := {
  to_value b := obj (Tpm2EsapiProviderBinding_fields b);
  of_value v := as_object v ≫= Tpm2EsapiProviderBinding_of_object;
}.

Definition Tpm2EsapiProviderStatus_fields (s : Tpm2EsapiProviderStatus) : list (string * json) :=
  [ ("available", JBool (es_available s));
    ("device_path", JStr (es_device_path s));
    ("tcti", JStr (es_tcti s));
    ("device_accessible", JBool (es_device_accessible s));
    ("direct_bindings_available", JBool (es_direct_bindings_available s));
    ("detail", JStr (es_detail s)) ].

(** The two builders: what they do not set is clear. *)
Definition primary_template : TpmTemplate := {|
  tpl_fixed_tpm := true; tpl_fixed_parent := true; tpl_st_clear := false;
  tpl_sensitive_data_origin := true; tpl_user_with_auth := true; tpl_decrypt := true;
  tpl_restricted := true; tpl_algorithm := SymCipher_AES_128_CFB |}.
Definition sealed_public_template : TpmTemplate := {|
  tpl_fixed_tpm := true; tpl_fixed_parent := true; tpl_st_clear := true;
  tpl_sensitive_data_origin := false; tpl_user_with_auth := true; tpl_decrypt := false;
  tpl_restricted := false; tpl_algorithm := KeyedHash_Null |}.

Section esapi.
Context `{Ext}.
Abbreviation ESAPI := (ST World Tpm2EsapiProviderError).

Definition esapi_tcti (device_path : string) : string := ("device:" +:+ device_path)%string.

Definition LinuxTpm2EsapiProvider_detect {E} (device_path : string)
  : ST World E Tpm2EsapiProviderStatus :=
  accessible ← device_accessible device_path;
  bindings ← (if (accessible : bool)
              then query (λ i, match esapi_context i (esapi_tcti device_path) with
                               | Some _ => true | None => false end)
              else mret false);
  exists_ ← device_exists device_path;
  mret {| es_available := accessible && bindings;
          es_device_path := device_path;
          es_tcti := esapi_tcti device_path;
          es_device_accessible := accessible;
          es_direct_bindings_available := bindings;
          es_detail :=
            if negb exists_ then (device_path +:+ " does not exist")%string
            else if negb accessible then
              (device_path +:+ " exists but is not readable/writable by this user")%string
            else if negb bindings then
              "TPM device exists, but native TSS2/ESAPI context creation failed"
            else "TPM device and native TSS2/ESAPI bindings are available" |}.

Definition esapi_require_available (device_path : string) : ESAPI unit :=
  status ← LinuxTpm2EsapiProvider_detect device_path;
  if es_available status then mret tt else throw (EsapiUnavailable (es_detail status)).

Definition esapi_new_context (device_path : string) : ESAPI bytes :=
  context ← query (λ i, esapi_context i (esapi_tcti device_path)); lift (ok_or Tss context).
Definition create_primary (context : bytes) : ESAPI bytes :=
  primary ← query (λ i, esapi_create_primary i context primary_template);
  lift (ok_or Tss primary).

Definition LinuxTpm2EsapiProvider_wrap_root_key (device_path vault_id : string) (root_key : bytes)
  : ESAPI Tpm2EsapiProviderBinding :=
  _ ← guard_ (negb (Nat.eqb (length root_key) KEY_SIZE)) EsapiInvalidRootKeyLength;
  _ ← esapi_require_available device_path;
  context ← esapi_new_context device_path;
  primary ← create_primary context;
  created ← query (λ i, esapi_create i context primary sealed_public_template root_key);
  parts ← lift (ok_or Tss created);
  let '(private, public_bytes) := parts in
  mret {| eb_provider_id := TPM2_ESAPI_PROVIDER_ID;
          eb_vault_id := vault_id;
          eb_device_path := device_path;
          eb_tcti := esapi_tcti device_path;
          eb_parent_hierarchy := "owner";
          eb_public := b64url_no_padding public_bytes;
          eb_private := b64url_no_padding private;
          eb_public_info_sha256 := b64url_no_padding (sha256 public_bytes);
          eb_assurance_level := "A2";
          eb_warning := "native TPM2-TSS ESAPI provider; sealed root key cannot be unwrapped without this TPM and owner hierarchy." |}.

Definition LinuxTpm2EsapiProvider_unwrap_root_key (device_path : string)
  (binding : Tpm2EsapiProviderBinding) : ESAPI bytes :=
  _ ← guard_ (negb (String.eqb (eb_provider_id binding) TPM2_ESAPI_PROVIDER_ID))
        EsapiUnsupportedProvider;
  _ ← esapi_require_available device_path;
  public_bytes ← lift (ok_or EsapiDecode (b64url_decode_no_padding (eb_public binding)));
  let actual_hash := b64url_no_padding (sha256 public_bytes) in
  _ ← guard_ (negb (is_empty (eb_public_info_sha256 binding)) &&
              negb (String.eqb (eb_public_info_sha256 binding) actual_hash)) EsapiIdentityMismatch;
  private ← lift (ok_or EsapiDecode (b64url_decode_no_padding (eb_private binding)));
  _ ← guard_ (negb (esapi_unmarshall private public_bytes)) Tss;
  context ← esapi_new_context device_path;
  primary ← create_primary context;
  unsealed ← query (λ i, esapi_unseal i context primary private public_bytes);
  root_key ← lift (ok_or Tss unsealed);
  lift (provider_to_key EsapiInvalidRootKeyLengthFromTpm root_key).

Definition LinuxTpm2EsapiProvider_self_test (device_path : string) : ESAPI Tpm2EsapiProviderStatus :=
  status ← LinuxTpm2EsapiProvider_detect device_path;
  if negb (es_available status) then mret status else
  root_key ← random KEY_SIZE;
  binding ← LinuxTpm2EsapiProvider_wrap_root_key device_path "self-test" root_key;
  unwrapped ← LinuxTpm2EsapiProvider_unwrap_root_key device_path binding;
  if bool_decide (unwrapped = root_key) then mret status else throw EsapiIdentityMismatch.
End esapi.

(** ** YubiKey detection *)

Record YubikeyPivProviderStatus : Type := {
  yk_available : bool;
  yk_provider_id : string;
  yk_ykman_available : bool;
  yk_opensc_tool_available : bool;
  yk_pkcs11_tool_available : bool;
  yk_piv_tool_available : bool;
  yk_token_present : bool;
  yk_detail : string;
}.

Definition YubikeyPivProviderStatus_fields (s : YubikeyPivProviderStatus) : list (string * json) :=
  [ ("available", JBool (yk_available s));
    ("provider_id", JStr (yk_provider_id s));
    ("ykman_available", JBool (yk_ykman_available s));
    ("opensc_tool_available", JBool (yk_opensc_tool_available s));
    ("pkcs11_tool_available", JBool (yk_pkcs11_tool_available s));
    ("piv_tool_available", JBool (yk_piv_tool_available s));
    ("token_present", JBool (yk_token_present s));
    ("detail", JStr (yk_detail s)) ].

Section yubikey.
Context `{Ext} {E : Type}.

Definition command_has_stdout (command : string) (args : list string) : ST World E bool :=
  query (λ i, match run_process i [] command args [] with
              | Exited success stdout _ _ => success && negb (is_empty (trim (from_utf8_lossy stdout)))
              | _ => false
              end).

Definition token_present (ykman_available opensc_tool_available pkcs11_tool_available : bool)
  : ST World E bool :=
  ykman ← (if ykman_available then command_has_stdout "ykman" ["list"] else mret false);
  if (ykman : bool) then mret true else
  opensc ← (if opensc_tool_available then command_has_stdout "opensc-tool" ["-l"] else mret false);
  if (opensc : bool) then mret true else
  if pkcs11_tool_available then command_has_stdout "pkcs11-tool" ["-L"] else mret false.

Definition YubikeyPivProvider_detect : ST World E YubikeyPivProviderStatus :=
  ykman ← command_exists "ykman";
  opensc ← command_exists "opensc-tool";
  pkcs11 ← command_exists "pkcs11-tool";
  piv ← command_exists "piv-tool";
  token ← token_present ykman opensc pkcs11;
  let tooling_available := ykman || (opensc && pkcs11) || piv in
  let available := tooling_available && token in
  mret {| yk_available := available;
          yk_provider_id := YUBIKEY_PIV_PROVIDER_ID;
          yk_ykman_available := ykman;
          yk_opensc_tool_available := opensc;
          yk_pkcs11_tool_available := pkcs11;
          yk_piv_tool_available := piv;
          yk_token_present := token;
          yk_detail :=
            if available then "YubiKey/PIV-compatible token and tooling detected"
            else if negb tooling_available then
              "YubiKey/PIV tooling not found; install ykman or OpenSC tools"
            else if negb token then "YubiKey/PIV tooling found, but no token was detected"
            else "YubiKey/PIV provider unavailable" |}.
End yubikey.

(** ** The catalog *)

Record ProviderCatalogEntry : Type := {
  cat_provider_id : string;
  cat_name : string;
  cat_assurance_level : string;
  cat_hardware_backed : bool;
  cat_vault_binding_supported : bool;
  cat_available : bool;
  cat_detail : string;
  cat_warning : option string;
  cat_status : json;
}.

Definition local_provider_catalog `{Ext} {E} (tpm_device : string)
  : ST World E (list ProviderCatalogEntry) :=
  tpm2_status ← LinuxTpm2ToolsProvider_detect tpm_device;
  tpm2_esapi_status ← LinuxTpm2EsapiProvider_detect tpm_device;
  system_status ← SystemFingerprintProvider_detect;
  yubikey_status ← YubikeyPivProvider_detect;
  mret [ {| cat_provider_id := PASSPHRASE_PROVIDER_ID; cat_name := "Passphrase";
            cat_assurance_level := "A1"; cat_hardware_backed := false;
            cat_vault_binding_supported := true; cat_available := true;
            cat_detail := "passphrase provider is always available";
            cat_warning := Some "Security depends on passphrase strength and local vault file protection.";
            cat_status := obj [("available", JBool true); ("requires_secret_input", JBool true)] |};
         {| cat_provider_id := TPM2_ESAPI_PROVIDER_ID; cat_name := "Linux TPM2 Direct";
            cat_assurance_level := "A2"; cat_hardware_backed := true;
            cat_vault_binding_supported := true; cat_available := es_available tpm2_esapi_status;
            cat_detail := es_detail tpm2_esapi_status;
            cat_warning := Some "Native TPM2-TSS ESAPI provider.";
            cat_status := obj (Tpm2EsapiProviderStatus_fields tpm2_esapi_status) |};
         {| cat_provider_id := TPM2_PROVIDER_ID; cat_name := "Linux TPM2 Tools";
            cat_assurance_level := "A2"; cat_hardware_backed := true;
            cat_vault_binding_supported := true; cat_available := ts_available tpm2_status;
            cat_detail := ts_detail tpm2_status;
            cat_warning := Some "Current TPM2 implementation uses the tpm2-tools bridge.";
            cat_status := obj (Tpm2ProviderStatus_fields tpm2_status) |};
         {| cat_provider_id := SYSTEM_FINGERPRINT_PROVIDER_ID; cat_name := "System Fingerprint";
            cat_assurance_level := "A1"; cat_hardware_backed := false;
            cat_vault_binding_supported := true; cat_available := sf_available system_status;
            cat_detail := sf_detail system_status;
            cat_warning := Some "Binds to local machine identifiers but is not a hardware security boundary.";
            cat_status := obj (SystemFingerprintStatus_fields system_status) |};
         {| cat_provider_id := YUBIKEY_PIV_PROVIDER_ID; cat_name := "YubiKey/PIV";
            cat_assurance_level := "A2"; cat_hardware_backed := true;
            cat_vault_binding_supported := false; cat_available := yk_available yubikey_status;
            cat_detail := yk_detail yubikey_status;
            cat_warning := Some "Readiness detection only; vault root-key wrap/unwrap is not implemented yet.";
            cat_status := obj (YubikeyPivProviderStatus_fields yubikey_status) |} ].

(** ** Lemmas *)

Section keeps_lemmas.
Context {X : Ext} (R : World → World → Prop) {HR : Timeless R}.

Lemma keeps_device_accessible {E} path : keeps R (device_accessible (E:=E) path).
Proof. unfold device_accessible, device_exists, readable_writable. keeps_auto. Qed.
Lemma keeps_all_commands {E} commands : keeps R (all_commands_exist (E:=E) commands).
Proof. induction commands; simpl; unfold command_exists; keeps_auto. Qed.
#[local] Hint Resolve keeps_device_accessible keeps_all_commands : keeps.

Lemma keeps_tools_detect {E} path : keeps R (LinuxTpm2ToolsProvider_detect (E:=E) path).
Proof. unfold LinuxTpm2ToolsProvider_detect, device_exists. keeps_auto. Qed.
Lemma keeps_esapi_detect {E} path : keeps R (LinuxTpm2EsapiProvider_detect (E:=E) path).
Proof. unfold LinuxTpm2EsapiProvider_detect, device_exists. keeps_auto. Qed.
#[local] Hint Resolve keeps_tools_detect keeps_esapi_detect : keeps.

Lemma keeps_tpm2_run path command args capture fs :
  keeps R (tpm2_run path command args capture fs).
Proof. unfold tpm2_run. keeps_auto. Qed.
Lemma keeps_tpm2_write name contents fs : keeps R (tpm2_write name contents fs).
Proof. unfold tpm2_write. keeps_auto. Qed.
#[local] Hint Resolve keeps_tpm2_run keeps_tpm2_write : keeps.
Lemma keeps_createprimary path dir fs : keeps R (tpm2_createprimary path dir fs).
Proof. unfold tpm2_createprimary. keeps_auto. Qed.
Lemma keeps_create path dir fs : keeps R (tpm2_create path dir fs).
Proof. unfold tpm2_create. keeps_auto. Qed.
Lemma keeps_load path dir fs : keeps R (tpm2_load path dir fs).
Proof. unfold tpm2_load. keeps_auto. Qed.
Lemma keeps_output path command dir fs : keeps R (tpm2_output path command dir fs).
Proof. unfold tpm2_output. keeps_auto. Qed.
#[local] Hint Resolve keeps_createprimary keeps_create keeps_load keeps_output : keeps.

Lemma keeps_tools_wrap path vid rk : keeps R (LinuxTpm2ToolsProvider_wrap_root_key path vid rk).
Proof.
  unfold LinuxTpm2ToolsProvider_wrap_root_key, tpm2_require_available, tpm2_tempdir. keeps_auto.
Qed.
Lemma keeps_tools_unwrap path b : keeps R (LinuxTpm2ToolsProvider_unwrap_root_key path b).
Proof.
  unfold LinuxTpm2ToolsProvider_unwrap_root_key, tpm2_require_available, tpm2_tempdir. keeps_auto.
Qed.
Lemma keeps_esapi_wrap path vid rk : keeps R (LinuxTpm2EsapiProvider_wrap_root_key path vid rk).
Proof.
  unfold LinuxTpm2EsapiProvider_wrap_root_key, esapi_require_available, esapi_new_context,
    create_primary. keeps_auto.
Qed.
Lemma keeps_esapi_unwrap path b : keeps R (LinuxTpm2EsapiProvider_unwrap_root_key path b).
Proof.
  unfold LinuxTpm2EsapiProvider_unwrap_root_key, esapi_require_available, esapi_new_context,
    create_primary. keeps_auto.
Qed.

Lemma keeps_read_components {E} cands : keeps R (read_components (E:=E) cands).
Proof. induction cands as [|[] ? IH]; simpl; unfold read_component; keeps_auto; try apply IH. Qed.
#[local] Hint Resolve keeps_read_components : keeps.
Lemma keeps_collect {E} : keeps R (collect_components (E:=E)).
Proof. unfold collect_components. keeps_auto. Qed.
#[local] Hint Resolve keeps_collect : keeps.
Lemma keeps_system_wrap p vid rk : keeps R (SystemFingerprintProvider_wrap_root_key p vid rk).
Proof. unfold SystemFingerprintProvider_wrap_root_key. keeps_auto. Qed.
Lemma keeps_system_unwrap vid b : keeps R (SystemFingerprintProvider_unwrap_root_key vid b).
Proof. unfold SystemFingerprintProvider_unwrap_root_key. keeps_auto. Qed.
Lemma keeps_passphrase_wrap p vid rk pass :
  keeps R (PassphraseProvider_wrap_root_key p vid rk pass).
Proof. unfold PassphraseProvider_wrap_root_key. keeps_auto. Qed.

#[local] Hint Resolve keeps_tools_wrap keeps_tools_unwrap keeps_esapi_wrap keeps_esapi_unwrap
  keeps_collect : keeps.
Lemma keeps_tools_self_test path : keeps R (LinuxTpm2ToolsProvider_self_test path).
Proof. unfold LinuxTpm2ToolsProvider_self_test. keeps_auto. Qed.
Lemma keeps_esapi_self_test path : keeps R (LinuxTpm2EsapiProvider_self_test path).
Proof. unfold LinuxTpm2EsapiProvider_self_test. keeps_auto. Qed.
Lemma keeps_system_detect {E} : keeps R (SystemFingerprintProvider_detect (E:=E)).
Proof. unfold SystemFingerprintProvider_detect. keeps_auto. Qed.
Lemma keeps_yubikey_detect {E} : keeps R (YubikeyPivProvider_detect (E:=E)).
Proof.
  unfold YubikeyPivProvider_detect, command_exists, token_present, command_has_stdout. keeps_auto.
Qed.
#[local] Hint Resolve keeps_system_detect keeps_yubikey_detect : keeps.
Lemma keeps_catalog {E} path : keeps R (local_provider_catalog (E:=E) path).
Proof. unfold local_provider_catalog. keeps_auto. Qed.
End keeps_lemmas.
#[export] Hint Resolve keeps_tools_detect keeps_esapi_detect keeps_system_detect
  keeps_yubikey_detect keeps_catalog keeps_tools_self_test keeps_esapi_self_test : keeps.
#[export] Hint Resolve keeps_tools_wrap keeps_tools_unwrap keeps_esapi_wrap keeps_esapi_unwrap
  keeps_system_wrap keeps_system_unwrap keeps_passphrase_wrap : keeps.

Lemma Tpm2ProviderBinding_round b :
  Tpm2ProviderBinding_of_object (of_list (Tpm2ProviderBinding_fields b)) = Some b.
Proof. unfold Tpm2ProviderBinding_of_object. repeat serde_step. by destruct b. Qed.
#[export] Instance Tpm2ProviderBinding_serde_laws :
  SerdeLaws Tpm2ProviderBinding (λ _, True).
Proof. split; intros b _; [apply Tpm2ProviderBinding_round|by apply json_ok_obj]. Qed.

Lemma Tpm2EsapiProviderBinding_round b :
  Tpm2EsapiProviderBinding_of_object (of_list (Tpm2EsapiProviderBinding_fields b)) = Some b.
Proof. unfold Tpm2EsapiProviderBinding_of_object. repeat serde_step. by destruct b. Qed.
#[export] Instance Tpm2EsapiProviderBinding_serde_laws :
  SerdeLaws Tpm2EsapiProviderBinding (λ _, True).
Proof. split; intros b _; [apply Tpm2EsapiProviderBinding_round|by apply json_ok_obj]. Qed.

(** What the code relies on of a TPM: a primary object created from the same template is the
    same object, so that an object sealed under it can be loaded and unsealed under it later. *)
Class TpmLaws {X : Ext} : Prop := {
  tpm_unseals tcti i1 i2 i3 j1 j2 j3 ctx primary key private public ctx' primary' :
    esapi_context i1 tcti = Some ctx →
    esapi_create_primary i2 ctx primary_template = Some primary →
    esapi_create i3 ctx primary sealed_public_template key = Some (private, public) →
    esapi_context j1 tcti = Some ctx' →
    esapi_create_primary j2 ctx' primary_template = Some primary' →
    esapi_unmarshall private public = true ∧
    esapi_unseal j3 ctx' primary' private public = Some key;
}.

#[export] Instance toy_tpm_laws : TpmLaws.
Proof.
  split. intros tcti i1 i2 i3 j1 j2 j3 ctx primary key private public ctx' primary'.
  cbn. intros [= <-] [= <-] [= <- <-] [= <-] [= <-]. split; [done|].
  f_equal. rewrite (assoc_L (++)). apply drop_app_length.
Qed.

(** Detection has no error path. *)
Definition total {E A} (m : ST World E A) : Prop := ∀ w, ∃ a w', m w = (Ok a, w').
Lemma total_ret {E A} (a : A) : total (mret a : ST World E A).
Proof. intros w. by exists a, w. Qed.
Lemma total_query {E A} (f : nat → A) : total (query f : ST World E A).
Proof. intros w. by do 2 eexists. Qed.
Lemma total_bind {E A B} (m : ST World E A) (f : A → ST World E B) :
  total m → (∀ a, total (f a)) → total (m ≫= f).
Proof. intros Hm Hf w. destruct (Hm w) as (a & w' & Hrun). rewrite (st_bind_ok _ _ _ _ _ Hrun). apply Hf. Qed.
Lemma total_if {E A} (b : bool) (m1 m2 : ST World E A) :
  total m1 → total m2 → total (if b then m1 else m2).
Proof. by destruct b. Qed.
#[local] Hint Resolve total_ret total_query total_bind total_if : core.

Lemma total_accessible `{Ext} {E} path : total (device_accessible (E:=E) path).
Proof. unfold device_accessible, device_exists, readable_writable. auto. Qed.
#[local] Hint Resolve total_accessible : core.
Lemma total_esapi_detect `{Ext} {E} path : total (LinuxTpm2EsapiProvider_detect (E:=E) path).
Proof. unfold LinuxTpm2EsapiProvider_detect, device_exists. auto. Qed.

Section esapi_lemmas.
Context {X : Ext} {HC : CodecLaws} {HT : TpmLaws}.

Lemma query_bind {E A B} (f : nat → A) (g : A → ST World E B) w :
  (query f ≫= g) w = g (f (tick w)) {| tick := S (tick w); db := db w |}.
Proof. done. Qed.

(** The parts a successful wrap sealed, and the device they are bound to. *)
Definition esapi_wraps (path : string) (rk : bytes) (b : Tpm2EsapiProviderBinding) : Prop :=
  ∃ private public i1 i2 i3 ctx primary,
    esapi_context i1 (esapi_tcti path) = Some ctx ∧
    esapi_create_primary i2 ctx primary_template = Some primary ∧
    esapi_create i3 ctx primary sealed_public_template rk = Some (private, public) ∧
    length rk = KEY_SIZE ∧ eb_provider_id b = TPM2_ESAPI_PROVIDER_ID ∧
    eb_public b = b64url_no_padding public ∧ eb_private b = b64url_no_padding private ∧
    eb_public_info_sha256 b = b64url_no_padding (sha256 public).

Lemma esapi_wrap_inv path vid rk w b w' :
  LinuxTpm2EsapiProvider_wrap_root_key path vid rk w = (Ok b, w') → esapi_wraps path rk b.
Proof.
  unfold LinuxTpm2EsapiProvider_wrap_root_key. intros H.
  apply st_bind_ok_inv in H as ([] & w1 & Hg & H).
  destruct (Nat.eqb_spec (length rk) KEY_SIZE) as [Hl|]; [|done]. injection Hg as <-.
  apply st_bind_ok_inv in H as ([] & w1 & _ & H).
  unfold esapi_new_context, create_primary in H.
  apply st_bind_ok_inv in H as (ctx & w2 & H1 & H).
  rewrite query_bind in H1. unfold lift in H1. injection H1 as H1 <-. apply ok_or_ok_inv in H1.
  apply st_bind_ok_inv in H as (primary & w3 & H2 & H).
  rewrite query_bind in H2. unfold lift in H2. injection H2 as H2 <-. apply ok_or_ok_inv in H2.
  rewrite query_bind in H. apply st_bind_ok_inv in H as ([private public] & w4 & H3 & H).
  unfold lift in H3. injection H3 as H3 <-. apply ok_or_ok_inv in H3.
  injection H as <- <-. do 7 eexists. repeat split; [exact H1|exact H2|exact H3|done..].
Qed.

(** The errors of a device that is not there or does not answer. *)
Definition device_failure (e : Tpm2EsapiProviderError) : Prop :=
  e = Tss ∨ ∃ detail, e = EsapiUnavailable detail.

Lemma esapi_wraps_unwraps path rk b w :
  esapi_wraps path rk b →
  (LinuxTpm2EsapiProvider_unwrap_root_key path b w).1 = Ok rk ∨
  ∃ e, (LinuxTpm2EsapiProvider_unwrap_root_key path b w).1 = Err e ∧ device_failure e.
Proof.
  intros (private & public & i1 & i2 & i3 & ctx & primary & H1 & H2 & H3 & Hl & Hid & Hpub & Hpriv & Hhash).
  enough (∀ r, (LinuxTpm2EsapiProvider_unwrap_root_key path b w).1 = r →
               r = Ok rk ∨ ∃ e, r = Err e ∧ device_failure e) by eauto.
  intros r Hr. unfold LinuxTpm2EsapiProvider_unwrap_root_key, esapi_require_available,
    esapi_new_context, create_primary, b64url_decode_no_padding in Hr.
  rewrite Hid, String.eqb_refl, st_guard_false, st_bind_assoc in Hr.
  destruct (total_esapi_detect (E:=Tpm2EsapiProviderError) path w) as (st & w1 & Hd).
  rewrite (st_bind_ok _ _ _ _ _ Hd) in Hr.
  destruct (es_available st).
  2:{ right. exists (EsapiUnavailable (es_detail st)).
      split; [symmetry; exact Hr|right; by eexists]. }
  rewrite st_ret_bind, Hpub, Hpriv, Hhash in Hr.
  unfold b64url_no_padding in Hr. rewrite !base64_url_round in Hr. cbn [ok_or] in Hr.
  rewrite st_lift_ok, String.eqb_refl, andb_false_r, st_guard_false, st_lift_ok in Hr.
  destruct (esapi_unmarshall private public) eqn:Hu; cbn [negb] in Hr.
  2:{ right. exists Tss. rewrite st_guard_true in Hr. split; [symmetry; exact Hr|by left]. }
  rewrite st_guard_false, st_bind_assoc, query_bind in Hr.
  destruct (esapi_context (tick w1) (esapi_tcti path)) as [ctx'|] eqn:Hc; cbn [ok_or] in Hr.
  2:{ right. exists Tss. rewrite st_lift_err in Hr. split; [symmetry; exact Hr|by left]. }
  rewrite st_lift_ok, st_bind_assoc, query_bind in Hr. cbn [tick] in Hr.
  destruct (esapi_create_primary (S (tick w1)) ctx' primary_template) as [primary'|] eqn:Hp;
    cbn [ok_or] in Hr.
  2:{ right. exists Tss. rewrite st_lift_err in Hr. split; [symmetry; exact Hr|by left]. }
  left. rewrite st_lift_ok, query_bind in Hr. cbn [tick] in Hr.
  destruct (tpm_unseals _ _ _ _ _ _ (S (S (tick w1))) _ _ _ _ _ _ _ H1 H2 H3 Hc Hp) as [_ Hs].
  rewrite Hs in Hr. cbn [ok_or] in Hr. rewrite st_lift_ok, provider_to_key_ok in Hr by done.
  by symmetry.
Qed.
End esapi_lemmas.

(** ** Properties *)

(** C37: what the TPM sealed, unwrapping recovers or reports a device failure. A binding made by
    a successful wrap survives its JSON form, and unwrapping it later on the same device
    either yields the wrapped key or fails because the device is unavailable or ESAPI
    reports an error; it never reports a decoding, identity or length error and never yields
    another key. *)
Theorem esapi_wrap_unwrap {X : Ext} {HC : CodecLaws} {HT : TpmLaws} path vid rk w b w' later :
  LinuxTpm2EsapiProvider_wrap_root_key path vid rk w = (Ok b, w') →
  of_value (to_value b) = Some b ∧ db w' = db w ∧
  db (LinuxTpm2EsapiProvider_unwrap_root_key path b later).2 = db later ∧
  ((LinuxTpm2EsapiProvider_unwrap_root_key path b later).1 = Ok rk ∨
   ∃ e, (LinuxTpm2EsapiProvider_unwrap_root_key path b later).1 = Err e ∧ device_failure e).
Proof.
  intros Hrun. split; [apply Tpm2EsapiProviderBinding_round|]. split.
  { destruct (keeps_esapi_wrap same_db path vid rk w) as [Hd _]. by rewrite Hrun in Hd. }
  split; [by destruct (keeps_esapi_unwrap same_db path b later)|].
  apply esapi_wraps_unwraps. by eapply esapi_wrap_inv.
Qed.

Lemma esapi_wrap_unwrap_witness : ∃ b w',
  LinuxTpm2EsapiProvider_wrap_root_key "/dev/tpmrm0" "v" (be_bytes 32 5)
    {| tick := 0; db := empty_db |} = (Ok b, w') ∧
  of_value (to_value b) = Some b ∧ db w' = empty_db ∧
  db (LinuxTpm2EsapiProvider_unwrap_root_key "/dev/tpmrm0" b w').2 = db w' ∧
  ((LinuxTpm2EsapiProvider_unwrap_root_key "/dev/tpmrm0" b w').1 = Ok (be_bytes 32 5) ∨
   ∃ e, (LinuxTpm2EsapiProvider_unwrap_root_key "/dev/tpmrm0" b w').1 = Err e ∧ device_failure e).
Proof.
  eexists _, _. split; [vm_compute; reflexivity|].
  eapply (esapi_wrap_unwrap "/dev/tpmrm0" "v" (be_bytes 32 5) {| tick := 0; db := empty_db |}).
  vm_compute. reflexivity.
Defined.
