(* ===== verification/Redaction.v ===== *)
(** * Redaction (redaction.rs)

    Keyed fingerprints of secrets, the textual representations of a secret, and the engine that
    replaces them by markers and then the structured patterns; that the literal replacement
    leaves no representation behind when no marker contains one. *)

From S2P Require Export World Mfa.
From S2P Require Import Toy.
#[local] Open Scope Z_scope.

Inductive RedactionLeakError : Type := LeakError.

(** [RedactionEngine]: fingerprints and secrets, in the order they were learnt. *)
Record RedactionEngine : Type := { known_values : list (string * bytes) }.
Definition RedactionEngine_new : RedactionEngine := {| known_values := [] |}.
Definition with_known_secret (fingerprint : string) (secret : bytes) : RedactionEngine :=
  {| known_values := [(fingerprint, secret)] |}.

Definition dq : string := str_of_codes [34]%N.
(** The static patterns with their replacements; [dq] is a double quote. *)
Definition structured_patterns : list (string * string) :=
  [ ("(?i)(Authorization:\s*Bearer\s+)[^\s,;]+", "$1[REDACTED:bearer]");
    ("(?i)(password=)([" +:+ dq +:+ "']?)[^;&\s" +:+ dq +:+ "']+([" +:+ dq +:+ "']?)",
     "$1$2[REDACTED]$3");
    ("(?i)(token=)([" +:+ dq +:+ "']?)[^;&\s" +:+ dq +:+ "']+([" +:+ dq +:+ "']?)",
     "$1$2[REDACTED]$3");
    ("(?i)(api[_-]?key=)([" +:+ dq +:+ "']?)[^;&\s" +:+ dq +:+ "']+([" +:+ dq +:+ "']?)",
     "$1$2[REDACTED]$3");
    ("(?i)(" +:+ dq +:+ "?(?:password|token|api[_-]?key)" +:+ dq +:+ "?\s*:\s*" +:+ dq +:+ ")[^"
       +:+ dq +:+ "]+(" +:+ dq +:+ ")", "$1[REDACTED]$2") ]%string.

Definition redaction_marker (fingerprint : string) : string :=
  ("[REDACTED:secret:" +:+ fingerprint +:+ "]")%string.

Section redaction.
Context `{Ext}.

Definition redaction_fingerprint (fingerprint_key secret : bytes) : string :=
  b64url_no_padding (take 18 (hmac_sha256 fingerprint_key secret)).

(** The private [percent_encode] is that of mfa.rs, byte for byte. *)
Definition secret_representations (secret : bytes) : list string :=
  let values := [base64_std_encode secret; b64url_no_padding secret] in
  let values := match from_utf8 secret with
                | Some text => values ++ [text; percent_encode text]
                | None => values
                end in
  List.filter (λ value, negb (is_empty value)) (dedup_by String.eqb (sort_by klt values)).

(** [sort_by_key(Reverse(len))]. *)
Definition longest_first : list string → list string :=
  sort_by (λ left right, (String.length right <? String.length left)%nat).

Definition learn (engine : RedactionEngine) (fingerprint_key secret : bytes)
  : string * RedactionEngine :=
  let fingerprint := redaction_fingerprint fingerprint_key secret in
  (fingerprint, {| known_values := known_values engine ++ [(fingerprint, secret)] |}).

Definition redact_representations (marker : string) (representations : list string)
  (redacted : string) : string :=
  fold_left (λ redacted representation, replace representation marker redacted)
    representations redacted.
Definition redact_known (known : list (string * bytes)) (text : string) : string :=
  fold_left (λ redacted kv, redact_representations (redaction_marker kv.1)
                              (longest_first (secret_representations kv.2)) redacted) known text.

Definition redact_structured_patterns (text : string) : string :=
  fold_left (λ redacted pr, regex_replace_all pr.1 pr.2 redacted) structured_patterns text.

Definition redact_text (engine : RedactionEngine) (text : string) : string :=
  redact_structured_patterns (redact_known (known_values engine) text).

Definition assert_no_known_secret (engine : RedactionEngine) (text : string)
  : res RedactionLeakError unit :=
  if String.eqb (redact_text engine text) text then Ok tt else Err LeakError.

Definition redact_known_secret (value : string) (secret : bytes) (marker : string)
  : string * bool :=
  let redacted := redact_text (with_known_secret marker secret) value in
  (redacted, negb (String.eqb redacted value)).
End redaction.

(** ** Occurrences *)

Definition occurs (p s : string) : Prop := ∃ x y, s = (x +:+ p +:+ y)%string.

Lemma occurs_contains p s : occurs p s ↔ contains s p = true.
Proof. split; [intros (x & y & ->); apply contains_app|apply contains_inv]. Qed.

Lemma occurs_app_l p s t : occurs p s → occurs p (s +:+ t)%string.
Proof. intros (x & y & ->). exists x, (y +:+ t)%string. by rewrite !str_app_assoc. Qed.
Lemma occurs_app_r p s t : occurs p t → occurs p (s +:+ t)%string.
Proof. intros (x & y & ->). exists (s +:+ x)%string, y. by rewrite !str_app_assoc. Qed.

Lemma occurs_cons p a s :
  occurs p (String a s) → String.prefix p (String a s) = true ∨ occurs p s.
Proof.
  intros Ho. apply occurs_contains in Ho. cbn [contains] in Ho. apply orb_true_iff in Ho as [|Ho];
    [by left|right; by apply occurs_contains].
Qed.

Lemma str_app_eq_inv (s1 s2 t1 t2 : string) :
  (s1 +:+ s2 = t1 +:+ t2)%string →
  (∃ k, s1 = t1 +:+ k ∧ t2 = k +:+ s2)%string ∨ (∃ k, t1 = s1 +:+ k ∧ s2 = k +:+ t2)%string.
Proof.
  revert t1. induction s1 as [|a s1 IH]; intros t1 Heq; [right; by exists t1|].
  destruct t1 as [|b t1]; [left; by exists (String a s1)|].
  injection Heq as -> Heq. destruct (IH _ Heq) as [(k & -> & ->)|(k & -> & ->)]; [left|right];
    by exists k.
Qed.

(** The characters of [q] all differ from [c]. *)
Definition lacks (c : ascii) (q : string) : bool := all_chars (λ a, negb (Ascii.eqb a c)) q.

Lemma lacks_app c s t : lacks c (s +:+ String c t)%string = false.
Proof. unfold lacks. rewrite all_chars_app. cbn. by rewrite Ascii.eqb_refl, andb_false_r. Qed.

Lemma lacks_cons c t : lacks c (String c t) = false.
Proof. apply (lacks_app c EmptyString). Qed.

(** An occurrence of a string without [c] lies on one side of a [c]. *)
Lemma occurs_split c q a b :
  lacks c q = true → occurs q (a +:+ String c b)%string → occurs q a ∨ occurs q b.
Proof.
  intros Hq (x & y & Heq). apply str_app_eq_inv in Heq as [(k & -> & Heq)|(k & -> & Heq)].
  - apply str_app_eq_inv in Heq as [(k' & -> & Heq)|(k' & -> & _)].
    + destruct k' as [|d k']; [left|injection Heq as -> _; by rewrite lacks_app in Hq].
      exists x, EmptyString. by rewrite !str_app_nil_r.
    + left. by exists x, k'.
  - destruct k as [|d k]; cbn in Heq.
    + destruct q as [|d q]; [left; by exists EmptyString, a|].
      injection Heq as -> _. by rewrite lacks_cons in Hq.
    + injection Heq as -> ->. right. by exists k, y.
Qed.

(** ** What [replace] does *)

Inductive replaced (p m : string) : string → string → Prop :=
| replaced_none s : ¬ occurs p s → replaced p m s s
| replaced_one s0 rest t :
    ¬ occurs p s0 → replaced p m rest t →
    replaced p m (s0 +:+ p +:+ rest)%string (s0 +:+ m +:+ t)%string.

Lemma replace_go_skip p m u rest :
  replace_go p m (String.length u) (u +:+ rest)%string = replace_go p m 0 rest.
Proof. induction u as [|a u IH]; [by destruct rest|]. exact IH. Qed.

Lemma prefix_app_l p s t : String.prefix p s = true → String.prefix p (s +:+ t)%string = true.
Proof. intros (u & ->)%str_prefix_inv. rewrite str_app_assoc. apply str_prefix_app. Qed.

Lemma replaced_cons p m a s t :
  String.prefix p (String a s) = false → replaced p m s t →
  replaced p m (String a s) (String a t).
Proof.
  intros Hp. destruct 1 as [s Hs|s0 rest t Hs Hr].
  - constructor. intros [|]%occurs_cons; [congruence|done].
  - apply (replaced_one p m (String a s0)); [|done]. intros [H|]%occurs_cons; [|done].
    apply (prefix_app_l _ _ (p +:+ rest)%string) in H.
    exact (eq_true_false_abs _ H Hp).
Qed.

Lemma replace_replaced p m s : p ≠ EmptyString → replaced p m s (replace p m s).
Proof.
  intros Hp. remember (String.length s) as n eqn:Hn. assert (String.length s <= n)%nat as Hle by lia.
  clear Hn. revert s Hle. induction n as [|n IH]; intros s Hle.
  - destruct s; [|simpl in Hle; lia]. constructor. intros (x & y & Heq).
    destruct x; [|done]. by destruct p.
  - destruct s as [|a s]; [by apply IH; simpl; lia|].
    destruct (String.prefix p (String a s)) eqn:Hpre.
    + destruct (str_prefix_inv _ _ Hpre) as (rest & Heq). destruct p as [|b p]; [done|].
      assert (replace (String b p) m (String a s) = m +:+ replace (String b p) m rest)%string as ->.
      { unfold replace at 1. cbn [replace_go]. rewrite Hpre. f_equal. cbn [String.length pred].
        injection Heq as -> ->. apply replace_go_skip. }
      rewrite Heq. apply (replaced_one (String b p) m EmptyString).
      * intros (x & y & Hx). by destruct x.
      * apply IH. injection Heq as -> ->. simpl in Hle. rewrite str_length_app in Hle. lia.
    + unfold replace. cbn [replace_go]. rewrite Hpre. apply replaced_cons; [done|].
      apply IH. simpl in Hle. lia.
Qed.

(** A string that no bracketed marker can form. *)
Definition bracket_free (q : string) : bool := lacks "["%char q && lacks "]"%char q.

Lemma replaced_absent p m m' q s t :
  m = ("[" +:+ m' +:+ "]")%string → bracket_free q = true → ¬ occurs q m →
  replaced p m s t → q = p ∨ ¬ occurs q s → ¬ occurs q t.
Proof.
  intros -> [Hl Hr]%andb_true_iff Hm. induction 1 as [s Hs|s0 rest t Hs _ IH].
  - by intros [->|].
  - intros Hor Ho. assert (¬ occurs q s0) as H0.
    { destruct Hor as [->|Hor]; [done|]. intros H0. by apply Hor, occurs_app_l. }
    rewrite !str_app_assoc in Ho. apply (occurs_split "["%char) in Ho as [Ho|Ho]; [done| |done].
    cbn in Ho.
    apply (occurs_split "]"%char) in Ho as [Ho|Ho]; [| |done].
    + apply Hm. apply (occurs_app_r _ "["), occurs_app_l, Ho.
    + apply IH in Ho; [done|]. destruct Hor as [|Hor]; [by left|right].
      intros Hrest. by apply Hor, occurs_app_r, occurs_app_r.
Qed.

Lemma replace_absent p m m' q s :
  m = ("[" +:+ m' +:+ "]")%string → p ≠ EmptyString → bracket_free q = true → ¬ occurs q m →
  q = p ∨ ¬ occurs q s → ¬ occurs q (replace p m s).
Proof. intros Hm Hp Hq Hqm. by eapply replaced_absent; [..|apply replace_replaced]. Qed.

(** Text without the pattern is left as it is. *)
Lemma replace_clean p m s : p ≠ EmptyString → ¬ occurs p s → replace p m s = s.
Proof.
  intros Hp Hs. destruct (replace_replaced p m s Hp) as [s Hn|s0 rest t _ _]; [done|].
  destruct Hs. apply occurs_app_r, occurs_app_l. exists EmptyString, EmptyString.
  by rewrite str_app_nil_r.
Qed.

Section lemmas.
Context {X : Ext}.

Lemma representation_iff secret r :
  r ∈ longest_first (secret_representations secret) ↔
  r ≠ EmptyString ∧
  (r = base64_std_encode secret ∨ r = b64url_no_padding secret ∨
   ∃ text, from_utf8 secret = Some text ∧ (r = text ∨ r = percent_encode text)).
Proof.
  unfold longest_first, secret_representations. rewrite elem_of_sort_by, list_elem_of_In, filter_In.
  rewrite <-list_elem_of_In, elem_of_dedup_by by (intros x y; apply String.eqb_eq).
  rewrite elem_of_sort_by. destruct (from_utf8 secret) as [text|].
  - rewrite elem_of_app, !elem_of_cons, elem_of_nil. destruct r; simpl; [naive_solver|].
    split; [|naive_solver]. intros [Hr _]. split; [done|].
    destruct Hr as [[|[|[]]]|[|[|[]]]]; auto; right; right; exists text; auto.
  - rewrite !elem_of_cons, elem_of_nil. destruct r; simpl; naive_solver.
Qed.

(** The markers of the engine can form no representation: no bracket in it, and no marker
    contains it. *)
Definition safe_markers (known : list (string * bytes)) (q : string) : Prop :=
  bracket_free q = true ∧ ∀ kv, kv ∈ known → contains (redaction_marker kv.1) q = false.

Lemma marker_shape fp : redaction_marker fp = ("[" +:+ ("REDACTED:secret:" +:+ fp) +:+ "]")%string.
Proof. done. Qed.

Lemma redact_representations_absent m m' reps q s :
  m = ("[" +:+ m' +:+ "]")%string → bracket_free q = true → ¬ occurs q m →
  Forall (λ p, p ≠ EmptyString) reps → q ∈ reps ∨ ¬ occurs q s →
  ¬ occurs q (redact_representations m reps s).
Proof.
  intros Hshape Hq Hm Hreps. unfold redact_representations. revert s.
  induction Hreps as [|p reps Hp _ IH]; intros s Hor; simpl.
  - destruct Hor as [Hin|]; [by apply elem_of_nil in Hin|done].
  - apply IH. destruct (decide (q ∈ reps)) as [|Hnin]; [by left|right].
    eapply replace_absent; [exact Hshape|done..|].
    destruct Hor as [Hin|]; [|by right]. apply elem_of_cons in Hin as [|]; [by left|done].
Qed.

Lemma redact_known_absent known q s :
  safe_markers known q →
  (∃ kv, kv ∈ known ∧ q ∈ longest_first (secret_representations kv.2)) ∨ ¬ occurs q s →
  ¬ occurs q (redact_known known s).
Proof.
  unfold redact_known. revert s. induction known as [|kv known IH]; intros s [Hq Hm] Hor; simpl.
  - destruct Hor as [(kv & Hin & _)|]; [by apply elem_of_nil in Hin|done].
  - apply IH; [split; [done|]; intros; apply Hm; by apply elem_of_cons; right|].
    destruct (decide (Exists (λ kv, q ∈ longest_first (secret_representations kv.2)) known))
      as [Hex|Hnex].
    + left. apply Exists_exists in Hex as (kv' & Hin & Hq'). by exists kv'.
    + right. eapply redact_representations_absent; [apply marker_shape|done| | |].
      * rewrite occurs_contains, (Hm kv) by (apply elem_of_cons; by left). done.
      * apply Forall_forall. intros r Hr. apply representation_iff in Hr. tauto.
      * destruct Hor as [(kv' & Hin & Hr)|]; [left|by right].
        apply elem_of_cons in Hin as [->|Hin]; [done|].
        destruct Hnex. apply Exists_exists. by exists kv'.
Qed.

Lemma redact_known_clean known s :
  (∀ kv r, kv ∈ known → r ∈ longest_first (secret_representations kv.2) → contains s r = false) →
  redact_known known s = s.
Proof.
  unfold redact_known. induction known as [|kv known IH]; intros Hc; simpl; [done|].
  assert (redact_representations (redaction_marker kv.1)
            (longest_first (secret_representations kv.2)) s = s) as ->.
  2: { apply IH. intros kv' r Hin. apply Hc. apply elem_of_cons. by right. }
  assert (Forall (λ r, r ≠ EmptyString ∧ ¬ occurs r s)
            (longest_first (secret_representations kv.2))) as Hall.
  { apply Forall_forall. intros r Hr. split; [by apply representation_iff in Hr as [? _]|].
    rewrite occurs_contains, (Hc kv r) by (try apply elem_of_cons; auto). done. }
  unfold redact_representations. induction Hall as [|r reps [Hr Hs] _ IHr]; simpl; [done|].
  by rewrite replace_clean.
Qed.
End lemmas.

(** ** Properties *)

(** Literal redaction leaves nothing behind. When no representation of a known secret
    contains a bracket or occurs in a marker of the engine, the text after the literal
    replacements contains no non-empty representation of any known secret: not its base64 or
    base64url form, nor, for UTF-8 secrets, its text or its percent-encoding. And text in which
    none occurs is left as it is. *)
Theorem redaction_removes_known {X : Ext} engine text :
  (∀ kv r, kv ∈ known_values engine → r ∈ longest_first (secret_representations kv.2) →
     safe_markers (known_values engine) r) →
  (∀ fp secret r, (fp, secret) ∈ known_values engine → r ≠ EmptyString →
     (r = base64_std_encode secret ∨ r = b64url_no_padding secret ∨
      ∃ t, from_utf8 secret = Some t ∧ (r = t ∨ r = percent_encode t)) →
     contains (redact_known (known_values engine) text) r = false) ∧
  ((∀ kv r, kv ∈ known_values engine → r ∈ longest_first (secret_representations kv.2) →
      contains text r = false) →
   redact_known (known_values engine) text = text).
Proof.
  intros Hsafe. split; [|apply redact_known_clean].
  intros fp secret r Hin Hne Hr. apply not_true_iff_false. rewrite <-occurs_contains.
  assert (r ∈ longest_first (secret_representations secret)) as Hrep
    by (by apply representation_iff).
  apply redact_known_absent; [by apply (Hsafe (fp, secret))|left; by exists (fp, secret)].
Qed.

Definition sample_engine : RedactionEngine :=
  (learn RedactionEngine_new (be_bytes 32 1) (as_bytes "sk test")).2.

Lemma redaction_removes_known_witness :
  contains (redact_known (known_values sample_engine) "token=sk test;x=sk%20test") "sk test" = false
  ∧ contains (redact_known (known_values sample_engine) "token=sk test;x=sk%20test") "sk%20test"
    = false.
Proof.
  destruct (redaction_removes_known sample_engine "token=sk test;x=sk%20test") as [H _].
  { intros kv r Hin. apply list_elem_of_singleton in Hin as ->. intros Hr.
    cut (r = "sk test" ∨ r = "sk%20test").
    - intros [-> | ->]; (split; [reflexivity|]); intros kv Hin;
        apply list_elem_of_singleton in Hin as ->; vm_compute; reflexivity.
    - revert Hr. vm_compute. intros Hr. repeat (apply elem_of_cons in Hr as [->|Hr]); auto.
      by apply elem_of_nil in Hr. }
  split; eapply H; [apply elem_of_cons; left; reflexivity|discriminate| |
                    apply elem_of_cons; left; reflexivity|discriminate|].
  - left. reflexivity.
  - right. right. exists "sk test". split; [reflexivity|right; reflexivity].
Defined.
