(* ===== verification/Recovery.v ===== *)
(** * Recovery packages (recovery.rs)

    A recovery package holds the root key under a recovery secret, through the pass phrase
    provider; the recovery phrase is 24 words that spell 18 random bytes, six bits a word.
    [Backup] has the reading and writing of a package's file. *)

From S2P Require Export Provider Mfa.
From S2P Require Import Toy.
#[local] Open Scope Z_scope.

Definition MNEMONIC_WORDS : list string :=
  [ "anchor"; "artist"; "atlas"; "autumn"; "beacon"; "binary"; "border"; "brisk"; "canyon";
    "cedar"; "cipher"; "cobalt"; "comet"; "coral"; "delta"; "dune"; "ember"; "fabric"; "falcon";
    "field"; "forest"; "frost"; "garden"; "harbor"; "hazel"; "honor"; "index"; "ivory"; "jacket";
    "juniper"; "kernel"; "lantern"; "legend"; "magnet"; "meadow"; "mirror"; "nebula"; "nickel";
    "onyx"; "orbit"; "prairie"; "quartz"; "raven"; "river"; "rocket"; "saffron"; "signal";
    "silver"; "summit"; "temple"; "thunder"; "timber"; "ultra"; "velvet"; "violet"; "voyage";
    "walnut"; "winter"; "xenon"; "yellow"; "zenith"; "zephyr"; "zinc"; "zircon" ].

Inductive RecoveryError : Type :=
| RecoveryIo | RecoveryJson | RecoveryProvider (e : ProviderError).
#[export] Instance from_provider_error : From ProviderError RecoveryError := RecoveryProvider.

Record RecoveryPackage : Type := {
  pkg_format_version : Z;
  pkg_recovery_id : string;
  pkg_vault_id : string;
  pkg_created_at : string;
  pkg_root_binding : json;
  pkg_warning : string;
}.

Definition format_version : Z := 1.
Definition recovery_warning : string :=
  "Recovery package can rewrap the vault root key. Protect it separately.".

Definition RecoveryPackage_fields (p : RecoveryPackage) : list (string * json) :=
  [ ("format_version", ser_u64 (pkg_format_version p));
    ("recovery_id", JStr (pkg_recovery_id p));
    ("vault_id", JStr (pkg_vault_id p));
    ("created_at", JStr (pkg_created_at p));
    ("root_binding", pkg_root_binding p);
    ("warning", JStr (pkg_warning p)) ].
Definition RecoveryPackage_of_object (m : omap string json) : option RecoveryPackage :=
  version ← field_or "format_version" de_u64 format_version m;
  recovery_id ← field "recovery_id" as_str m;
  vault_id ← field "vault_id" as_str m;
  created_at ← field "created_at" as_str m;
  root_binding ← field "root_binding" Some m;
  warning ← field_or "warning" as_str recovery_warning m;
  Some {| pkg_format_version := version; pkg_recovery_id := recovery_id;
          pkg_vault_id := vault_id; pkg_created_at := created_at;
          pkg_root_binding := root_binding; pkg_warning := warning |}.
#[export] Instance RecoveryPackage_serde : Serde RecoveryPackage := {
  to_value p := obj (RecoveryPackage_fields p);
  of_value v := as_object v ≫= RecoveryPackage_of_object;
}.
Record RecoveryPackage_wf (p : RecoveryPackage) : Prop := {
  wf_format : 0 <= pkg_format_version p <= u64_max;
  wf_root_binding : json_ok (pkg_root_binding p) = true;
}.

(** ** The phrase *)

(** The inner loop: while at least six bits are pending, one index. *)
Fixpoint mnemonic_drain (fuel : nat) (buffer bits : Z) : list Z * Z :=
  match fuel with
  | O => ([], bits)
  | S fuel =>
      if 6 <=? bits then
        let index := Z.land (u32_shr buffer (bits - 6)) 63 in
        let '(indices, bits) := mnemonic_drain fuel buffer (bits - 6) in (index :: indices, bits)
      else ([], bits)
  end.

(** The outer loop; fewer than six bits are pending at its start, so two rounds of the inner
    loop at most are due. *)
Fixpoint mnemonic_indices (entropy : bytes) (buffer bits : Z) : list Z :=
  match entropy with
  | [] => []
  | byte :: entropy =>
      let buffer := Z.lor (u32_shl buffer 8) (byte_Z byte) in
      let '(indices, bits) := mnemonic_drain 3 buffer (bits + 8) in
      indices ++ mnemonic_indices entropy buffer bits
  end.

Definition mnemonic_word {E} (index : Z) : res E string :=
  expect (MNEMONIC_WORDS !! Z.to_nat index).

Definition mnemonic_phrase {E} (entropy : bytes) : res E string :=
  words ← res_mapM (E:=E) mnemonic_word (mnemonic_indices entropy 0 0); Ok (Text.join " " words).

Definition generate_mnemonic_phrase `{Ext} {E} : ST World E string :=
  entropy ← random 18; lift (mnemonic_phrase entropy).

Definition normalize_mnemonic_phrase (value : string) : string :=
  Text.join " " (to_ascii_lowercase <$> split_whitespace value).

(** ** Packages *)

Section manager.
Context `{Ext}.

(** [RecoveryManager::default()] holds the default pass phrase provider. *)
Definition RecoveryManager_create_package (vault_id : string) (root_key : bytes)
  (recovery_secret : string) : ST World RecoveryError RecoveryPackage :=
  recovery_id ← Uuid_new_v4;
  wrapped ← try_ (PassphraseProvider_wrap_root_key ScryptParams_default vault_id root_key
                    recovery_secret);
  let binding := jinsert "recovery_id" (JStr recovery_id) (to_value wrapped) in
  now ← Utc_now;
  mret {| pkg_format_version := format_version;
          pkg_recovery_id := recovery_id;
          pkg_vault_id := vault_id;
          pkg_created_at := utc_millis now;
          pkg_root_binding := binding;
          pkg_warning := recovery_warning |}.

Definition RecoveryManager_unwrap_root_key (package : RecoveryPackage) (recovery_secret : string)
  : res RecoveryError bytes :=
  binding ← ok_or RecoveryJson (of_value (pkg_root_binding package));
  res_try (PassphraseProvider_unwrap_root_key (pkg_vault_id package) binding recovery_secret).
End manager.

(** ** Lemmas: packages *)

Lemma field_oput_ne {A} k k' (f : json → option A) v m :
  k ≠ k' → field k f (oput k' v m) = field k f m.
Proof. intros Hne. unfold field. by rewrite oget_oput_ne. Qed.

Section package_lemmas.
Context {X : Ext}.

(** The extra member does not get in the binding's way. *)
Lemma binding_with_recovery_id id b :
  PassphraseProviderBinding_wf b →
  of_value (jinsert "recovery_id" id (to_value b)) = Some b.
Proof.
  intros Hwf. transitivity (PassphraseProviderBinding_of_object
    (oput "recovery_id" id (of_list (PassphraseProviderBinding_fields b)))); [done|].
  rewrite <-(PassphraseProviderBinding_round b Hwf).
  unfold PassphraseProviderBinding_of_object. by rewrite !field_oput_ne by discriminate.
Qed.

Lemma RecoveryPackage_round p :
  RecoveryPackage_wf p → RecoveryPackage_of_object (of_list (RecoveryPackage_fields p)) = Some p.
Proof.
  intros []. unfold RecoveryPackage_of_object. repeat serde_step.
  rewrite de_ser_u64 by done. by destruct p.
Qed.
Lemma RecoveryPackage_json_ok p : RecoveryPackage_wf p → json_ok (to_value p) = true.
Proof.
  intros []. apply json_ok_obj. unfold RecoveryPackage_fields. cbn [forallb snd].
  by rewrite ser_u64_ok, wf_root_binding0.
Qed.
#[export] Instance RecoveryPackage_serde_laws : SerdeLaws RecoveryPackage RecoveryPackage_wf.
Proof. split; [apply RecoveryPackage_round|apply RecoveryPackage_json_ok]. Qed.

Lemma keeps_create_package (R : World → World → Prop) {HR : Timeless R} vid rk secret :
  keeps R (RecoveryManager_create_package vid rk secret).
Proof.
  unfold RecoveryManager_create_package, PassphraseProvider_wrap_root_key. keeps_auto.
Qed.
End package_lemmas.
#[export] Hint Resolve keeps_create_package : keeps.

(** ** Lemmas: the phrase *)

Lemma group_at6 x n : 0 <= n → Z.land (u32_shr x n) 63 = x / 2 ^ n mod 64.
Proof.
  intros Hn. unfold u32_shr. rewrite Z.shiftr_div_pow2 by done.
  change 63 with (Z.ones 6). by rewrite Z.land_ones by lia.
Qed.

(** Three bytes as four groups of six bits, and back. *)
Definition groups_of (a b c : Z) : list Z :=
  [a / 4; a mod 4 * 16 + b / 16; b mod 16 * 4 + c / 64; c mod 64].

Lemma groups_of_inj a b c a' b' c' :
  0 <= a < 256 → 0 <= b < 256 → 0 <= c < 256 → 0 <= a' < 256 → 0 <= b' < 256 → 0 <= c' < 256 →
  groups_of a b c = groups_of a' b' c' → a = a' ∧ b = b' ∧ c = c'.
Proof. unfold groups_of. intros ?????? [= H1 H2 H3 H4]. div_lia. Qed.

Lemma groups_of_bound a b c :
  0 <= a < 256 → 0 <= b < 256 → 0 <= c < 256 → Forall (λ i, 0 <= i < 64) (groups_of a b c).
Proof. intros ???. unfold groups_of. repeat constructor; div_lia. Qed.

(** A buffer that ends in the byte [a]. *)
Lemma buffer_low x a k :
  0 <= a < 256 → 0 <= k <= 8 → (x mod 2 ^ 24 * 256 + a) mod 2 ^ 24 mod 2 ^ k = a mod 2 ^ k.
Proof.
  intros Ha Hk. rewrite mod_mod_pow2 by lia. generalize (x mod 2 ^ 24). intros n.
  replace (n * 256 + a) with (a + n * 2 ^ (8 - k) * 2 ^ k).
  - apply Z.mod_add. apply Z.pow_nonzero; lia.
  - rewrite <-Z.mul_assoc, <-Z.pow_add_r by lia. replace (8 - k + k) with 8 by lia. change (2 ^ 8) with 256. lia.
Qed.

Lemma mnemonic_drain8 B : mnemonic_drain 3 B 8 = ([Z.land (u32_shr B 2) 63], 2).
Proof. reflexivity. Qed.
Lemma mnemonic_drain10 B : mnemonic_drain 3 B 10 = ([Z.land (u32_shr B 4) 63], 4).
Proof. reflexivity. Qed.
Lemma mnemonic_drain12 B :
  mnemonic_drain 3 B 12 = ([Z.land (u32_shr B 6) 63; Z.land (u32_shr B 0) 63], 0).
Proof. reflexivity. Qed.

Lemma mnemonic_triple a b c rest B :
  ∃ B', mnemonic_indices (a :: b :: c :: rest) B 0 =
        groups_of (byte_Z a) (byte_Z b) (byte_Z c) ++ mnemonic_indices rest B' 0.
Proof.
  pose proof (byte_Z_bound a) as Ha. pose proof (byte_Z_bound b) as Hb.
  pose proof (byte_Z_bound c) as Hc.
  cbn [mnemonic_indices]. rewrite !shift_in8 by done.
  set (B1 := B mod 2 ^ 24 * 256 + byte_Z a).
  set (B2 := B1 mod 2 ^ 24 * 256 + byte_Z b).
  set (B3 := B2 mod 2 ^ 24 * 256 + byte_Z c).
  exists B3. change (0 + 8) with 8. rewrite mnemonic_drain8. cbn beta iota.
  change (2 + 8) with 10. rewrite mnemonic_drain10. cbn beta iota.
  change (4 + 8) with 12. rewrite mnemonic_drain12. cbn beta iota.
  assert (H1 : B1 mod 2 ^ 24 mod 4 = byte_Z a mod 4) by (apply (buffer_low _ _ 2); lia).
  assert (H2 : B2 mod 2 ^ 24 mod 16 = byte_Z b mod 16) by (apply (buffer_low _ _ 4); lia).
  rewrite !group_at6 by lia.
  assert (E1 : B1 / 2 ^ 2 mod 64 = byte_Z a / 4).
  { unfold B1. generalize (B mod 2 ^ 24). intros n. change (2 ^ 2) with 4. div_lia. }
  assert (E2 : B2 / 2 ^ 4 mod 64 = byte_Z a mod 4 * 16 + byte_Z b / 16).
  { rewrite <-H1. unfold B2. generalize (B1 mod 2 ^ 24). intros n. change (2 ^ 4) with 16. div_lia. }
  assert (E3 : B3 / 2 ^ 6 mod 64 = byte_Z b mod 16 * 4 + byte_Z c / 64).
  { rewrite <-H2. unfold B3. generalize (B2 mod 2 ^ 24). intros n. change (2 ^ 6) with 64. div_lia. }
  assert (E4 : B3 / 2 ^ 0 mod 64 = byte_Z c mod 64).
  { unfold B3. generalize (B2 mod 2 ^ 24). intros n. change (2 ^ 0) with 1. div_lia. }
  unfold groups_of. cbn [app]. by rewrite E1, E2, E3, E4.
Qed.

(** Whole triples: four indices below 64 for each, which determine them. *)
Lemma mnemonic_indices_shape k : ∀ e B,
  length e = (3 * k)%nat →
  length (mnemonic_indices e B 0) = (4 * k)%nat ∧
  Forall (λ i, 0 <= i < 64) (mnemonic_indices e B 0).
Proof.
  induction k as [|k IH]; intros e B Hl.
  - destruct e; [|simpl in Hl; lia]. split; [done|constructor].
  - destruct e as [|a [|b [|c e]]]; [simpl in Hl; lia..|].
    destruct (mnemonic_triple a b c e B) as (B' & ->).
    destruct (IH e B') as [H1 H2]; [simpl in Hl; lia|]. split.
    + rewrite length_app, H1. simpl. lia.
    + apply Forall_app. split; [apply groups_of_bound; apply byte_Z_bound|done].
Qed.

Lemma mnemonic_indices_inj k : ∀ e1 e2 B1 B2,
  length e1 = (3 * k)%nat → length e2 = (3 * k)%nat →
  mnemonic_indices e1 B1 0 = mnemonic_indices e2 B2 0 → e1 = e2.
Proof.
  induction k as [|k IH]; intros e1 e2 B1 B2 Hl1 Hl2 Heq.
  - destruct e1; [|simpl in Hl1; lia]. by destruct e2; [|simpl in Hl2; lia].
  - destruct e1 as [|a [|b [|c e1]]]; [simpl in Hl1; lia..|].
    destruct e2 as [|a' [|b' [|c' e2]]]; [simpl in Hl2; lia..|].
    destruct (mnemonic_triple a b c e1 B1) as (B1' & H1). rewrite H1 in Heq. clear H1.
    destruct (mnemonic_triple a' b' c' e2 B2) as (B2' & H2). rewrite H2 in Heq. clear H2.
    apply app_inj_1 in Heq as [Hg Heq]; [|done].
    apply groups_of_inj in Hg as (Ha & Hb & Hc); [|apply byte_Z_bound..].
    apply byte_Z_inj in Ha as ->. apply byte_Z_inj in Hb as ->. apply byte_Z_inj in Hc as ->.
    do 3 f_equal. by apply (IH e1 e2 B1' B2'); [simpl in Hl1; lia|simpl in Hl2; lia|].
Qed.

(** *** Words *)

Definition word_char (a : ascii) : bool :=
  is_ascii a && negb (is_whitespace (String a EmptyString)).
Definition word_ok (w : string) : bool := negb (is_empty w) && all_chars word_char w.
Definition lower_word (w : string) : bool :=
  word_ok w && String.eqb (to_ascii_lowercase w) w.

Lemma mnemonic_words_ok : forallb lower_word MNEMONIC_WORDS = true.
Proof. vm_compute. reflexivity. Qed.
Lemma mnemonic_words_nodup : NoDup MNEMONIC_WORDS.
Proof. refine (bool_decide_eq_true_1 _ _). vm_compute. reflexivity. Qed.

Lemma mnemonic_word_some i :
  0 <= i < 64 → ∃ w, MNEMONIC_WORDS !! Z.to_nat i = Some w ∧ lower_word w = true.
Proof.
  intros Hi. destruct (lookup_lt_is_Some_2 MNEMONIC_WORDS (Z.to_nat i)) as (w & Hw).
  { change (length MNEMONIC_WORDS) with 64%nat. lia. }
  exists w. split; [done|]. pose proof mnemonic_words_ok as Hall. rewrite forallb_forall in Hall.
  apply Hall. apply list_elem_of_In. by eapply list_elem_of_lookup_2.
Qed.

Lemma ascii_list_app s t : ascii_list (s +:+ t)%string = ascii_list s ++ ascii_list t.
Proof. induction s as [|a s IH]; simpl; by rewrite ?IH. Qed.

Definition singles (s : string) : list string := (λ a, String a EmptyString) <$> ascii_list s.

Lemma split_go_word w cur rest :
  all_chars word_char w = true →
  split_whitespace_go cur (singles w ++ rest) = split_whitespace_go (cur +:+ w)%string rest.
Proof.
  unfold singles. revert cur. induction w as [|a w IH]; intros cur Hw.
  - by rewrite str_app_nil_r.
  - cbn [all_chars] in Hw. apply andb_true_iff in Hw as [Ha Hw].
    unfold word_char in Ha. apply andb_true_iff in Ha as [_ Ha]. apply negb_true_iff in Ha.
    cbn [ascii_list fmap list_fmap app split_whitespace_go]. rewrite Ha, IH by done.
    by rewrite str_app_assoc.
Qed.

Lemma word_ok_inv w :
  word_ok w = true → is_empty w = false ∧ all_chars word_char w = true ∧ all_chars is_ascii w = true.
Proof.
  unfold word_ok. rewrite andb_true_iff, negb_true_iff. intros [He Hw]. repeat split; [done..|].
  revert Hw. apply all_chars_impl. unfold word_char. intros a. by rewrite andb_true_iff; intros [].
Qed.

Lemma join_ascii ws :
  Forall (λ w, word_ok w = true) ws → all_chars is_ascii (Text.join " " ws) = true.
Proof.
  induction 1 as [|w ws Hw Hws IH]; [done|]. apply word_ok_inv in Hw as (_ & _ & Hw).
  destruct ws as [|w' ws]; [done|]. change (Text.join " " (w :: w' :: ws)) with
    (w +:+ " " +:+ Text.join " " (w' :: ws))%string. by rewrite !all_chars_app, Hw, IH.
Qed.

Lemma split_join ws :
  Forall (λ w, word_ok w = true) ws → split_whitespace (Text.join " " ws) = ws.
Proof.
  intros Hws. unfold split_whitespace. rewrite chars_ascii by by apply join_ascii.
  fold (singles (Text.join " " ws)).
  induction Hws as [|w ws Hw Hws IH]; [done|]. apply word_ok_inv in Hw as (He & Hw & _).
  destruct ws as [|w' ws].
  - cbn [Text.join]. rewrite <-(app_nil_r (singles w)), split_go_word, str_app_nil_l by done.
    cbn [split_whitespace_go]. by rewrite He.
  - change (Text.join " " (w :: w' :: ws)) with (w +:+ " " +:+ Text.join " " (w' :: ws))%string.
    unfold singles. rewrite !ascii_list_app, !fmap_app. fold (singles w).
    rewrite split_go_word, str_app_nil_l by done.
    cbn [ascii_list fmap list_fmap app split_whitespace_go].
    change (is_whitespace " ") with true. rewrite He. cbn beta iota. f_equal. exact IH.
Qed.

Lemma lower_word_char a : word_char (ascii_lower a) = true → word_char a = true.
Proof. by destruct a as [[] [] [] [] [] [] [] []]. Qed.

Lemma word_ok_lower t : word_ok (to_ascii_lowercase t) = true → word_ok t = true.
Proof.
  unfold word_ok. rewrite !andb_true_iff. intros [He Ht]. split; [by destruct t|]. clear He.
  induction t as [|a t IH]; [done|]. cbn in Ht |- *.
  apply andb_true_iff in Ht as [Ha Ht]. by rewrite lower_word_char, IH.
Qed.

Lemma normalize_words typed words :
  Forall (λ w, lower_word w = true) words → to_ascii_lowercase <$> typed = words →
  normalize_mnemonic_phrase (Text.join " " typed) = Text.join " " words.
Proof.
  intros Hw Hlow. unfold normalize_mnemonic_phrase. rewrite split_join; [by rewrite Hlow|].
  subst words. apply Forall_fmap in Hw. eapply Forall_impl; [exact Hw|].
  intros t. unfold compose, lower_word. rewrite andb_true_iff. intros [Ht _]. by apply word_ok_lower.
Qed.

Lemma lower_words_fixed words :
  Forall (λ w, lower_word w = true) words → to_ascii_lowercase <$> words = words.
Proof.
  induction 1 as [|w ws Hw _ IH]; [done|]. rewrite fmap_cons, IH. f_equal.
  unfold lower_word in Hw. apply andb_true_iff in Hw as [_ Hw]. by apply String.eqb_eq.
Qed.

Lemma mnemonic_words_of {E} indices :
  Forall (λ i, 0 <= i < 64) indices →
  ∃ words, res_mapM (E:=E) mnemonic_word indices = Ok words ∧
    (λ i, MNEMONIC_WORDS !! Z.to_nat i) <$> indices = Some <$> words ∧
    Forall (λ w, lower_word w = true) words.
Proof.
  induction 1 as [|i indices Hi _ (ws & Hr & Hl & Hw)]; [by exists []|].
  destruct (mnemonic_word_some i Hi) as (w & Hiw & How). exists (w :: ws). cbn [res_mapM].
  assert (mnemonic_word (E:=E) i = Ok w) as -> by (unfold mnemonic_word; by rewrite Hiw).
  cbn [mbind res_bind]. rewrite Hr.
  cbn [mbind res_bind]. rewrite !fmap_cons, Hl. cbn beta. rewrite Hiw. split; [done|]. split; [done|by constructor].
Qed.

Lemma indices_of_words l1 l2 :
  Forall (λ i, 0 <= i < 64) l1 → Forall (λ i, 0 <= i < 64) l2 →
  (λ i, MNEMONIC_WORDS !! Z.to_nat i) <$> l1 = (λ i, MNEMONIC_WORDS !! Z.to_nat i) <$> l2 → l1 = l2.
Proof.
  intros H1. revert l2. induction H1 as [|i l1 Hi _ IH]; intros [|j l2] H2 Heq; [done..|].
  inversion H2 as [|? ? Hj H2']; subst. rewrite !fmap_cons in Heq. injection Heq as Hij Heq.
  f_equal; [|by apply IH]. destruct (mnemonic_word_some i Hi) as (w & Hw & _).
  rewrite Hw in Hij. symmetry in Hij.
  assert (Z.to_nat i = Z.to_nat j) as Hn by (by eapply NoDup_lookup; [apply mnemonic_words_nodup|..]).
  lia.
Qed.

Lemma mnemonic_phrase_words {E} e :
  length e = 18%nat →
  ∃ words, mnemonic_phrase (E:=E) e = Ok (Text.join " " words) ∧ length words = 24%nat ∧
    (λ i, MNEMONIC_WORDS !! Z.to_nat i) <$> mnemonic_indices e 0 0 = Some <$> words ∧
    Forall (λ w, lower_word w = true) words.
Proof.
  intros Hl. destruct (mnemonic_indices_shape 6 e 0 Hl) as [Hn Hi].
  destruct (mnemonic_words_of (E:=E) _ Hi) as (words & Hr & Hm & Hw). exists words.
  unfold mnemonic_phrase. rewrite Hr. repeat split; [|done..].
  apply (f_equal length) in Hm. rewrite !length_fmap, Hn in Hm. by rewrite <-Hm.
Qed.

Lemma lower_word_ok w : lower_word w = true → word_ok w = true.
Proof. unfold lower_word. rewrite andb_true_iff. tauto. Qed.

Lemma mnemonic_phrase_inj {E} e1 e2 p :
  length e1 = 18%nat → length e2 = 18%nat →
  mnemonic_phrase (E:=E) e1 = Ok p → mnemonic_phrase (E:=E) e2 = Ok p → e1 = e2.
Proof.
  intros Hl1 Hl2 H1 H2.
  destruct (mnemonic_phrase_words (E:=E) e1 Hl1) as (ws1 & Hp1 & _ & Hm1 & Hw1).
  destruct (mnemonic_phrase_words (E:=E) e2 Hl2) as (ws2 & Hp2 & _ & Hm2 & Hw2).
  rewrite H1 in Hp1. injection Hp1 as ->. rewrite H2 in Hp2. injection Hp2 as Hj.
  assert (ws1 = ws2) as ->.
  { rewrite <-(split_join ws1), Hj, split_join; [done|..];
      (eapply Forall_impl; [eassumption|apply lower_word_ok]). }
  rewrite <-Hm1 in Hm2.
  apply (mnemonic_indices_inj 6 e1 e2 0 0 Hl1 Hl2).
  apply indices_of_words; [by apply (mnemonic_indices_shape 6)..|done].
Qed.

(** ** Properties *)

(** Recovery phrases. Generating a phrase never panics and yields 24 words of the list; two
    phrases are equal only if their 18 random bytes are; and typing a phrase back in any
    letter case normalises to the phrase. *)
Theorem mnemonic_round_trip {X : Ext} {HE : EnvLaws} {E} w :
  ∃ words w', generate_mnemonic_phrase (E:=E) w = (Ok (Text.join " " words), w') ∧
    length words = 24%nat ∧ Forall (λ word, word ∈ MNEMONIC_WORDS) words ∧
    (∀ e, length e = 18%nat → mnemonic_phrase (E:=E) e = Ok (Text.join " " words) →
       e = random_bytes (tick w) 18) ∧
    ∀ typed, to_ascii_lowercase <$> typed = words →
      normalize_mnemonic_phrase (Text.join " " typed) = Text.join " " words.
Proof.
  assert (length (random_bytes (tick w) 18) = 18%nat) as Hl by apply length_random_bytes.
  destruct (mnemonic_phrase_words (E:=E) _ Hl) as (words & Hp & Hn & Hm & Hw).
  exists words. eexists. split.
  { unfold generate_mnemonic_phrase. rewrite random_bind, Hp. done. }
  split; [done|]. split; [|split].
  - apply Forall_forall. intros word Hin. apply (list_elem_of_fmap_2 Some) in Hin.
    rewrite <-Hm in Hin. apply list_elem_of_fmap in Hin as (i & Hi & _).
    symmetry in Hi. by eapply list_elem_of_lookup_2.
  - intros e He Hpe. by apply (mnemonic_phrase_inj (E:=E) e _ _ He Hl Hpe).
  - intros typed. by apply normalize_words.
Qed.

Lemma mnemonic_round_trip_witness : ∃ words w',
  generate_mnemonic_phrase (E:=RecoveryError) {| tick := 77; db := empty_db |} =
    (Ok (Text.join " " words), w') ∧ length words = 24%nat ∧
  normalize_mnemonic_phrase (to_ascii_uppercase (Text.join " " words)) = Text.join " " words.
Proof.
  destruct (mnemonic_round_trip (E:=RecoveryError) {| tick := 77; db := empty_db |})
    as (words & w' & Hg & Hl & Hin & _ & Hn).
  exists words, w'. split; [exact Hg|]. split; [exact Hl|].
  set (phrase := match (generate_mnemonic_phrase (E:=RecoveryError) {| tick := 77; db := empty_db |}).1
                 with Ok p => p | _ => "" end).
  assert (Text.join " " words = phrase) as -> by (unfold phrase; rewrite Hg; reflexivity).
  vm_compute. reflexivity.
Defined.

Lemma create_package_run {X : Ext} {HC : CodecLaws} {HS : ScryptLaws} {HA : AeadLaws}
    {HE : EnvLaws} vid rk secret w :
  length rk = KEY_SIZE → secret ≠ EmptyString →
  ∃ p w', RecoveryManager_create_package vid rk secret w = (Ok p, w') ∧ db w' = db w ∧
    pkg_vault_id p = vid ∧ RecoveryPackage_wf p ∧
    RecoveryManager_unwrap_root_key p secret = Ok rk.
Proof.
  intros Hl Hs.
  destruct (wrap_default_run vid rk secret {| tick := S (tick w); db := db w |} Hl Hs)
    as (b & w1 & Hrun).
  unfold RecoveryManager_create_package. rewrite uuid_bind.
  rewrite (st_bind_ok _ _ _ _ _ (try_ok _ _ _ _ Hrun)), now_bind.
  apply wrap_ok_inv in Hrun as (Hw & Hp & [Hd _]).
  assert (PassphraseProviderBinding_wf b) as Hwf
    by (unfold PassphraseProviderBinding_wf; rewrite Hp; apply ScryptParams_default_wf).
  do 2 eexists. split; [done|]. split; [exact Hd|]. split; [done|]. split.
  - split; cbn [pkg_format_version pkg_root_binding]; [unfold format_version, u64_max; lia|].
    apply (jinsert_ok "recovery_id" (JStr (uuid_new_v4 (tick w)))); [done|].
    by apply PassphraseProviderBinding_json_ok.
  - unfold RecoveryManager_unwrap_root_key. cbn [pkg_root_binding pkg_vault_id].
    rewrite binding_with_recovery_id by done. cbn [ok_or mbind res_bind].
    by rewrite (wraps_unwraps vid rk secret b Hw).
Qed.

(** A recovery package recovers. Creating a package for a 32-byte root key under a non-empty
    secret succeeds; the package survives its JSON form, and unwrapping it with the same
    secret yields the key. *)
Theorem recovery_package_round_trip {X : Ext} {HC : CodecLaws} {HS : ScryptLaws} {HA : AeadLaws}
    {HE : EnvLaws} vid rk secret w :
  length rk = KEY_SIZE → secret ≠ EmptyString →
  ∃ p w', RecoveryManager_create_package vid rk secret w = (Ok p, w') ∧ db w' = db w ∧
    pkg_vault_id p = vid ∧ from_str (to_string p) = Some p ∧
    RecoveryManager_unwrap_root_key p secret = Ok rk.
Proof.
  intros Hl Hs. destruct (create_package_run vid rk secret w Hl Hs) as (p & w' & Hp & Hd & Hv & Hwf & Hu).
  exists p, w'. split; [done|]. split; [done|]. split; [done|]. split; [|done].
  by apply from_str_to_string.
Qed.

Lemma recovery_package_round_trip_witness : ∃ p w',
  RecoveryManager_create_package "vault-1" (be_bytes 32 9) "correct recovery secret"
    {| tick := 0; db := empty_db |} = (Ok p, w') ∧ db w' = empty_db ∧
  pkg_vault_id p = "vault-1" ∧ from_str (to_string p) = Some p ∧
  RecoveryManager_unwrap_root_key p "correct recovery secret" = Ok (be_bytes 32 9).
Proof.
  apply (recovery_package_round_trip "vault-1" (be_bytes 32 9) "correct recovery secret"
    {| tick := 0; db := empty_db |}); [reflexivity|discriminate].
Defined.
