(* ===== verification/Store.v ===== *)
(** * The vault store (store.rs)

    The operations of [SQLiteVaultStore] over the tables of [World].  Every operation opens the
    database first, which can fail; a failing operation leaves the tables as they were, since
    none makes more than one write, and the only read followed by a write
    ([append_audit_event]) is one immediate transaction.  Rows hold JSON text. *)

From S2P Require Export Policy Records AuditLog Tickets.
#[local] Open Scope Z_scope.

Definition SCHEMA_VERSION : Z := 1.

Inductive StoreError : Type :=
| VaultNotInitialized | VaultAlreadyInitialized | SecretNotFound (secret_ref : string)
| TicketConflict (ticket_id : string) | Sqlite | StoreJson | StoreIo.

Record VaultHeader : Type := {
  hd_schema_version : Z;
  hd_vault_id : string;
  hd_namespace_id : string;
  hd_provider_binding : json;
  hd_created_at : string;
}.

Record SecretSummary : Type := {
  sum_secret_ref : string;
  sum_secret_id : string;
  sum_namespace_id : string;
  sum_latest_version : Z;
  sum_status : string;
  sum_secret_type : string;
  sum_created_at : string;
}.

Definition VaultHeader_fields (h : VaultHeader) : list (string * json) :=
  [ ("schema_version", ser_u64 (hd_schema_version h));
    ("vault_id", JStr (hd_vault_id h));
    ("namespace_id", JStr (hd_namespace_id h));
    ("provider_binding", hd_provider_binding h);
    ("created_at", JStr (hd_created_at h)) ].

Definition VaultHeader_of_object (m : omap string json) : option VaultHeader :=
  schema_version ← field_or "schema_version" de_u64 SCHEMA_VERSION m;
  vault_id ← field "vault_id" as_str m;
  namespace_id ← field "namespace_id" as_str m;
  provider_binding ← field "provider_binding" Some m;
  created_at ← field "created_at" as_str m;
  Some {| hd_schema_version := schema_version; hd_vault_id := vault_id;
          hd_namespace_id := namespace_id; hd_provider_binding := provider_binding;
          hd_created_at := created_at |}.

#[export] Instance VaultHeader_serde : Serde VaultHeader := {
  to_value h := obj (VaultHeader_fields h);
  of_value v := as_object v ≫= VaultHeader_of_object;
}.

Record VaultHeader_wf (h : VaultHeader) : Prop := {
  wf_schema : 0 <= hd_schema_version h <= u64_max;
  wf_binding : json_ok (hd_provider_binding h) = true;
}.

(** ** Table updates *)

Definition set_metadata_table m (d : Db) : Db := {|
  vault_metadata := m; secret_records := secret_records d; policies := policies d;
  tickets := tickets d; audit_events := audit_events d;
  redaction_fingerprints := redaction_fingerprints d; rotation_jobs := rotation_jobs d |}.
Definition set_secret_records m (d : Db) : Db := {|
  vault_metadata := vault_metadata d; secret_records := m; policies := policies d;
  tickets := tickets d; audit_events := audit_events d;
  redaction_fingerprints := redaction_fingerprints d; rotation_jobs := rotation_jobs d |}.
Definition set_policies m (d : Db) : Db := {|
  vault_metadata := vault_metadata d; secret_records := secret_records d; policies := m;
  tickets := tickets d; audit_events := audit_events d;
  redaction_fingerprints := redaction_fingerprints d; rotation_jobs := rotation_jobs d |}.
Definition set_tickets m (d : Db) : Db := {|
  vault_metadata := vault_metadata d; secret_records := secret_records d; policies := policies d;
  tickets := m; audit_events := audit_events d;
  redaction_fingerprints := redaction_fingerprints d; rotation_jobs := rotation_jobs d |}.
Definition set_audit_events l (d : Db) : Db := {|
  vault_metadata := vault_metadata d; secret_records := secret_records d; policies := policies d;
  tickets := tickets d; audit_events := l;
  redaction_fingerprints := redaction_fingerprints d; rotation_jobs := rotation_jobs d |}.
Definition set_fingerprints m (d : Db) : Db := {|
  vault_metadata := vault_metadata d; secret_records := secret_records d; policies := policies d;
  tickets := tickets d; audit_events := audit_events d;
  redaction_fingerprints := m; rotation_jobs := rotation_jobs d |}.
Definition set_rotation_jobs m (d : Db) : Db := {|
  vault_metadata := vault_metadata d; secret_records := secret_records d; policies := policies d;
  tickets := tickets d; audit_events := audit_events d;
  redaction_fingerprints := redaction_fingerprints d; rotation_jobs := m |}.

(** The version of a [u64] parameter: rusqlite refuses one that [i64] cannot hold. *)
Definition sql_u64 (v : Z) : res StoreError Z := if v <=? i64_max then Ok v else Err Sqlite.
(** A column read as [u64]: rusqlite refuses a negative integer. *)
Definition u64_column (v : Z) : res StoreError Z := if 0 <=? v then Ok v else Err Sqlite.

(** The versions of one reference, in ascending order. *)
Definition versions_of {V} (secret_ref : string) (m : omap (string * Z) V) : list (Z * V) :=
  (λ kv, (kv.1.2, kv.2)) <$> List.filter (λ kv, String.eqb kv.1.1 secret_ref) m.

(** [serde_json::to_value(value)?.as_str().unwrap_or_default()]. *)
Definition enum_json_string `{Serde A} (a : A) : string :=
  match as_str (to_value a) with Some s => s | None => "" end.

Section store.
Context `{Ext}.

Abbreviation STORE := (ST World StoreError).

Definition get_db : STORE Db := λ w, (Ok (db w), w).
Definition put_db (d : Db) : STORE unit := λ w, (Ok tt, set_db d w).

(** [initialize_schema] and [connect]: the tables exist afterwards, or the operation fails. *)
Definition initialize_schema : STORE unit :=
  i ← draw;
  match store_fault i with
  | Some SqliteFault => throw Sqlite
  | Some IoFault => throw StoreIo
  | None => mret tt
  end.

Definition parse_row `{Serde A} (text : string) : res StoreError A := ok_or StoreJson (from_str text).

(** The private [get_metadata] on a connection. *)
Definition metadata_of (d : Db) (key : string) : option string := oget key (vault_metadata d).

Definition create_vault (header : VaultHeader) : STORE unit :=
  _ ← initialize_schema;
  d ← get_db;
  match metadata_of d "vault_header" with
  | Some _ => throw VaultAlreadyInitialized
  | None => put_db (set_metadata_table (oput "vault_header" (to_string header) (vault_metadata d)) d)
  end.

Definition load_header : STORE VaultHeader :=
  _ ← initialize_schema;
  d ← get_db;
  raw ← lift (ok_or VaultNotInitialized (metadata_of d "vault_header"));
  lift (parse_row raw).

Definition update_header (header : VaultHeader) : STORE unit :=
  _ ← initialize_schema;
  d ← get_db;
  match metadata_of d "vault_header" with
  | None => throw VaultNotInitialized
  | Some _ =>
      put_db (set_metadata_table (oput "vault_header" (to_string header) (vault_metadata d)) d)
  end.

Definition get_metadata (key : string) : STORE (option string) :=
  _ ← initialize_schema; d ← get_db; mret (metadata_of d key).

Definition set_metadata (key value : string) : STORE unit :=
  _ ← initialize_schema; d ← get_db;
  put_db (set_metadata_table (oput key value (vault_metadata d)) d).

Definition record_row (r : SecretRecord) : SecretRow := {|
  row_secret_id := rec_secret_id r; row_namespace_id := rec_namespace_id r;
  row_status := enum_json_string (rec_status r);
  row_secret_type := enum_json_string (rec_secret_type r);
  row_created_at := rec_created_at r; row_record_json := to_string r |}.

Definition save_secret_record (r : SecretRecord) : STORE unit :=
  _ ← initialize_schema;
  d ← get_db;
  match metadata_of d "vault_header" with
  | None => throw VaultNotInitialized
  | Some _ =>
      version ← lift (sql_u64 (rec_secret_version r));
      put_db (set_secret_records
        (oput (rec_secret_ref r, version) (record_row r) (secret_records d)) d)
  end.

(** [SELECT MAX(version)]. *)
Definition latest_version (secret_ref : string) : STORE (option Z) :=
  _ ← initialize_schema;
  d ← get_db;
  match last (versions_of secret_ref (secret_records d)) with
  | None => mret None
  | Some (v, _) => v ← lift (u64_column v); mret (Some v)
  end.

(** [ORDER BY version DESC LIMIT 1]. *)
Definition load_latest_secret (secret_ref : string) : STORE SecretRecord :=
  _ ← initialize_schema;
  d ← get_db;
  match last (versions_of secret_ref (secret_records d)) with
  | None => throw (SecretNotFound secret_ref)
  | Some (_, row) => lift (parse_row (row_record_json row))
  end.

Definition load_secret_version (secret_ref : string) (version : Z) : STORE SecretRecord :=
  _ ← initialize_schema;
  d ← get_db;
  version ← lift (sql_u64 version);
  match oget (secret_ref, version) (secret_records d) with
  | None => throw (SecretNotFound secret_ref)
  | Some row => lift (parse_row (row_record_json row))
  end.

Definition save_updated_secret_status (secret_ref : string) (status : SecretStatus)
  : STORE SecretRecord :=
  record ← load_latest_secret secret_ref;
  let record := set_status status record in
  _ ← save_secret_record record;
  mret record.

(** The latest version of every reference, by reference: the row is the last of its own. *)
Definition is_latest {V} (m : omap (string * Z) V) (kv : (string * Z) * V) : bool :=
  match last (versions_of kv.1.1 m) with Some (v, _) => Z.eqb v kv.1.2 | None => false end.

Definition summary_of (kv : (string * Z) * SecretRow) : res StoreError SecretSummary :=
  version ← u64_column kv.1.2;
  mret {| sum_secret_ref := kv.1.1; sum_secret_id := row_secret_id kv.2;
          sum_namespace_id := row_namespace_id kv.2; sum_latest_version := version;
          sum_status := row_status kv.2; sum_secret_type := row_secret_type kv.2;
          sum_created_at := row_created_at kv.2 |}.

Definition list_secrets : STORE (list SecretSummary) :=
  _ ← initialize_schema;
  d ← get_db;
  lift (res_mapM summary_of (List.filter (is_latest (secret_records d)) (secret_records d))).

(** [INSERT INTO audit_events], whose [event_id] is UNIQUE. *)
Definition insert_audit_row (event : AuditEvent) : STORE unit :=
  d ← get_db;
  if bool_decide (ev_event_id event ∈ (audit_events d).*1) then throw Sqlite
  else put_db (set_audit_events (audit_events d ++ [(ev_event_id event, to_string event)]) d).

Definition save_audit_event (event : AuditEvent) : STORE unit :=
  _ ← initialize_schema; insert_audit_row event.

Definition append_audit_event (build : list AuditEvent → STORE AuditEvent) : STORE AuditEvent :=
  _ ← initialize_schema;
  d ← get_db;
  events ← lift (res_mapM parse_row (audit_events d).*2);
  event ← build events;
  _ ← insert_audit_row event;
  mret event.

Definition list_audit_events : STORE (list AuditEvent) :=
  _ ← initialize_schema; d ← get_db; lift (res_mapM parse_row (audit_events d).*2).

Definition save_policy (p : AccessPolicy) : STORE unit :=
  _ ← initialize_schema; d ← get_db;
  put_db (set_policies (oput (pol_policy_id p) (to_string p) (policies d)) d).

Definition list_policies : STORE (list AccessPolicy) :=
  _ ← initialize_schema; d ← get_db; lift (res_mapM parse_row (policies d).*2).

Definition save_ticket (t : SecretAccessTicket) : STORE unit :=
  _ ← initialize_schema; d ← get_db;
  put_db (set_tickets (oput (tk_ticket_id t) (to_string t) (tickets d)) d).

(** [UPDATE ... WHERE ticket_id = ? AND ticket_json = ?], which must change one row. *)
Definition save_ticket_if_current (expected updated : SecretAccessTicket) : STORE unit :=
  _ ← initialize_schema;
  d ← get_db;
  if bool_decide (oget (tk_ticket_id expected) (tickets d) = Some (to_string expected))
  then put_db (set_tickets (oput (tk_ticket_id expected) (to_string updated) (tickets d)) d)
  else throw (TicketConflict (tk_ticket_id expected)).

(** [raw.map(parse).transpose()]. *)
Definition parse_opt `{Serde A} (raw : option string) : res StoreError (option A) :=
  match raw with Some text => a ← parse_row text; mret (Some a) | None => mret None end.

Definition load_ticket (ticket_id : string) : STORE (option SecretAccessTicket) :=
  _ ← initialize_schema; d ← get_db; lift (parse_opt (oget ticket_id (tickets d))).

Definition list_tickets : STORE (list SecretAccessTicket) :=
  _ ← initialize_schema; d ← get_db; lift (res_mapM parse_row (tickets d).*2).

Definition job_row (j : RotationJob) : RotationRow := {|
  rot_secret_ref := job_secret_ref j; rot_status := enum_json_string (job_status j);
  rot_job_json := to_string j |}.

Definition save_rotation_job (j : RotationJob) : STORE unit :=
  _ ← initialize_schema; d ← get_db;
  put_db (set_rotation_jobs (oput (job_id j) (job_row j) (rotation_jobs d)) d).

Definition load_rotation_job (id : string) : STORE (option RotationJob) :=
  _ ← initialize_schema; d ← get_db;
  lift (parse_opt (rot_job_json <$> oget id (rotation_jobs d))).

Definition list_rotation_jobs : STORE (list RotationJob) :=
  _ ← initialize_schema; d ← get_db;
  lift (res_mapM parse_row (rot_job_json <$> (rotation_jobs d).*2)).

Definition count_redaction_fingerprints : STORE Z :=
  _ ← initialize_schema; d ← get_db; mret (Z.of_nat (length (redaction_fingerprints d))).

Definition save_redaction_fingerprint (secret_ref : string) (version : Z) (fingerprint : string)
  : STORE unit :=
  _ ← initialize_schema; d ← get_db;
  version ← lift (sql_u64 version);
  put_db (set_fingerprints (oput (secret_ref, version) fingerprint (redaction_fingerprints d)) d).

Definition list_redaction_fingerprints : STORE (list string) :=
  _ ← initialize_schema; d ← get_db; mret (redaction_fingerprints d).*2.

(** [PRAGMA integrity_check], whose answer is SQLite's. *)
Definition integrity_check (answer : nat → option string) : STORE string :=
  _ ← initialize_schema;
  text ← query answer;
  lift (ok_or Sqlite text).
End store.
