(* ===== verification/StoreSpec.v ===== *)
(** * The typed view of the store, and the refinement (store.rs)

    What the store promises its clients: a state of typed records, tickets, policies, events
    and jobs, on which every operation is a plain map operation.  [represents] relates the
    view to the tables of JSON text, and [exec] is proved to implement [spec] call by call. *)

From S2P Require Export Store.
From S2P Require Import Toy.
#[local] Open Scope Z_scope.

Record View : Type := {
  v_header : option VaultHeader;
  v_config : string → option string;
  v_records : omap (string * Z) SecretRecord;
  v_policies : omap string AccessPolicy;
  v_tickets : omap string SecretAccessTicket;
  v_audit : list AuditEvent;
  v_fingerprints : omap (string * Z) string;
  v_jobs : omap string RotationJob;
}.

Definition with_header h (v : View) : View := {|
  v_header := h; v_config := v_config v; v_records := v_records v; v_policies := v_policies v;
  v_tickets := v_tickets v; v_audit := v_audit v; v_fingerprints := v_fingerprints v;
  v_jobs := v_jobs v |}.
Definition with_config c (v : View) : View := {|
  v_header := v_header v; v_config := c; v_records := v_records v; v_policies := v_policies v;
  v_tickets := v_tickets v; v_audit := v_audit v; v_fingerprints := v_fingerprints v;
  v_jobs := v_jobs v |}.
Definition with_records r (v : View) : View := {|
  v_header := v_header v; v_config := v_config v; v_records := r; v_policies := v_policies v;
  v_tickets := v_tickets v; v_audit := v_audit v; v_fingerprints := v_fingerprints v;
  v_jobs := v_jobs v |}.
Definition with_policies p (v : View) : View := {|
  v_header := v_header v; v_config := v_config v; v_records := v_records v; v_policies := p;
  v_tickets := v_tickets v; v_audit := v_audit v; v_fingerprints := v_fingerprints v;
  v_jobs := v_jobs v |}.
Definition with_tickets t (v : View) : View := {|
  v_header := v_header v; v_config := v_config v; v_records := v_records v;
  v_policies := v_policies v; v_tickets := t; v_audit := v_audit v;
  v_fingerprints := v_fingerprints v; v_jobs := v_jobs v |}.
Definition with_audit a (v : View) : View := {|
  v_header := v_header v; v_config := v_config v; v_records := v_records v;
  v_policies := v_policies v; v_tickets := v_tickets v; v_audit := a;
  v_fingerprints := v_fingerprints v; v_jobs := v_jobs v |}.
Definition with_fingerprints f (v : View) : View := {|
  v_header := v_header v; v_config := v_config v; v_records := v_records v;
  v_policies := v_policies v; v_tickets := v_tickets v; v_audit := v_audit v;
  v_fingerprints := f; v_jobs := v_jobs v |}.
Definition with_jobs j (v : View) : View := {|
  v_header := v_header v; v_config := v_config v; v_records := v_records v;
  v_policies := v_policies v; v_tickets := v_tickets v; v_audit := v_audit v;
  v_fingerprints := v_fingerprints v; v_jobs := j |}.

(** Rows are filed under the identifiers inside them, and hold values of the Rust types. *)
Definition filed_record (kv : (string * Z) * SecretRecord) : Prop :=
  kv.1 = (rec_secret_ref kv.2, rec_secret_version kv.2) ∧
  0 <= rec_secret_version kv.2 <= i64_max.
Definition filed_ticket (kv : string * SecretAccessTicket) : Prop :=
  kv.1 = tk_ticket_id kv.2 ∧ SecretAccessTicket_wf kv.2.
Definition filed_policy (kv : string * AccessPolicy) : Prop :=
  kv.1 = pol_policy_id kv.2 ∧ AccessPolicy_wf kv.2.
Definition filed_job (kv : string * RotationJob) : Prop :=
  kv.1 = job_id kv.2 ∧ RotationJob_wf kv.2.

Record View_ok (v : View) : Prop := {
  vk_header : ∀ h, v_header v = Some h → VaultHeader_wf h;
  vk_records : osorted (v_records v) ∧ Forall filed_record (v_records v);
  vk_policies : osorted (v_policies v) ∧ Forall filed_policy (v_policies v);
  vk_tickets : osorted (v_tickets v) ∧ Forall filed_ticket (v_tickets v);
  vk_audit : Forall AuditEvent_wf (v_audit v);
  vk_fingerprints : osorted (v_fingerprints v);
  vk_jobs : osorted (v_jobs v) ∧ Forall filed_job (v_jobs v);
}.

Record represents `{Ext} (d : Db) (v : View) : Prop := {
  rp_metadata : osorted (vault_metadata d);
  rp_header : oget "vault_header" (vault_metadata d) = to_string <$> v_header v;
  rp_config : ∀ k, k ≠ "vault_header" → oget k (vault_metadata d) = v_config v k;
  rp_records : secret_records d = map_values record_row (v_records v);
  rp_policies : policies d = map_values to_string (v_policies v);
  rp_tickets : tickets d = map_values to_string (v_tickets v);
  rp_audit : audit_events d = (λ e, (ev_event_id e, to_string e)) <$> v_audit v;
  rp_fingerprints : redaction_fingerprints d = v_fingerprints v;
  rp_jobs : rotation_jobs d = map_values job_row (v_jobs v);
  rp_ok : View_ok v;
}.

(** ** Calls *)

Inductive call : Type → Type :=
| CreateVault (h : VaultHeader) : call unit
| LoadHeader : call VaultHeader
| UpdateHeader (h : VaultHeader) : call unit
| GetMetadata (k : string) : call (option string)
| SetMetadata (k x : string) : call unit
| SaveSecretRecord (r : SecretRecord) : call unit
| LatestVersion (secret_ref : string) : call (option Z)
| LoadLatestSecret (secret_ref : string) : call SecretRecord
| LoadSecretVersion (secret_ref : string) (version : Z) : call SecretRecord
| ListAuditEvents : call (list AuditEvent)
| SaveAuditEvent (e : AuditEvent) : call unit
| SavePolicy (p : AccessPolicy) : call unit
| ListPolicies : call (list AccessPolicy)
| SaveTicket (t : SecretAccessTicket) : call unit
| SaveTicketIfCurrent (expected updated : SecretAccessTicket) : call unit
| LoadTicket (id : string) : call (option SecretAccessTicket)
| ListTickets : call (list SecretAccessTicket)
| SaveRotationJob (j : RotationJob) : call unit
| LoadRotationJob (id : string) : call (option RotationJob)
| ListRotationJobs : call (list RotationJob)
| SaveFingerprint (secret_ref : string) (version : Z) (fingerprint : string) : call unit
| ListFingerprints : call (list string).

Definition exec `{Ext} {A} (c : call A) : ST World StoreError A :=
  match c with
  | CreateVault h => create_vault h
  | LoadHeader => load_header
  | UpdateHeader h => update_header h
  | GetMetadata k => get_metadata k
  | SetMetadata k x => set_metadata k x
  | SaveSecretRecord r => save_secret_record r
  | LatestVersion secret_ref => latest_version secret_ref
  | LoadLatestSecret secret_ref => load_latest_secret secret_ref
  | LoadSecretVersion secret_ref version => load_secret_version secret_ref version
  | ListAuditEvents => list_audit_events
  | SaveAuditEvent e => save_audit_event e
  | SavePolicy p => save_policy p
  | ListPolicies => list_policies
  | SaveTicket t => save_ticket t
  | SaveTicketIfCurrent expected updated => save_ticket_if_current expected updated
  | LoadTicket id => load_ticket id
  | ListTickets => list_tickets
  | SaveRotationJob j => save_rotation_job j
  | LoadRotationJob id => load_rotation_job id
  | ListRotationJobs => list_rotation_jobs
  | SaveFingerprint secret_ref version f => save_redaction_fingerprint secret_ref version f
  | ListFingerprints => list_redaction_fingerprints
  end.

Definition spec {A} (c : call A) (v : View) : res StoreError A * View :=
  match c in call A return res StoreError A * View with
  | CreateVault h =>
      match v_header v with
      | Some _ => (Err VaultAlreadyInitialized, v)
      | None => (Ok tt, with_header (Some h) v)
      end
  | LoadHeader => (ok_or VaultNotInitialized (v_header v), v)
  | UpdateHeader h =>
      match v_header v with
      | Some _ => (Ok tt, with_header (Some h) v)
      | None => (Err VaultNotInitialized, v)
      end
  | GetMetadata k => (Ok (v_config v k), v)
  | SetMetadata k x => (Ok tt, with_config (λ k', if decide (k' = k) then Some x else v_config v k') v)
  | SaveSecretRecord r =>
      match v_header v with
      | Some _ =>
          if rec_secret_version r <=? i64_max
          then (Ok tt, with_records (oput (rec_secret_ref r, rec_secret_version r) r (v_records v)) v)
          else (Err Sqlite, v)
      | None => (Err VaultNotInitialized, v)
      end
  | LatestVersion secret_ref => (Ok (fst <$> last (versions_of secret_ref (v_records v))), v)
  | LoadLatestSecret secret_ref =>
      (ok_or (SecretNotFound secret_ref) (snd <$> last (versions_of secret_ref (v_records v))), v)
  | LoadSecretVersion secret_ref version =>
      (if version <=? i64_max
       then ok_or (SecretNotFound secret_ref) (oget (secret_ref, version) (v_records v))
       else Err Sqlite, v)
  | ListAuditEvents => (Ok (v_audit v), v)
  | SaveAuditEvent e =>
      if bool_decide (ev_event_id e ∈ ev_event_id <$> v_audit v) then (Err Sqlite, v)
      else (Ok tt, with_audit (v_audit v ++ [e]) v)
  | SavePolicy p => (Ok tt, with_policies (oput (pol_policy_id p) p (v_policies v)) v)
  | ListPolicies => (Ok (v_policies v).*2, v)
  | SaveTicket t => (Ok tt, with_tickets (oput (tk_ticket_id t) t (v_tickets v)) v)
  | SaveTicketIfCurrent expected updated =>
      match oget (tk_ticket_id expected) (v_tickets v) with
      | Some t =>
          if bool_decide (t = expected)
          then (Ok tt, with_tickets (oput (tk_ticket_id expected) updated (v_tickets v)) v)
          else (Err (TicketConflict (tk_ticket_id expected)), v)
      | None => (Err (TicketConflict (tk_ticket_id expected)), v)
      end
  | LoadTicket id => (Ok (oget id (v_tickets v)), v)
  | ListTickets => (Ok (v_tickets v).*2, v)
  | SaveRotationJob j => (Ok tt, with_jobs (oput (job_id j) j (v_jobs v)) v)
  | LoadRotationJob id => (Ok (oget id (v_jobs v)), v)
  | ListRotationJobs => (Ok (v_jobs v).*2, v)
  | SaveFingerprint secret_ref version f =>
      if version <=? i64_max
      then (Ok tt, with_fingerprints (oput (secret_ref, version) f (v_fingerprints v)) v)
      else (Err Sqlite, v)
  | ListFingerprints => (Ok (v_fingerprints v).*2, v)
  end.

(** The arguments are values of the Rust types (and dates RFC 3339 can print); the header is
    only written through its own calls. *)
Definition call_ok {A} (c : call A) : Prop :=
  match c with
  | CreateVault h | UpdateHeader h => VaultHeader_wf h
  | GetMetadata k | SetMetadata k _ => k ≠ "vault_header"
  | SaveSecretRecord r => SecretRecord_wf r
  | SaveAuditEvent e => AuditEvent_wf e
  | SavePolicy p => AccessPolicy_wf p
  | SaveTicket t => SecretAccessTicket_wf t
  | SaveTicketIfCurrent expected updated =>
      SecretAccessTicket_wf expected ∧ SecretAccessTicket_wf updated ∧
      tk_ticket_id updated = tk_ticket_id expected
  | SaveRotationJob j => RotationJob_wf j
  | _ => True
  end.

Definition fault_error (f : fault) : StoreError :=
  match f with SqliteFault => Sqlite | IoFault => StoreIo end.

(** ** Operations

    What the store offers beyond its calls: those of two openings, those whose answer is not a
    matter of the view alone, and the lists.  [promise] says what an operation is, started at
    the [i]-th draw on a view: its result, the view it leaves and the next draw. *)

Inductive operation : Type → Type :=
| Single {A} (c : call A) : operation A
| SaveUpdatedSecretStatus (secret_ref : string) (status : SecretStatus) : operation SecretRecord
| AppendAuditEvent (build : list AuditEvent → nat → res StoreError AuditEvent * nat)
  : operation AuditEvent
| ListSecrets : operation (list SecretSummary)
| CountFingerprints : operation Z
| IntegrityCheck (answer : nat → option string) : operation string.

(** A closure of [append_audit_event]: it may draw, and sees nothing of the store but the log. *)
Definition closure (build : list AuditEvent → nat → res StoreError AuditEvent * nat)
  (events : list AuditEvent) : ST World StoreError AuditEvent := λ w,
  let '(r, i) := build events (tick w) in (r, {| tick := i; db := db w |}).

Definition perform `{Ext} {A} (o : operation A) : ST World StoreError A :=
  match o with
  | Single c => exec c
  | SaveUpdatedSecretStatus secret_ref status => save_updated_secret_status secret_ref status
  | AppendAuditEvent build => append_audit_event (closure build)
  | ListSecrets => list_secrets
  | CountFingerprints => count_redaction_fingerprints
  | IntegrityCheck answer => integrity_check answer
  end.

(** An opening of the database, which may fail. *)
Definition opened `{Ext} {A} (v : View) (i : nat) (f : nat → res StoreError A * View * nat)
  : res StoreError A * View * nat :=
  match store_fault i with Some e => (Err (fault_error e), v, S i) | None => f (S i) end.

(** The row of a listing, and whether no later version of its secret is filed. *)
Definition row_summary (kv : (string * Z) * SecretRecord) : SecretSummary := {|
  sum_secret_ref := kv.1.1; sum_secret_id := rec_secret_id kv.2;
  sum_namespace_id := rec_namespace_id kv.2; sum_latest_version := kv.1.2;
  sum_status := default EmptyString (as_str (to_value (rec_status kv.2)));
  sum_secret_type := default EmptyString (as_str (to_value (rec_secret_type kv.2)));
  sum_created_at := rec_created_at kv.2 |}.
Definition newest_row {V} (m : omap (string * Z) V) (kv : (string * Z) * V) : bool :=
  forallb (λ kv', negb (String.eqb kv'.1.1 kv.1.1) || (kv'.1.2 <=? kv.1.2)) m.

Definition promise `{Ext} {A} (o : operation A) (v : View) (i : nat)
  : res StoreError A * View * nat :=
  match o in operation A return res StoreError A * View * nat with
  | Single c => opened v i (λ j, (spec c v, j))
  | SaveUpdatedSecretStatus secret_ref status => opened v i (λ j,
      match last (versions_of secret_ref (v_records v)) with
      | None => (Err (SecretNotFound secret_ref), v, j)
      | Some (version, r) => opened v j (λ k,
          match v_header v with
          | None => (Err VaultNotInitialized, v, k)
          | Some _ => (Ok (set_status status r),
                       with_records (oput (secret_ref, version) (set_status status r) (v_records v)) v, k)
          end)
      end)
  | AppendAuditEvent build => opened v i (λ j,
      match build (v_audit v) j with
      | (Ok e, k) => if bool_decide (ev_event_id e ∈ ev_event_id <$> v_audit v)
                     then (Err Sqlite, v, k) else (Ok e, with_audit (v_audit v ++ [e]) v, k)
      | (Err e, k) => (Err e, v, k)
      | (Panic, k) => (Panic, v, k)
      end)
  | ListSecrets => opened v i (λ j,
      (Ok (row_summary <$> List.filter (newest_row (v_records v)) (v_records v)), v, j))
  | CountFingerprints => opened v i (λ j, (Ok (Z.of_nat (length (v_fingerprints v))), v, j))
  | IntegrityCheck answer => opened v i (λ j, (ok_or Sqlite (answer j), v, S j))
  end.

Definition operation_ok {A} (o : operation A) : Prop :=
  match o with
  | Single c => call_ok c
  | AppendAuditEvent build => ∀ l i e j, build l i = (Ok e, j) → AuditEvent_wf e
  | _ => True
  end.

(** ** Lemmas *)

Lemma versions_of_map_values {V V'} (f : V → V') r m :
  versions_of r (map_values f m) = (λ p, (p.1, f p.2)) <$> versions_of r m.
Proof.
  induction m as [|[[r' v'] x] m IH]; [done|]. unfold versions_of, map_values in *.
  cbn [fmap list_fmap List.filter fst snd]. destruct (String.eqb r' r); [|exact IH].
  cbn [fmap list_fmap fst snd]. f_equal. exact IH.
Qed.

Lemma last_versions_elem {V} r (m : omap (string * Z) V) v x :
  last (versions_of r m) = Some (v, x) → ((r, v), x) ∈ m.
Proof.
  intros Hl. apply last_Some_elem_of in Hl. unfold versions_of in Hl.
  apply list_elem_of_fmap in Hl as ([[r' v'] x'] & [= -> ->] & Hin).
  apply list_elem_of_In, filter_In in Hin as [Hin Heq]. apply list_elem_of_In in Hin.
  simpl in Heq. apply String.eqb_eq in Heq as ->. done.
Qed.

(** *** The latest version of a secret *)

Section latest.
Context {V : Type}.
Implicit Types (m : omap (string * Z) V) (s : string).

Lemma elem_of_versions s m n x : (n, x) ∈ versions_of s m ↔ ((s, n), x) ∈ m.
Proof.
  unfold versions_of. rewrite list_elem_of_fmap. split.
  - intros ([[s' n'] x'] & [= -> ->] & Hin%list_elem_of_In%filter_In). simpl in Hin.
    destruct Hin as [Hin ->%String.eqb_eq]. by apply list_elem_of_In.
  - intros Hin. exists ((s, n), x). split; [done|]. apply list_elem_of_In, filter_In.
    split; [by apply list_elem_of_In|]. simpl. by apply String.eqb_refl.
Qed.

Lemma versions_of_cons s s' n x m :
  versions_of s (((s', n), x) :: m) =
    if String.eqb s' s then (n, x) :: versions_of s m else versions_of s m.
Proof. unfold versions_of. cbn [List.filter fst snd]. by destruct (String.eqb s' s). Qed.

Lemma versions_sorted s m : osorted m → osorted (versions_of s m).
Proof.
  induction m as [|[[s' n] x] m IH]; [done|]. intros [Hall Hs]. rewrite versions_of_cons.
  destruct (String.eqb_spec s' s) as [->|]; [|auto]. split; [|auto].
  apply Forall_forall. intros [n' x'] Hin%elem_of_versions. rewrite Forall_forall in Hall.
  specialize (Hall _ Hin). rewrite klt_pair in Hall. cbn [fst snd] in *.
  by rewrite decide_True in Hall by done.
Qed.

Lemma last_greatest (m : omap Z V) n x n' x' :
  osorted m → last m = Some (n, x) → (n', x') ∈ m → n' <= n.
Proof.
  induction m as [|[k y] m IH]; [done|]. intros [Hall Hs] Hl Hin.
  destruct m as [|p m].
  - injection Hl as -> ->. apply list_elem_of_singleton in Hin as [= -> ->]. lia.
  - rewrite last_cons_cons in Hl. apply elem_of_cons in Hin as [[= -> ->]|Hin]; [|by apply IH].
    apply last_Some_elem_of in Hl. rewrite Forall_forall in Hall.
    specialize (Hall _ Hl). unfold klt, Z_ordkey in Hall. simpl in Hall. lia.
Qed.

Lemma last_versions_spec s m n x :
  osorted m →
  last (versions_of s m) = Some (n, x) ↔
    oget (s, n) m = Some x ∧ ∀ n', is_Some (oget (s, n') m) → n' <= n.
Proof.
  intros Hs. split.
  - intros Hl. split.
    + apply elem_of_oget; [done|]. by apply last_versions_elem.
    + intros n' [x' Hx%oget_elem_of%elem_of_versions].
      by eapply last_greatest; [apply versions_sorted|exact Hl|].
  - intros [Hx Hmax]. apply oget_elem_of, elem_of_versions in Hx.
    destruct (last (versions_of s m)) as [[n1 x1]|] eqn:Hl.
    + pose proof (last_greatest _ _ _ _ _ (versions_sorted s m Hs) Hl Hx) as Hle.
      apply last_Some_elem_of in Hl as Hl1. apply elem_of_versions, elem_of_oget in Hl1; [|done].
      pose proof (Hmax n1 (mk_is_Some _ _ Hl1)). assert (n1 = n) as -> by lia.
      apply elem_of_versions, elem_of_oget in Hx; [|done]. congruence.
    + apply last_None in Hl. rewrite Hl in Hx. by apply elem_of_nil in Hx.
Qed.

Lemma last_versions_none s m :
  last (versions_of s m) = None ↔ ∀ n, n ∉ (versions_of s m).*1.
Proof.
  rewrite last_None. split; [intros ->; set_solver|].
  destruct (versions_of s m) as [|[n x] l]; [done|]. intros H. destruct (H n). set_solver.
Qed.

(** Filing a version above the latest makes it the latest. *)
Lemma latest_put s m n x :
  osorted m → default 0 (fst <$> last (versions_of s m)) < n →
  last (versions_of s (oput (s, n) x m)) = Some (n, x).
Proof.
  intros Hs Hlt. apply last_versions_spec; [by apply osorted_oput|].
  split; [by apply oget_oput_eq|]. intros n'. rewrite oget_oput. case_decide as Hd; [by inversion Hd|].
  intros Hn'. destruct (last (versions_of s m)) as [[n1 x1]|] eqn:Hl; simpl in Hlt.
  - apply last_versions_spec in Hl as [_ Hmax]; [|done]. specialize (Hmax _ Hn'). lia.
  - destruct Hn' as [x' Hx%oget_elem_of%elem_of_versions]. apply last_None in Hl.
    rewrite Hl in Hx. by apply elem_of_nil in Hx.
Qed.

Lemma latest_put_other s s' m n x :
  osorted m → s' ≠ s →
  last (versions_of s' (oput (s, n) x m)) = last (versions_of s' m).
Proof.
  intros Hs Hne.
  assert (∀ n', oget (s', n') (oput (s, n) x m) = oget (s', n') m) as Heq.
  { intros n'. apply oget_oput_ne. congruence. }
  apply option_eq. intros [n1 x1]. rewrite !last_versions_spec by first [done|by apply osorted_oput].
  rewrite Heq. split; intros [? Hmax]; (split; [done|]); intros n' Hn'; apply Hmax; congruence.
Qed.
End latest.

Lemma VaultHeader_round h :
  VaultHeader_of_object (of_list (VaultHeader_fields h)) =
    (n ← de_u64 (ser_u64 (hd_schema_version h));
     Some {| hd_schema_version := n; hd_vault_id := hd_vault_id h;
             hd_namespace_id := hd_namespace_id h;
             hd_provider_binding := hd_provider_binding h; hd_created_at := hd_created_at h |}).
Proof. unfold VaultHeader_of_object. repeat serde_step. done. Qed.

#[export] Instance VaultHeader_serde_laws : SerdeLaws VaultHeader VaultHeader_wf.
Proof.
  split; intros h [Hs Hb].
  - simpl. rewrite VaultHeader_round, de_ser_u64 by done. by destruct h.
  - apply json_ok_obj. unfold VaultHeader_fields. cbn [forallb snd].
    by rewrite ser_u64_ok, Hb.
Qed.

Section refinement.
Context {X : Ext} {HC : CodecLaws} {HT : ChronoLaws}.

Lemma parse_row_ok `{Serde A, !SerdeLaws A wf} (a : A) :
  wf a → parse_row (to_string a) = Ok a.
Proof. intros Hwf. unfold parse_row. by erewrite from_str_to_string. Qed.

Lemma to_string_inj `{Serde A, !SerdeLaws A wf} (a b : A) :
  wf a → wf b → to_string a = to_string b → a = b.
Proof.
  intros Ha Hb Heq. assert (Some a = Some b) as [=]; [|done].
  rewrite <-(from_str_to_string a), <-(from_str_to_string b) by eauto. by rewrite Heq.
Qed.

Lemma parse_values {K} `{Serde A, !SerdeLaws A wf} (m : omap K A) :
  Forall (λ kv, wf kv.2) m → res_mapM parse_row (map_values to_string m).*2 = Ok m.*2.
Proof.
  intros Hm. rewrite snd_map_values. apply res_mapM_fmap, Forall_fmap.
  eapply Forall_impl; [exact Hm|]. intros kv Hkv. by apply parse_row_ok.
Qed.

Lemma parse_opt_ok `{Serde A, !SerdeLaws A wf} (o : option A) :
  (∀ a, o = Some a → wf a) → parse_opt (to_string <$> o) = Ok o.
Proof. intros Ho. destruct o as [a|]; [|done]. simpl. by rewrite parse_row_ok by auto. Qed.

Lemma initialize_ok w :
  store_fault (tick w) = None →
  initialize_schema w = (Ok tt, {| tick := S (tick w); db := db w |}).
Proof. intros Hf. unfold initialize_schema, draw, mbind, st_bind. by rewrite Hf. Qed.

Lemma initialize_err w f :
  store_fault (tick w) = Some f →
  initialize_schema w = (Err (fault_error f), {| tick := S (tick w); db := db w |}).
Proof. intros Hf. unfold initialize_schema, draw, mbind, st_bind. rewrite Hf. by destruct f. Qed.

(** Filing a value under its identifier keeps a table filed. *)
Lemma file_table {K V} `{OrdKeyLaws K, !EqDecision K} (P : K * V → Prop) k x m :
  osorted m ∧ Forall P m → P (k, x) → osorted (oput k x m) ∧ Forall P (oput k x m).
Proof. intros [Hs Hm] Hx. split; [by apply osorted_oput|by apply oput_Forall]. Qed.

(** *** Each write keeps the representation *)

Context (d : Db) (v : View).
Hypothesis Hrep : represents d v.

Lemma rep_header h :
  VaultHeader_wf h →
  represents (set_metadata_table (oput "vault_header" (to_string h) (vault_metadata d)) d)
    (with_header (Some h) v).
Proof.
  intros Hh. destruct Hrep as [? ? Hcfg ? ? ? ? ? ? []].
  split; simpl; try done; [by apply osorted_oput|by rewrite oget_oput_eq| |].
  - intros k Hk. rewrite oget_oput_ne by done. auto.
  - split; simpl; try done. by intros ? [= <-].
Qed.

Lemma rep_config k x :
  k ≠ "vault_header" →
  represents (set_metadata_table (oput k x (vault_metadata d)) d)
    (with_config (λ k', if decide (k' = k) then Some x else v_config v k') v).
Proof.
  intros Hk. destruct Hrep as [? ? Hcfg ? ? ? ? ? ? []].
  split; simpl; try done; [by apply osorted_oput|by rewrite oget_oput_ne|].
  intros k' Hk'. rewrite oget_oput. case_decide; auto.
Qed.

Lemma rep_record r :
  SecretRecord_wf r → rec_secret_version r <= i64_max →
  represents
    (set_secret_records
       (oput (rec_secret_ref r, rec_secret_version r) (record_row r) (secret_records d)) d)
    (with_records (oput (rec_secret_ref r, rec_secret_version r) r (v_records v)) v).
Proof.
  intros Hr Hi. destruct Hrep as [? ? ? Hrec ? ? ? ? ? []].
  split; simpl; try done; [by rewrite Hrec, oput_map_values|].
  split; simpl; try done. apply file_table; [done|]. split; [done|]. simpl. split; [apply Hr|done].
Qed.

Lemma rep_policy p :
  AccessPolicy_wf p →
  represents (set_policies (oput (pol_policy_id p) (to_string p) (policies d)) d)
    (with_policies (oput (pol_policy_id p) p (v_policies v)) v).
Proof.
  intros Hp. destruct Hrep as [? ? ? ? Hpol ? ? ? ? []].
  split; simpl; try done; [by rewrite Hpol, oput_map_values|].
  split; simpl; try done. by apply file_table.
Qed.

Lemma rep_ticket id t :
  SecretAccessTicket_wf t → id = tk_ticket_id t →
  represents (set_tickets (oput id (to_string t) (tickets d)) d)
    (with_tickets (oput id t (v_tickets v)) v).
Proof.
  intros Ht ->. destruct Hrep as [? ? ? ? ? Htk ? ? ? []].
  split; simpl; try done; [by rewrite Htk, oput_map_values|].
  split; simpl; try done. by apply file_table.
Qed.

Lemma rep_audit e :
  AuditEvent_wf e →
  represents (set_audit_events (audit_events d ++ [(ev_event_id e, to_string e)]) d)
    (with_audit (v_audit v ++ [e]) v).
Proof.
  intros He. destruct Hrep as [? ? ? ? ? ? Ha ? ? []].
  split; simpl; try done; [by rewrite Ha, fmap_app|].
  split; simpl; try done. by apply Forall_app; auto.
Qed.

Lemma rep_fingerprint k f :
  represents (set_fingerprints (oput k f (redaction_fingerprints d)) d)
    (with_fingerprints (oput k f (v_fingerprints v)) v).
Proof.
  destruct Hrep as [? ? ? ? ? ? ? Hf ? []].
  split; simpl; try done; [by rewrite Hf|]. split; simpl; try done. by apply osorted_oput.
Qed.

Lemma rep_job j :
  RotationJob_wf j →
  represents (set_rotation_jobs (oput (job_id j) (job_row j) (rotation_jobs d)) d)
    (with_jobs (oput (job_id j) j (v_jobs v)) v).
Proof.
  intros Hj. destruct Hrep as [? ? ? ? ? ? ? ? Hjobs []].
  split; simpl; try done; [by rewrite Hjobs, oput_map_values|].
  split; simpl; try done. by apply file_table.
Qed.

(** *** What reads find *)

Lemma rep_records_wf r x : oget r (v_records v) = Some x → filed_record (r, x).
Proof.
  intros Hx%oget_elem_of. destruct (vk_records _ (rp_ok _ _ Hrep)) as [_ Hf].
  rewrite Forall_forall in Hf. by apply Hf.
Qed.

Lemma filed_record_wf kv : filed_record kv → SecretRecord_wf kv.2.
Proof. intros [_ Hv]. unfold SecretRecord_wf, i64_max, u64_max in *. lia. Qed.

Lemma rep_last_filed secret_ref ver r :
  last (versions_of secret_ref (v_records v)) = Some (ver, r) → filed_record ((secret_ref, ver), r).
Proof.
  intros Hl%last_versions_elem. destruct (vk_records _ (rp_ok _ _ Hrep)) as [_ Hf].
  rewrite Forall_forall in Hf. by apply Hf.
Qed.

Lemma rep_last secret_ref :
  last (versions_of secret_ref (secret_records d)) =
    (λ p, (p.1, record_row p.2)) <$> last (versions_of secret_ref (v_records v)).
Proof. rewrite (rp_records _ _ Hrep), versions_of_map_values. apply fmap_last. Qed.

Lemma rep_ticket_filed id t : oget id (v_tickets v) = Some t → filed_ticket (id, t).
Proof.
  intros Hx%oget_elem_of. destruct (vk_tickets _ (rp_ok _ _ Hrep)) as [_ Hf].
  rewrite Forall_forall in Hf. by apply Hf.
Qed.

Lemma rep_job_filed id j : oget id (v_jobs v) = Some j → filed_job (id, j).
Proof.
  intros Hx%oget_elem_of. destruct (vk_jobs _ (rp_ok _ _ Hrep)) as [_ Hf].
  rewrite Forall_forall in Hf. by apply Hf.
Qed.
End refinement.

(** *** The refinement *)

Ltac unfold_calls :=
  unfold exec, create_vault, load_header, update_header,
    get_metadata, set_metadata, save_secret_record, latest_version, load_latest_secret,
    load_secret_version, list_audit_events, save_audit_event, save_policy, list_policies,
    save_ticket, save_ticket_if_current, load_ticket, list_tickets, save_rotation_job,
    load_rotation_job, list_rotation_jobs, save_redaction_fingerprint,
    list_redaction_fingerprints, insert_audit_row.


Section simulation.
Context {X : Ext} {HC : CodecLaws} {HT : ChronoLaws}.

(** One call, on a store that does not fail. *)
Definition simulates {A} (c : call A) (w : World) (v : View) : Prop :=
  ∃ d', exec c w = ((spec c v).1, {| tick := S (tick w); db := d' |}) ∧
    represents d' (spec c v).2.

Lemma exec_refines {A} (c : call A) w v :
  represents (db w) v → call_ok c → store_fault (tick w) = None → simulates c w v.
Proof.
  intros Hrep Hc Hf.
  pose proof Hrep as [Hmeta Hhd Hcfg Hrec Hpol Htk Ha Hfp Hj [Hkh Hkr Hkp Hkt Hka Hkf Hkj]].
  destruct c; simpl in Hc; unfold simulates; unfold_calls;
    (erewrite st_bind_ok by (apply initialize_ok, Hf));
    (erewrite st_bind_ok by reflexivity);
    cbn [db tick]; unfold metadata_of, put_db, throw, lift, mret, st_ret, set_db; cbn [db tick].
  - rewrite Hhd. cbn [spec]. destruct (v_header v); simpl; eauto using rep_header.
  - rewrite Hhd. cbn [spec fst snd]. exists (db w). split; [|done].
    destruct (v_header v) as [h|]; simpl; [|done]. unfold mbind, st_bind.
    by erewrite parse_row_ok by auto.
  - rewrite Hhd. cbn [spec]. destruct (v_header v); simpl; eauto using rep_header.
  - cbn [spec fst snd]. rewrite Hcfg by done. eauto.
  - cbn [spec fst snd]. eauto using rep_config.
  - rewrite Hhd. cbn [spec]. destruct (v_header v) as [h|]; simpl; [|eauto].
    unfold sql_u64. unfold mbind, st_bind.
    destruct (Z.leb_spec (rec_secret_version r) i64_max); simpl; eauto using rep_record.
  - cbn [spec fst snd]. exists (db w). split; [|done]. rewrite (rep_last _ _ Hrep).
    destruct (last _) as [[ver r]|] eqn:Hl; simpl; [|done].
    apply (rep_last_filed _ _ Hrep) in Hl as [[= -> ->] Hv]. unfold u64_column, mbind, st_bind.
    simpl in *. by rewrite (proj2 (Z.leb_le _ _)) by lia.
  - cbn [spec fst snd]. exists (db w). split; [|done]. rewrite (rep_last _ _ Hrep).
    destruct (last _) as [[ver r]|] eqn:Hl; simpl; [|done].
    apply (rep_last_filed _ _ Hrep), filed_record_wf in Hl. by rewrite parse_row_ok.
  - cbn [spec fst snd]. exists (db w). split; [|done]. unfold sql_u64, mbind, st_bind.
    destruct (version <=? i64_max); simpl; [|done]. rewrite Hrec, oget_map_values.
    destruct (oget (secret_ref, version) (v_records v)) as [r|] eqn:Hr; simpl; [|done].
    apply (rep_records_wf _ _ Hrep), filed_record_wf in Hr. by rewrite parse_row_ok.
  - cbn [spec fst snd]. exists (db w). split; [|done]. rewrite Ha, <-list_fmap_compose.
    rewrite res_mapM_fmap; [done|]. eapply Forall_impl; [exact Hka|]. intros e He. simpl.
    by rewrite parse_row_ok.
  - rewrite Ha, <-list_fmap_compose. cbn [spec].
    change (fst ∘ (λ e, (ev_event_id e, to_string e))) with ev_event_id.
    rewrite <-Ha. case_bool_decide; simpl; [eauto|]. eauto using rep_audit.
  - cbn [spec fst snd]. eauto using rep_policy.
  - cbn [spec fst snd]. exists (db w). split; [|done].
    rewrite Hpol. rewrite parse_values; [done|]. eapply Forall_impl; [apply Hkp|]. by intros ? [].
  - cbn [spec fst snd]. eauto using rep_ticket.
  - destruct Hc as (Hw1 & Hw2 & Hid). cbn [spec]. rewrite Htk, oget_map_values.
    destruct (oget (tk_ticket_id expected) (v_tickets v)) as [t|] eqn:Ht; simpl.
    + pose proof (rep_ticket_filed _ _ Hrep _ _ Ht) as [_ Hwt].
      destruct (decide (t = expected)) as [->|Hne].
      * rewrite !bool_decide_eq_true_2 by done. rewrite <-Htk. eauto using rep_ticket.
      * rewrite !bool_decide_eq_false_2; [eauto|done|].
        intros Heq%(inj Some). by apply to_string_inj in Heq.
    + eauto.
  - cbn [spec fst snd]. exists (db w). split; [|done]. rewrite Htk, oget_map_values.
    rewrite parse_opt_ok; [done|]. intros t Ht. apply (rep_ticket_filed _ _ Hrep _ _ Ht).
  - cbn [spec fst snd]. exists (db w). split; [|done].
    rewrite Htk. rewrite parse_values; [done|]. eapply Forall_impl; [apply Hkt|]. by intros ? [].
  - cbn [spec fst snd]. eauto using rep_job.
  - cbn [spec fst snd]. exists (db w). split; [|done]. rewrite Hj, oget_map_values.
    rewrite <-option_fmap_compose. change (rot_job_json ∘ job_row) with (to_string (A:=RotationJob)).
    rewrite parse_opt_ok; [done|]. intros j Hjj. apply (rep_job_filed _ _ Hrep _ _ Hjj).
  - cbn [spec fst snd]. exists (db w). split; [|done]. 
    rewrite Hj, snd_map_values, <-list_fmap_compose.
    change (rot_job_json ∘ job_row) with (to_string (A:=RotationJob)).
    rewrite res_mapM_fmap; [done|]. apply Forall_fmap. eapply Forall_impl; [apply Hkj|].
    intros kv [_ Hwf]. simpl. by rewrite parse_row_ok.
  - cbn [spec]. unfold sql_u64, mbind, st_bind.
    destruct (version <=? i64_max); simpl; eauto using rep_fingerprint.
  - cbn [spec fst snd]. rewrite Hfp. eauto.
Qed.

(** A call on a store that fails leaves the tables alone. *)
Lemma exec_fault {A} (c : call A) w f :
  store_fault (tick w) = Some f →
  exec c w = (Err (fault_error f), {| tick := S (tick w); db := db w |}).
Proof. intros Hf. 
  destruct c; unfold_calls; by erewrite st_bind_err by (apply initialize_err, Hf).
 Qed.
End simulation.

(** *** The operations *)

Section operations.
Context {X : Ext} {HC : CodecLaws} {HT : ChronoLaws}.

(** A reading of the latest version leaves the tables. *)
Lemma exec_reads {A} (c : call A) w :
  match c with LoadLatestSecret _ => True | _ => False end → db (exec c w).2 = db w.
Proof.
  destruct c; try done. intros _. destruct (store_fault (tick w)) as [f|] eqn:Hf;
    [by rewrite (exec_fault _ w f Hf)|].
  unfold_calls. erewrite st_bind_ok by (apply initialize_ok, Hf).
  erewrite st_bind_ok by reflexivity. unfold throw, lift. by repeat case_match.
Qed.

(** What an operation that does not succeed has written: nothing. *)
Lemma exec_err_same {A} (c : call A) w :
  (∀ a, (exec c w).1 ≠ Ok a) → db (exec c w).2 = db w.
Proof.
  destruct (store_fault (tick w)) as [f|] eqn:Hf; [by rewrite (exec_fault c w f Hf)|].
  destruct c; unfold_calls;
    (erewrite st_bind_ok by (apply initialize_ok, Hf));
    (erewrite st_bind_ok by reflexivity); unfold put_db, throw, lift, mret, st_ret, mbind, st_bind;
    repeat case_match; simplify_eq; cbn; intros Hne; try done; by destruct (Hne tt).
Qed.

(** [o] run from [w] on the view [v] is what it promises. *)
Definition kept_promise {A} (o : operation A) (w : World) (v : View) : Prop :=
  ∃ d', perform o w = ((promise o v (tick w)).1.1, {| tick := (promise o v (tick w)).2; db := d' |}) ∧
    represents d' (promise o v (tick w)).1.2 ∧
    ((∀ a, (promise o v (tick w)).1.1 ≠ Ok a) → d' = db w).

(** Whatever is behind an opening, it only has to be looked at when that opening works. *)
Lemma opened_fault {A} v i f (g : nat → res StoreError A * View * nat) :
  store_fault i = Some f → opened v i g = (Err (fault_error f), v, S i).
Proof. intros Hf. unfold opened. by rewrite Hf. Qed.
Lemma opened_ok {A} v i (g : nat → res StoreError A * View * nat) :
  store_fault i = None → opened v i g = g (S i).
Proof. intros Hf. unfold opened. by rewrite Hf. Qed.

Lemma single_kept {A} (c : call A) w v :
  represents (db w) v → call_ok c → kept_promise (Single c) w v.
Proof.
  intros Hrep Hc. unfold kept_promise. cbn [promise perform].
  pose proof (exec_err_same c w) as Hsame. destruct (store_fault (tick w)) as [f|] eqn:Hf.
  - rewrite (opened_fault _ _ _ _ Hf). exists (db w). by rewrite (exec_fault c w f Hf).
  - rewrite (opened_ok _ _ _ Hf). destruct (exec_refines c w v Hrep Hc Hf) as (d' & He & Hd').
    exists d'. rewrite He in Hsame |- *. by destruct (spec c v).
Qed.

Lemma is_latest_newest {V V'} (f : V → V') (m : omap (string * Z) V) kv :
  osorted m → kv ∈ m → is_latest (map_values f m) (kv.1, f kv.2) = newest_row m kv.
Proof.
  intros Hs Hin. destruct kv as [[r n] x]. unfold is_latest. cbn [fst snd].
  rewrite versions_of_map_values, fmap_last. apply elem_of_versions in Hin as Hv.
  destruct (last (versions_of r m)) as [[n1 x1]|] eqn:Hl; cbn [fmap option_fmap option_map fst].
  2: { apply last_None in Hl. rewrite Hl in Hv. by apply elem_of_nil in Hv. }
  pose proof (last_greatest _ _ _ _ _ (versions_sorted r m Hs) Hl Hv) as Hle.
  pose proof Hl as Hin1. apply last_Some_elem_of, elem_of_versions in Hin1.
  unfold newest_row. cbn [fst snd].
  destruct (Z.eqb_spec n1 n) as [->|Hne]; symmetry.
  - apply forallb_forall. intros [[r' n'] x'] Hin'%list_elem_of_In. cbn [fst snd].
    destruct (String.eqb_spec r' r) as [->|]; [|done]. cbn [negb orb]. apply Z.leb_le.
    apply elem_of_versions in Hin'. by eapply last_greatest; [apply versions_sorted|exact Hl|].
  - apply not_true_iff_false. rewrite forallb_forall. intros Hall.
    specialize (Hall ((r, n1), x1) (proj1 (list_elem_of_In _ _) Hin1)). cbn [fst snd] in Hall.
    rewrite String.eqb_refl in Hall. apply Z.leb_le in Hall. lia.
Qed.

Lemma filter_map_values {V V'} (f : V → V') (p : (string * Z) * V → bool) q (m : omap (string * Z) V) :
  (∀ kv, kv ∈ m → q (kv.1, f kv.2) = p kv) →
  List.filter q (map_values f m) = map_values f (List.filter p m).
Proof.
  induction m as [|kv m IH]; intros Hq; [done|]. unfold map_values in *. cbn [fmap list_fmap List.filter].
  rewrite (Hq kv) by (by left). destruct (p kv); cbn [fmap list_fmap]; rewrite IH; [done| |done|];
    intros kv' Hin; apply Hq; by right.
Qed.

Lemma summaries_listed (m : omap (string * Z) SecretRecord) :
  Forall filed_record m → res_mapM summary_of (map_values record_row m) = Ok (row_summary <$> m).
Proof.
  induction 1 as [|kv m [Hk Hv] _ IH]; [done|]. unfold map_values in *.
  destruct kv as [[r n] x]. cbn [fst snd] in Hk, Hv. injection Hk as -> ->.
  cbn [fmap list_fmap res_mapM]. rewrite IH. unfold summary_of. cbn [fst snd].
  unfold u64_column. rewrite (proj2 (Z.leb_le _ _)) by lia. reflexivity.
Qed.

Lemma list_secrets_kept w v : represents (db w) v → kept_promise ListSecrets w v.
Proof.
  intros Hrep. unfold kept_promise. cbn [promise perform]. unfold list_secrets.
  destruct (store_fault (tick w)) as [f|] eqn:Hf.
  { rewrite (opened_fault _ _ _ _ Hf). exists (db w).
    by rewrite (st_bind_err _ _ _ _ _ (initialize_err w f Hf)). }
  rewrite (opened_ok _ _ _ Hf), (st_bind_ok _ _ _ _ _ (initialize_ok w Hf)).
  erewrite st_bind_ok by reflexivity. cbn [db]. exists (db w). split; [|done].
  destruct (vk_records _ (rp_ok _ _ Hrep)) as [Hs Hfiled]. rewrite (rp_records _ _ Hrep).
  rewrite (filter_map_values record_row (newest_row (v_records v)));
    [|intros kv Hin; by apply is_latest_newest].
  rewrite summaries_listed; [done|]. apply Forall_forall. intros kv Hin.
  apply list_elem_of_In, filter_In in Hin as [Hin%list_elem_of_In _].
  rewrite Forall_forall in Hfiled. by apply Hfiled.
Qed.

Lemma update_status_kept secret_ref status w v :
  represents (db w) v → kept_promise (SaveUpdatedSecretStatus secret_ref status) w v.
Proof.
  intros Hrep. unfold kept_promise. cbn [promise perform]. unfold save_updated_secret_status.
  change (load_latest_secret secret_ref) with (exec (LoadLatestSecret secret_ref)).
  destruct (store_fault (tick w)) as [f|] eqn:Hf.
  { rewrite (opened_fault _ _ _ _ Hf). exists (db w).
    by rewrite (st_bind_err _ _ _ _ _ (exec_fault _ w f Hf)). }
  rewrite (opened_ok _ _ _ Hf).
  destruct (exec_refines (LoadLatestSecret secret_ref) w v Hrep I Hf) as (d1 & H1 & Hrep1).
  assert (d1 = db w) as ->.
  { pose proof (f_equal (λ p, db p.2) H1) as Hd. cbn [snd db] in Hd. rewrite <-Hd.
    apply (exec_reads (LoadLatestSecret secret_ref)). done. }
  cbn [spec fst snd] in H1. destruct (last (versions_of secret_ref (v_records v))) as [[n r]|] eqn:Hl;
    cbn [fmap option_fmap option_map snd ok_or] in H1.
  2: { exists (db w). by rewrite (st_bind_err _ _ _ _ _ H1). }
  rewrite (st_bind_ok _ _ _ _ _ H1). set (w1 := {| tick := S (tick w); db := db w |}).
  change (save_secret_record (set_status status r)) with (exec (SaveSecretRecord (set_status status r))).
  destruct (rep_last_filed _ _ Hrep _ _ _ Hl) as [[= -> ->] Hv].
  destruct (store_fault (S (tick w))) as [f|] eqn:Hf2.
  { rewrite (opened_fault _ _ _ _ Hf2). exists (db w).
    by rewrite (st_bind_err _ _ _ _ _ (exec_fault _ w1 f Hf2)). }
  rewrite (opened_ok _ _ _ Hf2).
  destruct (exec_refines (SaveSecretRecord (set_status status r)) w1 v Hrep) as (d2 & H2 & Hrep2).
  { unfold call_ok, SecretRecord_wf, i64_max, u64_max in *. cbn in *. lia. }
  { exact Hf2. }
  pose proof (exec_err_same (SaveSecretRecord (set_status status r)) w1) as Hsame.
  rewrite H2 in Hsame. cbn [spec fst snd] in *. exists d2.
  destruct (v_header v) as [h|].
  - rewrite (proj2 (Z.leb_le _ _)) in H2, Hrep2, Hsame by (cbn; lia). cbn [fst snd] in *.
    rewrite (st_bind_ok _ _ _ _ _ H2). split; [done|]. split; [exact Hrep2|].
    intros Hne. by destruct (Hne (set_status status r)).
  - cbn [fst snd] in *. rewrite (st_bind_err _ _ _ _ _ H2). split; [done|]. split; [done|].
    intros _. by apply Hsame.
Qed.

Lemma append_event_kept build w v :
  represents (db w) v → operation_ok (AppendAuditEvent build) →
  kept_promise (AppendAuditEvent build) w v.
Proof.
  intros Hrep Hb. unfold kept_promise. cbn [promise perform]. unfold append_audit_event.
  destruct (store_fault (tick w)) as [f|] eqn:Hf.
  { rewrite (opened_fault _ _ _ _ Hf). exists (db w).
    by rewrite (st_bind_err _ _ _ _ _ (initialize_err w f Hf)). }
  rewrite (opened_ok _ _ _ Hf), (st_bind_ok _ _ _ _ _ (initialize_ok w Hf)).
  erewrite st_bind_ok by reflexivity. cbn [db].
  pose proof (rp_audit _ _ Hrep) as Ha.
  assert (res_mapM parse_row (audit_events (db w)).*2 = Ok (v_audit v)) as ->.
  { rewrite Ha, <-list_fmap_compose. rewrite res_mapM_fmap; [done|].
    eapply Forall_impl; [apply (vk_audit _ (rp_ok _ _ Hrep))|]. intros e He. by apply parse_row_ok. }
  rewrite st_lift_ok. unfold closure at 1, mbind, st_bind. cbn [tick db].
  destruct (build (v_audit v) (S (tick w))) as [[e|e|] k] eqn:Hbuild; [|by exists (db w)..].
  unfold insert_audit_row, mbind, st_bind, get_db, throw, put_db, set_db. cbn [db tick].
  assert ((audit_events (db w)).*1 = ev_event_id <$> v_audit v) as ->
    by (by rewrite Ha, <-list_fmap_compose).
  destruct (bool_decide _); [by exists (db w)|]. eexists. split; [reflexivity|]. cbn [fst snd]. split.
  - apply rep_audit; [done|]. by eapply Hb.
  - intros Hne. by destruct (Hne e).
Qed.

Lemma count_kept w v : represents (db w) v → kept_promise CountFingerprints w v.
Proof.
  intros Hrep. unfold kept_promise. cbn [promise perform]. unfold count_redaction_fingerprints.
  exists (db w). destruct (store_fault (tick w)) as [f|] eqn:Hf.
  - rewrite (opened_fault _ _ _ _ Hf). by rewrite (st_bind_err _ _ _ _ _ (initialize_err w f Hf)).
  - rewrite (opened_ok _ _ _ Hf), (st_bind_ok _ _ _ _ _ (initialize_ok w Hf)).
    erewrite st_bind_ok by reflexivity. cbn [db]. by rewrite (rp_fingerprints _ _ Hrep).
Qed.
Lemma integrity_kept answer w v : represents (db w) v → kept_promise (IntegrityCheck answer) w v.
Proof.
  intros Hrep. unfold kept_promise. cbn [promise perform]. unfold integrity_check.
  exists (db w). destruct (store_fault (tick w)) as [f|] eqn:Hf.
  - rewrite (opened_fault _ _ _ _ Hf). by rewrite (st_bind_err _ _ _ _ _ (initialize_err w f Hf)).
  - by rewrite (opened_ok _ _ _ Hf), (st_bind_ok _ _ _ _ _ (initialize_ok w Hf)).
Qed.
End operations.

(** ** Properties *)

(** C7: the store implements its typed specification. On tables that represent a typed view, and
    with arguments of the Rust types, every operation of the store (each call, the change of a
    status in two openings, the append under the immediate transaction with any closure, the
    listing of the latest versions, the count and the integrity check) returns exactly what the
    specification returns on the view, absence, duplicate and conflict errors and the failures
    of SQLite or the file system at every opening included, and the tables it leaves represent
    the view the specification leaves; an operation that does not succeed has written nothing. *)
Theorem store_refines_spec {X : Ext} {HC : CodecLaws} {HT : ChronoLaws} {A} (o : operation A) w v :
  represents (db w) v → operation_ok o →
  ∃ r v' i d', promise o v (tick w) = (r, v', i) ∧
    perform o w = (r, {| tick := i; db := d' |}) ∧ represents d' v' ∧
    ((∀ a, r ≠ Ok a) → d' = db w).
Proof.
  intros Hrep Hok. assert (kept_promise o w v) as (d' & Hrun & Hd & Hsame).
  { destruct o; eauto using single_kept, update_status_kept, append_event_kept, list_secrets_kept,
      count_kept, integrity_kept. }
  destruct (promise o v (tick w)) as [[r v'] i]. by exists r, v', i, d'.
Qed.

Definition empty_view : View := {|
  v_header := None; v_config := λ _, None; v_records := []; v_policies := []; v_tickets := [];
  v_audit := []; v_fingerprints := []; v_jobs := [] |}.

Lemma store_refines_spec_witness :
  ∃ d', perform (Single (SavePolicy sample_policy)) {| tick := 0; db := empty_db |} =
          (Ok tt, {| tick := 1; db := d' |}) ∧
        represents d' (with_policies [("p1", sample_policy)] empty_view).
Proof.
  destruct (store_refines_spec (Single (SavePolicy sample_policy)) {| tick := 0; db := empty_db |}
    empty_view) as (r & v' & i & d' & Hp & Hrun & Hd & _).
  - by split.
  - split; simpl; try done; try (unfold u64_max, u32_max; lia); repeat constructor; done.
  - injection Hp as <- <- <-. exists d'. exact (conj Hrun Hd).
Defined.
