(* ===== verification/Vault.v ===== *)
(** * The local vault (vault.rs)

    Every operation of [LocalVault]: initialisation under each provider, unlocking, rewrapping
    and recovery, secrets, multi-factor enrollment and verification, the plaintext export
    switch, policies, tickets, rotation and the audit trail.  An operation is a computation
    over the [World]: the store's tables, the random generator, the clock and the host; it
    returns a value or a [VaultError] and keeps what it wrote before an error, as the code does. *)

From S2P Require Export StoreSpec Mfa ProviderTpm Redaction Recovery.
#[local] Open Scope Z_scope.

Definition DEFAULT_POLICY_ID : string := "default-deny".
Definition DEFAULT_POLICY_HASH : string := "mvp-default-deny-policy".
Definition DEFAULT_PROVIDER_POLICY_HASH : string := "unbound-provider-policy".
Definition PLAINTEXT_EXPORT_CONFIG_KEY : string := "config.plaintext_export".

Inductive VaultError : Type :=
| VStore (e : StoreError) | VProvider (e : ProviderError) | VTpm2Provider (e : Tpm2ProviderError)
| VTpm2EsapiProvider (e : Tpm2EsapiProviderError)
| VSystemFingerprintProvider (e : SystemFingerprintProviderError)
| VRecovery (e : RecoveryError) | VCrypto (e : CryptoError) | VKeys (e : KeyError)
| VMfa (e : MfaError) | VAudit (e : AuditVerificationError) | VTicket (e : TicketValidationError)
| VJson | PassphraseRequired | UnsupportedProvider (provider : string) | InvalidSecretRef
| SecretUnavailable (status : string) | TicketNotFound | PolicyDenied (reason : string)
| RotationJobNotFound | InvalidRotationState (status : string) | NewPassphraseRequired
| RecoveryPackageVaultMismatch | MfaNotEnrolled | MfaInvalidCode | PlaintextExportDisabled
| PlaintextExportMfaEnrollmentRequired | PlaintextExportMfaRequired | TicketPolicyChanged
| TicketSecretVersionStale.

#[export] Instance from_store : From StoreError VaultError := VStore.
#[export] Instance from_provider : From ProviderError VaultError := VProvider.
#[export] Instance from_tpm2 : From Tpm2ProviderError VaultError := VTpm2Provider.
#[export] Instance from_esapi : From Tpm2EsapiProviderError VaultError := VTpm2EsapiProvider.
#[export] Instance from_system : From SystemFingerprintProviderError VaultError :=
  VSystemFingerprintProvider.
#[export] Instance from_recovery : From RecoveryError VaultError := VRecovery.
#[export] Instance from_crypto : From CryptoError VaultError := VCrypto.
#[export] Instance from_keys : From KeyError VaultError := VKeys.
#[export] Instance from_mfa : From MfaError VaultError := VMfa.
#[export] Instance from_audit : From AuditVerificationError VaultError := VAudit.
#[export] Instance from_ticket : From TicketValidationError VaultError := VTicket.

(** [map_from_json(json!(..))], and [json!] of an optional string. *)
Definition map_from_json (value : json) : omap string json := default [] (as_object value).
Definition opt_str (o : option string) : json := ser_opt JStr o.

(** [status_string] is that of records.rs; the others read the JSON name in the same way. *)
Definition delivery_mode_string (m : DeliveryMode) : string := enum_string m.
Definition rotation_state_string (s : RotationJobStatus) : string := enum_string s.

Section vault.
Context `{Ext}.
Abbreviation VAULT := (ST World VaultError).

Definition secret_id_from_ref (secret_ref : string) : res VaultError string :=
  if negb (starts_with secret_ref "secret://") then Err InvalidSecretRef
  else Ok (b64url_no_padding (take 18 (sha256 (as_bytes secret_ref)))).

(** ** Unlocking and the audit trail *)

Definition binding_str (key : string) (header : VaultHeader) : option string :=
  get_str key (hd_provider_binding header).
Definition binding_device (header : VaultHeader) : string :=
  default DEFAULT_TPM_DEVICE (binding_str "device_path" header).

Definition binding_of `{Serde A} (header : VaultHeader) : VAULT A :=
  lift (ok_or VJson (of_value (hd_provider_binding header))).

Definition unlock (passphrase : option string) : VAULT (VaultHeader * KeyHierarchy) :=
  header ← try_ load_header;
  let provider_id := default EmptyString (binding_str "provider_id" header) in
  root_key ←
    (if String.eqb provider_id TPM2_PROVIDER_ID then
       binding ← binding_of header;
       try_ (LinuxTpm2ToolsProvider_unwrap_root_key (binding_device header) binding)
     else if String.eqb provider_id TPM2_ESAPI_PROVIDER_ID then
       binding ← binding_of header;
       try_ (LinuxTpm2EsapiProvider_unwrap_root_key (binding_device header) binding)
     else if String.eqb provider_id PASSPHRASE_PROVIDER_ID then
       passphrase ← lift (ok_or PassphraseRequired passphrase);
       binding ← binding_of header;
       lift (res_try (PassphraseProvider_unwrap_root_key (hd_vault_id header) binding passphrase))
     else if String.eqb provider_id SYSTEM_FINGERPRINT_PROVIDER_ID then
       binding ← binding_of header;
       try_ (SystemFingerprintProvider_unwrap_root_key (hd_vault_id header) binding)
     else throw (UnsupportedProvider provider_id));
  keys ← lift (res_try (KeyHierarchy_new (hd_vault_id header) root_key));
  mret (header, keys).

Definition append_audit (header : VaultHeader) (keys : KeyHierarchy)
  (event_type severity decision : string) (metadata : omap string json) : VAULT AuditEvent :=
  mac_key ← lift (audit_integrity_key keys);
  try_ (append_audit_event (λ events,
    r ← AuditManager_append mac_key events (hd_vault_id header) (hd_namespace_id header)
          event_type severity decision metadata;
    mret r.1)).

(** ** Initialisation *)

(** The four initialisers differ in the provider that wraps the fresh root key only. *)
Definition init_with (wrap : string → bytes → VAULT json) (namespace_id : string)
  : VAULT VaultHeader :=
  vault_id ← Uuid_new_v4;
  root_key ← random KEY_SIZE;
  binding ← wrap vault_id root_key;
  now ← Utc_now;
  let header := {| hd_schema_version := SCHEMA_VERSION; hd_vault_id := vault_id;
                   hd_namespace_id := namespace_id; hd_provider_binding := binding;
                   hd_created_at := utc_millis now |} in
  _ ← try_ (create_vault header);
  keys ← lift (res_try (KeyHierarchy_new vault_id root_key));
  _ ← append_audit header keys "vault.initialized" "info" "allow"
        (map_from_json (obj [ ("provider_id", opt_str (binding_str "provider_id" header));
                              ("assurance_level", opt_str (binding_str "assurance_level" header)) ]));
  mret header.

Definition wrap_passphrase (passphrase vault_id : string) (root_key : bytes) : VAULT json :=
  binding ← try_ (PassphraseProvider_wrap_root_key ScryptParams_default vault_id root_key passphrase);
  mret (to_value binding).
Definition wrap_tpm2 (device_path vault_id : string) (root_key : bytes) : VAULT json :=
  binding ← try_ (LinuxTpm2ToolsProvider_wrap_root_key device_path vault_id root_key);
  mret (to_value binding).
Definition wrap_tpm2_esapi (device_path vault_id : string) (root_key : bytes) : VAULT json :=
  binding ← try_ (LinuxTpm2EsapiProvider_wrap_root_key device_path vault_id root_key);
  mret (to_value binding).
Definition wrap_system_fingerprint (vault_id : string) (root_key : bytes) : VAULT json :=
  binding ← try_ (SystemFingerprintProvider_wrap_root_key ScryptParams_default vault_id root_key);
  mret (to_value binding).

Definition init_passphrase (passphrase namespace_id : string) : VAULT VaultHeader :=
  init_with (wrap_passphrase passphrase) namespace_id.
Definition init (passphrase namespace_id : string) : VAULT VaultHeader :=
  init_passphrase passphrase namespace_id.
Definition init_tpm2 (namespace_id device_path : string) : VAULT VaultHeader :=
  init_with (wrap_tpm2 device_path) namespace_id.
Definition init_tpm2_esapi (namespace_id device_path : string) : VAULT VaultHeader :=
  init_with (wrap_tpm2_esapi device_path) namespace_id.
Definition init_system_fingerprint (namespace_id : string) : VAULT VaultHeader :=
  init_with wrap_system_fingerprint namespace_id.

Definition LocalVault_status : VAULT VaultHeader := try_ load_header.

(** ** Rewrapping and recovery *)

Definition wrap_with (new_provider : string) (new_passphrase : option string) (tpm_device : string)
  (vault_id : string) (root_key : bytes) : VAULT json :=
  if String.eqb new_provider "passphrase" then
    new_passphrase ← lift (ok_or NewPassphraseRequired new_passphrase);
    wrap_passphrase new_passphrase vault_id root_key
  else if String.eqb new_provider "tpm2" then wrap_tpm2 tpm_device vault_id root_key
  else if String.eqb new_provider "tpm2-direct" || String.eqb new_provider "tpm2-esapi" then
    wrap_tpm2_esapi tpm_device vault_id root_key
  else if String.eqb new_provider "system-fingerprint" then
    wrap_system_fingerprint vault_id root_key
  else throw (UnsupportedProvider new_provider).

Definition with_binding (binding : json) (header : VaultHeader) : VaultHeader := {|
  hd_schema_version := hd_schema_version header; hd_vault_id := hd_vault_id header;
  hd_namespace_id := hd_namespace_id header; hd_provider_binding := binding;
  hd_created_at := hd_created_at header |}.

Definition rewrap_provider (current_passphrase : option string) (new_provider : string)
  (new_passphrase : option string) (tpm_device : string) : VAULT VaultHeader :=
  hk ← unlock current_passphrase;
  let '(header, keys) := hk in
  binding ← wrap_with new_provider new_passphrase tpm_device (hd_vault_id header) (kh_root_key keys);
  let updated := with_binding binding header in
  _ ← try_ (update_header updated);
  _ ← append_audit updated keys "provider.rewrapped" "high" "allow"
        (map_from_json (obj [ ("old_provider_id", opt_str (binding_str "provider_id" header));
                              ("new_provider_id", opt_str (binding_str "provider_id" updated));
                              ("assurance_level", opt_str (binding_str "assurance_level" updated)) ]));
  mret updated.

Definition create_recovery_package (passphrase : option string) (recovery_secret : string)
  : VAULT RecoveryPackage :=
  hk ← unlock passphrase;
  let '(header, keys) := hk in
  package ← try_ (RecoveryManager_create_package (hd_vault_id header) (kh_root_key keys)
                    recovery_secret);
  _ ← append_audit header keys "recovery.package_created" "critical" "allow"
        (map_from_json (obj [("recovery_id", JStr (pkg_recovery_id package))]));
  mret package.

Definition recover_provider_from_package (package : RecoveryPackage)
  (recovery_secret new_provider : string) (new_passphrase : option string) (tpm_device : string)
  : VAULT VaultHeader :=
  header ← try_ load_header;
  _ ← guard_ (negb (String.eqb (pkg_vault_id package) (hd_vault_id header)))
        RecoveryPackageVaultMismatch;
  root_key ← lift (res_try (RecoveryManager_unwrap_root_key package recovery_secret));
  keys ← lift (res_try (KeyHierarchy_new (hd_vault_id header) root_key));
  binding ← wrap_with new_provider new_passphrase tpm_device (hd_vault_id header) root_key;
  let updated := with_binding binding header in
  _ ← try_ (update_header updated);
  _ ← append_audit updated keys "recovery.used" "critical" "allow"
        (map_from_json (obj [ ("recovery_id", JStr (pkg_recovery_id package));
                              ("new_provider_id", opt_str (binding_str "provider_id" updated)) ]));
  mret updated.

(** ** Secrets *)

(** The next version of a reference, and its record; the arguments [put_secret],
    [enroll_totp_mfa] and [start_rotation] all pass to [encrypt_secret]. *)
Definition next_version (secret_ref : string) : VAULT Z :=
  latest ← try_ (latest_version secret_ref); mret (default 0 latest + 1).
Definition encrypt_version (header : VaultHeader) (keys : KeyHierarchy) (secret_ref : string)
  (version : Z) (plaintext : bytes) (secret_type : SecretType) : VAULT SecretRecord :=
  secret_id ← lift (secret_id_from_ref secret_ref);
  encrypt_secret keys (hd_namespace_id header) secret_id secret_ref version plaintext secret_type
    DEFAULT_POLICY_ID DEFAULT_POLICY_HASH (hash_bytes (as_bytes secret_ref))
    DEFAULT_PROVIDER_POLICY_HASH.

Definition save_fingerprint (keys : KeyHierarchy) (secret_ref : string) (version : Z)
  (plaintext : bytes) : VAULT unit :=
  key ← lift (redaction_fingerprint_key keys);
  try_ (save_redaction_fingerprint secret_ref version (redaction_fingerprint key plaintext)).

Definition put_secret (secret_ref : string) (plaintext : bytes) (passphrase : string)
  (secret_type : SecretType) : VAULT Z :=
  hk ← unlock (Some passphrase);
  let '(header, keys) := hk in
  version ← next_version secret_ref;
  record ← encrypt_version header keys secret_ref version plaintext secret_type;
  _ ← try_ (save_secret_record record);
  _ ← save_fingerprint keys secret_ref version plaintext;
  _ ← append_audit header keys "secret.stored" "info" "allow"
        (map_from_json (obj [ ("secret_ref", JStr secret_ref);
                              ("secret_version", ser_u64 version) ]));
  mret version.

Definition get_secret (secret_ref passphrase : string) : VAULT bytes :=
  hk ← unlock (Some passphrase);
  let '(header, keys) := hk in
  record ← try_ (load_latest_secret secret_ref);
  if negb (bool_decide (rec_status record = Active)) then
    _ ← append_audit header keys "secret.access_denied" "high" "deny"
          (map_from_json (obj [ ("secret_ref", JStr secret_ref);
             ("secret_version", ser_u64 (rec_secret_version record));
             ("reason", JStr ("secret status is " +:+ status_string (rec_status record))) ]));
    throw (SecretUnavailable (status_string (rec_status record)))
  else
    plaintext ← lift (res_try (decrypt_secret keys record));
    _ ← append_audit header keys "secret.materialized" "critical" "allow"
          (map_from_json (obj [ ("secret_ref", JStr secret_ref);
             ("secret_version", ser_u64 (rec_secret_version record)) ]));
    mret plaintext.

Definition LocalVault_list_secrets : VAULT (list SecretSummary) := try_ list_secrets.
Definition LocalVault_load_latest_secret (secret_ref : string) : VAULT SecretRecord :=
  try_ (load_latest_secret secret_ref).

(** [disable_secret] and [destroy_secret]. *)
Definition set_secret_status (status : SecretStatus) (event_type severity : string)
  (secret_ref passphrase : string) : VAULT SecretRecord :=
  hk ← unlock (Some passphrase);
  let '(header, keys) := hk in
  record ← try_ (save_updated_secret_status secret_ref status);
  _ ← append_audit header keys event_type severity "allow"
        (map_from_json (obj [ ("secret_ref", JStr secret_ref);
                              ("secret_version", ser_u64 (rec_secret_version record)) ]));
  mret record.
Definition disable_secret (secret_ref passphrase : string) : VAULT SecretRecord :=
  set_secret_status Disabled "secret.disabled" "high" secret_ref passphrase.
Definition destroy_secret (secret_ref passphrase : string) : VAULT SecretRecord :=
  set_secret_status Destroyed "secret.destroyed" "critical" secret_ref passphrase.

(** ** Multi-factor codes *)

Definition enroll_totp_mfa (passphrase issuer account : string) : VAULT TotpEnrollment :=
  hk ← unlock (Some passphrase);
  let '(header, keys) := hk in
  config ← new_totp_config issuer account;
  version ← next_version TOTP_SECRET_REF;
  record ← encrypt_version header keys TOTP_SECRET_REF version (json_to_vec (to_value config)) Token;
  _ ← try_ (save_secret_record record);
  _ ← append_audit header keys "mfa.totp_enrolled" "high" "allow"
        (map_from_json (obj [ ("issuer", JStr issuer); ("account", JStr account);
           ("digits", ser_u64 (totp_digits config));
           ("period_seconds", ser_u64 (totp_period_seconds config)) ]));
  mret (enrollment config).

Definition totp_mfa_enrolled : VAULT bool :=
  loaded ← attempt (load_latest_secret TOTP_SECRET_REF);
  match loaded with
  | Ok record => mret (bool_decide (rec_status record = Active))
  | Err (SecretNotFound _) => mret false
  | Err err => throw (VStore err)
  | Panic => panic
  end.

Definition verify_totp_mfa (passphrase code : string) : VAULT unit :=
  hk ← unlock (Some passphrase);
  let '(header, keys) := hk in
  loaded ← attempt (load_latest_secret TOTP_SECRET_REF);
  record ← match loaded with
           | Ok record => mret record
           | Err (SecretNotFound _) => throw MfaNotEnrolled
           | Err err => throw (VStore err)
           | Panic => panic
           end;
  _ ← guard_ (negb (bool_decide (rec_status record = Active))) MfaNotEnrolled;
  plaintext ← lift (res_try (decrypt_secret keys record));
  config ← lift (ok_or VJson (json_from_slice plaintext ≫= of_value));
  now ← Utc_now;
  let now := Z.max (now / nanos_per_second) 0 in
  verified ← lift (res_try (verify_totp_code config code now 1));
  if (verified : bool) then
    _ ← append_audit header keys "mfa.totp_verified" "info" "allow"
          (map_from_json (obj [ ("issuer", JStr (totp_issuer config));
                                ("account", JStr (totp_account config)) ]));
    mret tt
  else
    _ ← append_audit header keys "mfa.totp_denied" "high" "deny"
          (map_from_json (obj [ ("issuer", JStr (totp_issuer config));
                                ("account", JStr (totp_account config));
                                ("reason", JStr "invalid code") ]));
    throw MfaInvalidCode.

(** ** Plaintext export *)

Definition plaintext_export_enabled : VAULT bool :=
  value ← try_ (get_metadata PLAINTEXT_EXPORT_CONFIG_KEY);
  mret (bool_decide (value = Some "enabled")).

Definition set_plaintext_export_enabled (passphrase : string) (enabled allow_without_mfa : bool)
  : VAULT unit :=
  hk ← unlock (Some passphrase);
  let '(header, keys) := hk in
  _ ← (if enabled && negb allow_without_mfa then
         enrolled ← totp_mfa_enrolled;
         guard_ (negb enrolled) PlaintextExportMfaEnrollmentRequired
       else mret tt);
  _ ← try_ (set_metadata PLAINTEXT_EXPORT_CONFIG_KEY (if enabled then "enabled" else "disabled"));
  _ ← append_audit header keys
        (if enabled then "config.plaintext_export_enabled" else "config.plaintext_export_disabled")
        "critical" "allow"
        (map_from_json (obj [ ("plaintext_export_enabled", JBool enabled);
                              ("allow_without_mfa", JBool allow_without_mfa) ]));
  mret tt.

Definition enforce_plaintext_export_allowed (mfa_verified : bool) : VAULT unit :=
  enabled ← plaintext_export_enabled;
  _ ← guard_ (negb enabled) PlaintextExportDisabled;
  enrolled ← totp_mfa_enrolled;
  guard_ (enrolled && negb mfa_verified) PlaintextExportMfaRequired.

(** ** The audit log and policies *)

Definition LocalVault_list_audit_events : VAULT (list AuditEvent) := try_ list_audit_events.

Definition verify_audit (passphrase : string) : VAULT unit :=
  hk ← unlock (Some passphrase);
  events ← try_ list_audit_events;
  mac_key ← lift (audit_integrity_key hk.2);
  lift (res_try (verify_audit_chain events mac_key)).

Definition LocalVault_save_policy (p : AccessPolicy) (passphrase : string) : VAULT AccessPolicy :=
  hk ← unlock (Some passphrase);
  let '(header, keys) := hk in
  _ ← try_ (save_policy p);
  _ ← append_audit header keys "policy.saved" "high" "allow"
        (map_from_json (obj [("policy_id", JStr (pol_policy_id p))]));
  mret p.

Definition LocalVault_list_policies : VAULT (list AccessPolicy) := try_ list_policies.

Definition LocalVault_evaluate_policy (request : AccessRequest)
  : VAULT (bool * string * option string) :=
  policies ← try_ list_policies;
  let result := evaluate policies request in
  mret (bool_decide (decision result = Allow), reason result,
        pol_policy_id <$> policy result).

(** ** Tickets *)

Definition active_policy_for_ticket (ticket : SecretAccessTicket) : VAULT AccessPolicy :=
  policies ← try_ list_policies;
  lift (ok_or TicketPolicyChanged
          (List.find (λ p, String.eqb (pol_policy_id p) (tk_policy_id ticket)) policies)).

Definition ensure_ticket_secret_is_current (ticket : SecretAccessTicket) : VAULT unit :=
  if tk_secret_version ticket =? 0 then mret tt else
  latest ← try_ (load_latest_secret (tk_secret_ref ticket));
  if (rec_secret_version latest =? tk_secret_version ticket) &&
     bool_decide (rec_status latest = Active)
  then mret tt else throw TicketSecretVersionStale.

(** [self.store.load_ticket(id)?.ok_or(TicketNotFound)], also [LocalVault::load_ticket]. *)
Definition LocalVault_load_ticket (ticket_id : string) : VAULT SecretAccessTicket :=
  ticket ← try_ (load_ticket ticket_id); lift (ok_or TicketNotFound ticket).

Definition LocalVault_list_tickets : VAULT (list SecretAccessTicket) := try_ list_tickets.

Definition issue_denied (header : VaultHeader) (keys : KeyHierarchy) (request : AccessRequest)
  (policy_id : list (string * json)) (why : string) : VAULT SecretAccessTicket :=
  _ ← append_audit header keys "ticket.issue_denied" "high" "deny"
        (map_from_json (obj ([ ("secret_ref", JStr (req_secret_ref request));
                               ("consumer", JStr (req_consumer request));
                               ("purpose", JStr (req_purpose request)) ] ++ policy_id ++
                             [("reason", JStr why)])));
  throw (PolicyDenied why).

Definition issue_ticket (request : AccessRequest) (passphrase : string)
  : VAULT SecretAccessTicket :=
  hk ← unlock (Some passphrase);
  let '(header, keys) := hk in
  record ← try_ (load_latest_secret (req_secret_ref request));
  _ ← guard_ (negb (bool_decide (rec_status record = Active)))
        (SecretUnavailable (status_string (rec_status record)));
  policies ← try_ list_policies;
  let result := evaluate policies request in
  match policy result with
  | None => issue_denied header keys request [] (reason result)
  | Some p =>
      if negb (bool_decide (decision result = Allow)) then
        issue_denied header keys request [("policy_id", JStr (pol_policy_id p))] (reason result)
      else
        mac_key ← lift (ticket_mac_key keys);
        hash ← lift (policy_hash p);
        ticket ← issue mac_key (hd_vault_id header) (rec_secret_id record)
                   (rec_secret_version record) request p hash (req_broker_session_id request);
        _ ← try_ (save_ticket ticket);
        _ ← append_audit header keys "ticket.issued" "info" "allow"
              (map_from_json (obj [ ("secret_ref", JStr (tk_secret_ref ticket));
                 ("consumer", JStr (tk_consumer ticket)); ("purpose", JStr (tk_purpose ticket));
                 ("delivery_mode", JStr (delivery_mode_string (tk_delivery_mode ticket)));
                 ("ticket_id", JStr (tk_ticket_id ticket));
                 ("policy_id", JStr (tk_policy_id ticket)) ]));
        mret ticket
  end.

Definition validate_ticket (ticket_id : string) (request : AccessRequest) (passphrase : string)
  : VAULT SecretAccessTicket :=
  hk ← unlock (Some passphrase);
  let '(_, keys) := hk in
  ticket ← LocalVault_load_ticket ticket_id;
  mac_key ← lift (ticket_mac_key keys);
  now ← Utc_now;
  _ ← lift (res_try (validate mac_key ticket request now));
  p ← active_policy_for_ticket ticket;
  hash ← lift (policy_hash p);
  _ ← lift (res_try (validate_policy ticket p hash));
  _ ← ensure_ticket_secret_is_current ticket;
  mret ticket.

Definition renew_ticket (ticket_id : string) (request : AccessRequest) (passphrase : string)
  : VAULT SecretAccessTicket :=
  hk ← unlock (Some passphrase);
  let '(header, keys) := hk in
  old_ticket ← validate_ticket ticket_id request passphrase;
  p ← active_policy_for_ticket old_ticket;
  mac_key ← lift (ticket_mac_key keys);
  hash ← lift (policy_hash p);
  renewed ← issue mac_key (hd_vault_id header) (tk_secret_id old_ticket)
              (tk_secret_version old_ticket) request p hash (tk_broker_session_id old_ticket);
  revoked ← lift (res_try (revoke mac_key old_ticket));
  _ ← try_ (save_ticket revoked);
  _ ← try_ (save_ticket renewed);
  _ ← append_audit header keys "ticket.renewed" "info" "allow"
        (map_from_json (obj [ ("old_ticket_id", JStr (tk_ticket_id old_ticket));
                              ("ticket_id", JStr (tk_ticket_id renewed));
                              ("secret_ref", JStr (tk_secret_ref renewed));
                              ("policy_id", JStr (tk_policy_id renewed)) ]));
  mret renewed.

Definition consume_ticket_for_secret (ticket_id : string) (request : AccessRequest)
  (passphrase : string) : VAULT bytes :=
  _ ← (if req_raw_export_requested request
       then enforce_plaintext_export_allowed (req_mfa_verified request) else mret tt);
  hk ← unlock (Some passphrase);
  let '(header, keys) := hk in
  ticket ← LocalVault_load_ticket ticket_id;
  mac_key ← lift (ticket_mac_key keys);
  now ← Utc_now;
  updated ← lift (res_try (consume mac_key ticket request now));
  p ← active_policy_for_ticket ticket;
  hash ← lift (policy_hash p);
  _ ← lift (res_try (validate_policy ticket p hash));
  _ ← ensure_ticket_secret_is_current ticket;
  _ ← try_ (save_ticket_if_current ticket updated);
  record ← try_ (if tk_secret_version ticket =? 0 then load_latest_secret (tk_secret_ref ticket)
                 else load_secret_version (tk_secret_ref ticket) (tk_secret_version ticket));
  if negb (bool_decide (rec_status record = Active)) then
    _ ← append_audit header keys "secret.access_denied" "high" "deny"
          (map_from_json (obj [ ("secret_ref", JStr (tk_secret_ref ticket));
             ("ticket_id", JStr (tk_ticket_id ticket));
             ("reason", JStr ("secret status is " +:+ status_string (rec_status record))) ]));
    throw (SecretUnavailable (status_string (rec_status record)))
  else
    plaintext ← lift (res_try (decrypt_secret keys record));
    _ ← append_audit header keys "secret.materialized"
          (if req_raw_export_requested request then "critical" else "info") "allow"
          (map_from_json (obj [ ("secret_ref", JStr (tk_secret_ref ticket));
             ("ticket_id", JStr (tk_ticket_id ticket)); ("consumer", JStr (req_consumer request));
             ("purpose", JStr (req_purpose request));
             ("delivery_mode", JStr (delivery_mode_string (req_delivery_mode request))) ]));
    mret plaintext.

Definition revoke_ticket (ticket_id passphrase : string) : VAULT SecretAccessTicket :=
  hk ← unlock (Some passphrase);
  let '(header, keys) := hk in
  ticket ← LocalVault_load_ticket ticket_id;
  mac_key ← lift (ticket_mac_key keys);
  revoked ← lift (res_try (revoke mac_key ticket));
  _ ← try_ (save_ticket revoked);
  _ ← append_audit header keys "ticket.revoked" "high" "allow"
        (map_from_json (obj [ ("ticket_id", JStr ticket_id);
                              ("secret_ref", JStr (tk_secret_ref ticket)) ]));
  mret revoked.

Fixpoint revoke_each (mac_key : bytes) (tickets : list SecretAccessTicket) (count : Z) : VAULT Z :=
  match tickets with
  | [] => mret count
  | ticket :: tickets =>
      if tk_revoked ticket then revoke_each mac_key tickets count else
      revoked ← lift (res_try (revoke mac_key ticket));
      _ ← try_ (save_ticket revoked);
      revoke_each mac_key tickets (count + 1)
  end.

Definition revoke_all_tickets (passphrase why : string) : VAULT Z :=
  hk ← unlock (Some passphrase);
  let '(header, keys) := hk in
  mac_key ← lift (ticket_mac_key keys);
  tickets ← try_ list_tickets;
  count ← revoke_each mac_key tickets 0;
  _ ← append_audit header keys "lockdown.tickets_revoked" "critical" "allow"
        (map_from_json (obj [ ("revoked_tickets", ser_u64 count); ("reason", JStr why) ]));
  mret count.

(** ** Rotation *)

Definition start_rotation (secret_ref : string) (new_plaintext : bytes) (passphrase : string)
  (secret_type : SecretType) : VAULT RotationJob :=
  hk ← unlock (Some passphrase);
  let '(header, keys) := hk in
  staged_version ← next_version secret_ref;
  staged_record ← encrypt_version header keys secret_ref staged_version new_plaintext secret_type;
  job ← RotationJob_create (hd_vault_id header) secret_ref staged_version
          (set_status Staged staged_record);
  _ ← try_ (save_rotation_job job);
  _ ← append_audit header keys "rotation.started" "info" "allow"
        (map_from_json (obj [ ("job_id", JStr (job_id job)); ("secret_ref", JStr secret_ref);
                              ("staged_version", ser_u64 staged_version) ]));
  mret job.

Definition find_rotation_job (id : string) : VAULT RotationJob :=
  job ← try_ (load_rotation_job id); lift (ok_or RotationJobNotFound job).

Definition verify_rotation (id passphrase : string) : VAULT RotationJob :=
  hk ← unlock (Some passphrase);
  let '(header, keys) := hk in
  job ← find_rotation_job id;
  _ ← guard_ (negb (bool_decide (job_status job = JobStaged)))
        (InvalidRotationState (rotation_state_string (job_status job)));
  _ ← lift (res_try (decrypt_secret keys (job_staged_record job)));
  verified ← transition job JobVerified None;
  _ ← try_ (save_rotation_job verified);
  _ ← append_audit header keys "rotation.verified" "info" "allow"
        (map_from_json (obj [ ("job_id", JStr id); ("secret_ref", JStr (job_secret_ref verified)) ]));
  mret verified.

Definition promote_rotation (id passphrase : string) : VAULT RotationJob :=
  hk ← unlock (Some passphrase);
  let '(header, keys) := hk in
  job ← find_rotation_job id;
  _ ← guard_ (negb (bool_decide (job_status job = JobVerified)))
        (InvalidRotationState (rotation_state_string (job_status job)));
  plaintext ← lift (res_try (decrypt_secret keys (job_staged_record job)));
  _ ← try_ (save_secret_record (set_status Active (job_staged_record job)));
  _ ← save_fingerprint keys (job_secret_ref job) (job_staged_version job) plaintext;
  promoted ← transition job JobPromoted None;
  _ ← try_ (save_rotation_job promoted);
  _ ← append_audit header keys "rotation.promoted" "high" "allow"
        (map_from_json (obj [ ("job_id", JStr id); ("secret_ref", JStr (job_secret_ref promoted));
                              ("version", ser_u64 (job_staged_version promoted)) ]));
  mret promoted.

Definition rollback_rotation (id passphrase : string) : VAULT RotationJob :=
  hk ← unlock (Some passphrase);
  let '(header, keys) := hk in
  job ← find_rotation_job id;
  _ ← guard_ (negb (has (job_status job) [JobStaged; JobVerified]))
        (InvalidRotationState (rotation_state_string (job_status job)));
  rolled_back ← transition job JobRolledBack None;
  _ ← try_ (save_rotation_job rolled_back);
  _ ← append_audit header keys "rotation.rolled_back" "critical" "allow"
        (map_from_json (obj [ ("job_id", JStr id);
                              ("secret_ref", JStr (job_secret_ref rolled_back)) ]));
  mret rolled_back.

Definition LocalVault_list_rotation_jobs : VAULT (list RotationJob) := try_ list_rotation_jobs.
End vault.
