(* ===== verification/VaultLogic.v ===== *)
(** * Reasoning about vault operations

    The invariant of a vault in use, what an operation may do to the view of its store, and a
    small logic of triples that carries both through the operations of vault.rs, whatever
    their outcome. *)

From S2P Require Export Vault.
#[local] Open Scope Z_scope.

(** ** The invariant *)

Definition audit_key `{Ext} (kh : KeyHierarchy) : bytes :=
  match audit_integrity_key (E:=VaultError) kh with Ok k => k | _ => [] end.

(** The vault is initialised, its identifier is the hierarchy's, and its audit log verifies under
    the hierarchy's audit key. *)
Record vault_inv `{Ext} (kh : KeyHierarchy) (v : View) : Prop := {
  vi_header : ∃ h, v_header v = Some h ∧ hd_vault_id h = kh_vault_id kh;
  vi_chain : verify_audit_chain (v_audit v) (audit_key kh) = Ok tt;
}.

(** What no operation changes of the header. *)
Definition same_identity (h h' : VaultHeader) : Prop :=
  hd_vault_id h' = hd_vault_id h ∧ hd_namespace_id h' = hd_namespace_id h ∧
  hd_schema_version h' = hd_schema_version h ∧ hd_created_at h' = hd_created_at h.

Definition keys_kept {K V} `{EqDecision K} (m m' : omap K V) : Prop :=
  ∀ k, is_Some (oget k m) → is_Some (oget k m').

(** The audit log is extended only; no row of the other tables is deleted; the vault stays the
    same vault. *)
Record grows (v v' : View) : Prop := {
  gr_audit : v_audit v `prefix_of` v_audit v';
  gr_records : keys_kept (v_records v) (v_records v');
  gr_policies : keys_kept (v_policies v) (v_policies v');
  gr_tickets : keys_kept (v_tickets v) (v_tickets v');
  gr_jobs : keys_kept (v_jobs v) (v_jobs v');
  gr_fingerprints : keys_kept (v_fingerprints v) (v_fingerprints v');
  gr_identity : ∀ h, v_header v = Some h → ∃ h', v_header v' = Some h' ∧ same_identity h h';
}.

Lemma keys_kept_refl {K V} `{EqDecision K} (m : omap K V) : keys_kept m m.
Proof. by intros k. Qed.
Lemma keys_kept_oput {K V} `{OrdKeyLaws K, !EqDecision K} k x (m m' : omap K V) :
  keys_kept m m' → keys_kept m (oput k x m').
Proof. intros Hm k' Hk. rewrite oget_oput. case_decide; [by eexists|by apply Hm]. Qed.

#[export] Instance grows_preorder : PreOrder grows.
Proof.
  split.
  - intros v. split; try (by apply keys_kept_refl); [done|]. intros h Hh. by exists h.
  - intros v1 v2 v3 [A1 R1 P1 T1 J1 F1 I1] [A2 R2 P2 T2 J2 F2 I2].
    split; try (by intros k Hk; auto); [by etrans|].
    intros h Hh. destruct (I1 h Hh) as (h2 & Hh2 & E1). destruct (I2 h2 Hh2) as (h3 & Hh3 & E2).
    exists h3. split; [done|]. unfold same_identity in *. intuition congruence.
Qed.

(** ** Triples *)

Section triples.
Context {X : Ext} (kh : KeyHierarchy) (v0 : View).

(** A world on the way of an operation that started on [v0]. *)
Definition inv (w : World) : Prop :=
  ∃ v, represents (db w) v ∧ vault_inv kh v ∧ grows v0 v.

(** Whatever its outcome [m] keeps the invariant, and its results satisfy [Q]. *)
Definition triple {E A} (m : ST World E A) (Q : A → Prop) : Prop :=
  ∀ w, inv w → inv (m w).2 ∧ ∀ a, (m w).1 = Ok a → Q a.

Context {E : Type}.

Lemma triple_conseq {A} (m : ST World E A) (Q Q' : A → Prop) :
  triple m Q → (∀ a, Q a → Q' a) → triple m Q'.
Proof. intros Hm HQ w Hw. destruct (Hm w Hw) as [Hi Hr]. split; eauto. Qed.

Lemma triple_bind {A B} (m : ST World E A) (f : A → ST World E B) Q Q' :
  triple m Q → (∀ a, Q a → triple (f a) Q') → triple (m ≫= f) Q'.
Proof.
  intros Hm Hf w Hw. destruct (Hm w Hw) as [Hi Hr]. unfold mbind, st_bind.
  destruct (m w) as [[a|e|] w1]; simpl in *; [|by split..].
  apply Hf; auto.
Qed.

Lemma triple_assoc {A B C} (m : ST World E A) (f : A → ST World E B) (g : B → ST World E C) Q :
  triple (m ≫= λ a, f a ≫= g) Q → triple ((m ≫= f) ≫= g) Q.
Proof. intros Hm w Hw. rewrite st_bind_assoc. by apply Hm. Qed.

Lemma triple_ret {A} (a : A) : triple (mret a : ST World E A) (λ x, x = a).
Proof. intros w Hw. split; [done|]. cbn. intros a' Ha. congruence. Qed.
Lemma triple_lift {A} (r : res E A) : triple (lift r) (λ a, r = Ok a).
Proof. intros w Hw. split; [done|]. by intros a. Qed.
Lemma triple_throw {A} (e : E) : triple (throw e : ST World E A) (λ _, False).
Proof. intros w Hw. by split. Qed.
Lemma triple_panic {A} : triple (panic : ST World E A) (λ _, False).
Proof. intros w Hw. by split. Qed.
Lemma triple_guard c (e : E) : triple (guard_ c e) (λ _, c = false).
Proof. intros w Hw. by destruct c. Qed.

Lemma triple_try {F A} `{From F E} (m : ST World F A) Q :
  triple m Q → triple (try_ m : ST World E A) Q.
Proof.
  intros Hm w Hw. destruct (Hm w Hw) as [Hi Hr]. unfold try_.
  destruct (m w) as [[a|e|] w1]; simpl in *; (split; [done|]); [|discriminate..].
  intros a' Ha. apply Hr. congruence.
Qed.
Lemma triple_attempt {F A} (m : ST World F A) Q :
  triple m Q → triple (attempt m : ST World E (res F A)) (λ r, ∀ a, r = Ok a → Q a).
Proof.
  intros Hm w Hw. destruct (Hm w Hw) as [Hi Hr]. unfold attempt.
  destruct (m w) as [[a|e|] w1]; simpl in *; (split; [done|]); try done.
  - intros r Heq a' ->. apply Hr. congruence.
  - intros r Heq a' ->. congruence.
Qed.

(** A computation that leaves the tables alone, with any fact its successful runs establish. *)
Lemma triple_pure {A} (m : ST World E A) (P : A → Prop) :
  keeps same_db m → (∀ w a w', m w = (Ok a, w') → P a) → triple m P.
Proof.
  intros Hk HP w (v & Hv). split.
  - exists v. destruct (Hk w) as [Hd _]. by rewrite Hd.
  - intros a Ha. destruct (m w) as [r w'] eqn:Hrun. simpl in Ha. subst r. by eapply HP.
Qed.
Lemma triple_same_db {A} (m : ST World E A) : keeps same_db m → triple m (λ _, True).
Proof. intros Hk. apply (triple_pure m (λ _, True)); [exact Hk|auto]. Qed.
End triples.

Create HintDb triple.
#[export] Hint Resolve triple_ret triple_lift triple_throw triple_panic triple_guard triple_try
  triple_attempt : triple.
#[export] Hint Extern 2 (triple _ _ (query _) _) => apply triple_same_db; auto with keeps : triple.
#[export] Hint Extern 2 (triple _ _ (random _) _) =>
  apply triple_same_db; auto with keeps typeclass_instances : triple.
#[export] Hint Extern 2 (triple _ _ Uuid_new_v4 _) =>
  apply triple_same_db; auto with keeps typeclass_instances : triple.
#[export] Hint Extern 2 (triple _ _ Utc_now _) =>
  apply triple_same_db; auto with keeps typeclass_instances : triple.

(** Postconditions as hypotheses. *)
Ltac triple_clean :=
  cbn beta in *;
  repeat match goal with
         | H : Ok _ = Ok _ |- _ => injection H as H; subst
         | H : _ ∧ _ |- _ => destruct H
         | H : False |- _ => destruct H
         | H : ok_or _ _ = Ok _ |- _ => apply ok_or_ok_inv in H
         end.

(** One step through a computation: a bind whose head has a triple in the database. *)
Ltac triple_step :=
  match goal with
  | |- triple _ _ (_ ≫= _) _ =>
      eapply triple_bind; [solve [eauto with triple typeclass_instances]|intros ? ?; triple_clean]
  | |- triple _ _ ((_ ≫= _) ≫= _) _ => apply triple_assoc
  | |- triple _ _ ((match ?x with _ => _ end) ≫= _) _ => destruct x eqn:?
  | |- triple _ _ ((try_ (match ?x with _ => _ end)) ≫= _) _ => destruct x eqn:?
  | |- triple _ _ (let '(_, _) := ?x in _) _ => destruct x
  | |- triple _ _ (if ?b then _ else _) _ => destruct b eqn:?
  | |- triple _ _ (match ?x with _ => _ end) _ => destruct x eqn:?
  | |- triple _ _ _ _ =>
      eapply triple_conseq;
        [solve [eauto with triple typeclass_instances]|intros ? ?; triple_clean; try done]
  end.

(** ** Calls of the store *)

(** Calls that touch neither the audit log nor the vault's identity. *)
Definition passive (v0 : View) {A} (c : call A) : Prop :=
  match c with
  | SaveAuditEvent _ | CreateVault _ => False
  | UpdateHeader h => ∀ h0, v_header v0 = Some h0 → same_identity h0 h
  | _ => True
  end.

(** What a call's result is known to be. *)
Definition result_ok {A} (c : call A) : A → Prop :=
  match c in call A return A → Prop with
  | LoadHeader => VaultHeader_wf
  | LatestVersion _ => λ latest, 0 <= default 0 latest <= i64_max
  | LoadLatestSecret secret_ref | LoadSecretVersion secret_ref _ =>
      λ r, SecretRecord_wf r ∧ rec_secret_ref r = secret_ref
  | ListAuditEvents => Forall AuditEvent_wf
  | ListPolicies => Forall AccessPolicy_wf
  | LoadTicket id => λ t, ∀ t', t = Some t' → SecretAccessTicket_wf t' ∧ tk_ticket_id t' = id
  | ListTickets => Forall SecretAccessTicket_wf
  | LoadRotationJob _ => λ j, ∀ j', j = Some j' → RotationJob_wf j'
  | ListRotationJobs => Forall RotationJob_wf
  | _ => λ _, True
  end.

Section calls.
Context {X : Ext} {HC : CodecLaws} {HT : ChronoLaws} (kh : KeyHierarchy) (v0 : View).

Lemma Forall_snd {K V} (P : K * V → Prop) (Q : V → Prop) (m : omap K V) :
  Forall P m → (∀ kv, P kv → Q kv.2) → Forall Q m.*2.
Proof. intros Hm HPQ. apply Forall_fmap. eapply Forall_impl; [exact Hm|]. auto. Qed.

Lemma spec_result {A} (c : call A) v a :
  View_ok v → (spec c v).1 = Ok a → result_ok c a.
Proof.
  intros [Hh [_ Hr] [_ Hp] [_ Ht] Ha _ [_ Hj]] Hres. rewrite Forall_forall in Hr. rewrite Forall_forall in Ht. rewrite Forall_forall in Hj.
  destruct c; simpl in *; try done.
  - destruct (v_header v); [|done]. injection Hres as <-. auto.
  - injection Hres as <-. destruct (last _) as [[ver r]|] eqn:Hl; simpl; [|unfold i64_max; lia].
    apply last_versions_elem, Hr in Hl as [[= _ ->] ?]. done.
  - destruct (last _) as [[ver r]|] eqn:Hl; [|done]. injection Hres as <-.
    apply last_versions_elem, Hr in Hl as [[= -> ->] Hv]. simpl in *. split; [|done].
    unfold SecretRecord_wf, i64_max, u64_max in *. lia.
  - destruct (_ <=? _); [|done]. destruct (oget _ _) as [r|] eqn:Hl; [|done]. injection Hres as <-.
    apply oget_elem_of, Hr in Hl as [[= -> ->] Hv]. simpl in *. split; [|done].
    unfold SecretRecord_wf, i64_max, u64_max in *. lia.
  - by injection Hres as <-.
  - injection Hres as <-. eapply Forall_snd; [exact Hp|]. by intros kv [].
  - injection Hres as <-. intros t Hl. apply oget_elem_of, Ht in Hl as [Hid Hwf].
    simpl in *. by split.
  - injection Hres as <-. apply Forall_fmap, Forall_forall. intros kv Hin. by apply Ht in Hin as [].
  - injection Hres as <-. intros j Hl. by apply oget_elem_of, Hj in Hl as [].
  - injection Hres as <-. apply Forall_fmap, Forall_forall. intros kv Hin. by apply Hj in Hin as [].
Qed.

Lemma spec_passive {A} (c : call A) v :
  passive v0 c → vault_inv kh v → grows v0 v →
  (∃ h0, v_header v0 = Some h0) →
  vault_inv kh (spec c v).2 ∧ grows v0 (spec c v).2.
Proof.
  intros Hp [(h & Hh & Hid) Hch] Hg (h0 & H0). pose proof Hg as [GA GR GP GT GJ GF GI].
  destruct (GI h0 H0) as (h1 & Hh1 & Hs1). rewrite Hh in Hh1. injection Hh1 as <-.
  assert (vault_inv kh v) as Hv by (split; [by exists h|done]).
  destruct c; cbn [spec passive] in *; rewrite ?Hh; try (split; [exact Hv|exact Hg]); try done.
  - specialize (Hp h0 H0). split.
    + split; [|done]. simpl. eexists. split; [done|]. unfold same_identity in *. intuition congruence.
    + split; simpl; try done. intros h2 Hh2. rewrite H0 in Hh2. injection Hh2 as <-. by eexists.
  - split; [split; [by exists h|done]|]. by split.
  - destruct (rec_secret_version r <=? i64_max); [|by split]. split; [split; [by exists h|done]|].
    split; simpl; try done. by apply keys_kept_oput.
  - split; [split; [by exists h|done]|]. split; simpl; try done. by apply keys_kept_oput.
  - split; [split; [by exists h|done]|]. split; simpl; try done. by apply keys_kept_oput.
  - destruct (oget _ _) as [t|]; [|by split]. destruct (bool_decide _); [|by split].
    split; [split; [by exists h|done]|]. split; simpl; try done. by apply keys_kept_oput.
  - split; [split; [by exists h|done]|]. split; simpl; try done. by apply keys_kept_oput.
  - destruct (version <=? i64_max); [|by split]. split; [split; [by exists h|done]|].
    split; simpl; try done. by apply keys_kept_oput.
Qed.

Lemma triple_call {A} (c : call A) :
  (∃ h0, v_header v0 = Some h0) → call_ok c → passive v0 c → triple kh v0 (exec c) (result_ok c).
Proof.
  intros H0 Hok Hp w (v & Hrep & Hv & Hg).
  destruct (store_fault (tick w)) as [f|] eqn:Hf.
  - rewrite (exec_fault c w f Hf). simpl. split; [by exists v|done].
  - destruct (exec_refines c w v Hrep Hok Hf) as (d' & -> & Hrep'). simpl.
    destruct (spec_passive c v Hp Hv Hg H0) as [Hv' Hg']. split; [by eexists|].
    intros a Ha. eapply spec_result; [|exact Ha]. apply (rp_ok _ _ Hrep).
Qed.
End calls.
