(* ===== verification/VaultInvariant.v ===== *)
(** * Every vault operation keeps the vault well-formed and its history (vault.rs)

    A triple for each operation of [LocalVault], and for [run_op] of any [vault_op]: with any
    arguments and any outcome, errors and failures of the store included, it leaves tables that
    represent a typed view, an audit log that verifies and extends the old one, and every
    secret version, policy, ticket and job still there. *)

From S2P Require Export VaultLogic.
From S2P Require Import Toy.
#[local] Open Scope Z_scope.

(** ** What runs return *)

Lemma get_db_bind {A} (f : Db → ST World StoreError A) w : (get_db ≫= f) w = f (db w) w.
Proof. done. Qed.

Lemma encrypt_ok_inv `{Ext} {E} kh ns sid sref v pt t pid ph mh pp w r w' :
  encrypt_secret (E:=E) kh ns sid sref v pt t pid ph mh pp w = (Ok r, w') →
  rec_secret_version r = v ∧ rec_secret_ref r = sref ∧ rec_status r = Active.
Proof.
  unfold encrypt_secret. intros Hrun.
  repeat (apply st_bind_ok_inv in Hrun as (? & ? & _ & Hrun)). by injection Hrun as <- _.
Qed.

Lemma keeps_encrypt `{Ext} {E} R `{!Timeless R} kh ns sid sref v pt t pid ph mh pp :
  keeps R (encrypt_secret (E:=E) kh ns sid sref v pt t pid ph mh pp).
Proof. unfold encrypt_secret. keeps_auto. Qed.
#[export] Hint Resolve keeps_encrypt : keeps.

Lemma issue_ok_inv `{Ext} {E} k vid sid v r p ph s w t w' :
  issue (E:=E) k vid sid v r p ph s w = (Ok t, w') →
  0 <= v <= u64_max → AccessRequest_wf r → AccessPolicy_wf p →
  SecretAccessTicket_wf t.
Proof.
  unfold issue. intros Hrun Hv [Hb Hu] Hp.
  repeat (apply st_bind_ok_inv in Hrun as (? & ? & _ & Hrun)). injection Hrun as <- _.
  destruct Hp. by split.
Qed.

Lemma keeps_issue `{Ext} {E} R `{!Timeless R} k vid sid v r p ph s :
  keeps R (issue (E:=E) k vid sid v r p ph s).
Proof. unfold issue. keeps_auto. Qed.
#[export] Hint Resolve keeps_issue : keeps.

Lemma consume_ok_inv `{Ext} k t r now t' :
  SecretAccessTicket_wf t → consume k t r now = Ok t' →
  ticket_admits k t r now ∧ SecretAccessTicket_wf t' ∧ tk_ticket_id t' = tk_ticket_id t ∧
  tk_uses_remaining t' = tk_uses_remaining t - 1 ∧ tk_revoked t' = tk_revoked t.
Proof.
  intros Hwf Hc. unfold consume in Hc. apply res_bind_ok_inv in Hc as ([] & Hv & Hc).
  apply validate_spec in Hv; [|done]. split; [done|].
  apply res_bind_ok_inv in Hc as (mac & _ & Hc). injection Hc as <-.
  pose proof (ta_uses _ _ _ _ Hv). pose proof (wf_tk_uses _ Hwf).
  split; [|done]. apply set_ticket_wf; [apply set_ticket_wf; [done|lia]|simpl; lia].
Qed.

Lemma revoke_ok_inv `{Ext} k t t' :
  SecretAccessTicket_wf t → revoke k t = Ok t' →
  SecretAccessTicket_wf t' ∧ tk_ticket_id t' = tk_ticket_id t ∧ tk_revoked t' = true ∧
  tk_uses_remaining t' = tk_uses_remaining t.
Proof.
  intros Hwf Hr. unfold revoke in Hr. apply res_bind_ok_inv in Hr as (mac & _ & Hr).
  destruct (differ _ _); [done|]. apply res_bind_ok_inv in Hr as (mac' & _ & Hr).
  injection Hr as <-. split; [|done]. pose proof (wf_tk_uses _ Hwf).
  apply set_ticket_wf; [apply set_ticket_wf; done|done].
Qed.

Lemma transition_ok_inv `{Ext} {E} j s fr w j' w' :
  transition (E:=E) j s fr w = (Ok j', w') →
  job_staged_version j' = job_staged_version j ∧ job_staged_record j' = job_staged_record j ∧
  job_id j' = job_id j ∧ job_secret_ref j' = job_secret_ref j ∧ job_status j' = s.
Proof. unfold transition. rewrite now_bind. by intros [= <- _]. Qed.
Lemma keeps_transition `{Ext} {E} R `{!Timeless R} j s fr : keeps R (transition (E:=E) j s fr).
Proof. unfold transition. keeps_auto. Qed.
#[export] Hint Resolve keeps_transition : keeps.

Lemma passphrase_wrap_wf `{Ext} vid rk pass w b w' :
  PassphraseProvider_wrap_root_key ScryptParams_default vid rk pass w = (Ok b, w') →
  PassphraseProviderBinding_wf b.
Proof.
  unfold PassphraseProvider_wrap_root_key. intros Hrun.
  repeat (apply st_bind_ok_inv in Hrun as (? & ? & _ & Hrun)). injection Hrun as <- _.
  apply ScryptParams_default_wf.
Qed.
Lemma system_wrap_wf `{Ext} vid rk w b w' :
  SystemFingerprintProvider_wrap_root_key ScryptParams_default vid rk w = (Ok b, w') →
  SystemFingerprintProviderBinding_wf b.
Proof.
  unfold SystemFingerprintProvider_wrap_root_key. intros Hrun.
  repeat (apply st_bind_ok_inv in Hrun as (? & ? & _ & Hrun)). injection Hrun as <- _.
  apply ScryptParams_default_wf.
Qed.

(** What a fresh audit event records. *)
Record records_event (ty sev dec : string) (md : omap string json) (e : AuditEvent) : Prop := {
  re_type : ev_event_type e = ty;
  re_severity : ev_severity e = sev;
  re_decision : ev_decision e = dec;
  re_metadata : ev_metadata e = md;
}.

(** *** Reads of the store, and unlocking, write nothing *)

Section reads.
Context `{Ext} (R : World → World → Prop) {HR : Timeless R}.
Lemma keeps_get_db : keeps R get_db.
Proof. intros w. apply timeless_same. by split. Qed.
#[local] Hint Resolve keeps_get_db : keeps.
Lemma keeps_initialize : keeps R initialize_schema.
Proof. unfold initialize_schema. keeps_auto. Qed.
#[local] Hint Resolve keeps_initialize : keeps.
Lemma keeps_load_header : keeps R load_header.
Proof. unfold load_header. keeps_auto. Qed.
Lemma keeps_get_metadata k : keeps R (get_metadata k).
Proof. unfold get_metadata. keeps_auto. Qed.
Lemma keeps_load_latest s : keeps R (load_latest_secret s).
Proof. unfold load_latest_secret. keeps_auto. Qed.
#[local] Hint Resolve keeps_load_header keeps_get_metadata keeps_load_latest : keeps.
Lemma keeps_unlock p : keeps R (unlock p).
Proof. unfold unlock, binding_of. keeps_auto. Qed.
Lemma keeps_totp_enrolled : keeps R totp_mfa_enrolled.
Proof. unfold totp_mfa_enrolled. keeps_auto. Qed.
#[local] Hint Resolve keeps_totp_enrolled : keeps.
Lemma keeps_enforce b : keeps R (enforce_plaintext_export_allowed b).
Proof. unfold enforce_plaintext_export_allowed, plaintext_export_enabled. keeps_auto. Qed.
End reads.
#[export] Hint Resolve keeps_get_db keeps_initialize keeps_unlock keeps_enforce keeps_totp_enrolled keeps_load_header
  keeps_load_latest : keeps.

(** The header is the stored one, the hierarchy is for its vault. *)
Lemma unlock_ok_inv `{Ext} p w h k w' :
  unlock p w = (Ok (h, k), w') →
  ∃ w1, load_header w = (Ok h, w1) ∧ k = {| kh_vault_id := hd_vault_id h; kh_root_key := kh_root_key k |}.
Proof.
  unfold unlock. intros Hrun.
  apply st_bind_ok_inv in Hrun as (h1 & w1 & Hh & Hrun). apply try_ok_inv in Hh.
  apply st_bind_ok_inv in Hrun as (rk & w2 & _ & Hrun).
  apply st_bind_ok_inv in Hrun as (keys & w3 & Hk & Hrun). injection Hrun as -> -> _.
  exists w1. split; [done|]. unfold lift, KeyHierarchy_new, res_try in Hk.
  case_decide; [|done]. by injection Hk as <- _.
Qed.

Lemma opt_str_ok o : json_ok (opt_str o) = true.
Proof. by destruct o. Qed.

(** Audit metadata: members of a literal object. *)
Lemma metadata_ok l :
  forallb (λ kv, json_ok kv.2) l = true → json_ok (JObj (map_from_json (obj l))) = true.
Proof. apply json_ok_obj. Qed.
Ltac metadata :=
  repeat match goal with H : RotationJob_wf _ |- _ => destruct H end;
  apply metadata_ok; cbn [app forallb snd]; rewrite ?opt_str_ok, ?ser_u64_ok; try done;
  unfold i64_max, u64_max, u32_max in *; try lia.

Section ops.
Context {X : Ext} {HC : CodecLaws} {HT : ChronoLaws} {HH : HashLaws}.
Context (kh : KeyHierarchy) (v0 : View).
Hypothesis H0 : ∃ h0, v_header v0 = Some h0.

Abbreviation triple := (triple kh v0).

(** A header of this vault. *)
Definition own_header (h : VaultHeader) : Prop :=
  VaultHeader_wf h ∧ hd_vault_id h = kh_vault_id kh ∧
  ∀ h0, v_header v0 = Some h0 → same_identity h0 h.

(** ** The store's operations *)

Lemma inv_header w h w' :
  inv kh v0 w → load_header w = (Ok h, w') → own_header h.
Proof.
  intros (v & Hrep & [(h1 & Hh1 & Hid) _] & Hg) Hrun.
  destruct (store_fault (tick w)) as [f|] eqn:Hf.
  { change load_header with (exec LoadHeader) in Hrun. by rewrite (exec_fault _ _ f Hf) in Hrun. }
  destruct (exec_refines LoadHeader w v Hrep I Hf) as (d' & Heq & _).
  change (exec LoadHeader) with load_header in Heq. rewrite Heq in Hrun. cbn [spec fst] in Hrun.
  rewrite Hh1 in Hrun. injection Hrun as <- _.
  split; [by apply (vk_header _ (rp_ok _ _ Hrep))|]. split; [done|].
  intros h0 Hh0. destruct (gr_identity _ _ Hg h0 Hh0) as (h2 & Hh2 & Hs). congruence.
Qed.

Lemma t_load_header : triple load_header own_header.
Proof.
  intros w Hw. destruct (triple_call kh v0 LoadHeader H0 I I w Hw) as [Hi _].
  split; [exact Hi|]. intros h Hh. destruct (load_header w) as [r w'] eqn:Hrun. simpl in Hh.
  subst r. exact (inv_header w h w' Hw Hrun).
Qed.

Ltac call c := exact (triple_call kh v0 c H0 I I).
Lemma t_get_metadata k : k ≠ "vault_header" → triple (get_metadata k) (λ _, True).
Proof. intros Hk. exact (triple_call kh v0 (GetMetadata k) H0 Hk I). Qed.
Lemma t_set_metadata k x : k ≠ "vault_header" → triple (set_metadata k x) (λ _, True).
Proof. intros Hk. exact (triple_call kh v0 (SetMetadata k x) H0 Hk I). Qed.
Lemma t_update_header h :
  VaultHeader_wf h → (∀ h0, v_header v0 = Some h0 → same_identity h0 h) →
  triple (update_header h) (λ _, True).
Proof. intros Hw Hs. exact (triple_call kh v0 (UpdateHeader h) H0 Hw Hs). Qed.
Lemma t_save_secret_record r : SecretRecord_wf r → triple (save_secret_record r) (λ _, True).
Proof. intros Hr. exact (triple_call kh v0 (SaveSecretRecord r) H0 Hr I). Qed.
Lemma t_latest_version s : triple (latest_version s) (λ o, 0 <= default 0 o <= i64_max).
Proof. call (LatestVersion s). Qed.
Lemma t_load_latest s :
  triple (load_latest_secret s) (λ r, SecretRecord_wf r ∧ rec_secret_ref r = s).
Proof. call (LoadLatestSecret s). Qed.
Lemma t_load_version s n :
  triple (load_secret_version s n) (λ r, SecretRecord_wf r ∧ rec_secret_ref r = s).
Proof. call (LoadSecretVersion s n). Qed.
Lemma t_list_audit : triple list_audit_events (Forall AuditEvent_wf).
Proof. call ListAuditEvents. Qed.
Lemma t_save_policy p : AccessPolicy_wf p → triple (save_policy p) (λ _, True).
Proof. intros Hp. exact (triple_call kh v0 (SavePolicy p) H0 Hp I). Qed.
Lemma t_list_policies : triple list_policies (Forall AccessPolicy_wf).
Proof. call ListPolicies. Qed.
Lemma t_save_ticket t : SecretAccessTicket_wf t → triple (save_ticket t) (λ _, True).
Proof. intros Ht. exact (triple_call kh v0 (SaveTicket t) H0 Ht I). Qed.
Lemma t_save_ticket_if t t' :
  SecretAccessTicket_wf t → SecretAccessTicket_wf t' → tk_ticket_id t' = tk_ticket_id t →
  triple (save_ticket_if_current t t') (λ _, True).
Proof.
  intros Ht Ht' Hid. exact (triple_call kh v0 (SaveTicketIfCurrent t t') H0 (conj Ht (conj Ht' Hid)) I).
Qed.
Lemma t_load_ticket id :
  triple (load_ticket id) (λ o, ∀ t, o = Some t → SecretAccessTicket_wf t ∧ tk_ticket_id t = id).
Proof. call (LoadTicket id). Qed.
Lemma t_list_tickets : triple list_tickets (Forall SecretAccessTicket_wf).
Proof. call ListTickets. Qed.
Lemma t_save_job j : RotationJob_wf j → triple (save_rotation_job j) (λ _, True).
Proof. intros Hj. exact (triple_call kh v0 (SaveRotationJob j) H0 Hj I). Qed.
Lemma t_load_job id : triple (load_rotation_job id) (λ o, ∀ j, o = Some j → RotationJob_wf j).
Proof. call (LoadRotationJob id). Qed.
Lemma t_save_fp s n f : triple (save_redaction_fingerprint s n f) (λ _, True).
Proof. call (SaveFingerprint s n f). Qed.

Hint Resolve t_load_header t_get_metadata t_set_metadata t_update_header t_save_secret_record
  t_latest_version t_load_latest t_load_version t_list_audit t_save_policy t_list_policies
  t_save_ticket t_save_ticket_if t_load_ticket t_list_tickets t_save_job t_load_job t_save_fp
  : triple.

(** ** The audit trail *)

Lemma audit_key_eq {E} k : audit_integrity_key (E:=E) k = Ok (audit_key k).
Proof.
  unfold audit_key. pose proof (derived_key_ok (E:=VaultError) k AuditKey) as Hv.
  change (derived_key k AuditKey) with (audit_integrity_key (E:=VaultError) k) in Hv.
  rewrite Hv. exact (derived_key_ok k AuditKey).
Qed.

(** Appending an event fails on a failing store or a taken identifier and changes nothing, or
    seals the event at the end of the log. *)
Lemma append_cases header k ty sev dec md w v :
  represents (db w) v → json_ok (JObj md) = true →
  (∃ err w', append_audit header k ty sev dec md w = (Err err, w') ∧ db w' = db w ∧
     (is_Some (store_fault (tick w)) ∨
      uuid_new_v4 (S (tick w)) ∈ ev_event_id <$> v_audit v)) ∨
  (∃ e, append_audit header k ty sev dec md w =
        (Ok e, {| tick := 3 + tick w;
                  db := set_audit_events
                          (audit_events (db w) ++ [(ev_event_id e, to_string e)]) (db w) |}) ∧
     AuditEvent_wf e ∧ event_seal (audit_key k) e ∧
     ev_previous_hash e = last_hash ZERO_HASH (v_audit v) ∧
     ev_event_id e = uuid_new_v4 (S (tick w)) ∧ records_event ty sev dec md e).
Proof.
  intros Hrep Hmd. unfold append_audit. rewrite audit_key_eq, st_lift_ok.
  unfold append_audit_event, try_.
  destruct (store_fault (tick w)) as [f|] eqn:Hf.
  { left. rewrite (st_bind_err _ _ _ _ _ (initialize_err w f Hf)). simpl. eauto 10. }
  rewrite (st_bind_ok _ _ _ _ _ (initialize_ok w Hf)), get_db_bind. cbn [db tick].
  rewrite (rp_audit _ _ Hrep), <-list_fmap_compose.
  change (snd ∘ (λ e, (ev_event_id e, to_string e))) with (to_string (A:=AuditEvent)).
  rewrite res_mapM_fmap, st_lift_ok.
  2:{ eapply Forall_impl; [apply (vk_audit _ (rp_ok _ _ Hrep))|].
      intros e He. by apply parse_row_ok. }
  rewrite st_bind_assoc. set (w1 := {| tick := S (tick w); db := db w |}).
  destruct (append_run (E:=StoreError) (audit_key k) (v_audit v) (hd_vault_id header)
    (hd_namespace_id header) ty sev dec md w1 Hmd)
    as (e & Hrun & Hwe & Hseal & Hprev & Hid & _ & _ & H1 & H2 & H3 & H4).
  rewrite (st_bind_ok _ _ _ _ _ Hrun), st_ret_bind. cbn [fst].
  unfold insert_audit_row. rewrite st_bind_assoc, get_db_bind. cbn [db tick w1].
  rewrite (rp_audit _ _ Hrep), <-list_fmap_compose.
  change (fst ∘ (λ e, (ev_event_id e, to_string e))) with ev_event_id. rewrite <-(rp_audit _ _ Hrep).
  destruct (bool_decide _) eqn:Hd.
  - left. apply bool_decide_eq_true_1 in Hd. rewrite Hid in Hd. eexists _, _. split; [reflexivity|].
    split; [done|]. by right.
  - right. exists e. split; [reflexivity|]. split; [done|]. split; [done|]. split; [done|].
    split; [exact Hid|]. by split.
Qed.

Lemma chain_extend k l e :
  Forall AuditEvent_wf (l ++ [e]) → verify_audit_chain l k = Ok tt →
  ev_previous_hash e = last_hash ZERO_HASH l → event_seal k e →
  verify_audit_chain (l ++ [e]) k = Ok tt.
Proof.
  intros Hwf Hch Hprev Hseal. unfold verify_audit_chain in *. apply verify_from_chain; [done|].
  apply Forall_app in Hwf as [Hwf _].
  apply chain_snoc; [by apply verify_from_chain in Hch|done..].
Qed.

Lemma t_append header ty sev dec md :
  json_ok (JObj md) = true → triple (append_audit header kh ty sev dec md) (λ _, True).
Proof.
  intros Hmd w (v & Hrep & Hv & Hg). split; [|done].
  destruct (append_cases header kh ty sev dec md w v Hrep Hmd)
    as [(err & w' & -> & Hd & _)|(e & -> & Hwe & Hseal & Hprev & _)].
  - exists v. simpl. by rewrite Hd.
  - exists (with_audit (v_audit v ++ [e]) v). split; [by apply rep_audit|].
    destruct Hv as [Hh Hch]. split.
    + split; [done|]. apply chain_extend; [|done..].
      pose proof (vk_audit _ (rp_ok _ _ Hrep)). by apply Forall_app; auto.
    + destruct Hg. split; simpl; try done. by apply prefix_app_r.
Qed.
#[local] Hint Resolve t_append : triple.

(** ** Shared steps *)

Lemma t_next_version s : triple (next_version s) (λ n, 1 <= n <= i64_max + 1).
Proof. unfold next_version. triple_step. triple_step. lia. Qed.

Lemma t_encrypt header keys s n pt t :
  0 <= n <= u64_max →
  triple (encrypt_version header keys s n pt t)
    (λ r, SecretRecord_wf r ∧ rec_secret_version r = n ∧ rec_secret_ref r = s).
Proof.
  intros Hn. unfold encrypt_version. triple_step.
  apply triple_pure; [auto with keeps typeclass_instances|].
  intros w r w' (Hv & Hs & _)%encrypt_ok_inv. unfold SecretRecord_wf. by rewrite Hv.
Qed.

Lemma t_save_fingerprint keys s n pt : triple (save_fingerprint keys s n pt) (λ _, True).
Proof. unfold save_fingerprint. triple_step. triple_step. Qed.

Lemma t_update_status s st : triple (save_updated_secret_status s st) SecretRecord_wf.
Proof.
  unfold save_updated_secret_status. triple_step. eapply triple_bind; [by apply t_save_secret_record, set_status_wf|intros _ _].
  triple_step.
Qed.

Lemma t_totp_enrolled : triple totp_mfa_enrolled (λ _, True).
Proof. unfold totp_mfa_enrolled. repeat triple_step. Qed.

Lemma t_active_policy t : triple (active_policy_for_ticket t) AccessPolicy_wf.
Proof.
  unfold active_policy_for_ticket. triple_step. triple_step.
  match goal with H : find _ _ = Some _ |- _ => apply find_some in H as [Hin _] end.
  eapply Forall_forall; [eassumption|by apply list_elem_of_In].
Qed.

Lemma t_ensure_current t : triple (ensure_ticket_secret_is_current t) (λ _, True).
Proof. unfold ensure_ticket_secret_is_current. repeat triple_step. Qed.

Lemma t_vault_load_ticket id :
  triple (LocalVault_load_ticket id) (λ t, SecretAccessTicket_wf t ∧ tk_ticket_id t = id).
Proof.
  unfold LocalVault_load_ticket. triple_step. triple_step. auto.
Qed.

Lemma t_find_job id : triple (find_rotation_job id) RotationJob_wf.
Proof. unfold find_rotation_job. triple_step. triple_step. auto. Qed.

Lemma t_transition {E} j s fr :
  RotationJob_wf j → triple (transition (E:=E) j s fr) RotationJob_wf.
Proof.
  intros Hj. apply triple_pure; [auto with keeps typeclass_instances|].
  intros w j' w' (Hv & Hr & _)%transition_ok_inv. destruct Hj. split; by rewrite ?Hv, ?Hr.
Qed.

Lemma t_wrap_with np pass dev vid rk :
  triple (wrap_with np pass dev vid rk) (λ j, json_ok j = true).
Proof.
  assert (∀ pass, triple (wrap_passphrase pass vid rk) (λ j, json_ok j = true)) as Hp.
  { intros p. unfold wrap_passphrase.
    eapply triple_bind; [apply triple_try, (triple_pure _ _ _ PassphraseProviderBinding_wf)|].
    - auto with keeps typeclass_instances.
    - intros w b w' Hrun. by eapply passphrase_wrap_wf.
    - intros b Hb. triple_step. by apply PassphraseProviderBinding_json_ok. }
  assert (triple (wrap_tpm2 dev vid rk) (λ j, json_ok j = true)) as Ht.
  { unfold wrap_tpm2. eapply triple_bind; [apply triple_try, triple_same_db;
      auto with keeps typeclass_instances|]. intros b _. triple_step. }
  assert (triple (wrap_tpm2_esapi dev vid rk) (λ j, json_ok j = true)) as He.
  { unfold wrap_tpm2_esapi. eapply triple_bind; [apply triple_try, triple_same_db;
      auto with keeps typeclass_instances|]. intros b _. triple_step. }
  assert (triple (wrap_system_fingerprint vid rk) (λ j, json_ok j = true)) as Hs.
  { unfold wrap_system_fingerprint.
    eapply triple_bind; [apply triple_try, (triple_pure _ _ _ SystemFingerprintProviderBinding_wf)|].
    - auto with keeps typeclass_instances.
    - intros w b w' Hrun. by eapply system_wrap_wf.
    - intros b Hb. triple_step. by apply SystemFingerprintProviderBinding_json_ok. }
  unfold wrap_with. repeat (triple_step; try done; auto).
Qed.

(** ** Before the first write

    An operation unlocks the vault it finds: until its first write the tables are those it
    started on, [d0]. *)

Context (d0 : Db).
Hypothesis Hrep0 : represents d0 v0.
Hypothesis Hinv0 : vault_inv kh v0.

Definition starts {E A} (m : ST World E A) (Q : A → Prop) : Prop :=
  ∀ w, db w = d0 → inv kh v0 (m w).2 ∧ ∀ a, (m w).1 = Ok a → Q a.

Lemma inv_start w : db w = d0 → inv kh v0 w.
Proof. intros <-. by exists v0. Qed.

Lemma starts_triple {E A} (m : ST World E A) Q : triple m Q → starts m Q.
Proof. intros Hm w Hw. by apply Hm, inv_start. Qed.

Lemma starts_bind {E A B} (m : ST World E A) (f : A → ST World E B) Q Q' :
  starts m Q → (∀ a, Q a → triple (f a) Q') → starts (m ≫= f) Q'.
Proof.
  intros Hm Hf w Hw. destruct (Hm w Hw) as [Hi Hr]. unfold mbind, st_bind.
  destruct (m w) as [[a|e|] w1]; simpl in *; [|by split..]. apply Hf; auto.
Qed.

(** A read-only step leaves the rest on the same tables. *)
Lemma starts_read {E A B} (m : ST World E A) (f : A → ST World E B) Q Q' :
  keeps same_db m → starts m Q → (∀ a, Q a → starts (f a) Q') → starts (m ≫= f) Q'.
Proof.
  intros Hk Hm Hf w Hw. destruct (Hm w Hw) as [Hi Hr]. destruct (Hk w) as [Hd _].
  unfold mbind, st_bind. destruct (m w) as [[a|e|] w1]; simpl in *; [|by split..].
  apply Hf; [auto|congruence].
Qed.

(** The passphrase opens the vault under the hierarchy the audit log is sealed with. *)
Definition unlock_sound (p : option string) : Prop :=
  ∀ w h k w', db w = d0 → unlock p w = (Ok (h, k), w') → kh_root_key k = kh_root_key kh.

Lemma unlock_starts p :
  unlock_sound p → starts (unlock p) (λ hk, own_header hk.1 ∧ hk.2 = kh).
Proof.
  intros Hp w Hw. split.
  - destruct (keeps_unlock same_db p w) as [Hd _]. apply inv_start. congruence.
  - intros [h k] Hr. destruct (unlock p w) as [r w'] eqn:Hrun. simpl in Hr. subst r.
    pose proof (Hp _ _ _ _ Hw Hrun) as Hk. apply unlock_ok_inv in Hrun as (w1 & Hl & Heq).
    apply inv_header in Hl as Hown; [|by apply inv_start]. split; [done|]. cbn [fst snd].
    destruct Hown as (_ & Hid & _). rewrite Heq, Hk, Hid. by destruct kh.
Qed.

Lemma unlocked_bind {A} p (f : VaultHeader * KeyHierarchy → ST World VaultError A) Q :
  unlock_sound p → (∀ h, own_header h → triple (f (h, kh)) Q) → starts (unlock p ≫= f) Q.
Proof.
  intros Hp Hf. eapply starts_bind; [by apply unlock_starts|].
  intros [h k] [Hh Hk]. simpl in *. subst k. by apply Hf.
Qed.

(** ** The operations *)

Ltac u64 := unfold SecretRecord_wf, i64_max, u64_max, u32_max in *; lia.
Hint Extern 2 (VaultLogic.triple _ _ (append_audit _ _ _ _ _ _) _) => apply t_append; metadata : triple.
Hint Extern 2 (VaultLogic.triple _ _ (encrypt_version _ _ _ _ _ _) _) => apply t_encrypt; u64 : triple.
Hint Extern 2 (VaultLogic.triple _ _ (set_metadata _ _) _) => by apply t_set_metadata : triple.
Hint Resolve t_next_version t_save_fingerprint t_update_status t_totp_enrolled t_active_policy
  t_ensure_current t_vault_load_ticket t_find_job t_transition t_wrap_with set_status_wf : triple.
Ltac unlocked Hp h Hh := apply unlocked_bind; [exact Hp|]; intros h Hh; cbn beta iota.
Ltac triple_auto := repeat triple_step.

Lemma put_starts s pt p t : unlock_sound (Some p) → starts (put_secret s pt p t) (λ _, True).
Proof. intros Hp. unfold put_secret. unlocked Hp h Hh. triple_auto. Qed.

Lemma get_starts s p : unlock_sound (Some p) → starts (get_secret s p) (λ _, True).
Proof. intros Hp. unfold get_secret. unlocked Hp h Hh. triple_auto. Qed.

Lemma status_starts st ty sev s p :
  unlock_sound (Some p) → starts (set_secret_status st ty sev s p) (λ _, True).
Proof. intros Hp. unfold set_secret_status. unlocked Hp h Hh. triple_auto. Qed.

Lemma enroll_starts p i a : unlock_sound (Some p) → starts (enroll_totp_mfa p i a) (λ _, True).
Proof.
  intros Hp. unfold enroll_totp_mfa. unlocked Hp h Hh.
  eapply triple_bind.
  { apply (triple_pure _ _ _ (λ c, totp_digits c = 6 ∧ totp_period_seconds c = 30)).
    - unfold new_totp_config. keeps_auto.
    - unfold new_totp_config. intros w c w' Hrun.
      apply st_bind_ok_inv in Hrun as (? & ? & _ & Hrun). by injection Hrun as <- _. }
  intros c [Hd Hs]. rewrite Hd, Hs. triple_auto.
Qed.

Lemma verify_totp_starts p c : unlock_sound (Some p) → starts (verify_totp_mfa p c) (λ _, True).
Proof. intros Hp. unfold verify_totp_mfa. unlocked Hp h Hh. triple_auto. Qed.

Lemma export_starts p e a :
  unlock_sound (Some p) → starts (set_plaintext_export_enabled p e a) (λ _, True).
Proof. intros Hp. unfold set_plaintext_export_enabled. unlocked Hp h Hh. triple_auto. Qed.

Lemma verify_audit_starts p : unlock_sound (Some p) → starts (verify_audit p) (λ _, True).
Proof. intros Hp. unfold verify_audit. unlocked Hp h Hh. triple_auto. Qed.

Lemma save_policy_starts q p :
  unlock_sound (Some p) → AccessPolicy_wf q → starts (LocalVault_save_policy q p) (λ _, True).
Proof. intros Hp Hq. unfold LocalVault_save_policy. unlocked Hp h Hh. triple_auto. Qed.

(** *** Tickets *)

Lemma t_issue_denied h r l why :
  forallb (λ kv, json_ok kv.2) l = true →
  triple (issue_denied h kh r l why) (λ _, True).
Proof.
  intros Hl. unfold issue_denied.
  eapply triple_bind; [apply t_append, metadata_ok|intros _ _; triple_step].
  rewrite !forallb_app, Hl. done.
Qed.
Hint Extern 2 (VaultLogic.triple _ _ (issue_denied _ _ _ _ _) _) =>
  apply t_issue_denied; done : triple.

Lemma t_issue {E} k vid sid v r p ph s :
  0 <= v <= u64_max → AccessRequest_wf r → AccessPolicy_wf p →
  triple (issue (E:=E) k vid sid v r p ph s) SecretAccessTicket_wf.
Proof.
  intros Hv Hr Hp. apply triple_pure; [auto with keeps typeclass_instances|].
  intros w t w' Hrun. by eapply issue_ok_inv.
Qed.

Lemma t_evaluated policies r p :
  Forall AccessPolicy_wf policies → policy (evaluate policies r) = Some p → AccessPolicy_wf p.
Proof.
  intros Hf Hp. apply evaluate_policy_some in Hp as (_ & Hin & _).
  by eapply Forall_forall in Hf.
Qed.

Lemma issue_starts r p :
  unlock_sound (Some p) → AccessRequest_wf r → starts (issue_ticket r p) (λ _, True).
Proof.
  intros Hp Hr. unfold issue_ticket. unlocked Hp h Hh. do 3 triple_step.
  destruct (policy _) as [q|] eqn:Hq; [|by triple_step].
  destruct (negb _) eqn:?; [by triple_step|]. do 3 triple_step.
  eapply triple_bind; [apply t_issue; [done|done|by eapply t_evaluated]|intros t Ht].
  triple_auto.
Qed.

Lemma validate_reads id r p : keeps same_db (validate_ticket id r p).
Proof.
  unfold validate_ticket, LocalVault_load_ticket, active_policy_for_ticket,
    ensure_ticket_secret_is_current, load_ticket, list_policies.
  keeps_auto.
Qed.

Lemma validate_starts id r p :
  unlock_sound (Some p) →
  starts (validate_ticket id r p) (λ t, SecretAccessTicket_wf t ∧ tk_ticket_id t = id).
Proof. intros Hp. unfold validate_ticket. unlocked Hp h Hh. triple_auto. Qed.

Lemma renew_starts id r p :
  unlock_sound (Some p) → AccessRequest_wf r → starts (renew_ticket id r p) (λ _, True).
Proof.
  intros Hp Hr. unfold renew_ticket.
  eapply starts_read; [apply keeps_unlock, _|by apply unlock_starts|].
  intros [h k] [Hh Hk]. simpl in *. subst k.
  eapply starts_bind; [by apply validate_starts|]. intros old [Hold _]. destruct Hold.
  do 3 triple_step.
  eapply triple_bind; [apply t_issue; done|intros t Ht].
  eapply triple_bind; [apply triple_lift|]. intros rev Hrev. unfold res_try in Hrev.
  destruct (revoke _ _) as [rev'|e|] eqn:Hrv; [|done..]. injection Hrev as <-.
  apply revoke_ok_inv in Hrv as (Hwf & _); [|done]. triple_auto.
Qed.

Lemma enforce_read b : starts (enforce_plaintext_export_allowed b) (λ _, True).
Proof.
  intros w Hw. split; [|done]. destruct (keeps_enforce same_db b w) as [Hd _].
  apply inv_start. congruence.
Qed.

Lemma res_try_ok {E F A} `{From E F} (r : res E A) a : res_try (F:=F) r = Ok a → r = Ok a.
Proof. destruct r; simpl; congruence. Qed.

Lemma consume_starts id r p :
  unlock_sound (Some p) → starts (consume_ticket_for_secret id r p) (λ _, True).
Proof.
  intros Hp. unfold consume_ticket_for_secret.
  eapply starts_read with (Q := λ _, True).
  { destruct (req_raw_export_requested r); [apply keeps_enforce, _|apply keeps_ret, _]. }
  { destruct (req_raw_export_requested r); [apply enforce_read|].
    apply starts_triple. by triple_step. }
  intros _ _. unlocked Hp h Hh. do 3 triple_step.
  eapply triple_bind; [apply triple_lift|]. intros upd Hupd%res_try_ok.
  apply consume_ok_inv in Hupd as (_ & Hwf & Hid & _); [|done]. triple_auto.
Qed.

Lemma revoke_starts id p : unlock_sound (Some p) → starts (revoke_ticket id p) (λ _, True).
Proof.
  intros Hp. unfold revoke_ticket. unlocked Hp h Hh. do 2 triple_step.
  eapply triple_bind; [apply triple_lift|]. intros rev Hrev%res_try_ok.
  apply revoke_ok_inv in Hrev as (Hwf & _); [|done]. triple_auto.
Qed.

Lemma t_revoke_each k l n :
  Forall SecretAccessTicket_wf l → 0 <= n →
  triple (revoke_each k l n) (λ m, 0 <= m <= n + Z.of_nat (length l)).
Proof.
  revert n. induction l as [|t l IH]; intros n Hl Hn; simpl; [triple_step; lia|].
  apply Forall_cons in Hl as [Ht Hl]. destruct (tk_revoked t).
  - eapply triple_conseq; [by apply IH|simpl; lia].
  - eapply triple_bind; [apply triple_lift|]. intros rev Hrev%res_try_ok.
    apply revoke_ok_inv in Hrev as (Hwf & _); [|done]. triple_step.
    eapply triple_conseq; [apply IH; [done|lia]|simpl; lia].
Qed.

Lemma list_tickets_starts :
  starts (try_ list_tickets : ST World VaultError _)
    (λ l, Forall SecretAccessTicket_wf l ∧ length l = length (v_tickets v0)).
Proof.
  intros w Hw. destruct (triple_try kh v0 (E:=VaultError) _ _ t_list_tickets w (inv_start _ Hw))
    as [Hi Hr]. split; [done|]. intros l Hl. split; [auto|].
  destruct (try_ list_tickets w) as [r w'] eqn:Hrun. simpl in Hl. subst r.
  apply try_ok_inv in Hrun. change list_tickets with (exec ListTickets) in Hrun.
  destruct (store_fault (tick w)) as [f|] eqn:Hf; [by rewrite (exec_fault _ _ f Hf) in Hrun|].
  subst d0. destruct (exec_refines ListTickets w v0 Hrep0 I Hf) as (d' & Heq & _).
  rewrite Heq in Hrun. injection Hrun as <- _. apply length_fmap.
Qed.

Lemma revoke_all_starts p why :
  unlock_sound (Some p) → Z.of_nat (length (v_tickets v0)) <= u64_max →
  starts (revoke_all_tickets p why) (λ _, True).
Proof.
  intros Hp Hn. unfold revoke_all_tickets.
  eapply starts_read; [apply keeps_unlock, _|by apply unlock_starts|].
  intros [h k] [Hh Hk]. simpl in Hh, Hk. subst k. cbn beta iota.
  eapply starts_read with (Q := λ _, True); [apply keeps_lift, _|by apply starts_triple; triple_step|].
  intros key _. eapply starts_bind; [apply list_tickets_starts|]. intros l [Hl Hlen].
  eapply triple_bind; [by apply t_revoke_each|]. intros n Hcount. cbn beta in Hcount.
  triple_auto.
Qed.

(** *** Rotation *)

Lemma t_create vid s n r :
  0 <= n <= u64_max → SecretRecord_wf r →
  triple (RotationJob_create (E:=VaultError) vid s n r) RotationJob_wf.
Proof.
  intros Hn Hr. apply triple_pure.
  - unfold RotationJob_create. keeps_auto.
  - unfold RotationJob_create. intros w j w' Hrun.
    repeat (apply st_bind_ok_inv in Hrun as (? & ? & _ & Hrun)). by injection Hrun as <- _.
Qed.

Lemma start_starts s pt p t :
  unlock_sound (Some p) → starts (start_rotation s pt p t) (λ _, True).
Proof.
  intros Hp. unfold start_rotation. unlocked Hp h Hh. do 2 triple_step.
  eapply triple_bind; [apply t_create; [u64|by apply set_status_wf]|intros j Hj].
  triple_auto.
Qed.

Lemma verify_rotation_starts id p :
  unlock_sound (Some p) → starts (verify_rotation id p) (λ _, True).
Proof. intros Hp. unfold verify_rotation. unlocked Hp h Hh. triple_auto. Qed.

Lemma promote_starts id p :
  unlock_sound (Some p) → starts (promote_rotation id p) (λ _, True).
Proof.
  intros Hp. unfold promote_rotation. unlocked Hp h Hh. triple_step.
  match goal with Hj : RotationJob_wf _ |- _ => pose proof (wf_staged_record _ Hj) end.
  triple_auto.
Qed.

Lemma rollback_starts id p :
  unlock_sound (Some p) → starts (rollback_rotation id p) (λ _, True).
Proof. intros Hp. unfold rollback_rotation. unlocked Hp h Hh. triple_auto. Qed.

(** *** Rewrapping and recovery *)

Lemma with_binding_own b h :
  own_header h → json_ok b = true →
  VaultHeader_wf (with_binding b h) ∧
  ∀ h0, v_header v0 = Some h0 → same_identity h0 (with_binding b h).
Proof. intros ([] & _ & Hs) Hb. split; [by split|]. intros h0 Hh0. by apply Hs. Qed.

Lemma rewrap_starts cp np nps dev :
  unlock_sound cp → starts (rewrap_provider cp np nps dev) (λ _, True).
Proof.
  intros Hp. unfold rewrap_provider. unlocked Hp h Hh. triple_step.
  match goal with Hb : json_ok ?b = true |- _ =>
    destruct (with_binding_own b h Hh Hb) as [Hw Hs] end. triple_auto.
Qed.

Lemma create_package_starts p rs :
  unlock_sound p → starts (create_recovery_package p rs) (λ _, True).
Proof.
  intros Hp. unfold create_recovery_package. unlocked Hp h Hh.
  eapply triple_bind; [apply triple_try, triple_same_db; auto with keeps typeclass_instances|].
  intros pkg _. triple_auto.
Qed.

Lemma recover_starts pkg rs np nps dev :
  (∀ rk, RecoveryManager_unwrap_root_key pkg rs = Ok rk → rk = kh_root_key kh) →
  starts (recover_provider_from_package pkg rs np nps dev) (λ _, True).
Proof.
  intros Hp. unfold recover_provider_from_package. apply starts_triple.
  eapply triple_bind; [apply triple_try, t_load_header|intros h Hh]. triple_step.
  eapply triple_bind; [apply triple_lift|intros rk ->%res_try_ok%Hp].
  eapply triple_bind; [apply triple_lift|intros keys Hk%res_try_ok].
  assert (keys = kh) as ->.
  { unfold KeyHierarchy_new in Hk. case_decide; [|done]. injection Hk as <-.
    destruct Hh as (_ & -> & _). by destruct kh. }
  triple_step.
  match goal with Hb : json_ok ?b = true |- _ =>
    destruct (with_binding_own b h Hh Hb) as [Hw Hs] end. triple_auto.
Qed.

(** A package of this vault may hold another root key: nothing compares it with the vault's. The
    header is then bound to that key, and the audit trail goes on under it. *)
Definition sealed_under (rk : bytes) (l l' : list AuditEvent) : Prop :=
  ∃ e, l' = l ++ [e] ∧
    event_seal (audit_key {| kh_vault_id := kh_vault_id kh; kh_root_key := rk |}) e.

Definition rebound pkg rk (d : Db) : Prop :=
  ∃ v, represents d v ∧ grows v0 v ∧
    (vault_inv kh v ∨ pkg_vault_id pkg = kh_vault_id kh ∧ sealed_under rk (v_audit v0) (v_audit v)).
Lemma inv_rebound pkg rk w : inv kh v0 w → rebound pkg rk (db w).
Proof. intros (v & ? & ? & ?). exists v. by split_and!; [| |left]. Qed.

Lemma update_header_ok_inv h w v w' :
  represents (db w) v → VaultHeader_wf h → update_header h w = (Ok tt, w') →
  represents (db w') (with_header (Some h) v).
Proof.
  intros Hrep Hwf Hrun. change update_header with (λ h, exec (UpdateHeader h)) in Hrun. cbv beta in Hrun.
  destruct (store_fault (tick w)) as [f|] eqn:Hf; [by rewrite (exec_fault _ _ f Hf) in Hrun|].
  destruct (exec_refines (UpdateHeader h) w v Hrep Hwf Hf) as (d' & He & Hd'). rewrite He in Hrun.
  cbn [spec] in *. by destruct (v_header v); simplify_eq/=.
Qed.

Lemma append_rebinds pkg header rk ty sev dec md w h :
  json_ok (JObj md) = true → pkg_vault_id pkg = kh_vault_id kh →
  (∀ h0, v_header v0 = Some h0 → same_identity h0 h) →
  represents (db w) (with_header (Some h) v0) → inv kh v0 w →
  rebound pkg rk (db (append_audit header {| kh_vault_id := kh_vault_id kh; kh_root_key := rk |}
    ty sev dec md w).2).
Proof.
  intros Hmd Hid Hs Hrep Hi.
  destruct (append_cases header {| kh_vault_id := kh_vault_id kh; kh_root_key := rk |} ty sev dec md w _ Hrep Hmd)
    as [(err & w' & -> & Hd & _)|(e & -> & Hwe & Hseal & _)].
  - cbn [snd]. rewrite Hd. by apply inv_rebound.
  - exists (with_audit (v_audit v0 ++ [e]) (with_header (Some h) v0)).
    split; [by apply (rep_audit _ _ Hrep)|]. split; [|right; split; [done|]; by exists e].
    split; simpl; try by intros ? ?.
    + by apply prefix_app_r.
    + intros h0 Hh0. exists h. auto.
Qed.

Lemma keeps_wrap_with np pass dev vid rk : keeps same_db (wrap_with np pass dev vid rk).
Proof.
  unfold wrap_with, wrap_passphrase, wrap_tpm2, wrap_tpm2_esapi, wrap_system_fingerprint. keeps_auto.
Qed.

Lemma recover_rebinds pkg rs np nps dev rk w :
  RecoveryManager_unwrap_root_key pkg rs = Ok rk → db w = d0 →
  rebound pkg rk (db (recover_provider_from_package pkg rs np nps dev w).2).
Proof.
  intros Hrk Hw.
  assert (∀ w, db w = d0 → rebound pkg rk (db w)) as Hsame by (intros w' Hw'; by apply inv_rebound, inv_start).
  unfold recover_provider_from_package. unfold mbind at 1, st_bind at 1, try_ at 1.
  destruct (t_load_header w (inv_start w Hw)) as [_ Hown]. destruct (keeps_load_header same_db w) as [Hd1 _].
  destruct (load_header w) as [[h|e|] w1]; [|apply Hsame; by rewrite <-Hw..].
  specialize (Hown h eq_refl). cbn [snd] in Hd1. rewrite Hw in Hd1. unfold mbind at 1, st_bind at 1, guard_.
  destruct (String.eqb_spec (pkg_vault_id pkg) (hd_vault_id h)) as [Hid|]; [|by apply Hsame].
  rewrite (proj1 (proj2 Hown)) in Hid. cbn [negb]. unfold throw, mret, st_ret. rewrite Hrk.
  unfold mbind at 1, st_bind at 1, lift at 1, res_try at 1.
  destruct (KeyHierarchy_new (hd_vault_id h) rk) as [keys|e|] eqn:Hk; [|by apply Hsame..].
  unfold mbind at 1, st_bind at 1, lift at 1, res_try at 1. unfold mbind at 1, st_bind at 1.
  destruct (t_wrap_with np nps dev (hd_vault_id h) rk w1 (inv_start w1 Hd1)) as [_ Hb].
  destruct (keeps_wrap_with np nps dev (hd_vault_id h) rk w1) as [Hd2 _].
  destruct (wrap_with np nps dev (hd_vault_id h) rk w1) as [[b|e|] w2]; cbn [snd] in Hd2; rewrite Hd1 in Hd2;
    [|by apply Hsame..].
  destruct (with_binding_own b h Hown (Hb b eq_refl)) as [Hwf Hs].
  assert (keys = {| kh_vault_id := kh_vault_id kh; kh_root_key := rk |}) as ->.
  { unfold KeyHierarchy_new in Hk. case_decide; [|done]. injection Hk as <-. by rewrite (proj1 (proj2 Hown)). }
  destruct (t_update_header (with_binding b h) Hwf Hs w2 (inv_start w2 Hd2)) as [Hi _].
  unfold mbind at 1, st_bind at 1, try_ at 1.
  destruct (update_header (with_binding b h) w2) as [[[]|e|] w3] eqn:Hu; cbn [snd] in Hi |- *;
    [|by apply inv_rebound..].
  apply (update_header_ok_inv _ _ v0) in Hu as Hrep; [|by rewrite Hd2|done].
  match goal with |- context [append_audit ?hd ?k ?ty ?sev ?dec ?md] =>
    pose proof (append_rebinds pkg hd rk ty sev dec md w3 (with_binding b h) ltac:(metadata) Hid Hs Hrep Hi) as Ha;
    unfold mbind, st_bind; destruct (append_audit hd k ty sev dec md w3) as [[] w4] end; exact Ha.
Qed.
End ops.

(** ** Every operation of the vault *)

Inductive vault_op : Type :=
| Put (secret_ref : string) (plaintext : bytes) (passphrase : string) (secret_type : SecretType)
| Get (secret_ref passphrase : string)
| Disable (secret_ref passphrase : string)
| Destroy (secret_ref passphrase : string)
| EnrollTotp (passphrase issuer account : string)
| VerifyTotp (passphrase code : string)
| SetExport (passphrase : string) (enabled allow_without_mfa : bool)
| VerifyAudit (passphrase : string)
| Save (p : AccessPolicy) (passphrase : string)
| Issue (request : AccessRequest) (passphrase : string)
| Validate (ticket_id : string) (request : AccessRequest) (passphrase : string)
| Renew (ticket_id : string) (request : AccessRequest) (passphrase : string)
| Consume (ticket_id : string) (request : AccessRequest) (passphrase : string)
| Revoke (ticket_id passphrase : string)
| RevokeAll (passphrase why : string)
| StartRotation (secret_ref : string) (plaintext : bytes) (passphrase : string) (t : SecretType)
| VerifyRotation (id passphrase : string)
| PromoteRotation (id passphrase : string)
| RollbackRotation (id passphrase : string)
| Rewrap (passphrase : option string) (provider : string) (new : option string) (device : string)
| CreatePackage (passphrase : option string) (recovery_secret : string)
| Recover (package : RecoveryPackage) (recovery_secret provider : string) (new : option string)
    (device : string).

Definition done_ {A} (m : ST World VaultError A) : ST World VaultError unit := _ ← m; mret tt.

Definition run_op `{Ext} (o : vault_op) : ST World VaultError unit :=
  match o with
  | Put s pt p t => done_ (put_secret s pt p t)
  | Get s p => done_ (get_secret s p)
  | Disable s p => done_ (disable_secret s p)
  | Destroy s p => done_ (destroy_secret s p)
  | EnrollTotp p i a => done_ (enroll_totp_mfa p i a)
  | VerifyTotp p c => verify_totp_mfa p c
  | SetExport p e a => set_plaintext_export_enabled p e a
  | VerifyAudit p => verify_audit p
  | Save q p => done_ (LocalVault_save_policy q p)
  | Issue r p => done_ (issue_ticket r p)
  | Validate id r p => done_ (validate_ticket id r p)
  | Renew id r p => done_ (renew_ticket id r p)
  | Consume id r p => done_ (consume_ticket_for_secret id r p)
  | Revoke id p => done_ (revoke_ticket id p)
  | RevokeAll p why => done_ (revoke_all_tickets p why)
  | StartRotation s pt p t => done_ (start_rotation s pt p t)
  | VerifyRotation id p => done_ (verify_rotation id p)
  | PromoteRotation id p => done_ (promote_rotation id p)
  | RollbackRotation id p => done_ (rollback_rotation id p)
  | Rewrap p np nps dev => done_ (rewrap_provider p np nps dev)
  | CreatePackage p s => done_ (create_recovery_package p s)
  | Recover pkg s np nps dev => done_ (recover_provider_from_package pkg s np nps dev)
  end.

(** The passphrase an operation unlocks the vault with; recovery has its package. *)
Definition op_passphrase (o : vault_op) : option string :=
  match o with
  | Put _ _ p _ | Get _ p | Disable _ p | Destroy _ p | EnrollTotp p _ _ | VerifyTotp p _
  | SetExport p _ _ | VerifyAudit p | Save _ p | Issue _ p | Validate _ _ p | Renew _ _ p
  | Consume _ _ p | Revoke _ p | RevokeAll p _ | StartRotation _ _ p _ | VerifyRotation _ p
  | PromoteRotation _ p | RollbackRotation _ p => Some p
  | Rewrap p _ _ _ | CreatePackage p _ => p
  | Recover _ _ _ _ _ => None
  end.

(** The arguments are values of the Rust types, and the pass phrase, if it unlocks the vault, opens
    the root key the vault's audit log is sealed with.  Of a recovery package nothing is said. *)
Definition op_args `{Ext} (kh : KeyHierarchy) (v : View) (d : Db) (o : vault_op) : Prop :=
  match o with
  | Recover _ _ _ _ _ => True
  | _ => unlock_sound kh d (op_passphrase o)
  end ∧
  match o with
  | Save q _ => AccessPolicy_wf q
  | Issue r _ | Renew _ r _ => AccessRequest_wf r
  | RevokeAll _ _ => Z.of_nat (length (v_tickets v)) <= u64_max
  | _ => True
  end.
(** A recovery package, if its secret opens it, holds the vault's own root key. *)
Definition own_package `{Ext} (kh : KeyHierarchy) (o : vault_op) : Prop :=
  match o with
  | Recover pkg s _ _ _ => ∀ rk, RecoveryManager_unwrap_root_key pkg s = Ok rk → rk = kh_root_key kh
  | _ => True
  end.
(** Both: what is asked of the operations the other programs run. *)
Definition op_ok `{Ext} (kh : KeyHierarchy) (v : View) (d : Db) (o : vault_op) : Prop :=
  op_args kh v d o ∧ own_package kh o.

Section all_ops.
Context {X : Ext} {HC : CodecLaws} {HT : ChronoLaws} {HH : HashLaws}.

Lemma done_starts {A} kh v0 d0 (m : ST World VaultError A) Q :
  starts kh v0 d0 m Q → starts kh v0 d0 (done_ m) (λ _, True).
Proof. intros Hm. eapply starts_bind; [exact Hm|]. intros a _. by triple_step. Qed.

Lemma run_op_starts kh v0 d0 o :
  represents d0 v0 → vault_inv kh v0 → op_ok kh v0 d0 o → starts kh v0 d0 (run_op o) (λ _, True).
Proof.
  intros Hrep Hinv [[Hp Ha] Hown].
  assert (∃ h0, v_header v0 = Some h0) as H0 by (destruct Hinv as [(h & ? & _) _]; eauto).
  destruct o; simpl in *;
    first [eapply done_starts|idtac];
    eauto using put_starts, get_starts, status_starts, enroll_starts, verify_totp_starts,
      export_starts, verify_audit_starts, save_policy_starts, issue_starts, validate_starts,
      renew_starts, consume_starts, revoke_starts, revoke_all_starts, start_starts,
      verify_rotation_starts, promote_starts, rollback_starts, rewrap_starts,
      create_package_starts, recover_starts.
Qed.

(** An operation under a package of another root key, or one that keeps the vault. *)
Lemma run_op_rebinds kh v0 o w :
  represents (db w) v0 → vault_inv kh v0 → op_args kh v0 (db w) o →
  op_ok kh v0 (db w) o ∨ ∃ pkg s np n dev rk, o = Recover pkg s np n dev ∧
    RecoveryManager_unwrap_root_key pkg s = Ok rk ∧ rk ≠ kh_root_key kh ∧
    rebound kh v0 pkg rk (db (run_op o w).2).
Proof.
  intros Hrep Hinv Hok.
  assert (∃ h0, v_header v0 = Some h0) as H0 by (destruct Hinv as [(h & ? & _) _]; eauto).
  destruct o as [| | | | | | | | | | | | | | | | | | | | |pkg s np n dev]; try (left; exact (conj Hok I)).
  destruct (RecoveryManager_unwrap_root_key pkg s) as [rk|e|] eqn:Hrk;
    [|left; by split; [|intros rk; rewrite Hrk]..].
  destruct (decide (rk = kh_root_key kh)) as [Heq|Hne]; [left; split; [done|]; intros rk'; rewrite Hrk; congruence|].
  right. exists pkg, s, np, n, dev, rk. split_and!; [done..|].
  pose proof (recover_rebinds kh v0 H0 (db w) Hrep Hinv pkg s np n dev rk w Hrk eq_refl) as Hr.
  cbn [run_op]. unfold done_, mbind, st_bind.
  by destruct (recover_provider_from_package pkg s np n dev w) as [[] w'].
Qed.
End all_ops.
