(* ===== verification/VaultRuns.v ===== *)
(** * Runs of vault operations on a store that works (vault.rs)

    Forward reasoning: calls of the store as steps on the view, and the pieces every operation is made of: unlocking under a pass
    phrase, encrypting the next version, appending an audit event.  [ready] is the state of a
    vault between two operations. *)

From S2P Require Export VaultInvariant.
#[local] Open Scope Z_scope.

(** ** Running *)

Definition wp {W E A} (m : ST W E A) (w : W) (Q : res E A → W → Prop) : Prop := Q (m w).1 (m w).2.

Section wp.
Context {W E : Type}.

Lemma wp_bind {A B} (m : ST W E A) (f : A → ST W E B) w Q :
  wp m w (λ r w', match r with
                  | Ok a => wp (f a) w' Q
                  | Err e => Q (Err e) w'
                  | Panic => Q Panic w'
                  end) → wp (m ≫= f) w Q.
Proof. unfold wp, mbind, st_bind. by destruct (m w) as [[] ?]. Qed.

Lemma wp_try {F A} `{From E F} (m : ST W E A) w (Q : res F A → W → Prop) :
  wp m w (λ r w', Q (res_try r) w') → wp (try_ m) w Q.
Proof. unfold wp, try_. by destruct (m w) as [[] ?]. Qed.

Lemma wp_attempt {F A} (m : ST W E A) w (Q : res F (res E A) → W → Prop) :
  wp m w (λ r w', Q (match r with Panic => Panic | _ => Ok r end) w') → wp (attempt m) w Q.
Proof. unfold wp, attempt. by destruct (m w) as [[] ?]. Qed.

Lemma wp_conseq {A} (m : ST W E A) w (Q Q' : res E A → W → Prop) :
  wp m w Q → (∀ r w', Q r w' → Q' r w') → wp m w Q'.
Proof. unfold wp. auto. Qed.

Lemma wp_eq {A} (m m' : ST W E A) w w' Q : m w = m' w' → wp m' w' Q → wp m w Q.
Proof. unfold wp. by intros ->. Qed.

Lemma wp_guard_bind {A} c (e : E) (f : unit → ST W E A) w Q :
  c = false → wp (f tt) w Q → wp (guard_ c e ≫= f) w Q.
Proof. by intros ->. Qed.

Lemma wp_run {A} (m : ST W E A) w (Q : res E A → W → Prop) :
  wp m w Q → ∃ r w', m w = (r, w') ∧ Q r w'.
Proof. unfold wp. destruct (m w) as [r w']. eauto. Qed.
End wp.

(** Events carry the identifiers drawn so far: none of those still to be drawn. *)
Definition numbered `{Ext} (w : World) (v : View) : Prop :=
  Forall (λ e, ∃ i, (i < tick w)%nat ∧ ev_event_id e = uuid_new_v4 i) (v_audit v).

Record live `{Ext} (kh : KeyHierarchy) (w : World) (v : View) : Prop := {
  lv_rep : represents (db w) v;
  lv_inv : vault_inv kh v;
  lv_numbered : numbered w v;
}.

(** The header binds the hierarchy's root key under the pass phrase. *)
Definition opens_header `{Ext} (kh : KeyHierarchy) (p : string) (h : VaultHeader) : Prop :=
  hd_vault_id h = kh_vault_id kh ∧
  ∃ b, hd_provider_binding h = to_value b ∧ PassphraseProviderBinding_wf b ∧
    passphrase_wraps (kh_vault_id kh) (kh_root_key kh) p b.

(** A vault between two operations, opened by the pass phrase [p]. *)
Record ready `{Ext} (kh : KeyHierarchy) (p : string) (w : World) (v : View) : Prop := {
  rd_live : live kh w v;
  rd_opens : ∃ h, v_header v = Some h ∧ opens_header kh p h;
}.

Section runs.
Context {X : Ext} {HC : CodecLaws} {HT : ChronoLaws} {HH : HashLaws} {HA : AeadLaws} {HE : EnvLaws}
  {HN : NoFaults}.
Implicit Types (w : World) (v : View) (kh : KeyHierarchy).

Lemma numbered_le w w' v : numbered w v → (tick w <= tick w')%nat → numbered w' v.
Proof.
  intros Hn Hle. eapply Forall_impl; [exact Hn|]. intros e (i & ? & ?). exists i. split; [lia|done].
Qed.

(** Reads and draws. *)
Lemma live_same kh w w' v : live kh w v → same_db w w' → live kh w' v.
Proof. intros [] [Hd Ht]. split; [by rewrite Hd|done|by eapply numbered_le]. Qed.

Lemma live_spec_same kh w v {A} (c : call A) d' :
  live kh w v → passive v c → represents d' (spec c v).2 →
  live kh {| tick := S (tick w); db := d' |} (spec c v).2.
Proof.
  intros [Hr Hv Hn] Hp Hd. pose proof Hv as [(h & Hh & _) _].
  split; [done|by apply (spec_passive kh v c v); eauto; reflexivity|].
  assert (v_audit (spec c v).2 = v_audit v) as Heq.
  { destruct c; cbn [spec passive] in *; try done; repeat case_match; done. }
  unfold numbered. rewrite Heq. eapply Forall_impl; [exact Hn|].
  intros e (i & ? & ?). exists i. simpl. split; [lia|done].
Qed.

Lemma wp_call kh w v {A} (c : call A) (Q : res StoreError A → World → Prop) :
  live kh w v → call_ok c → passive v c →
  (∀ w', live kh w' (spec c v).2 → (tick w <= tick w')%nat → Q (spec c v).1 w') →
  wp (exec c) w Q.
Proof.
  intros Hl Hok Hp HQ.
  destruct (exec_refines c w v (lv_rep _ _ _ Hl) Hok (no_fault _)) as (d' & Heq & Hd').
  unfold wp. rewrite Heq. apply HQ; [by eapply live_spec_same|simpl; lia].
Qed.
(** A read that draws nothing else. *)
Lemma wp_keeps {E A} (m : ST World E A) w Q :
  keeps same_db m → (∀ r w', m w = (r, w') → same_db w w' → Q r w') → wp m w Q.
Proof.
  intros Hk HQ. specialize (Hk w). unfold wp. destruct (m w) as [r w'] eqn:Hrun. by apply HQ.
Qed.

Lemma binding_provider kh p h b :
  hd_provider_binding h = to_value b → passphrase_wraps (hd_vault_id h) (kh_root_key kh) p b →
  binding_str "provider_id" h = Some PASSPHRASE_PROVIDER_ID.
Proof.
  intros Hb (? & ? & ? & ? & Hid & _). unfold binding_str, get_str. rewrite Hb.
  unfold to_value, PassphraseProviderBinding_serde.
  erewrite jget_obj; [|vm_compute; reflexivity|reflexivity]. simpl. by rewrite Hid.
Qed.

Lemma unlock_opens kh p w v h :
  represents (db w) v → v_header v = Some h → opens_header kh p h →
  ∃ w', unlock (Some p) w = (Ok (h, kh), w') ∧ same_db w w'.
Proof.
  intros Hrep Hh (Hid & b & Hb & Hwf & Hw). rewrite <-Hid in Hw.
  destruct (exec_refines LoadHeader w v Hrep I (no_fault _)) as (d' & Heq & _).
  simpl in Heq. rewrite Hh in Heq.
  assert (∃ w', unlock (Some p) w = (Ok (h, kh), w')) as (w' & Hrun).
  { unfold unlock. erewrite st_bind_ok by (apply try_ok; exact Heq). cbv zeta.
    rewrite (binding_provider kh p h b Hb Hw). cbn [default from_option id].
    change (String.eqb PASSPHRASE_PROVIDER_ID TPM2_PROVIDER_ID) with false.
    change (String.eqb PASSPHRASE_PROVIDER_ID TPM2_ESAPI_PROVIDER_ID) with false.
    change (String.eqb PASSPHRASE_PROVIDER_ID PASSPHRASE_PROVIDER_ID) with true. cbn beta iota.
    unfold binding_of. rewrite Hb, (of_to_value b Hwf).
    cbn [ok_or].
    rewrite st_bind_assoc, st_lift_ok. cbn beta. rewrite st_bind_assoc, st_lift_ok. cbn beta.
    rewrite (wraps_unwraps _ _ _ _ Hw). cbn [res_try]. rewrite st_lift_ok.
    rewrite KeyHierarchy_new_ok by (destruct Hw as (? & ? & ? & ? & ? & ? & ? & ? & ? & ? & _); done).
    cbn [res_try]. rewrite st_lift_ok, Hid. eexists. by destruct kh. }
  exists w'. split; [done|]. pose proof (keeps_unlock same_db (Some p) w) as Hk.
  by rewrite Hrun in Hk.
Qed.

Lemma unlock_ready kh p w v h :
  live kh w v → v_header v = Some h → opens_header kh p h →
  ∃ w', unlock (Some p) w = (Ok (h, kh), w') ∧ same_db w w'.
Proof. intros Hl. apply unlock_opens, Hl. Qed.

(** The pass phrase of a vault unlocks its own root key and nothing else. *)
Lemma ready_sound kh p w v : ready kh p w v → unlock_sound kh (db w) (Some p).
Proof.
  intros [Hl (h & Hh & Ho)] w1 h1 k1 w2 Hdb Hrun.
  destruct (unlock_opens kh p w1 v h) as (w3 & Hu & _); [rewrite Hdb; apply Hl|done..|].
  rewrite Hu in Hrun. by injection Hrun as _ <- _.
Qed.

Lemma wp_unlock kh p w v {A} (f : VaultHeader * KeyHierarchy → ST World VaultError A) Q :
  ready kh p w v →
  (∀ h w', live kh w' v → v_header v = Some h → opens_header kh p h → wp (f (h, kh)) w' Q) →
  wp (unlock (Some p) ≫= f) w Q.
Proof.
  intros [Hl (h & Hh & Ho)] HQ. destruct (unlock_ready kh p w v h Hl Hh Ho) as (w' & Hrun & Hs).
  apply wp_bind. unfold wp at 1. rewrite Hrun. simpl. apply HQ; [|done..]. by eapply live_same.
Qed.

Lemma wp_append kh w v h ty sev dec md (Q : res VaultError AuditEvent → World → Prop) :
  live kh w v → json_ok (JObj md) = true →
  (∀ e w', live kh w' (with_audit (v_audit v ++ [e]) v) → (tick w <= tick w')%nat →
     records_event ty sev dec md e → Q (Ok e) w') →
  wp (append_audit h kh ty sev dec md) w Q.
Proof.
  intros [Hrep [Hh Hch] Hn] Hmd HQ. unfold wp.
  destruct (append_cases h kh ty sev dec md w v Hrep Hmd)
    as [(err & w' & _ & _ & [[f Hf]|Hin])|(e & -> & Hwe & Hseal & Hprev & Hid & He)].
  - pose proof (no_fault (tick w)). congruence.
  - apply list_elem_of_fmap in Hin as (e' & Hu & Hin).
    destruct (proj1 (Forall_forall _ _) Hn _ Hin) as (i & Hi & Hid).
    rewrite <-Hu in Hid. apply uuid_fresh in Hid. lia.
  - apply (HQ e); [|simpl; lia|done]. split; [by apply rep_audit| |].
    + split; [done|]. apply chain_extend; [|done..].
      pose proof (vk_audit _ (rp_ok _ _ Hrep)). by apply Forall_app; auto.
    + apply Forall_app. split.
      * eapply Forall_impl; [exact Hn|]. intros e' (i & ? & ?). exists i. simpl. split; [lia|done].
      * apply Forall_singleton. exists (S (tick w)). simpl. split; [lia|done].
Qed.
(** *** Calls made with [?] *)

Lemma wp_call_bind {B} kh w v {A} (c : call A) a (f : A → ST World VaultError B) Q :
  live kh w v → call_ok c → passive v c → (spec c v).1 = Ok a →
  (∀ w', live kh w' (spec c v).2 → (tick w <= tick w')%nat → wp (f a) w' Q) →
  wp (try_ (exec c) ≫= f) w Q.
Proof.
  intros Hl Hok Hp Ha HQ. apply wp_bind, wp_try. eapply wp_call; [done..|].
  intros w' Hl' Ht. rewrite Ha. simpl. by apply HQ.
Qed.

Lemma wp_lift_bind {E A B} (a : A) (f : A → ST World E B) w Q :
  wp (f a) w Q → wp (lift (Ok a) ≫= f) w Q.
Proof. done. Qed.

Lemma wp_append_bind {B} kh w v h ty sev dec md (f : AuditEvent → ST World VaultError B) Q :
  live kh w v → json_ok (JObj md) = true →
  (∀ e w', live kh w' (with_audit (v_audit v ++ [e]) v) → records_event ty sev dec md e →
     wp (f e) w' Q) →
  wp (append_audit h kh ty sev dec md ≫= f) w Q.
Proof.
  intros Hl Hmd HQ. apply wp_bind. eapply wp_append; [done..|]. intros e w' Hl' _ He. by apply HQ.
Qed.

(** *** Encrypting the next version *)

Definition latest (s : string) (v : View) : Z := default 0 (fst <$> last (versions_of s (v_records v))).

Lemma wp_next_version {B} kh w v s (f : Z → ST World VaultError B) Q :
  live kh w v →
  (∀ w', live kh w' v → wp (f (latest s v + 1)) w' Q) → wp (next_version s ≫= f) w Q.
Proof.
  intros Hl HQ. unfold next_version, wp. rewrite st_bind_assoc.
  apply (wp_call_bind kh w v (LatestVersion s) _ _ _ Hl I I eq_refl).
  intros w' Hl' _. by apply HQ.
Qed.

(** A record of [s] that decrypts to [pt] under [kh], made for the default policy. *)
Record holds_version (kh : KeyHierarchy) (s : string) (n : Z) (pt : bytes) (r : SecretRecord) : Prop := {
  ho_ref : rec_secret_ref r = s;
  ho_version : rec_secret_version r = n;
  ho_active : rec_status r = Active;
  ho_wf : SecretRecord_wf r;
  ho_opens : decrypt_secret kh r = Ok pt;
}.

Lemma wp_encrypt {B} kh w v h s n pt t (f : SecretRecord → ST World VaultError B) Q :
  live kh w v → starts_with s "secret://" = true → 0 <= n <= u64_max →
  (∀ r w', live kh w' v → holds_version kh s n pt r → wp (f r) w' Q) →
  wp (encrypt_version h kh s n pt t ≫= f) w Q.
Proof.
  intros Hl Hs Hn HQ. unfold encrypt_version, secret_id_from_ref. rewrite Hs. cbn [negb].
  unfold wp. rewrite st_bind_assoc, st_lift_ok.
  match goal with |- context [encrypt_secret kh ?ns ?sid s n pt t ?a ?b ?c ?d] =>
    destruct (encrypt_secret_run (E:=VaultError) kh ns sid s n pt t a b c d w Hn)
      as (r & Hrun & Henc & Hact & Hb) end.
  rewrite (st_bind_ok _ _ _ _ _ Hrun). injection Hb as _ _ _ Href Hver _ _ _ _ _.
  apply HQ; [eapply live_same; [done|split; simpl; [done|lia]]|].
  split; try done; [|by apply encrypted_decrypts].
  unfold SecretRecord_wf. by rewrite Hver.
Qed.

Lemma wp_save_fingerprint {B} kh w v s n pt (f : unit → ST World VaultError B) Q :
  live kh w v → n <= i64_max →
  (∀ fp w', live kh w' (with_fingerprints (oput (s, n) fp (v_fingerprints v)) v) →
     wp (f tt) w' Q) →
  wp (save_fingerprint kh s n pt ≫= f) w Q.
Proof.
  intros Hl Hn HQ. unfold save_fingerprint. destruct (redaction_fingerprint_key_ok (E:=VaultError) kh) as [k Hk].
  rewrite Hk. unfold wp. rewrite st_bind_assoc, st_lift_ok.
  set (fp := redaction_fingerprint k pt).
  pose proof (wp_call_bind kh w v (SaveFingerprint s n fp) tt f Q Hl I I) as Hc.
  cbn [spec] in Hc. rewrite (proj2 (Z.leb_le _ _) Hn) in Hc. apply Hc; [done|].
  intros w' Hl' _. by apply (HQ fp).
Qed.

Lemma records_bound v s n r :
  View_ok v → oget (s, n) (v_records v) = Some r → 0 <= n <= i64_max ∧ rec_secret_ref r = s ∧
  rec_secret_version r = n ∧ SecretRecord_wf r.
Proof.
  intros Hok Hr%oget_elem_of. destruct (vk_records _ Hok) as [_ Hf]. rewrite Forall_forall in Hf.
  destruct (Hf _ Hr) as [Heq Hb]. simpl in *. injection Heq as -> ->.
  unfold SecretRecord_wf, i64_max, u64_max in *. repeat split; try done; lia.
Qed.

Lemma latest_bound v s : View_ok v → 0 <= latest s v <= i64_max.
Proof.
  intros Hok. unfold latest. destruct (last _) as [[n r]|] eqn:Hl; simpl; [|unfold i64_max; lia].
  apply last_versions_spec in Hl as [Hr _]; [|apply Hok]. by apply records_bound in Hr as [? _].
Qed.
End runs.
