(* ===== verification/VaultSecrets.v ===== *)
(** * Storing and reading secrets, initialising and rewrapping a vault (vault.rs)

    What the operations of a vault achieve when the store works: a fresh vault opens under its
    pass phrase and no second one can be made over it; what is put is what is read back; a
    disabled secret is refused and the refusal recorded; a rewrapped or recovered vault keeps
    its root key, hence every secret. *)

From S2P Require Export VaultRuns.
From S2P Require Import Toy.
#[local] Open Scope Z_scope.

Section secrets.
Context {X : Ext} {HC : CodecLaws} {HT : ChronoLaws} {HH : HashLaws} {HA : AeadLaws} {HE : EnvLaws}
  {HN : NoFaults}.

(** Only the audit log grew, by one event. *)
Definition audited (ty sev dec : string) (md : omap string json) (v v' : View) : Prop :=
  ∃ e, v' = with_audit (v_audit v ++ [e]) v ∧ records_event ty sev dec md e.

Definition version_metadata (s : string) (n : Z) : list (string * json) :=
  [("secret_ref", JStr s); ("secret_version", ser_u64 n)].

Lemma put_run kh p w v s pt t :
  ready kh p w v → starts_with s "secret://" = true → latest s v < i64_max →
  ∃ w' r fp v', put_secret s pt p t w = (Ok (latest s v + 1), w') ∧ ready kh p w' v' ∧
    holds_version kh s (latest s v + 1) pt r ∧
    audited "secret.stored" "info" "allow"
      (map_from_json (obj (version_metadata s (latest s v + 1))))
      (with_fingerprints (oput (s, latest s v + 1) fp (v_fingerprints v))
        (with_records (oput (s, latest s v + 1) r (v_records v)) v)) v'.
Proof.
  intros Hr Hs Hlt. pose proof (rp_ok _ _ (lv_rep _ _ _ (rd_live _ _ _ _ Hr))) as Hok.
  pose proof (latest_bound v s Hok) as Hb.
  assert (wp (put_secret s pt p t) w (λ r w', ∃ rec fp v', r = Ok (latest s v + 1) ∧
    ready kh p w' v' ∧ holds_version kh s (latest s v + 1) pt rec ∧
    audited "secret.stored" "info" "allow"
      (map_from_json (obj (version_metadata s (latest s v + 1))))
      (with_fingerprints (oput (s, latest s v + 1) fp (v_fingerprints v))
        (with_records (oput (s, latest s v + 1) rec (v_records v)) v)) v')) as Hwp.
  { unfold put_secret. apply (wp_unlock kh p w v); [done|]. intros h w1 Hl1 Hh Ho.
    cbn beta iota. apply (wp_next_version kh w1 v); [done|]. intros w2 Hl2.
    apply (wp_encrypt kh w2 v); [done|done|unfold i64_max, u64_max in *; lia|].
    intros r w3 Hl3 Hhold. destruct Hhold as [Href Hver Hact Hwf Hopen].
    pose proof (wp_call_bind (B:=Z) kh w3 v (SaveSecretRecord r) tt) as Hc.
    cbn [spec call_ok] in Hc. rewrite Hh, Href, Hver in Hc.
    rewrite (proj2 (Z.leb_le _ _)) in Hc by lia.
    apply Hc; [done|done|exact I|done|]. intros w4 Hl4 _.
    apply (wp_save_fingerprint kh w4 _ _ _ _ _ _ Hl4); [lia|]. intros fp w5 Hl5.
    eapply wp_append_bind; [exact Hl5|metadata|]. intros e w6 Hl6 He.
    exists r, fp. eexists. split; [reflexivity|]. split; [|split; [by split|]].
    - split; [exact Hl6|]. exists h. by split.
    - by exists e. }
  apply wp_run in Hwp as (r & w' & Hrun & rec & fp & v' & -> & ?). by exists w', rec, fp, v'.
Qed.

Lemma get_run kh p w v s n r pt :
  ready kh p w v → last (versions_of s (v_records v)) = Some (n, r) →
  rec_status r = Active → decrypt_secret kh r = Ok pt →
  ∃ w' v', get_secret s p w = (Ok pt, w') ∧ ready kh p w' v' ∧
    audited "secret.materialized" "critical" "allow" (map_from_json (obj (version_metadata s n)))
      v v'.
Proof.
  intros Hr Hlast Hact Hopen. pose proof (rp_ok _ _ (lv_rep _ _ _ (rd_live _ _ _ _ Hr))) as Hok.
  apply last_versions_spec in Hlast as Hget; [|apply Hok]. destruct Hget as [Hget _].
  apply records_bound in Hget as (Hn & Href & Hver & Hwf); [|done].
  assert (wp (get_secret s p) w (λ r w', ∃ v', r = Ok pt ∧ ready kh p w' v' ∧
    audited "secret.materialized" "critical" "allow" (map_from_json (obj (version_metadata s n)))
      v v')) as Hwp.
  { unfold get_secret. apply (wp_unlock kh p w v); [done|]. intros h w1 Hl1 Hh Ho. cbn beta iota.
    apply (wp_call_bind kh w1 v (LoadLatestSecret s) r); [done|done|exact I| |].
    { cbn [spec fst]. by rewrite Hlast. }
    intros w2 Hl2 _. rewrite (bool_decide_eq_true_2 _ Hact). cbn [negb]. rewrite Hopen. cbn [res_try].
    apply wp_lift_bind. rewrite Hver. eapply wp_append_bind; [exact Hl2|metadata|].
    intros e w3 Hl3 He. eexists. split; [reflexivity|]. split; [|by exists e].
    split; [exact Hl3|]. exists h. by split. }
  apply wp_run in Hwp as (r' & w' & Hrun & v' & -> & ?). by exists w', v'.
Qed.

(** A secret whose latest version is not active. *)
Lemma get_unavailable kh p w v s n r :
  ready kh p w v → last (versions_of s (v_records v)) = Some (n, r) → rec_status r ≠ Active →
  ∃ w' v' md, get_secret s p w = (Err (SecretUnavailable (status_string (rec_status r))), w') ∧
    ready kh p w' v' ∧ audited "secret.access_denied" "high" "deny" md v v'.
Proof.
  intros Hr Hlast Hact. pose proof (rp_ok _ _ (lv_rep _ _ _ (rd_live _ _ _ _ Hr))) as Hok.
  apply last_versions_spec in Hlast as Hget; [|apply Hok]. destruct Hget as [Hget _].
  apply records_bound in Hget as (Hn & Href & Hver & Hwf); [|done].
  assert (wp (get_secret s p) w (λ r' w', ∃ v' md,
    r' = Err (SecretUnavailable (status_string (rec_status r))) ∧ ready kh p w' v' ∧
    audited "secret.access_denied" "high" "deny" md v v')) as Hwp.
  { unfold get_secret. apply (wp_unlock kh p w v); [done|]. intros h w1 Hl1 Hh Ho. cbn beta iota.
    apply (wp_call_bind kh w1 v (LoadLatestSecret s) r); [done|done|exact I| |].
    { cbn [spec fst]. by rewrite Hlast. }
    intros w2 Hl2 _. rewrite (bool_decide_eq_false_2 _ Hact). cbn [negb].
    rewrite Hver. eapply wp_append_bind; [exact Hl2|metadata|].
    intros e w3 Hl3 He. eexists _, _. split; [reflexivity|]. split; [|by exists e].
    split; [exact Hl3|]. exists h. by split. }
  apply wp_run in Hwp as (r' & w' & Hrun & v' & md & -> & ?). by exists w', v', md.
Qed.
(** Disabling and destroying rewrite the latest version's status. *)
Lemma status_run kh p w v s n r st ty sev :
  ready kh p w v → last (versions_of s (v_records v)) = Some (n, r) →
  ∃ w' v', set_secret_status st ty sev s p w = (Ok (set_status st r), w') ∧ ready kh p w' v' ∧
    audited ty sev "allow" (map_from_json (obj (version_metadata s n)))
      (with_records (oput (s, n) (set_status st r) (v_records v)) v) v'.
Proof.
  intros Hr Hlast. pose proof (rp_ok _ _ (lv_rep _ _ _ (rd_live _ _ _ _ Hr))) as Hok.
  apply last_versions_spec in Hlast as Hget; [|apply Hok]. destruct Hget as [Hget _].
  apply records_bound in Hget as (Hn & Href & Hver & Hwf); [|done].
  assert (wp (set_secret_status st ty sev s p) w (λ r' w', ∃ v',
    r' = Ok (set_status st r) ∧ ready kh p w' v' ∧
    audited ty sev "allow" (map_from_json (obj (version_metadata s n)))
      (with_records (oput (s, n) (set_status st r) (v_records v)) v) v')) as Hwp.
  { unfold set_secret_status. apply (wp_unlock kh p w v); [done|]. intros h w1 Hl1 Hh Ho.
    cbn beta iota. apply wp_bind, wp_try. unfold save_updated_secret_status. apply wp_bind.
    apply (wp_call kh w1 v (LoadLatestSecret s)); [done|done|exact I|]. intros w2 Hl2 _.
    cbn [spec fst]. rewrite Hlast. cbn [ok_or fmap option_fmap option_map snd]. apply wp_bind.
    apply (wp_call kh w2 v (SaveSecretRecord (set_status st r)));
      [done|by apply set_status_wf|exact I|].
    cbn [spec]. rewrite Hh. change (rec_secret_version (set_status st r)) with (rec_secret_version r).
    change (rec_secret_ref (set_status st r)) with (rec_secret_ref r). rewrite Hver, Href.
    rewrite (proj2 (Z.leb_le n i64_max)) by lia. intros w3 Hl3 _. cbn [fst].
    change (wp (append_audit h kh ty sev "allow" (map_from_json (obj
      [("secret_ref", JStr s); ("secret_version", ser_u64 (rec_secret_version r))])) ≫=
      λ _, mret (set_status st r)) w3 (λ r' w', ∃ v',
        r' = Ok (set_status st r) ∧ ready kh p w' v' ∧
        audited ty sev "allow" (map_from_json (obj (version_metadata s n)))
          (with_records (oput (s, n) (set_status st r) (v_records v)) v) v')).
    rewrite Hver. eapply wp_append_bind; [exact Hl3|metadata|]. intros e w4 Hl4 He.
    eexists. split; [reflexivity|]. split; [|by exists e]. split; [exact Hl4|]. exists h. by split. }
  apply wp_run in Hwp as (r' & w' & Hrun & v' & -> & ?). by exists w', v'.
Qed.

(** *** Initialisation *)

(** A store nothing was written to: no header, no event. *)
Definition fresh (v : View) : Prop := v_header v = None ∧ v_audit v = [].

Lemma init_run {HS : ScryptLaws} p ns w v :
  represents (db w) v → fresh v → p ≠ EmptyString →
  ∃ h kh w' v', init p ns w = (Ok h, w') ∧ ready kh p w' v' ∧ v_header v' = Some h ∧
    hd_namespace_id h = ns ∧ hd_vault_id h = uuid_new_v4 (tick w) ∧ kh_vault_id kh = hd_vault_id h ∧
    kh_root_key kh = random_bytes (S (tick w)) KEY_SIZE ∧
    ∃ md, audited "vault.initialized" "info" "allow" md (with_header (Some h) v) v'.
Proof.
  intros Hrep [Hh Ha] Hp. unfold init, init_passphrase, init_with.
  rewrite uuid_bind, random_bind. cbn [tick db].
  set (vid := uuid_new_v4 (tick w)). set (rk := random_bytes (S (tick w)) KEY_SIZE).
  set (w1 := {| tick := S (S (tick w)); db := db w |}).
  destruct (wrap_default_run vid rk p w1 (length_random_bytes _ _) Hp) as (b & w2 & Hw).
  pose proof Hw as (Hwraps & Hps & Hd & Ht)%wrap_ok_inv.
  unfold wrap_passphrase. rewrite st_bind_assoc.
  rewrite (st_bind_ok _ _ _ _ _ (try_ok (F:=VaultError) _ _ _ _ Hw)), st_ret_bind, now_bind.
  cbv zeta. set (w3 := {| tick := S (tick w2); db := db w2 |}).
  set (h := {| hd_schema_version := SCHEMA_VERSION; hd_vault_id := vid; hd_namespace_id := ns;
    hd_provider_binding := to_value b; hd_created_at := utc_millis (utc_now (tick w2)) |}).
  assert (PassphraseProviderBinding_wf b) as Hwf
    by (unfold PassphraseProviderBinding_wf; rewrite Hps; apply ScryptParams_default_wf).
  assert (VaultHeader_wf h) as Hhwf.
  { split; [by vm_compute|by apply PassphraseProviderBinding_json_ok]. }
  destruct (exec_refines (CreateVault h) w3 v) as (d' & Hrun & Hrep');
    [simpl; rewrite Hd; exact Hrep|exact Hhwf|apply no_fault|].
  cbn [spec] in Hrun, Hrep'. rewrite Hh in Hrun, Hrep'. cbn [fst snd exec] in Hrun, Hrep'.
  rewrite (st_bind_ok _ _ _ _ _ (try_ok (F:=VaultError) _ _ _ _ Hrun)).
  rewrite KeyHierarchy_new_ok by apply length_random_bytes. cbn [res_try]. rewrite st_lift_ok.
  set (kh := {| kh_vault_id := vid; kh_root_key := rk |}).
  set (w4 := {| tick := S (tick w3); db := d' |}).
  assert (live kh w4 (with_header (Some h) v)) as Hl.
  { split; [exact Hrep'| |unfold numbered; simpl; by rewrite Ha].
    split; [by exists h|]. simpl. by rewrite Ha. }
  match goal with |- context [append_audit h kh ?ty ?sev ?dec ?md ≫= ?f] =>
    assert (wp (append_audit h kh ty sev dec md ≫= f) w4 (λ r w', ∃ v', r = Ok h ∧
      live kh w' v' ∧ audited ty sev dec md (with_header (Some h) v) v')) as Hwp end.
  { eapply wp_append_bind; [exact Hl|metadata|]. intros e w5 Hl5 He.
    eexists. split; [reflexivity|]. split; [exact Hl5|]. by exists e. }
  apply wp_run in Hwp as (r & w' & Hrun' & v' & -> & Hl' & Hau). rewrite Hrun'.
  exists h, kh, w', v'. split; [done|].
  assert (v_header v' = Some h) as Hh' by (destruct Hau as (e & -> & _); done).
  split; [|by eauto 10]. split; [done|]. exists h. split; [done|]. split; [done|].
  exists b. split; [done|]. by split.
Qed.
(** *** Changing the provider *)

(** Wrapping the hierarchy's root key under a new pass phrase: the new header opens under it. *)
Lemma wp_wrap_passphrase {HS : ScryptLaws} {B} kh w v h p dev
    (f : json → ST World VaultError B) Q :
  live kh w v → hd_vault_id h = kh_vault_id kh → length (kh_root_key kh) = KEY_SIZE →
  p ≠ EmptyString → VaultHeader_wf h →
  (∀ b w', live kh w' v → VaultHeader_wf (with_binding b h) → opens_header kh p (with_binding b h) →
     wp (f b) w' Q) →
  wp (wrap_with "passphrase" (Some p) dev (hd_vault_id h) (kh_root_key kh) ≫= f) w Q.
Proof.
  intros Hl Hid Hlen Hp Hwf HQ.
  change (wrap_with "passphrase" (Some p) dev (hd_vault_id h) (kh_root_key kh)) with
    (lift (ok_or NewPassphraseRequired (Some p)) ≫= λ p : string,
     wrap_passphrase p (hd_vault_id h) (kh_root_key kh)). cbn [ok_or].
  destruct (wrap_default_run (hd_vault_id h) (kh_root_key kh) p w Hlen Hp) as (b & w' & Hw).
  pose proof Hw as (Hwraps & Hps & Hs)%wrap_ok_inv.
  assert (PassphraseProviderBinding_wf b) as Hbwf
    by (unfold PassphraseProviderBinding_wf; rewrite Hps; apply ScryptParams_default_wf).
  unfold wp. rewrite st_bind_assoc, st_lift_ok. unfold wrap_passphrase. rewrite st_bind_assoc.
  rewrite (st_bind_ok _ _ _ _ _ (try_ok (F:=VaultError) _ _ _ _ Hw)), st_ret_bind.
  apply HQ; [by eapply live_same| |].
  - destruct Hwf. split; [done|]. by apply PassphraseProviderBinding_json_ok.
  - split; [done|]. exists b. rewrite <-Hid. split; [done|]. by split.
Qed.

Lemma opens_key_length kh p h : opens_header kh p h → length (kh_root_key kh) = KEY_SIZE.
Proof. by intros (_ & b & _ & _ & ? & ? & ? & ? & _ & _ & _ & _ & _ & ? & _). Qed.

Lemma live_header_wf kh w v h : live kh w v → v_header v = Some h → VaultHeader_wf h.
Proof. intros Hl. apply (vk_header _ (rp_ok _ _ (lv_rep _ _ _ Hl))). Qed.

(** Storing the new header and recording it, as both rewrapping and recovery do. *)
Lemma wp_rebind kh w v h p b ty sev md :
  live kh w v → v_header v = Some h → VaultHeader_wf (with_binding b h) →
  opens_header kh p (with_binding b h) → json_ok (JObj md) = true →
  wp (try_ (update_header (with_binding b h)) ≫= λ _,
      append_audit (with_binding b h) kh ty sev "allow" md ≫= λ _,
      mret (with_binding b h) : ST World VaultError VaultHeader) w
    (λ r w', ∃ v', r = Ok (with_binding b h) ∧ ready kh p w' v' ∧
       audited ty sev "allow" md (with_header (Some (with_binding b h)) v) v').
Proof.
  intros Hl Hh Hwf Ho Hmd.
  apply (wp_call_bind kh w v (UpdateHeader (with_binding b h)) tt); [done|exact Hwf| | |].
  - intros h0 Hh0. rewrite Hh in Hh0. by injection Hh0 as <-.
  - cbn [spec]. by rewrite Hh.
  - cbn [spec]. rewrite Hh. intros w1 Hl1 _. eapply wp_append_bind; [exact Hl1|exact Hmd|].
    intros e w2 Hl2 He. eexists. split; [reflexivity|]. split; [|by exists e].
    split; [exact Hl2|]. by eexists.
Qed.

Lemma rewrap_run {HS : ScryptLaws} kh p w v p' dev :
  ready kh p w v → p' ≠ EmptyString →
  ∃ h b w' v' md, rewrap_provider (Some p) "passphrase" (Some p') dev w =
      (Ok (with_binding b h), w') ∧ v_header v = Some h ∧ ready kh p' w' v' ∧
    audited "provider.rewrapped" "high" "allow" md (with_header (Some (with_binding b h)) v) v'.
Proof.
  intros Hr Hp.
  assert (wp (rewrap_provider (Some p) "passphrase" (Some p') dev) w (λ r w', ∃ h b v' md,
    r = Ok (with_binding b h) ∧ v_header v = Some h ∧ ready kh p' w' v' ∧
    audited "provider.rewrapped" "high" "allow" md (with_header (Some (with_binding b h)) v) v'))
    as Hwp.
  { unfold rewrap_provider. apply (wp_unlock kh p w v); [done|]. intros h w1 Hl1 Hh Ho.
    cbn beta iota. eapply (wp_wrap_passphrase kh w1 v h p'); [done|apply Ho|
      by eapply opens_key_length|done|by eapply live_header_wf|].
    intros b w2 Hl2 Hwf Hob. cbv zeta. eapply wp_conseq.
    - eapply (wp_rebind kh w2 v h p' b); [done..|]. metadata.
    - intros r w' (v' & -> & ? & ?). by eauto 10. }
  apply wp_run in Hwp as (r & w' & Hrun & h & b & v' & md & -> & ?). by eauto 10.
Qed.

(** With the package alone: no pass phrase of the vault. *)
Lemma recover_run {HS : ScryptLaws} kh p w v pkg secret p' dev :
  ready kh p w v → p' ≠ EmptyString →
  pkg_vault_id pkg = kh_vault_id kh → RecoveryManager_unwrap_root_key pkg secret = Ok (kh_root_key kh) →
  ∃ h b w' v' md, recover_provider_from_package pkg secret "passphrase" (Some p') dev w =
      (Ok (with_binding b h), w') ∧ v_header v = Some h ∧ ready kh p' w' v' ∧
    audited "recovery.used" "critical" "allow" md (with_header (Some (with_binding b h)) v) v'.
Proof.
  intros [Hl (h & Hh & Ho)] Hp Hid Hpkg. pose proof (proj1 Ho) as Hvid.
  assert (wp (recover_provider_from_package pkg secret "passphrase" (Some p') dev) w
    (λ r w', ∃ b v' md, r = Ok (with_binding b h) ∧ ready kh p' w' v' ∧
    audited "recovery.used" "critical" "allow" md (with_header (Some (with_binding b h)) v) v'))
    as Hwp.
  { unfold recover_provider_from_package.
    apply (wp_call_bind kh w v LoadHeader h); [done|exact I|exact I|cbn [spec]; by rewrite Hh|].
    cbn [spec snd]. intros w1 Hl1 _. rewrite Hid, Hvid, String.eqb_refl. cbn [negb].
    unfold wp. rewrite st_guard_false, Hpkg. cbn [res_try]. rewrite st_lift_ok.
    rewrite KeyHierarchy_new_ok by (by eapply opens_key_length). cbn [res_try]. rewrite st_lift_ok.
    assert ({| kh_vault_id := kh_vault_id kh; kh_root_key := kh_root_key kh |} = kh) as ->
      by (by destruct kh). rewrite <-Hvid.
    eapply (wp_wrap_passphrase kh w1 v h p'); [done|done|by eapply opens_key_length|done|
      by eapply live_header_wf|].
    intros b w2 Hl2 Hwf Hob. cbv zeta. eapply wp_conseq.
    - eapply (wp_rebind kh w2 v h p' b); [done..|]. metadata.
    - intros r w' (v' & -> & ? & ?). by eauto 10. }
  apply wp_run in Hwp as (r & w' & Hrun & b & v' & md & -> & ?). by eauto 10.
Qed.
Lemma package_op_run {HS : ScryptLaws} kh p w v secret :
  ready kh p w v → secret ≠ EmptyString →
  ∃ pkg w' v' md, create_recovery_package (Some p) secret w = (Ok pkg, w') ∧ ready kh p w' v' ∧
    pkg_vault_id pkg = kh_vault_id kh ∧
    RecoveryManager_unwrap_root_key pkg secret = Ok (kh_root_key kh) ∧
    audited "recovery.package_created" "critical" "allow" md v v'.
Proof.
  intros Hr Hs.
  assert (wp (create_recovery_package (Some p) secret) w (λ r w', ∃ pkg v' md,
    r = Ok pkg ∧ ready kh p w' v' ∧ pkg_vault_id pkg = kh_vault_id kh ∧
    RecoveryManager_unwrap_root_key pkg secret = Ok (kh_root_key kh) ∧
    audited "recovery.package_created" "critical" "allow" md v v')) as Hwp.
  { unfold create_recovery_package. apply (wp_unlock kh p w v); [done|]. intros h w1 Hl1 Hh Ho.
    cbn beta iota. destruct (create_package_run (hd_vault_id h) (kh_root_key kh) secret w1)
      as (pkg & w2 & Hrun & Hd & Hv & _ & Hu); [by eapply opens_key_length|done|].
    pose proof (keeps_create_package same_db (hd_vault_id h) (kh_root_key kh) secret w1) as Hk.
    rewrite Hrun in Hk.
    unfold wp. rewrite (st_bind_ok _ _ _ _ _ (try_ok (F:=VaultError) _ _ _ _ Hrun)).
    eapply (wp_append_bind kh w2 v); [by eapply live_same|metadata|]. intros e w3 Hl3 He.
    exists pkg. eexists _, _. split; [reflexivity|]. split; [|split; [|split; [done|by exists e]]].
    - split; [exact Hl3|]. exists h. by split.
    - rewrite Hv. apply Ho. }
  apply wp_run in Hwp as (r & w' & Hrun & pkg & v' & md & -> & ?). by eauto 10.
Qed.

Lemma verify_audit_run kh p w v :
  ready kh p w v → ∃ w', verify_audit p w = (Ok tt, w') ∧ same_db w w'.
Proof.
  intros Hr.
  assert (wp (verify_audit p) w (λ r w', r = Ok tt)) as Hwp.
  { unfold verify_audit. apply (wp_unlock kh p w v); [done|]. intros h w1 Hl1 Hh Ho.
    apply (wp_call_bind kh w1 v ListAuditEvents (v_audit v)); [done|exact I|exact I|done|].
    intros w2 Hl2 _. cbn [snd]. unfold wp. rewrite audit_key_eq, st_lift_ok.
    pose proof (vi_chain _ _ (lv_inv _ _ _ Hl2)) as Hc. cbn [spec snd] in Hc.
    rewrite Hc. done. }
  apply wp_run in Hwp as (r & w' & Hrun & ->). exists w'. split; [done|].
  assert (keeps same_db (verify_audit p)) as Hk.
  { unfold verify_audit, list_audit_events. keeps_auto. }
  specialize (Hk w). by rewrite Hrun in Hk.
Qed.
End secrets.

(** ** A store is initialised once *)

Inductive initialiser : Type :=
| InitPassphrase (passphrase : string) | InitTpm2 (device : string)
| InitTpm2Esapi (device : string) | InitSystemFingerprint.

Definition run_init `{Ext} (i : initialiser) (ns : string) : ST World VaultError VaultHeader :=
  match i with
  | InitPassphrase p => init_passphrase p ns
  | InitTpm2 device => init_tpm2 ns device
  | InitTpm2Esapi device => init_tpm2_esapi ns device
  | InitSystemFingerprint => init_system_fingerprint ns
  end.

Section once.
Context {X : Ext}.

Lemma create_refused h w :
  is_Some (oget "vault_header" (vault_metadata (db w))) →
  (∃ e, (create_vault h w).1 = Err e) ∧ db (create_vault h w).2 = db w.
Proof.
  intros [x Hx]. unfold create_vault, initialize_schema. rewrite st_bind_assoc, draw_bind.
  destruct (store_fault (tick w)) as [[]|]; [by eauto..|].
  rewrite st_ret_bind, get_db_bind. cbn [db]. unfold metadata_of. rewrite Hx. by eauto.
Qed.

Lemma init_with_refused wrap ns w :
  (∀ vid rk, keeps same_db (wrap vid rk)) →
  is_Some (oget "vault_header" (vault_metadata (db w))) →
  (∀ h, (init_with wrap ns w).1 ≠ Ok h) ∧ db (init_with wrap ns w).2 = db w.
Proof.
  intros Hk Hx. unfold init_with. rewrite uuid_bind, random_bind. cbn [tick db].
  set (w1 := {| tick := S (S (tick w)); db := db w |}).
  match goal with |- context [(?m ≫= ?f) w1] => set (m' := m); set (f' := f) end.
  assert (keeps same_db m') as Hm by apply Hk. specialize (Hm w1) as [Hd _].
  destruct (m' w1) as [[b|e|] w2] eqn:Hrun; simpl in Hd.
  - rewrite (st_bind_ok _ _ _ _ _ Hrun). subst f'. cbn beta. rewrite now_bind. cbv zeta.
    match goal with |- context [(try_ (create_vault ?h) ≫= _) ?w3] =>
      destruct (create_refused h w3) as [(e & He) Hd'] end; [simpl; by rewrite Hd|].
    unfold mbind, st_bind, try_. destruct (create_vault _ _) as [r w3]. simpl in *. subst r.
    split; [done|]. simpl. by rewrite Hd'.
  - rewrite (st_bind_err _ _ _ _ _ Hrun). by split.
  - unfold mbind, st_bind. rewrite Hrun. by split.
Qed.

Lemma run_init_refused i ns w :
  is_Some (oget "vault_header" (vault_metadata (db w))) →
  (∀ h, (run_init i ns w).1 ≠ Ok h) ∧ db (run_init i ns w).2 = db w.
Proof.
  intros Hx. destruct i; apply init_with_refused; try done; intros vid rk.
  - unfold wrap_passphrase. keeps_auto.
  - unfold wrap_tpm2. keeps_auto.
  - unfold wrap_tpm2_esapi. keeps_auto.
  - unfold wrap_system_fingerprint. keeps_auto.
Qed.
End once.

(** ** Properties *)

(** A vault to evaluate on: the first one of an empty store. *)
Definition world0 : World := {| tick := 0; db := empty_db |}.

Lemma represents_empty `{Ext} : represents empty_db empty_view.
Proof. by split. Qed.

Lemma sample_vault : ∃ h kh w v,
  init "correct horse" "prod" world0 = (Ok h, w) ∧ ready kh "correct horse" w v ∧
  v_records v = [] ∧ v_policies v = [] ∧ v_tickets v = [] ∧ v_jobs v = [].
Proof.
  destruct (init_run "correct horse" "prod" world0 empty_view represents_empty)
    as (h & kh & w & v & Hi & Hr & _ & _ & _ & _ & _ & md & e & Hv & _); [done|done|].
  exists h, kh, w, v. subst v. exact (conj Hi (conj Hr (conj eq_refl (conj eq_refl (conj eq_refl eq_refl))))).
Qed.

(** C1: every operation of the vault keeps it well-formed and keeps its history, whatever its
    outcome. From tables that represent a typed view whose audit log verifies, any operation,
    succeeding, denied, failing in the middle or panicking, with any store failure on the way,
    its arguments values of the Rust types and its pass phrase, if it unlocks the vault, opening
    the root key the log is sealed with, leaves tables that represent a typed view again; its audit
    log extends the old one; every secret version, policy, ticket, rotation job and fingerprint
    filed before is still filed; and the vault's identifier, namespace and creation date are the
    same. The log still verifies under the same key, in every case but one: a recovery package with
    this vault's identifier that holds another root key, whose use was sealed under that key. *)
Theorem operations_keep_vault {X : Ext} {HC : CodecLaws} {HT : ChronoLaws} {HH : HashLaws}
    kh v o w :
  represents (db w) v → vault_inv kh v → op_args kh v (db w) o →
  ∃ v', represents (db (run_op o w).2) v' ∧ grows v v' ∧
    (vault_inv kh v' ∨
     ∃ pkg s np n dev rk, o = Recover pkg s np n dev ∧ pkg_vault_id pkg = kh_vault_id kh ∧
       RecoveryManager_unwrap_root_key pkg s = Ok rk ∧ rk ≠ kh_root_key kh ∧
       sealed_under kh rk (v_audit v) (v_audit v')).
Proof.
  intros Hrep Hinv Hargs.
  destruct (run_op_rebinds kh v o w Hrep Hinv Hargs)
    as [Hok|(pkg & s & np & n & dev & rk & -> & Hrk & Hne & v' & Hrep' & Hg & Hlog)].
  - destruct (run_op_starts kh v (db w) o Hrep Hinv Hok w eq_refl) as [(v' & ? & ? & ?) _].
    exists v'. by split_and!; [| |left].
  - exists v'. split; [done|]. split; [done|]. destruct Hlog as [Hv|[Hid Hs]]; [by left|right].
    by exists pkg, s, np, n, dev, rk.
Qed.

Lemma operations_keep_vault_witness : ∃ h w kh v v',
  init "correct horse" "prod" world0 = (Ok h, w) ∧
  let w' := (run_op (RevokeAll "correct horse" "incident") w).2 in
  represents (db w') v' ∧ vault_inv kh v' ∧ grows v v'.
Proof.
  destruct sample_vault as (h & kh & w & v & Hi & Hr & _ & _ & Ht & _).
  destruct (operations_keep_vault kh v (RevokeAll "correct horse" "incident") w)
    as (v' & Hrep & Hg & [Hv|(pkg & s & np & n & dev & rk & Ho & _)]).
  - apply Hr.
  - apply Hr.
  - split; [exact (ready_sound _ _ _ _ Hr)|]. rewrite Ht. vm_compute. discriminate.
  - exists h, w, kh, v, v'. exact (conj Hi (conj Hrep (conj Hv Hg))).
  - discriminate Ho.
Defined.

(** That case is there: the package is one that anybody can make who knows the identifier of the
    vault. Recovery from it succeeds and its pass phrase unlocks the vault; under neither does the
    log verify any more. *)
Definition foreign_package : res RecoveryError RecoveryPackage :=
  (RecoveryManager_create_package
     (match (load_header (init "correct horse" "prod" world0).2).1 with Ok h => hd_vault_id h | _ => "" end)
     (repeat Byte.x07 32) "paper words" world0).1.
Lemma foreign_package_accepted : ∃ pkg, foreign_package = Ok pkg ∧
  let w := (init "correct horse" "prod" world0).2 in
  let recovered := recover_provider_from_package pkg "paper words" "passphrase" (Some "mine") "" w in
  is_ok (verify_audit "correct horse" w).1 = true ∧ is_ok recovered.1 = true ∧
  is_ok (unlock (Some "mine") recovered.2).1 = true ∧ is_ok (verify_audit "mine" recovered.2).1 = false ∧
  is_ok (verify_audit "correct horse" recovered.2).1 = false.
Proof.
  destruct foreign_package as [pkg|e|] eqn:Hp; [|vm_compute in Hp; discriminate Hp..].
  exists pkg. split; [reflexivity|]. vm_compute in Hp. injection Hp as <-. vm_compute. repeat split.
Qed.

(** C14: a fresh store becomes a vault that opens. On a working store with neither header nor audit
    event, initialising under any non-empty pass phrase succeeds; the vault it leaves is
    well-formed, its audit log is the one initialisation event, unlocking with the pass
    phrase yields the new header and a 32-byte root key, and the audit log verifies. *)
Theorem init_then_unlock {X : Ext} {HC : CodecLaws} {HT : ChronoLaws} {HH : HashLaws}
    {HA : AeadLaws} {HE : EnvLaws} {HN : NoFaults} {HS : ScryptLaws} p ns w v :
  represents (db w) v → fresh v → p ≠ EmptyString →
  ∃ h w1 kh w2 w3 v1, init p ns w = (Ok h, w1) ∧ hd_namespace_id h = ns ∧
    represents (db w1) v1 ∧ v_header v1 = Some h ∧ vault_inv kh v1 ∧
    (ev_event_type <$> v_audit v1) = ["vault.initialized"] ∧
    unlock (Some p) w1 = (Ok (h, kh), w2) ∧ length (kh_root_key kh) = KEY_SIZE ∧
    verify_audit p w1 = (Ok tt, w3).
Proof.
  intros Hrep Hf Hp.
  destruct (init_run p ns w v Hrep Hf Hp)
    as (h & kh & w1 & v1 & Hi & Hr & Hh & Hns & _ & _ & _ & md & e & Hv & He).
  pose proof Hr as [Hl (h' & Hh' & Ho)]. rewrite Hh in Hh'. injection Hh' as <-.
  destruct (unlock_ready kh p w1 v1 h Hl Hh Ho) as (w2 & Hu & _).
  destruct (verify_audit_run kh p w1 v1 Hr) as (w3 & Hva & _).
  exists h, w1, kh, w2, w3, v1. split; [done|]. split; [done|]. split; [apply Hl|]. split; [done|].
  split; [apply Hl|]. split; [|split; [done|]; split; [by eapply opens_key_length|done]].
  destruct Hf as [_ Ha]. rewrite Hv. simpl. by rewrite Ha, <-(re_type _ _ _ _ _ He).
Qed.

Lemma init_then_unlock_witness : ∃ h w1 kh w2 w3,
  init "correct horse" "prod" world0 = (Ok h, w1) ∧
  unlock (Some "correct horse") w1 = (Ok (h, kh), w2) ∧
  verify_audit "correct horse" w1 = (Ok tt, w3).
Proof.
  destruct (init_then_unlock "correct horse" "prod" world0 empty_view represents_empty)
    as (h & w1 & kh & w2 & w3 & v1 & Hi & _ & _ & _ & _ & _ & Hu & _ & Hv); [by split|discriminate|].
  exists h, w1, kh, w2, w3. exact (conj Hi (conj Hu Hv)).
Defined.

(** A vault is never initialised over. When the store holds a vault header, every initialiser
    (pass phrase, TPM through tpm2-tools or ESAPI, system fingerprint), with any arguments
    and any failure of the store or the host, returns no header and leaves every table
    untouched. *)
Theorem init_refused {X : Ext} i ns w v h :
  represents (db w) v → v_header v = Some h →
  (∀ h', (run_init i ns w).1 ≠ Ok h') ∧ db (run_init i ns w).2 = db w.
Proof.
  intros Hrep Hh. apply run_init_refused. rewrite (rp_header _ _ Hrep), Hh. by eexists.
Qed.

Lemma init_refused_witness : ∃ h w1,
  init "correct horse" "prod" world0 = (Ok h, w1) ∧
  db (run_init (InitTpm2 "/dev/tpmrm0") "other" w1).2 = db w1.
Proof.
  destruct sample_vault as (h & kh & w & v & Hi & [Hl (h1 & Hh & _)] & _).
  exists h, w. split; [done|].
  apply (init_refused (InitTpm2 "/dev/tpmrm0") "other" w v h1 (lv_rep _ _ _ Hl) Hh).
Defined.

(** C2: what is put is what is read. On a working store, putting any bytes under a well-formed
    reference succeeds with the next version number, and reading the reference then returns
    exactly those bytes, whatever the state of its earlier versions (a destroyed reference
    included); every other version of every reference is the same, and so is the latest
    version of every other reference. *)
Theorem put_then_get {X : Ext} {HC : CodecLaws} {HT : ChronoLaws} {HH : HashLaws}
    {HA : AeadLaws} {HE : EnvLaws} {HN : NoFaults} kh p w v s pt t :
  ready kh p w v → starts_with s "secret://" = true → latest s v < i64_max →
  ∃ w1 w2 v2, put_secret s pt p t w = (Ok (latest s v + 1), w1) ∧
    get_secret s p w1 = (Ok pt, w2) ∧ ready kh p w2 v2 ∧
    (∀ k, k ≠ (s, latest s v + 1) → oget k (v_records v2) = oget k (v_records v)) ∧
    (∀ s', latest s' v2 = if decide (s' = s) then latest s v + 1 else latest s' v).
Proof.
  intros Hr Hs Hlt.
  destruct (put_run kh p w v s pt t Hr Hs Hlt) as (w1 & r & fp & v1 & Hput & Hr1 & Hho & e & -> & _).
  pose proof (rp_ok _ _ (lv_rep _ _ _ (rd_live _ _ _ _ Hr))) as Hok.
  pose proof (proj1 (vk_records _ Hok)) as Hsort.
  assert (last (versions_of s (oput (s, latest s v + 1) r (v_records v))) =
          Some (latest s v + 1, r)) as Hlast.
  { apply latest_put; [done|]. unfold latest. lia. }
  destruct (get_run kh p w1 _ s _ r pt Hr1 Hlast (ho_active _ _ _ _ _ Hho) (ho_opens _ _ _ _ _ Hho))
    as (w2 & v2 & Hget & Hr2 & e2 & -> & _).
  exists w1, w2. eexists. split; [done|]. split; [done|]. split; [exact Hr2|]. split.
  - intros k Hk. simpl. by apply oget_oput_ne.
  - intros s'. unfold latest at 1. simpl. case_decide as Hd; [subst s'; by rewrite Hlast|].
    by rewrite latest_put_other.
Qed.

Lemma put_then_get_witness : ∃ h w w1 w2,
  init "correct horse" "prod" world0 = (Ok h, w) ∧
  put_secret "secret://db" (be_bytes 3 7) "correct horse" Password w = (Ok 1, w1) ∧
  get_secret "secret://db" "correct horse" w1 = (Ok (be_bytes 3 7), w2).
Proof.
  destruct sample_vault as (h & kh & w & v & Hi & Hr & Hrec & _).
  assert (latest "secret://db" v = 0) as Hl by (unfold latest; by rewrite Hrec).
  destruct (put_then_get kh "correct horse" w v "secret://db" (be_bytes 3 7) Password Hr)
    as (w1 & w2 & v2 & Hp & Hg & _); [reflexivity|rewrite Hl; reflexivity|].
  rewrite Hl in Hp. exists h, w, w1, w2. exact (conj Hi (conj Hp Hg)).
Defined.

Lemma last_after_status {X : Ext} kh p w v s n r st :
  ready kh p w v → last (versions_of s (v_records v)) = Some (n, r) →
  last (versions_of s (oput (s, n) (set_status st r) (v_records v))) = Some (n, set_status st r).
Proof.
  intros Hr Hlast. pose proof (proj1 (vk_records _ (rp_ok _ _ (lv_rep _ _ _ (rd_live _ _ _ _ Hr))))) as Hsort.
  apply last_versions_spec in Hlast as [Hget Hmax]; [|done].
  apply last_versions_spec; [by apply osorted_oput|]. split; [by apply oget_oput_eq|].
  intros n'. rewrite oget_oput. case_decide as Hd; [by inversion Hd|]. apply Hmax.
Qed.

(** The second factor is a secret like the others: who knows the pass phrase disables it, and the
    vault is then one without a second factor. *)
Lemma disabled_factor_is_gone {X : Ext} {HC : CodecLaws} {HT : ChronoLaws} {HH : HashLaws}
    {HA : AeadLaws} {HE : EnvLaws} {HN : NoFaults} kh p w v n r :
  ready kh p w v → last (versions_of TOTP_SECRET_REF (v_records v)) = Some (n, r) →
  ∃ w1 w2, disable_secret TOTP_SECRET_REF p w = (Ok (set_status Disabled r), w1) ∧
    totp_mfa_enrolled w1 = (Ok false, w2).
Proof.
  intros Hr Hlast.
  destruct (status_run kh p w v _ n r Disabled "secret.disabled" "high" Hr Hlast)
    as (w1 & v1 & Hrun & Hr1 & e1 & -> & _).
  pose proof (last_after_status kh p w v _ n r Disabled Hr Hlast) as Hlast1.
  assert (wp totp_mfa_enrolled w1 (λ o _, o = Ok false)) as Hwp.
  { unfold totp_mfa_enrolled. apply wp_bind, wp_attempt.
    eapply (wp_call kh w1 _ (LoadLatestSecret TOTP_SECRET_REF)); [apply Hr1|done|exact I|].
    intros w2 _ _. cbn [spec fst]. cbn [with_audit with_records v_records] in *.
    by rewrite Hlast1. }
  apply wp_run in Hwp as (o & w2 & Hm & ->). exists w1, w2. done.
Qed.

(** A disabled or destroyed secret is refused. On a working store, disabling or destroying a
    reference rewrites its latest version's status and nothing else of the record; reading the
    reference is then denied with that status, no plaintext leaves, and the denial is the last
    event of the audit log. *)
Theorem unavailable_secret_denied {X : Ext} {HC : CodecLaws} {HT : ChronoLaws} {HH : HashLaws}
    {HA : AeadLaws} {HE : EnvLaws} {HN : NoFaults} kh p w v s n r st :
  ready kh p w v → last (versions_of s (v_records v)) = Some (n, r) →
  st = Disabled ∨ st = Destroyed →
  ∃ w1 w2 v2 e, (if decide (st = Disabled) then disable_secret s p w else destroy_secret s p w) =
      (Ok (set_status st r), w1) ∧
    get_secret s p w1 = (Err (SecretUnavailable (status_string st)), w2) ∧
    ready kh p w2 v2 ∧ v_records v2 = oput (s, n) (set_status st r) (v_records v) ∧
    last (v_audit v2) = Some e ∧ ev_event_type e = "secret.access_denied" ∧
    ev_decision e = "deny".
Proof.
  intros Hr Hlast Hst.
  assert (∃ ty sev, (if decide (st = Disabled) then disable_secret s p w else destroy_secret s p w) =
    set_secret_status st ty sev s p w) as (ty & sev & ->).
  { destruct Hst as [-> | ->].
    - exists "secret.disabled", "high". rewrite decide_True; [|reflexivity].
      unfold disable_secret. reflexivity.
    - exists "secret.destroyed", "critical". rewrite decide_False; [|discriminate].
      unfold destroy_secret. reflexivity. }
  destruct (status_run kh p w v s n r st ty sev Hr Hlast)
    as (w1 & v1 & Hrun & Hr1 & e1 & -> & _).
  pose proof (last_after_status kh p w v s n r st Hr Hlast) as Hlast1.
  destruct (get_unavailable kh p w1 _ s n _ Hr1 Hlast1) as (w2 & v2 & md & Hget & Hr2 & e2 & -> & He).
  { simpl. destruct Hst as [-> | ->]; discriminate. }
  exists w1, w2. eexists _, e2. split; [done|]. split; [done|]. split; [exact Hr2|].
  split; [done|]. split; [apply last_snoc|]. by destruct He.
Qed.

Lemma unavailable_secret_denied_witness : ∃ h w w1 r w2 w3,
  init "correct horse" "prod" world0 = (Ok h, w) ∧
  put_secret "secret://db" (be_bytes 3 7) "correct horse" Password w = (Ok 1, w1) ∧
  destroy_secret "secret://db" "correct horse" w1 = (Ok r, w2) ∧
  get_secret "secret://db" "correct horse" w2 = (Err (SecretUnavailable "destroyed"), w3).
Proof.
  destruct sample_vault as (h & kh & w & v & Hi & Hr & Hrec & _).
  assert (latest "secret://db" v = 0) as Hl by (unfold latest; by rewrite Hrec).
  destruct (put_run kh "correct horse" w v "secret://db" (be_bytes 3 7) Password Hr)
    as (w1 & r & fp & v1 & Hp & Hr1 & _ & e & Hv1 & _); [reflexivity|rewrite Hl; reflexivity|].
  rewrite Hl in Hp.
  assert (last (versions_of "secret://db" (v_records v1)) = Some (1, r)) as Hlast.
  { subst v1. cbn [v_records with_audit with_fingerprints with_records]. rewrite Hl, Hrec.
    apply (latest_put "secret://db" [] 1 r I). reflexivity. }
  destruct (unavailable_secret_denied kh "correct horse" w1 v1 "secret://db" 1 r Destroyed Hr1 Hlast)
    as (w2 & w3 & _ & _ & Hd & Hg & _); [by right|].
  exists h, w, w1, (set_status Destroyed r), w2, w3. exact (conj Hi (conj Hp (conj Hd Hg))).
Defined.

(** Two views with the same secrets, under the same root key. *)
Definition reads_all `{Ext} (kh : KeyHierarchy) (p : string) (w : World) (v : View) : Prop :=
  ∀ s n r pt, last (versions_of s (v_records v)) = Some (n, r) → rec_status r = Active →
    decrypt_secret kh r = Ok pt → ∃ w', get_secret s p w = (Ok pt, w').

(** C15: changing the pass phrase keeps every secret. On a working store, rewrapping an open
    vault under a new non-empty pass phrase succeeds, changes the header's binding only, and
    every secret that could be read under the old pass phrase is read, unchanged, under the
    new one: nothing is re-encrypted. *)
Theorem rewrap_keeps_secrets {X : Ext} {HC : CodecLaws} {HT : ChronoLaws} {HH : HashLaws}
    {HA : AeadLaws} {HE : EnvLaws} {HN : NoFaults} {HS : ScryptLaws} kh p w v p' dev :
  ready kh p w v → p' ≠ EmptyString →
  ∃ h b w1 v1, rewrap_provider (Some p) "passphrase" (Some p') dev w = (Ok (with_binding b h), w1) ∧
    v_header v = Some h ∧ ready kh p' w1 v1 ∧ v_header v1 = Some (with_binding b h) ∧
    v_records v1 = v_records v ∧ reads_all kh p' w1 v.
Proof.
  intros Hr Hp. destruct (rewrap_run kh p w v p' dev Hr Hp)
    as (h & b & w1 & v1 & md & Hrun & Hh & Hr1 & e & -> & _).
  exists h, b, w1. eexists. split; [done|]. split; [done|]. split; [exact Hr1|].
  split; [done|]. split; [done|]. intros s n r pt Hlast Hact Hopen.
  destruct (get_run kh p' w1 _ s n r pt Hr1 Hlast Hact Hopen) as (w2 & _ & Hg & _). by exists w2.
Qed.

Lemma rewrap_keeps_secrets_witness : ∃ h w w1 h2 w2 w3,
  init "correct horse" "prod" world0 = (Ok h, w) ∧
  put_secret "secret://db" (be_bytes 3 7) "correct horse" Password w = (Ok 1, w1) ∧
  rewrap_provider (Some "correct horse") "passphrase" (Some "battery staple") "" w1 = (Ok h2, w2) ∧
  get_secret "secret://db" "battery staple" w2 = (Ok (be_bytes 3 7), w3).
Proof.
  destruct sample_vault as (h & kh & w & v & Hi & Hr & Hrec & _).
  assert (latest "secret://db" v = 0) as Hl by (unfold latest; by rewrite Hrec).
  destruct (put_run kh "correct horse" w v "secret://db" (be_bytes 3 7) Password Hr)
    as (w1 & r & fp & v1 & Hp & Hr1 & Hho & e & Hv1 & _); [reflexivity|rewrite Hl; reflexivity|].
  rewrite Hl in Hp.
  assert (last (versions_of "secret://db" (v_records v1)) = Some (1, r)) as Hlast.
  { subst v1. cbn [v_records with_audit with_fingerprints with_records]. rewrite Hl, Hrec.
    apply (latest_put "secret://db" [] 1 r I). reflexivity. }
  destruct (rewrap_keeps_secrets kh "correct horse" w1 v1 "battery staple" "" Hr1)
    as (h2 & b & w2 & v2 & Hrw & _ & _ & _ & _ & Hall); [discriminate|].
  destruct (Hall _ _ _ (be_bytes 3 7) Hlast (ho_active _ _ _ _ _ Hho) (ho_opens _ _ _ _ _ Hho))
    as (w3 & Hg).
  exists h, w, w1, (with_binding b h2), w2, w3. exact (conj Hi (conj Hp (conj Hrw Hg))).
Defined.

(** C16: a recovery package recovers the vault. On a working store, a package created under a
    non-empty recovery secret lets the vault be recovered without its pass phrase: recovery
    under a new non-empty pass phrase succeeds, and every secret is then read, unchanged,
    under the new pass phrase. *)
Theorem recovery_reopens_vault {X : Ext} {HC : CodecLaws} {HT : ChronoLaws} {HH : HashLaws}
    {HA : AeadLaws} {HE : EnvLaws} {HN : NoFaults} {HS : ScryptLaws} kh p w v secret p' dev :
  ready kh p w v → secret ≠ EmptyString → p' ≠ EmptyString →
  ∃ pkg w1 h w2 v2, create_recovery_package (Some p) secret w = (Ok pkg, w1) ∧
    recover_provider_from_package pkg secret "passphrase" (Some p') dev w1 = (Ok h, w2) ∧
    ready kh p' w2 v2 ∧ v_header v2 = Some h ∧ v_records v2 = v_records v ∧ reads_all kh p' w2 v.
Proof.
  intros Hr Hs Hp.
  destruct (package_op_run kh p w v secret Hr Hs)
    as (pkg & w1 & v1 & md & Hpkg & Hr1 & Hid & Hu & e & -> & _).
  destruct (recover_run kh p w1 _ pkg secret p' dev Hr1 Hp Hid Hu)
    as (h & b & w2 & v2 & md2 & Hrec & Hh & Hr2 & e2 & -> & _).
  exists pkg, w1, (with_binding b h), w2. eexists. split; [done|]. split; [done|].
  split; [exact Hr2|]. split; [done|]. split; [done|]. intros s n r pt Hlast Hact Hopen.
  destruct (get_run kh p' w2 _ s n r pt Hr2 Hlast Hact Hopen) as (w3 & _ & Hg & _). by exists w3.
Qed.

Lemma recovery_reopens_vault_witness : ∃ h w pkg w1 h2 w2,
  init "correct horse" "prod" world0 = (Ok h, w) ∧
  create_recovery_package (Some "correct horse") "paper words" w = (Ok pkg, w1) ∧
  recover_provider_from_package pkg "paper words" "passphrase" (Some "battery staple") "" w1
    = (Ok h2, w2).
Proof.
  destruct sample_vault as (h & kh & w & v & Hi & Hr & _).
  destruct (recovery_reopens_vault kh "correct horse" w v "paper words" "battery staple" "" Hr)
    as (pkg & w1 & h2 & w2 & v2 & Hp & Hrec & _); [discriminate..|].
  exists h, w, pkg, w1, h2, w2. exact (conj Hi (conj Hp Hrec)).
Defined.
