(* ===== verification/VaultTickets.v ===== *)
(** * What the ticket operations of a vault guarantee (vault.rs)

    Backward reasoning: from a run that succeeded, on any store and whatever fails in between,
    to what must have held.  A ticket is issued only for a request some saved policy grants
    and on an active secret; a secret is materialised through a ticket only within the
    ticket's own terms, under the policy it was issued for, at the version it was issued for;
    a renewal revokes the ticket it replaces. *)

From S2P Require Export VaultSecrets.
From S2P Require Import Toy.
#[local] Open Scope Z_scope.

(** ** Inversion of runs *)

Section inversion.
Context {X : Ext} {HC : CodecLaws} {HT : ChronoLaws} {HH : HashLaws}.
Implicit Types (w : World) (v : View).

Lemma call_inv {A} (c : call A) a w w' v :
  represents (db w) v → call_ok c → exec c w = (Ok a, w') →
  (spec c v).1 = Ok a ∧ represents (db w') (spec c v).2.
Proof.
  intros Hrep Hc Hrun. destruct (store_fault (tick w)) as [f|] eqn:Hf.
  - by rewrite (exec_fault c w f Hf) in Hrun.
  - destruct (exec_refines c w v Hrep Hc Hf) as (d' & Heq & Hrep'). rewrite Heq in Hrun.
    by injection Hrun as -> <-.
Qed.

Lemma try_call_inv {A} (c : call A) a w w' v :
  represents (db w) v → call_ok c → (try_ (exec c) : ST World VaultError A) w = (Ok a, w') →
  (spec c v).1 = Ok a ∧ represents (db w') (spec c v).2.
Proof. intros Hrep Hc Hrun%try_ok_inv. by eapply call_inv. Qed.

Lemma read_inv {E A} (m : ST World E A) r w w' v :
  keeps same_db m → represents (db w) v → m w = (r, w') → represents (db w') v.
Proof. intros Hk Hrep Hrun. specialize (Hk w) as [Hd _]. rewrite Hrun in Hd. simpl in Hd. by rewrite Hd. Qed.

(** Appending an event changes the audit log at most. *)
Lemma append_inv h kh ty sev dec md r w w' v :
  represents (db w) v → json_ok (JObj md) = true →
  append_audit h kh ty sev dec md w = (r, w') →
  ∃ events, represents (db w') (with_audit (v_audit v ++ events) v) ∧
    ∀ e, r = Ok e → events = [e] ∧ records_event ty sev dec md e.
Proof.
  intros Hrep Hmd Hrun.
  destruct (append_cases h kh ty sev dec md w v Hrep Hmd)
    as [(err & w1 & Heq & Hd & _)|(e & Heq & Hwe & _ & _ & _ & He)];
    rewrite Heq in Hrun; injection Hrun as <- <-.
  - exists []. rewrite app_nil_r. split; [|done]. rewrite Hd. by destruct v.
  - exists [e]. split; [by apply rep_audit|]. by intros e' [= <-].
Qed.
Lemma unlock_inv p h k w w' v :
  represents (db w) v → unlock p w = (Ok (h, k), w') →
  represents (db w') v ∧ v_header v = Some h ∧ kh_vault_id k = hd_vault_id h.
Proof.
  intros Hrep Hrun. pose proof (read_inv _ _ _ _ _ (keeps_unlock same_db p) Hrep Hrun) as Hrep'.
  split; [done|]. apply unlock_ok_inv in Hrun as (w1 & Hl & ->).
  apply (call_inv LoadHeader _ _ _ v Hrep I) in Hl as [Hh _]. cbn [spec fst] in Hh.
  split; [by apply ok_or_ok_inv in Hh|done].
Qed.

(** The pass phrase opens the tables of [w] under [kh]. *)
Definition unlocks_as (p : string) (w : World) (kh : KeyHierarchy) : Prop :=
  ∃ h wa wb, db wa = db w ∧ unlock (Some p) wa = (Ok (h, kh), wb).

Lemma load_ticket_inv id t w w' v :
  represents (db w) v → LocalVault_load_ticket id w = (Ok t, w') →
  represents (db w') v ∧ oget id (v_tickets v) = Some t ∧ SecretAccessTicket_wf t ∧
  tk_ticket_id t = id.
Proof.
  intros Hrep Hrun. unfold LocalVault_load_ticket in Hrun.
  apply st_bind_ok_inv in Hrun as (o & w1 & Hrun & Hl).
  apply (try_call_inv (LoadTicket id) _ _ _ v Hrep I) in Hrun as [Ho Hrep1].
  injection Ho as <-. apply lift_ok_inv in Hl as [Ho <-].
  apply ok_or_ok_inv in Ho. split; [done|]. split; [done|].
  by destruct (rep_ticket_filed _ _ Hrep _ _ Ho).
Qed.

(** The policy a ticket was issued under, as saved now. *)
Definition current_policy (v : View) (t : SecretAccessTicket) (p : AccessPolicy) : Prop :=
  p ∈ (v_policies v).*2 ∧ pol_policy_id p = tk_policy_id t ∧ AccessPolicy_wf p.

Lemma active_policy_inv t p w w' v :
  represents (db w) v → active_policy_for_ticket t w = (Ok p, w') →
  represents (db w') v ∧ current_policy v t p.
Proof.
  intros Hrep Hrun. unfold active_policy_for_ticket in Hrun.
  apply st_bind_ok_inv in Hrun as (ps & w1 & Hrun & Hl).
  apply (try_call_inv ListPolicies _ _ _ v Hrep I) in Hrun as [Ho Hrep1].
  injection Ho as <-. apply lift_ok_inv in Hl as [Ho <-].
  apply ok_or_ok_inv, find_some in Ho as [Hin%list_elem_of_In Hid%String.eqb_eq].
  split; [done|]. split; [done|]. split; [done|].
  apply list_elem_of_fmap in Hin as ([k q] & -> & Hin).
  pose proof (vk_policies _ (rp_ok _ _ Hrep)) as [_ Hf].
  by apply (proj1 (Forall_forall _ _) Hf) in Hin as [_ Hwf].
Qed.

(** The secret is at the ticket's version and active; a ticket of version 0 is for any. *)
Definition secret_current (v : View) (t : SecretAccessTicket) : Prop :=
  tk_secret_version t = 0 ∨
  ∃ r, last (versions_of (tk_secret_ref t) (v_records v)) = Some (tk_secret_version t, r) ∧
    rec_status r = Active.

Lemma ensure_current_inv t w w' v :
  represents (db w) v → ensure_ticket_secret_is_current t w = (Ok tt, w') →
  represents (db w') v ∧ secret_current v t.
Proof.
  intros Hrep Hrun. unfold ensure_ticket_secret_is_current in Hrun.
  destruct (Z.eqb_spec (tk_secret_version t) 0) as [Hz|Hz].
  { injection Hrun as <-. split; [done|by left]. }
  apply st_bind_ok_inv in Hrun as (r & w1 & Hrun & Hg).
  apply (try_call_inv (LoadLatestSecret _) _ _ _ v Hrep I) in Hrun as [Ho Hrep1].
  cbn [spec fst] in Ho. apply ok_or_ok_inv in Ho.
  destruct (last _) as [[n r']|] eqn:Hlast; [|done]. injection Ho as ->.
  pose proof (rep_last_filed _ _ Hrep _ _ _ Hlast) as [[= Href Hver] _].
  destruct ((_ =? _) && bool_decide _) eqn:Hc; [|done]. injection Hg as <-.
  apply andb_true_iff in Hc as [Hv Ha%bool_decide_eq_true_1]. apply Z.eqb_eq in Hv.
  split; [done|]. right. exists r. split; [|done]. rewrite Hlast. cbn [fst snd] in *. congruence.
Qed.

(** Whether a TOTP device is enrolled. *)
Definition totp_enrolled (v : View) : Prop :=
  ∃ n r, last (versions_of TOTP_SECRET_REF (v_records v)) = Some (n, r) ∧ rec_status r = Active.

Lemma totp_enrolled_inv b w w' v :
  represents (db w) v → totp_mfa_enrolled w = (Ok b, w') →
  represents (db w') v ∧ (b = true ↔ totp_enrolled v).
Proof.
  intros Hrep Hrun.
  pose proof (read_inv _ _ _ _ _ (keeps_totp_enrolled same_db) Hrep Hrun) as Hrep'.
  split; [done|]. unfold totp_mfa_enrolled in Hrun.
  destruct (store_fault (tick w)) as [f|] eqn:Hf.
  { pose proof (exec_fault (LoadLatestSecret TOTP_SECRET_REF) w f Hf) as He. cbn [exec] in He.
    unfold attempt, mbind, st_bind in Hrun. rewrite He in Hrun. by destruct f. }
  destruct (exec_refines (LoadLatestSecret TOTP_SECRET_REF) w v Hrep I Hf) as (d' & He & _).
  cbn [exec spec fst] in He. unfold attempt, mbind, st_bind in Hrun. rewrite He in Hrun.
  unfold totp_enrolled.
  destruct (last (versions_of TOTP_SECRET_REF (v_records v))) as [[n r]|] eqn:Hl; simpl in Hrun.
  - injection Hrun as <- _. rewrite bool_decide_eq_true. split; [by eauto|].
    by intros (n' & r' & [= _ <-] & ?).
  - injection Hrun as <- _. split; [done|]. by intros (n & r & ? & _).
Qed.

(** The switch for plaintext exports, and the second factor when one is enrolled. *)
Definition export_gate (v : View) (mfa : bool) : Prop :=
  v_config v PLAINTEXT_EXPORT_CONFIG_KEY = Some "enabled" ∧ (totp_enrolled v → mfa = true).

Lemma enforce_inv mfa w w' v :
  represents (db w) v → enforce_plaintext_export_allowed mfa w = (Ok tt, w') →
  represents (db w') v ∧ export_gate v mfa.
Proof.
  intros Hrep Hrun. unfold enforce_plaintext_export_allowed, plaintext_export_enabled in Hrun.
  apply st_bind_ok_inv in Hrun as (en & w1 & Hrun & Hg).
  apply st_bind_ok_inv in Hrun as (o & w2 & Hrun & Hr).
  apply (try_call_inv (GetMetadata PLAINTEXT_EXPORT_CONFIG_KEY) _ _ _ v Hrep) in Hrun as [Ho Hrep2];
    [|done].
  injection Ho as <-. injection Hr as <- <-.
  apply st_bind_ok_inv in Hg as ([] & w3 & Hg & Hrun).
  unfold guard_ in Hg. destruct (negb _) eqn:Hd; [done|]. injection Hg as <-.
  apply negb_false_iff, bool_decide_eq_true_1 in Hd.
  apply st_bind_ok_inv in Hrun as (b & w4 & Hrun & Hg).
  apply (totp_enrolled_inv b _ _ v Hrep2) in Hrun as [Hrep4 Hb].
  destruct (b && negb mfa) eqn:Hc; [done|]. injection Hg as <-. split; [done|].
  split; [done|]. intros ->%Hb. simpl in Hc. by apply negb_false_iff in Hc.
Qed.
(** *** Using a ticket *)

(** A ticket [t] that materialised [pt] for the request [r] at instant [now], under the key
    hierarchy [kh], on a store with view [v]. *)
Record materialises (kh : KeyHierarchy) (v : View) (t : SecretAccessTicket) (r : AccessRequest)
    (now : Z) (pt : bytes) : Prop := {
  ma_terms : ∃ key, ticket_mac_key (E:=VaultError) kh = Ok key ∧ ticket_admits key t r now;
  ma_policy : ∃ p, current_policy v t p ∧ policy_hash (E:=VaultError) p = Ok (tk_policy_hash t);
  ma_secret : secret_current v t;
  ma_record : ∃ rec, decrypt_secret kh rec = Ok pt ∧ rec_status rec = Active ∧
    rec_secret_ref rec = req_secret_ref r ∧
    (tk_secret_version t ≠ 0 → rec_secret_version rec = tk_secret_version t) ∧
    oget (rec_secret_ref rec, rec_secret_version rec) (v_records v) = Some rec;
  ma_export : req_raw_export_requested r = true → export_gate v (req_mfa_verified r);
}.

Lemma validate_policy_inv t p h :
  validate_policy t p h = Ok tt → tk_policy_id t = pol_policy_id p ∧ tk_policy_hash t = h.
Proof.
  unfold validate_policy. destruct (_ || _) eqn:Hd; [done|]. intros _.
  apply orb_false_iff in Hd as [H1 H2]. by rewrite !differ_false in *.
Qed.

Lemma load_used_inv t rec w w' v :
  represents (db w) v → secret_current v t →
  (try_ (if tk_secret_version t =? 0 then load_latest_secret (tk_secret_ref t)
         else load_secret_version (tk_secret_ref t) (tk_secret_version t)) : ST World VaultError _) w
    = (Ok rec, w') →
  represents (db w') v ∧ rec_secret_ref rec = tk_secret_ref t ∧
  (tk_secret_version t ≠ 0 → rec_secret_version rec = tk_secret_version t) ∧
  oget (rec_secret_ref rec, rec_secret_version rec) (v_records v) = Some rec.
Proof.
  intros Hrep Hcur Hrun. destruct (Z.eqb_spec (tk_secret_version t) 0) as [Hz|Hz].
  - apply (try_call_inv (LoadLatestSecret _) _ _ _ v Hrep I) in Hrun as [Ho Hrep1].
    cbn [spec fst] in Ho. apply ok_or_ok_inv in Ho.
    destruct (last _) as [[n r']|] eqn:Hlast; [|done]. injection Ho as ->.
    pose proof (rep_last_filed _ _ Hrep _ _ _ Hlast) as [[= Href Hver] _]. cbn [snd] in *.
    split; [done|]. split; [done|]. split; [done|]. rewrite <-Href, <-Hver.
    apply last_versions_spec in Hlast as [? _]; [done|apply (vk_records _ (rp_ok _ _ Hrep))].
  - apply (try_call_inv (LoadSecretVersion _ _) _ _ _ v Hrep I) in Hrun as [Ho Hrep1].
    cbn [spec fst] in Ho. destruct (_ <=? _); [|done]. apply ok_or_ok_inv in Ho.
    apply (records_bound v) in Ho as Hb; [|apply (rp_ok _ _ Hrep)].
    destruct Hb as (_ & -> & -> & _). by split.
Qed.

(** The tables after the use: the ticket has one use less, an event was appended at most. *)
Definition used (v v' : View) (t t' : SecretAccessTicket) : Prop :=
  ∃ events, v' = with_audit (v_audit v ++ events)
                   (with_tickets (oput (tk_ticket_id t) t' (v_tickets v)) v) ∧
    tk_ticket_id t' = tk_ticket_id t ∧ tk_uses_remaining t' = tk_uses_remaining t - 1 ∧
    tk_revoked t' = false.

Lemma consume_inv id r p pt w w' v :
  represents (db w) v → consume_ticket_for_secret id r p w = (Ok pt, w') →
  ∃ kh t t' i v', unlocks_as p w kh ∧
    oget id (v_tickets v) = Some t ∧ materialises kh v t r (utc_now i) pt ∧
    represents (db w') v' ∧ used v v' t t'.
Proof.
  intros Hrep Hrun. unfold consume_ticket_for_secret in Hrun.
  apply st_bind_ok_inv in Hrun as ([] & w1 & Hgate & Hrun).
  assert (db w1 = db w) as Hd1.
  { assert (keeps same_db (if req_raw_export_requested r
      then enforce_plaintext_export_allowed (req_mfa_verified r) else mret tt)) as Hk by keeps_auto.
    specialize (Hk w) as [Hd _]. by rewrite Hgate in Hd. }
  assert (represents (db w1) v ∧
    (req_raw_export_requested r = true → export_gate v (req_mfa_verified r))) as [Hrep1 Hexp].
  { destruct (req_raw_export_requested r).
    - apply (enforce_inv _ _ _ v Hrep) in Hgate as [? ?]. by split.
    - by injection Hgate as <-. }
  apply st_bind_ok_inv in Hrun as ([h kh] & w2 & Hu & Hrun).
  assert (unlocks_as p w kh) as Hunlock by (exists h, w1, w2; by split).
  apply (unlock_inv _ _ _ _ _ v Hrep1) in Hu as (Hrep2 & Hh & Hid). cbn beta iota in Hrun.
  apply st_bind_ok_inv in Hrun as (t & w3 & Hload & Hrun).
  apply (load_ticket_inv _ _ _ _ v Hrep2) in Hload as (Hrep3 & Hget & Hwf & Htid).
  apply st_bind_ok_inv in Hrun as (key & w4 & Hk & Hrun). apply lift_ok_inv in Hk as [Hkey <-].
  rewrite now_bind in Hrun. set (w5 := {| tick := S (tick w3); db := db w3 |}) in Hrun.
  assert (represents (db w5) v) as Hrep5 by done.
  apply st_bind_ok_inv in Hrun as (t' & w6 & Hc & Hrun). apply lift_ok_inv in Hc as [Hc <-].
  apply res_try_ok in Hc. apply consume_ok_inv in Hc as (Hadm & Hwf' & Hid' & Huse & Hrev); [|done].
  apply st_bind_ok_inv in Hrun as (q & w7 & Hq & Hrun).
  apply (active_policy_inv _ _ _ _ v Hrep5) in Hq as [Hrep7 Hq].
  apply st_bind_ok_inv in Hrun as (ph & w8 & Hp & Hrun). apply lift_ok_inv in Hp as [Hph <-].
  apply st_bind_ok_inv in Hrun as ([] & w9 & Hp & Hrun). apply lift_ok_inv in Hp as [Hp <-].
  apply res_try_ok, validate_policy_inv in Hp as [_ Hhash].
  apply st_bind_ok_inv in Hrun as ([] & w10 & He & Hrun).
  apply (ensure_current_inv _ _ _ v Hrep7) in He as [Hrep10 Hcur].
  apply st_bind_ok_inv in Hrun as ([] & w11 & Hs & Hrun).
  apply (try_call_inv (SaveTicketIfCurrent t t') _ _ _ v Hrep10) in Hs as [Hok Hrep11]; [|done].
  cbn [spec] in Hok, Hrep11. rewrite Htid, Hget in Hok, Hrep11.
  rewrite bool_decide_eq_true_2 in Hrep11 by done. cbn [snd] in Hrep11.
  apply st_bind_ok_inv in Hrun as (rec & w12 & Hl & Hrun).
  apply (load_used_inv t rec _ _ _ Hrep11) in Hl as (Hrep12 & Href & Hver & Hrec); [|done].
  destruct (negb _) eqn:Hact.
  { by apply st_bind_ok_inv in Hrun as (? & ? & _ & Hrun). }
  apply negb_false_iff, bool_decide_eq_true_1 in Hact.
  apply st_bind_ok_inv in Hrun as (pt' & w13 & Hd & Hrun). apply lift_ok_inv in Hd as [Hd <-].
  apply res_try_ok in Hd. apply st_bind_ok_inv in Hrun as (e & w14 & Ha & Hrun).
  injection Hrun as -> <-.
  apply (append_inv _ _ _ _ _ _ _ _ _ _ Hrep12) in Ha as (evs & Hrep14 & _); [|metadata].
  exists kh, t, t', (tick w3). eexists. split; [exact Hunlock|]. split; [done|].
  split; [|split; [exact Hrep14|]].
  - split; [by exists key|exists q; by rewrite Hhash|done| |done].
    exists rec. repeat (split; [done|]). split; [|done].
    rewrite Href. apply (tc_ref _ _ (ta_context _ _ _ _ Hadm)).
  - exists evs. split; [by rewrite Htid|]. split; [done|]. split; [done|].
    rewrite Hrev. apply (ta_live _ _ _ _ Hadm).
Qed.
(** *** Issuing *)

Lemma issue_view k vid sid n r q ph s t w w' :
  issue (E:=VaultError) k vid sid n r q ph s w = (Ok t, w') →
  0 <= n <= u64_max → AccessRequest_wf r → AccessPolicy_wf q →
  SecretAccessTicket_wf t ∧ authentic k t ∧ db w' = db w ∧
  tk_secret_id t = sid ∧ tk_secret_version t = n ∧ tk_secret_ref t = req_secret_ref r ∧
  tk_policy_id t = pol_policy_id q ∧ tk_policy_hash t = ph ∧ tk_revoked t = false ∧
  tk_uses_remaining t = pol_max_uses q ∧ tk_broker_session_id t = s ∧
  (s = None ∨ s = req_broker_session_id r → ticket_context t r).
Proof.
  intros Hrun Hn Hr Hq.
  destruct (Duration_seconds (E:=VaultError) (i64_of_u64 (pol_max_ticket_ttl_seconds q))) as [ttl| |] eqn:Hd;
    [|unfold issue in Hrun; unfold mbind, st_bind, lift in Hrun; by rewrite Hd in Hrun..].
  destruct (datetime_add (E:=VaultError) (req_now r) ttl) as [e| |] eqn:He;
    [|unfold issue in Hrun; unfold mbind, st_bind, lift in Hrun; by rewrite Hd, He in Hrun..].
  assert (e = req_now r + ttl) as ->.
  { unfold datetime_add in He. destruct (_ && _); [|done]. by injection He as <-. }
  destruct (issue_run k vid sid n r q ph s w ttl Hd He Hn Hr Hq) as
    (t' & Hrun' & Hwf & Hau & _ & Hn' & Hs' & Hp & Hph & _ & Hb & Hrv & Hu & _ & _ & Hctx).
  rewrite Hrun' in Hrun. injection Hrun as -> <-. repeat (split; [done|]). split; [|done].
  unfold issue in Hrun'. repeat (apply st_bind_ok_inv in Hrun' as (? & ? & _ & Hrun')).
  by injection Hrun' as <- _.
Qed.
(** A ticket [t] issued for the request [r] on a store with view [v]. *)
Record issued_for (kh : KeyHierarchy) (v : View) (r : AccessRequest) (t : SecretAccessTicket)
    : Prop := {
  is_policy : ∃ q, q ∈ (v_policies v).*2 ∧ policy_grants q r ∧
    tk_policy_id t = pol_policy_id q ∧ policy_hash (E:=VaultError) q = Ok (tk_policy_hash t) ∧
    tk_uses_remaining t = pol_max_uses q;
  is_secret : ∃ n rec, last (versions_of (req_secret_ref r) (v_records v)) = Some (n, rec) ∧
    rec_status rec = Active ∧ tk_secret_version t = n ∧ tk_secret_id t = rec_secret_id rec;
  is_terms : ∃ key, ticket_mac_key (E:=VaultError) kh = Ok key ∧ authentic key t ∧
    ticket_context t r ∧ tk_revoked t = false;
}.

(** The tables after filing tickets: nothing else changed but the audit log, extended. *)
Definition filed (tickets : list SecretAccessTicket) (v v' : View) : Prop :=
  ∃ events, v' = with_audit (v_audit v ++ events)
    (with_tickets (foldr (λ t m, oput (tk_ticket_id t) t m) (v_tickets v) tickets) v).

Lemma policies_wf v : View_ok v → Forall AccessPolicy_wf (v_policies v).*2.
Proof.
  intros Hok. destruct (vk_policies _ Hok) as [_ Hf]. apply Forall_fmap.
  eapply Forall_impl; [exact Hf|]. by intros kv [].
Qed.

Lemma issue_inv r p t w w' v :
  represents (db w) v → AccessRequest_wf r → issue_ticket r p w = (Ok t, w') →
  ∃ kh v', unlocks_as p w kh ∧ issued_for kh v r t ∧ represents (db w') v' ∧ filed [t] v v'.
Proof.
  intros Hrep Hr Hrun. unfold issue_ticket in Hrun.
  apply st_bind_ok_inv in Hrun as ([h kh] & w1 & Hu & Hrun).
  assert (unlocks_as p w kh) as Hunlock by (exists h, w, w1; by split).
  apply (unlock_inv _ _ _ _ _ v Hrep) in Hu as (Hrep1 & Hh & Hid). cbn beta iota in Hrun.
  apply st_bind_ok_inv in Hrun as (rec & w2 & Hl & Hrun).
  apply (try_call_inv (LoadLatestSecret _) _ _ _ v Hrep1 I) in Hl as [Ho Hrep2].
  cbn [spec fst snd] in Ho, Hrep2. apply ok_or_ok_inv in Ho.
  destruct (last _) as [[n rec']|] eqn:Hlast; [|done]. injection Ho as ->.
  pose proof (rep_last_filed _ _ Hrep _ _ _ Hlast) as [[= Href Hver] Hbound]. cbn [snd] in *.
  apply st_bind_ok_inv in Hrun as ([] & w3 & Hg & Hrun). unfold guard_ in Hg.
  destruct (negb _) eqn:Hact; [done|]. injection Hg as <-.
  apply negb_false_iff, bool_decide_eq_true_1 in Hact.
  apply st_bind_ok_inv in Hrun as (ps & w4 & Hl & Hrun).
  apply (try_call_inv ListPolicies _ _ _ v Hrep2 I) in Hl as [Ho Hrep4]. injection Ho as <-.
  cbv zeta in Hrun. destruct (policy _) as [q|] eqn:Hq.
  2:{ unfold issue_denied in Hrun. by apply st_bind_ok_inv in Hrun as (? & ? & _ & Hrun). }
  apply evaluate_policy_some in Hq as (Hdec & Hin & Hgr).
  rewrite (bool_decide_eq_true_2 _ Hdec) in Hrun. cbn [negb] in Hrun.
  assert (AccessPolicy_wf q) as Hqwf.
  { apply (proj1 (Forall_forall _ _) (policies_wf v (rp_ok _ _ Hrep)) _ Hin). }
  apply st_bind_ok_inv in Hrun as (key & w5 & Hk & Hrun). apply lift_ok_inv in Hk as [Hkey <-].
  apply st_bind_ok_inv in Hrun as (ph & w6 & Hp & Hrun). apply lift_ok_inv in Hp as [Hph <-].
  apply st_bind_ok_inv in Hrun as (t' & w7 & Hi & Hrun).
  apply issue_view in Hi as (Hwf & Hau & Hd & Hs & Hn & _ & Hpid & Hphash & Hrv & Hu & _ & Hctx);
    [|unfold i64_max, u64_max in *; lia|done|done].
  assert (represents (db w7) v) as Hrep7 by (rewrite Hd; exact Hrep4).
  apply st_bind_ok_inv in Hrun as ([] & w8 & Hs' & Hrun).
  apply (try_call_inv (SaveTicket t') _ _ _ v Hrep7) in Hs' as [_ Hrep8]; [|done].
  apply st_bind_ok_inv in Hrun as (e & w9 & Ha & Hrun). injection Hrun as -> <-.
  apply (append_inv _ _ _ _ _ _ _ _ _ _ Hrep8) in Ha as (evs & Hrep9 & _); [|metadata].
  exists kh. eexists. split; [done|]. split; [|split; [exact Hrep9|by exists evs]].
  split.
  - exists q. by rewrite Hphash.
  - exists n, rec. split; [done|]. split; [done|]. split; [congruence|done].
  - exists key. repeat (split; [done|]). split; [|done]. apply Hctx. by right.
Qed.

(** A ticket was issued for the request and used for it: what the policy granted, on the tables
    before, and what the ticket's terms allowed, once it was filed. *)
Definition released (v : View) (access : AccessRequest) (t : SecretAccessTicket)
    (secret : bytes) : Prop :=
  ∃ kh kh' v1 i, issued_for kh v access t ∧ filed [t] v v1 ∧
    materialises kh' v1 t access (utc_now i) secret.

(** Issuing a ticket and using it at once. *)
Lemma issue_consume_inv access p t secret w w1 w2 v :
  represents (db w) v → AccessRequest_wf access → issue_ticket access p w = (Ok t, w1) →
  consume_ticket_for_secret (tk_ticket_id t) access p w1 = (Ok secret, w2) →
  released v access t secret ∧
  ∃ v1 v' t', filed [t] v v1 ∧ represents (db w2) v' ∧ used v1 v' t t'.
Proof.
  intros Hrep Hwf Hi Hc.
  apply (issue_inv _ _ _ _ _ v Hrep Hwf) in Hi as (kh & v1 & _ & Hfor & Hrep1 & Hfiled).
  apply (consume_inv _ _ _ _ _ _ v1 Hrep1) in Hc as (kh' & t0 & t' & i & v' & _ & Hget & Hm & Hrep2 & Hu).
  pose proof Hfiled as (events & Hv1). rewrite Hv1 in Hget. simpl in Hget.
  rewrite oget_oput_eq in Hget. injection Hget as <-.
  split; [by exists kh, kh', v1, i|]. by exists v1, v', t'.
Qed.

(** The policies, records and settings are the same; tickets and the audit log may differ. *)
Definition same_terms (v v' : View) : Prop :=
  v_header v' = v_header v ∧ v_policies v' = v_policies v ∧ v_records v' = v_records v ∧
  v_config v' = v_config v.
#[export] Instance same_terms_preorder : PreOrder same_terms.
Proof.
  split; [by intros v|]. intros v1 v2 v3 (?&?&?&?) (?&?&?&?). unfold same_terms. split_and!; congruence.
Qed.

Lemma filed_same_terms ts v v' : filed ts v v' → same_terms v v'.
Proof. by intros (evs & ->). Qed.
Lemma used_same_terms v v' t t' : used v v' t t' → same_terms v v'.
Proof. by intros (evs & -> & _). Qed.

(** A code that was accepted left the terms alone. *)
Lemma verify_totp_inv p code w w' v :
  represents (db w) v → verify_totp_mfa p code w = (Ok tt, w') →
  ∃ v', represents (db w') v' ∧ same_terms v v'.
Proof.
  intros Hrep Hrun. unfold verify_totp_mfa in Hrun.
  apply st_bind_ok_inv in Hrun as ([h kh] & w1 & Hu & Hrun).
  apply (unlock_inv _ _ _ _ _ v Hrep) in Hu as (Hrep1 & _). cbn beta iota in Hrun.
  apply st_bind_ok_inv in Hrun as (loaded & w2 & Hl & Hrun).
  assert (represents (db w2) v) as Hrep2.
  { eapply read_inv; [|exact Hrep1|exact Hl]. apply keeps_attempt. auto with keeps typeclass_instances. }
  apply st_bind_ok_inv in Hrun as (rec & w3 & Hr & Hrun).
  assert (w3 = w2) as -> by (destruct loaded as [?|[]|]; by inversion Hr).
  apply st_bind_ok_inv in Hrun as ([] & w4 & Hg & Hrun). unfold guard_ in Hg.
  destruct (negb _); [done|]. injection Hg as <-.
  apply st_bind_ok_inv in Hrun as (pt & w5 & Hd & Hrun). apply lift_ok_inv in Hd as [_ <-].
  apply st_bind_ok_inv in Hrun as (config & w5 & Hd & Hrun). apply lift_ok_inv in Hd as [_ <-].
  rewrite now_bind in Hrun. cbv zeta in Hrun.
  apply st_bind_ok_inv in Hrun as (ok & w6 & Hv & Hrun). apply lift_ok_inv in Hv as [_ <-].
  destruct ok.
  - apply st_bind_ok_inv in Hrun as (e & w7 & Ha & Hrun). injection Hrun as <-.
    eapply append_inv in Ha as (evs & Hrep7 & _); [|exact Hrep2|metadata].
    eexists. by split.
  - by apply st_bind_ok_inv in Hrun as (? & ? & _ & Hrun).
Qed.

Lemma revoke_inv id p t' w w' v :
  represents (db w) v → revoke_ticket id p w = (Ok t', w') →
  ∃ kh key t v', unlocks_as p w kh ∧ ticket_mac_key (E:=VaultError) kh = Ok key ∧
    oget id (v_tickets v) = Some t ∧ authentic key t ∧ tk_ticket_id t' = id ∧
    tk_revoked t' = true ∧ represents (db w') v' ∧ filed [t'] v v'.
Proof.
  intros Hrep Hrun. unfold revoke_ticket in Hrun.
  apply st_bind_ok_inv in Hrun as ([h kh] & w1 & Hu & Hrun).
  assert (unlocks_as p w kh) as Hunlock by (exists h, w, w1; by split).
  apply (unlock_inv _ _ _ _ _ v Hrep) in Hu as (Hrep1 & Hh & Hid). cbn beta iota in Hrun.
  apply st_bind_ok_inv in Hrun as (t & w2 & Hload & Hrun).
  apply (load_ticket_inv _ _ _ _ v Hrep1) in Hload as (Hrep2 & Hget & Hwf & Htid).
  apply st_bind_ok_inv in Hrun as (key & w3 & Hk & Hrun). apply lift_ok_inv in Hk as [Hkey <-].
  apply st_bind_ok_inv in Hrun as (t1 & w4 & Hr & Hrun). apply lift_ok_inv in Hr as [Hr <-].
  apply res_try_ok in Hr. pose proof (revoke_authentic _ _ _ Hwf Hr) as Hau.
  apply revoke_ok_inv in Hr as (Hwf' & Hid' & Hrv & Hus); [|done].
  apply st_bind_ok_inv in Hrun as ([] & w5 & Hs & Hrun).
  apply (try_call_inv (SaveTicket t1) _ _ _ v Hrep2) in Hs as [_ Hrep5]; [|done].
  apply st_bind_ok_inv in Hrun as (e & w6 & Ha & Hrun). injection Hrun as -> <-.
  apply (append_inv _ _ _ _ _ _ _ _ _ _ Hrep5) in Ha as (evs & Hrep6 & _); [|metadata].
  exists kh, key, t. eexists. repeat (split; [done|]). split; [congruence|].
  split; [done|]. split; [exact Hrep6|]. by exists evs.
Qed.
(** *** Renewing *)

(** What [validate_ticket] checked, on a ticket it returned. *)
Record validated (kh : KeyHierarchy) (v : View) (id : string) (r : AccessRequest) (now : Z)
    (t : SecretAccessTicket) : Prop := {
  vd_stored : oget id (v_tickets v) = Some t ∧ tk_ticket_id t = id ∧ SecretAccessTicket_wf t;
  vd_terms : ∃ key, ticket_mac_key (E:=VaultError) kh = Ok key ∧ ticket_admits key t r now;
  vd_policy : ∃ p, current_policy v t p ∧ policy_hash (E:=VaultError) p = Ok (tk_policy_hash t);
  vd_secret : secret_current v t;
}.

Lemma validate_inv id r p t w w' v :
  represents (db w) v → validate_ticket id r p w = (Ok t, w') →
  ∃ kh i, unlocks_as p w kh ∧ validated kh v id r (utc_now i) t.
Proof.
  intros Hrep Hrun. unfold validate_ticket in Hrun.
  apply st_bind_ok_inv in Hrun as ([h kh] & w1 & Hu & Hrun).
  assert (unlocks_as p w kh) as Hunlock by (exists h, w, w1; by split).
  apply (unlock_inv _ _ _ _ _ v Hrep) in Hu as (Hrep1 & Hh & Hid). cbn beta iota in Hrun.
  apply st_bind_ok_inv in Hrun as (t' & w2 & Hload & Hrun).
  apply (load_ticket_inv _ _ _ _ v Hrep1) in Hload as (Hrep2 & Hget & Hwf & Htid).
  apply st_bind_ok_inv in Hrun as (key & w3 & Hk & Hrun). apply lift_ok_inv in Hk as [Hkey <-].
  rewrite now_bind in Hrun. set (w4 := {| tick := S (tick w2); db := db w2 |}) in Hrun.
  assert (represents (db w4) v) as Hrep4 by exact Hrep2.
  apply st_bind_ok_inv in Hrun as ([] & w5 & Hv & Hrun). apply lift_ok_inv in Hv as [Hv <-]. apply res_try_ok in Hv. apply validate_spec in Hv; [|done].
  apply st_bind_ok_inv in Hrun as (q & w7 & Hq & Hrun).
  apply (active_policy_inv _ _ _ _ v Hrep4) in Hq as [Hrep7 Hq].
  apply st_bind_ok_inv in Hrun as (ph & w8 & Hp & Hrun). apply lift_ok_inv in Hp as [Hph <-].
  apply st_bind_ok_inv in Hrun as ([] & w9 & Hp & Hrun). apply lift_ok_inv in Hp as [Hp <-].
  apply res_try_ok, validate_policy_inv in Hp as [_ Hhash].
  apply st_bind_ok_inv in Hrun as ([] & w10 & He & Hrun).
  apply (ensure_current_inv _ _ _ v Hrep7) in He as [Hrep10 Hcur]. injection Hrun as -> <-.
  exists kh, (tick w2). split; [exact Hunlock|].
  split; [done|by exists key|exists q; by rewrite Hhash|done].
Qed.

(** The tickets of a renewal: the old one revoked, then the new one. *)
Record renewal (key : bytes) (v : View) (r : AccessRequest)
    (old revoked new : SecretAccessTicket) : Prop := {
  rn_revoked : tk_revoked revoked = true ∧ tk_ticket_id revoked = tk_ticket_id old;
  rn_new : authentic key new ∧ tk_revoked new = false ∧
    tk_secret_ref new = tk_secret_ref old ∧ tk_secret_version new = tk_secret_version old ∧
    tk_broker_session_id new = tk_broker_session_id old;
  rn_policy : ∃ p, current_policy v old p ∧ tk_policy_id new = tk_policy_id old ∧
    policy_hash (E:=VaultError) p = Ok (tk_policy_hash new) ∧ tk_uses_remaining new = pol_max_uses p;
  rn_context : ticket_context new r;
}.

Lemma renew_inv id r p t' w w' v :
  represents (db w) v → AccessRequest_wf r → renew_ticket id r p w = (Ok t', w') →
  ∃ kh kh' key old rev i v', unlocks_as p w kh ∧ unlocks_as p w kh' ∧
    ticket_mac_key (E:=VaultError) kh = Ok key ∧ validated kh' v id r (utc_now i) old ∧
    renewal key v r old rev t' ∧ represents (db w') v' ∧ filed [t'; rev] v v'.
Proof.
  intros Hrep Hr Hrun. unfold renew_ticket in Hrun.
  apply st_bind_ok_inv in Hrun as ([h kh] & w1 & Hu & Hrun).
  assert (unlocks_as p w kh) as Hunlock by (exists h, w, w1; by split).
  pose proof (keeps_unlock same_db (Some p) w) as [Hd1 _]. rewrite Hu in Hd1. cbn [snd] in Hd1.
  apply (unlock_inv _ _ _ _ _ v Hrep) in Hu as (Hrep1 & Hh & Hid). cbn beta iota in Hrun.
  apply st_bind_ok_inv in Hrun as (old & w2 & Hv & Hrun).
  pose proof (read_inv _ _ _ _ _ (validate_reads id r p) Hrep1 Hv) as Hrep2.
  apply (validate_inv _ _ _ _ _ _ v Hrep1) in Hv as (kh' & i & (hb & wa & wb & Hda & Hub) & Hval).
  apply st_bind_ok_inv in Hrun as (q & w3 & Hq & Hrun).
  apply (active_policy_inv _ _ _ _ v Hrep2) in Hq as [Hrep3 Hq].
  apply st_bind_ok_inv in Hrun as (key & w4 & Hk & Hrun). apply lift_ok_inv in Hk as [Hkey <-].
  apply st_bind_ok_inv in Hrun as (ph & w5 & Hp & Hrun). apply lift_ok_inv in Hp as [Hph <-].
  apply st_bind_ok_inv in Hrun as (new & w6 & Hi & Hrun).
  pose proof Hval as [(Hget & Htid & Hwf) (key' & Hkey' & Hadm) _ Hcur].
  apply issue_view in Hi as
    (Hwfn & Hau & Hd & Hs & Hn & Href & Hpid & Hphash & Hrv & Hus & Hses & Hctx);
    [|apply Hwf|done|apply Hq].
  assert (represents (db w6) v) as Hrep6 by (rewrite Hd; exact Hrep3).
  apply st_bind_ok_inv in Hrun as (rev & w7 & Hrev & Hrun). apply lift_ok_inv in Hrev as [Hrev <-]. apply res_try_ok in Hrev.
  apply revoke_ok_inv in Hrev as (Hwfr & Hidr & Hrvr & _); [|done].
  apply st_bind_ok_inv in Hrun as ([] & w8 & Hs8 & Hrun).
  apply (try_call_inv (SaveTicket rev) _ _ _ v Hrep6) in Hs8 as [_ Hrep8]; [|done].
  apply st_bind_ok_inv in Hrun as ([] & w9 & Hs9 & Hrun).
  apply (try_call_inv (SaveTicket new) _ _ _ _ Hrep8) in Hs9 as [_ Hrep9]; [|done].
  apply st_bind_ok_inv in Hrun as (e & w10 & Ha & Hrun). injection Hrun as -> <-.
  apply (append_inv _ _ _ _ _ _ _ _ _ _ Hrep9) in Ha as (evs & Hrep10 & _); [|metadata].
  pose proof (ta_context _ _ _ _ Hadm) as Hold.
  exists kh, kh', key, old, rev, i. eexists. split; [exact Hunlock|].
  split; [exists hb, wa, wb; split; [congruence|done]|]. split; [done|]. split; [done|].
  split; [|split; [exact Hrep10|by exists evs]].
  split; [by split| | |apply Hctx, Hold].
  - rewrite Href, (tc_ref _ _ Hold). by repeat split.
  - exists q. split; [done|]. destruct Hq as (_ & Hqid & _). split; [congruence|]. by rewrite Hphash.
Qed.
End inversion.

(** ** A vault with a policy and a secret to issue tickets for *)

Section setup.
Context {X : Ext} {HC : CodecLaws} {HT : ChronoLaws} {HH : HashLaws} {HA : AeadLaws} {HE : EnvLaws}
  {HN : NoFaults}.

Lemma save_policy_run kh p w v q :
  ready kh p w v → AccessPolicy_wf q →
  ∃ w' v' md, LocalVault_save_policy q p w = (Ok q, w') ∧ ready kh p w' v' ∧
    audited "policy.saved" "high" "allow" md
      (with_policies (oput (pol_policy_id q) q (v_policies v)) v) v'.
Proof.
  intros Hr Hq.
  assert (wp (LocalVault_save_policy q p) w (λ r w', ∃ v' md, r = Ok q ∧ ready kh p w' v' ∧
    audited "policy.saved" "high" "allow" md
      (with_policies (oput (pol_policy_id q) q (v_policies v)) v) v')) as Hwp.
  { unfold LocalVault_save_policy. apply (wp_unlock kh p w v); [done|]. intros h w1 Hl1 Hh Ho.
    cbn beta iota. apply (wp_call_bind kh w1 v (SavePolicy q) tt); [done|exact Hq|exact I|done|].
    intros w2 Hl2 _. eapply wp_append_bind; [exact Hl2|metadata|]. intros e w3 Hl3 He.
    eexists _, _. split; [reflexivity|]. split; [|by exists e]. split; [exact Hl3|]. exists h. by split. }
  apply wp_run in Hwp as (r & w' & Hrun & v' & md & -> & ?). by eauto.
Qed.

Lemma set_export_run kh p w v :
  ready kh p w v →
  ∃ w' v' md, set_plaintext_export_enabled p true true w = (Ok tt, w') ∧ ready kh p w' v' ∧
    audited "config.plaintext_export_enabled" "critical" "allow" md
      (with_config (λ k', if decide (k' = PLAINTEXT_EXPORT_CONFIG_KEY) then Some "enabled"
                          else v_config v k') v) v'.
Proof.
  intros Hr.
  assert (wp (set_plaintext_export_enabled p true true) w (λ r w', ∃ v' md, r = Ok tt ∧
    ready kh p w' v' ∧ audited "config.plaintext_export_enabled" "critical" "allow" md
      (with_config (λ k', if decide (k' = PLAINTEXT_EXPORT_CONFIG_KEY) then Some "enabled"
                          else v_config v k') v) v')) as Hwp.
  { unfold set_plaintext_export_enabled. apply (wp_unlock kh p w v); [done|].
    intros h w1 Hl1 Hh Ho. cbn [andb negb].
    apply (wp_call_bind kh w1 v (SetMetadata PLAINTEXT_EXPORT_CONFIG_KEY "enabled") tt);
      [done|done|exact I|done|].
    intros w2 Hl2 _. eapply wp_append_bind; [exact Hl2|metadata|]. intros e w3 Hl3 He.
    eexists _, _. split; [reflexivity|]. split; [|by exists e]. split; [exact Hl3|]. exists h. by split. }
  apply wp_run in Hwp as (r & w' & Hrun & v' & md & -> & ?). by eauto.
Qed.
End setup.

Lemma ok_run {W E A} (m : ST W E A) w :
  match (m w).1 with Ok _ => true | _ => false end = true → ∃ a w', m w = (Ok a, w').
Proof. destruct (m w) as [[]]; [by eauto|discriminate..]. Qed.

Definition ticket_setup : ST World VaultError unit :=
  _ ← init "correct horse" "prod";
  _ ← LocalVault_save_policy sample_policy "correct horse";
  _ ← put_secret "secret://default/api" (be_bytes 3 7) "correct horse" Password;
  set_plaintext_export_enabled "correct horse" true true.
Definition ticket_world : World := (ticket_setup world0).2.
Definition ticket_request : AccessRequest := sample_request (utc_now 0).

Lemma sample_policy_wf : AccessPolicy_wf sample_policy.
Proof. split; simpl; try done; try (unfold u64_max, u32_max; lia); repeat constructor; done. Qed.

Lemma ticket_request_wf : AccessRequest_wf ticket_request.
Proof. split; [done|]. intros n [= <-]. unfold u32_max. lia. Qed.

Lemma ticket_vault : ∃ kh v, ready kh "correct horse" ticket_world v.
Proof.
  destruct sample_vault as (h & kh & w & v & Hi & Hr & Hrec & _).
  destruct (save_policy_run kh _ w v sample_policy Hr sample_policy_wf)
    as (w1 & v1 & md & Hp & Hr1 & e1 & Hv1 & _).
  assert (v_records v1 = []) as Hrec1 by (subst v1; exact Hrec).
  assert (latest "secret://default/api" v1 = 0) as Hl by (unfold latest; by rewrite Hrec1).
  destruct (put_run kh _ w1 v1 "secret://default/api" (be_bytes 3 7) Password Hr1)
    as (w2 & r & fp & v2 & Hput & Hr2 & _); [reflexivity|rewrite Hl; reflexivity|].
  destruct (set_export_run kh _ w2 v2 Hr2) as (w3 & v3 & md3 & He & Hr3 & _).
  exists kh, v3. assert (ticket_setup world0 = (Ok tt, w3)) as Hrun.
  { unfold ticket_setup. etrans; [apply (st_bind_ok _ _ _ _ _ Hi)|].
    etrans; [apply (st_bind_ok _ _ _ _ _ Hp)|]. etrans; [apply (st_bind_ok _ _ _ _ _ Hput)|].
    exact He. }
  unfold ticket_world. rewrite Hrun. exact Hr3.
Qed.

(** ** Properties *)

(** C3: a secret leaves through a ticket only within the ticket's terms. Whenever
    [consume_ticket_for_secret] returns bytes, on any store and whatever fails in between, the
    stored ticket carries its MAC, is not revoked, has a use left, is unexpired and was
    issued for this very context; the policy it was issued under is still saved, unchanged;
    the secret is still at the ticket's version and active, and the bytes are its
    decryption; a request for a raw export additionally found the export switch on, with the
    second factor verified when one is enrolled; and the stored ticket is left with exactly
    one use less, everything else but the audit log being the same. *)
Theorem materialised_within_terms {X : Ext} {HC : CodecLaws} {HT : ChronoLaws} {HH : HashLaws}
    id r p pt w w' v :
  represents (db w) v → consume_ticket_for_secret id r p w = (Ok pt, w') →
  ∃ kh t t' i v', unlocks_as p w kh ∧ oget id (v_tickets v) = Some t ∧
    materialises kh v t r (utc_now i) pt ∧ represents (db w') v' ∧ used v v' t t'.
Proof. apply consume_inv. Qed.

Lemma materialised_within_terms_witness : ∃ t w1 pt w2 v v' t',
  issue_ticket ticket_request "correct horse" ticket_world = (Ok t, w1) ∧
  consume_ticket_for_secret (tk_ticket_id t) ticket_request "correct horse" w1 = (Ok pt, w2) ∧
  oget (tk_ticket_id t) (v_tickets v) = Some t ∧ represents (db w2) v' ∧ used v v' t t'.
Proof.
  destruct ticket_vault as (kh & v & Hr). pose proof (lv_rep _ _ _ (rd_live _ _ _ _ Hr)) as Hrep.
  destruct (ok_run (issue_ticket ticket_request "correct horse") ticket_world) as (t & w1 & Hi);
    [vm_compute; reflexivity|].
  destruct (issue_inv _ _ _ _ _ _ Hrep ticket_request_wf Hi) as (kh' & v1 & _ & _ & Hrep1 & evs & Hv1).
  destruct (ok_run (consume_ticket_for_secret (tk_ticket_id t) ticket_request "correct horse") w1)
    as (pt & w2 & Hc).
  { assert (t = match (issue_ticket ticket_request "correct horse" ticket_world).1 with
                | Ok t => t | _ => no_ticket end) as -> by (rewrite Hi; reflexivity).
    assert (w1 = (issue_ticket ticket_request "correct horse" ticket_world).2) as ->
      by (rewrite Hi; reflexivity).
    vm_compute. reflexivity. }
  destruct (materialised_within_terms _ _ _ _ _ _ v1 Hrep1 Hc)
    as (kh2 & t2 & t' & i & v' & _ & Hget & _ & Hrep' & Hused).
  assert (t2 = t) as ->.
  { subst v1. cbn [v_tickets with_audit with_tickets foldr] in Hget. rewrite oget_oput_eq in Hget.
    congruence. }
  exists t, w1, pt, w2, v1, v', t'. exact (conj Hi (conj Hc (conj Hget (conj Hrep' Hused)))).
Defined.

(** C5: a ticket is issued only for what a saved policy grants. Whenever [issue_ticket] returns a
    ticket, on any store and whatever fails in between, some saved policy grants the request
    by the declarative specification, the ticket names that policy, its hash and its number
    of uses, the secret's latest version is active and is the one the ticket is for, the
    ticket carries its MAC and the request's context, and it is filed in the store, where
    nothing else but the audit log has changed. *)
Theorem issued_only_when_granted {X : Ext} {HC : CodecLaws} {HT : ChronoLaws} {HH : HashLaws}
    r p t w w' v :
  represents (db w) v → AccessRequest_wf r → issue_ticket r p w = (Ok t, w') →
  ∃ kh v', unlocks_as p w kh ∧ issued_for kh v r t ∧ represents (db w') v' ∧ filed [t] v v'.
Proof. apply issue_inv. Qed.

Lemma issued_only_when_granted_witness : ∃ t w' v v',
  issue_ticket ticket_request "correct horse" ticket_world = (Ok t, w') ∧
  represents (db w') v' ∧ filed [t] v v'.
Proof.
  destruct ticket_vault as (kh & v & Hr). pose proof (lv_rep _ _ _ (rd_live _ _ _ _ Hr)) as Hrep.
  destruct (ok_run (issue_ticket ticket_request "correct horse") ticket_world) as (t & w1 & Hi);
    [vm_compute; reflexivity|].
  destruct (issued_only_when_granted _ _ _ _ _ _ Hrep ticket_request_wf Hi)
    as (kh' & v1 & _ & _ & Hrep1 & Hf).
  exists t, w1, v, v1. exact (conj Hi (conj Hrep1 Hf)).
Defined.

(** Renewing a ticket replaces it. Whenever [renew_ticket] returns a ticket, the old one was
    stored and valid for this request at that moment, under its unchanged policy and at the
    secret's current version; it is now revoked in the store, and the new ticket is filed,
    for the same secret, version, policy and broker session, with the policy's number of uses
    and its own MAC. *)
Theorem renewal_replaces_ticket {X : Ext} {HC : CodecLaws} {HT : ChronoLaws} {HH : HashLaws}
    id r p t' w w' v :
  represents (db w) v → AccessRequest_wf r → renew_ticket id r p w = (Ok t', w') →
  ∃ kh kh' key old rev i v', unlocks_as p w kh ∧ unlocks_as p w kh' ∧
    ticket_mac_key (E:=VaultError) kh = Ok key ∧ validated kh' v id r (utc_now i) old ∧
    renewal key v r old rev t' ∧ represents (db w') v' ∧ filed [t'; rev] v v'.
Proof. apply renew_inv. Qed.

Lemma renewal_replaces_ticket_witness : ∃ t w1 t' w2 v v' rev,
  issue_ticket ticket_request "correct horse" ticket_world = (Ok t, w1) ∧
  renew_ticket (tk_ticket_id t) ticket_request "correct horse" w1 = (Ok t', w2) ∧
  represents (db w2) v' ∧ filed [t'; rev] v v'.
Proof.
  destruct ticket_vault as (kh & v & Hr). pose proof (lv_rep _ _ _ (rd_live _ _ _ _ Hr)) as Hrep.
  destruct (ok_run (issue_ticket ticket_request "correct horse") ticket_world) as (t & w1 & Hi);
    [vm_compute; reflexivity|].
  destruct (issue_inv _ _ _ _ _ _ Hrep ticket_request_wf Hi) as (kh' & v1 & _ & _ & Hrep1 & _).
  destruct (ok_run (renew_ticket (tk_ticket_id t) ticket_request "correct horse") w1)
    as (t' & w2 & Hc).
  { assert (t = match (issue_ticket ticket_request "correct horse" ticket_world).1 with
                | Ok t => t | _ => no_ticket end) as -> by (rewrite Hi; reflexivity).
    assert (w1 = (issue_ticket ticket_request "correct horse" ticket_world).2) as ->
      by (rewrite Hi; reflexivity).
    vm_compute. reflexivity. }
  destruct (renewal_replaces_ticket _ _ _ _ _ _ v1 Hrep1 ticket_request_wf Hc)
    as (kh2 & kh3 & key & old & rev & i & v' & _ & _ & _ & _ & _ & Hrep' & Hf).
  exists t, w1, t', w2, v1, v', rev. exact (conj Hi (conj Hc (conj Hrep' Hf))).
Defined.
