(* ===== verification/VaultRotation.v ===== *)
(** * Rotation on a working store (vault.rs)

    Staging, verifying, promoting and rolling back a new version of a secret: what each step
    leaves in the store, the order the states enforce, and what promotion does when the
    version it staged has been taken in the meantime. *)

From S2P Require Export VaultTickets.
From S2P Require Import Toy.
#[local] Open Scope Z_scope.

Section rotation.
Context {X : Ext} {HC : CodecLaws} {HT : ChronoLaws} {HH : HashLaws} {HA : AeadLaws} {HE : EnvLaws}
  {HN : NoFaults}.

(** A job in state [st] for version [n] of [s], whose staged record opens to [pt]. *)
Record stages (kh : KeyHierarchy) (s : string) (n : Z) (pt : bytes) (st : RotationJobStatus)
    (j : RotationJob) : Prop := {
  sg_ref : job_secret_ref j = s ∧ rec_secret_ref (job_staged_record j) = s;
  sg_version : job_staged_version j = n ∧ rec_secret_version (job_staged_record j) = n;
  sg_status : job_status j = st;
  sg_opens : decrypt_secret kh (job_staged_record j) = Ok pt;
  sg_wf : RotationJob_wf j;
}.

(** Advancing a job keeps all but its state and its date. *)
Lemma wp_transition {B} kh w v j st (f : RotationJob → ST World VaultError B) Q s n pt st0 :
  live kh w v → stages kh s n pt st0 j →
  (∀ j' w', live kh w' v → stages kh s n pt st j' → job_id j' = job_id j → wp (f j') w' Q) →
  wp (transition j st None ≫= f) w Q.
Proof.
  intros Hl [[] [] _ ? []] HQ. unfold transition, wp. rewrite st_bind_assoc, now_bind, st_ret_bind.
  apply HQ; [|by split|done]. eapply live_same; [done|split; simpl; [done|lia]].
Qed.

Lemma wp_find_job {B} kh w v id j (f : RotationJob → ST World VaultError B) Q :
  live kh w v → oget id (v_jobs v) = Some j →
  (∀ w', live kh w' v → wp (f j) w' Q) → wp (find_rotation_job id ≫= f) w Q.
Proof.
  intros Hl Hj HQ. unfold find_rotation_job, wp. rewrite st_bind_assoc.
  apply (wp_call_bind kh w v (LoadRotationJob id) (Some j)); [done|exact I|exact I| |].
  { cbn [spec fst]. by rewrite Hj. }
  intros w' Hl' _. unfold wp. cbn [ok_or]. rewrite st_lift_ok. by apply HQ.
Qed.

Lemma start_rotation_run kh p w v s pt t :
  ready kh p w v → starts_with s "secret://" = true → latest s v < i64_max →
  ∃ j w' v' md, start_rotation s pt p t w = (Ok j, w') ∧ ready kh p w' v' ∧
    stages kh s (latest s v + 1) pt JobStaged j ∧
    audited "rotation.started" "info" "allow" md (with_jobs (oput (job_id j) j (v_jobs v)) v) v'.
Proof.
  intros Hr Hs Hlt. pose proof (rp_ok _ _ (lv_rep _ _ _ (rd_live _ _ _ _ Hr))) as Hok.
  pose proof (latest_bound v s Hok) as Hb.
  assert (wp (start_rotation s pt p t) w (λ r w', ∃ j v' md, r = Ok j ∧ ready kh p w' v' ∧
    stages kh s (latest s v + 1) pt JobStaged j ∧
    audited "rotation.started" "info" "allow" md (with_jobs (oput (job_id j) j (v_jobs v)) v) v'))
    as Hwp.
  { unfold start_rotation. apply (wp_unlock kh p w v); [done|]. intros h w1 Hl1 Hh Ho.
    cbn beta iota. apply (wp_next_version kh w1 v); [done|]. intros w2 Hl2.
    apply (wp_encrypt kh w2 v); [done|done|unfold i64_max, u64_max in *; lia|].
    intros r w3 Hl3 [Href Hver Hact Hwf Hopen].
    eapply wp_eq.
    { unfold RotationJob_create. rewrite st_bind_assoc, now_bind, st_bind_assoc, uuid_bind, st_ret_bind.
      reflexivity. }
    cbn [tick db].
    match goal with |- context [save_rotation_job ?j] => set (job := j) end.
    set (w4 := {| tick := S (S (tick w3)); db := db w3 |}).
    assert (RotationJob_wf job) as Hjwf.
    { split; simpl; [unfold i64_max, u64_max in *; lia|by apply set_status_wf]. }
    apply (wp_call_bind kh w4 v (SaveRotationJob job) tt);
      [eapply live_same; [exact Hl3|split; simpl; [done|lia]]|exact Hjwf|exact I|done|].
    intros w5 Hl5 _. eapply wp_append_bind; [exact Hl5|metadata|]. intros e w6 Hl6 He.
    exists job. eexists _, _. split; [reflexivity|]. split; [|split; [|by exists e]].
    - split; [exact Hl6|]. exists h. by split.
    - by split. }
  apply wp_run in Hwp as (r & w' & Hrun & j & v' & md & -> & ?). by eauto 10.
Qed.

Lemma verify_rotation_run kh p w v id j s n pt :
  ready kh p w v → oget id (v_jobs v) = Some j → stages kh s n pt JobStaged j →
  ∃ j' w' v' md, verify_rotation id p w = (Ok j', w') ∧ ready kh p w' v' ∧
    stages kh s n pt JobVerified j' ∧ job_id j' = job_id j ∧
    audited "rotation.verified" "info" "allow" md (with_jobs (oput (job_id j) j' (v_jobs v)) v) v'.
Proof.
  intros Hr Hj Hsg.
  assert (wp (verify_rotation id p) w (λ r w', ∃ j' v' md, r = Ok j' ∧ ready kh p w' v' ∧
    stages kh s n pt JobVerified j' ∧ job_id j' = job_id j ∧
    audited "rotation.verified" "info" "allow" md (with_jobs (oput (job_id j) j' (v_jobs v)) v) v'))
    as Hwp.
  { unfold verify_rotation. apply (wp_unlock kh p w v); [done|]. intros h w1 Hl1 Hh Ho.
    cbn beta iota. apply (wp_find_job kh w1 v id j); [done|done|]. intros w2 Hl2.
    apply wp_guard_bind; [by rewrite (sg_status _ _ _ _ _ _ Hsg)|].
    rewrite (sg_opens _ _ _ _ _ _ Hsg). apply wp_lift_bind.
    apply (wp_transition kh w2 v j JobVerified _ _ s n pt JobStaged Hl2 Hsg).
    intros j' w3 Hl3 Hsg' Hid.
    apply (wp_call_bind kh w3 v (SaveRotationJob j') tt);
      [exact Hl3|apply (sg_wf _ _ _ _ _ _ Hsg')|exact I|done|].
    intros w4 Hl4 _. eapply wp_append_bind; [exact Hl4|metadata|]. intros e w5 Hl5 He.
    exists j'. eexists _, _. split; [reflexivity|]. split; [|split; [done|split; [done|]]].
    - split; [exact Hl5|]. exists h. by split.
    - exists e. cbn [spec snd]. by rewrite Hid. }
  apply wp_run in Hwp as (r & w' & Hrun & j' & v' & md & -> & ?). by eauto 10.
Qed.

(** Promotion files the staged record, active, under its version, whatever is there. *)
Lemma promote_rotation_run kh p w v id j s n pt :
  ready kh p w v → oget id (v_jobs v) = Some j → stages kh s n pt JobVerified j → n <= i64_max →
  ∃ j' fp w' v' md, promote_rotation id p w = (Ok j', w') ∧ ready kh p w' v' ∧
    stages kh s n pt JobPromoted j' ∧ job_id j' = job_id j ∧
    audited "rotation.promoted" "high" "allow" md
      (with_jobs (oput (job_id j) j' (v_jobs v))
        (with_fingerprints (oput (s, n) fp (v_fingerprints v))
          (with_records (oput (s, n) (set_status Active (job_staged_record j)) (v_records v)) v))) v'.
Proof.
  intros Hr Hj Hsg Hn. pose proof Hsg as [[Href Hrref] [Hver Hrver] Hst Hopen Hwf].
  assert (wp (promote_rotation id p) w (λ r w', ∃ j' fp v' md, r = Ok j' ∧ ready kh p w' v' ∧
    stages kh s n pt JobPromoted j' ∧ job_id j' = job_id j ∧
    audited "rotation.promoted" "high" "allow" md
      (with_jobs (oput (job_id j) j' (v_jobs v))
        (with_fingerprints (oput (s, n) fp (v_fingerprints v))
          (with_records (oput (s, n) (set_status Active (job_staged_record j)) (v_records v)) v)))
      v')) as Hwp.
  { unfold promote_rotation. apply (wp_unlock kh p w v); [done|]. intros h w1 Hl1 Hh Ho.
    cbn beta iota. apply (wp_find_job kh w1 v id j); [done|done|]. intros w2 Hl2.
    apply wp_guard_bind; [by rewrite Hst|]. rewrite Hopen. apply wp_lift_bind.
    pose proof (wp_call_bind (B:=RotationJob) kh w2 v
      (SaveSecretRecord (set_status Active (job_staged_record j))) tt) as Hc.
    cbn [spec call_ok] in Hc. rewrite Hh in Hc.
    change (rec_secret_version (set_status Active (job_staged_record j))) with
      (rec_secret_version (job_staged_record j)) in Hc.
    change (rec_secret_ref (set_status Active (job_staged_record j))) with
      (rec_secret_ref (job_staged_record j)) in Hc.
    rewrite Hrver, Hrref, (proj2 (Z.leb_le n i64_max)) in Hc by lia.
    apply Hc; [done|apply set_status_wf, Hwf|exact I|done|]. intros w3 Hl3 _. cbn [snd] in Hl3. rewrite Href, Hver.
    apply (wp_save_fingerprint kh w3 _ _ _ _ _ _ Hl3); [lia|]. intros fp w4 Hl4.
    apply (wp_transition kh w4 _ j JobPromoted _ _ s n pt JobVerified Hl4 Hsg).
    intros j' w5 Hl5 Hsg' Hid.
    match type of Hl5 with live _ _ ?v5 =>
      apply (wp_call_bind kh w5 v5 (SaveRotationJob j') tt);
        [exact Hl5|apply (sg_wf _ _ _ _ _ _ Hsg')|exact I|done|] end.
    intros w6 Hl6 _. pose proof (sg_wf _ _ _ _ _ _ Hsg') as Hwf'.
    eapply wp_append_bind; [exact Hl6|metadata|]. intros e w7 Hl7 He.
    exists j', fp. eexists _, _. split; [reflexivity|]. split; [|split; [done|split; [done|]]].
    - split; [exact Hl7|]. exists h. by split.
    - exists e. cbn [spec snd]. by rewrite Hid. }
  apply wp_run in Hwp as (r & w' & Hrun & j' & fp & v' & md & -> & ?). by eauto 10.
Qed.
End rotation.

(** ** The states of a job *)

Inductive rotation_op : Type := VerifyJob | PromoteJob | RollbackJob.
#[export] Instance rotation_op_eq_dec : EqDecision rotation_op.
Proof. solve_decision. Defined.

Definition run_rotation `{Ext} (o : rotation_op) (id p : string) : ST World VaultError RotationJob :=
  match o with
  | VerifyJob => verify_rotation id p
  | PromoteJob => promote_rotation id p
  | RollbackJob => rollback_rotation id p
  end.

Inductive job_step : rotation_op → RotationJobStatus → RotationJobStatus → Prop :=
| step_verify : job_step VerifyJob JobStaged JobVerified
| step_promote : job_step PromoteJob JobVerified JobPromoted
| step_rollback_staged : job_step RollbackJob JobStaged JobRolledBack
| step_rollback_verified : job_step RollbackJob JobVerified JobRolledBack.

Section states.
Context {X : Ext} {HC : CodecLaws} {HT : ChronoLaws} {HH : HashLaws}.

Lemma find_job_inv id j w w' v :
  represents (db w) v → find_rotation_job id w = (Ok j, w') →
  represents (db w') v ∧ oget id (v_jobs v) = Some j ∧ RotationJob_wf j ∧ job_id j = id.
Proof.
  intros Hrep Hrun. unfold find_rotation_job in Hrun.
  apply st_bind_ok_inv in Hrun as (o & w1 & Hrun & Hl).
  apply (try_call_inv (LoadRotationJob id) _ _ _ v Hrep I) in Hrun as [Ho Hrep1].
  injection Ho as <-. apply lift_ok_inv in Hl as [Ho <-]. apply ok_or_ok_inv in Ho.
  split; [done|]. split; [done|]. by destruct (rep_job_filed _ _ Hrep _ _ Ho).
Qed.

Lemma transition_inv {E} j st fr j' w w' v :
  represents (db w) v → transition (E:=E) j st fr w = (Ok j', w') → RotationJob_wf j →
  represents (db w') v ∧ job_id j' = job_id j ∧ job_status j' = st ∧ RotationJob_wf j'.
Proof.
  intros Hrep Hrun [Hv Hr].
  pose proof (read_inv _ _ _ _ _ (keeps_transition same_db j st fr) Hrep Hrun) as Hrep'.
  apply transition_ok_inv in Hrun as (H1 & H2 & H3 & _ & H5).
  repeat (split; [done|]). split; by rewrite ?H1, ?H2.
Qed.

(** The tail every operation shares: advance the job, file it, record the event. *)
Lemma advance_inv h kh j st ty sev md j' w w' v :
  represents (db w) v → RotationJob_wf j →
  (∀ j, RotationJob_wf j → json_ok (JObj (md j)) = true) →
  (job ← transition j st None;
   _ ← try_ (save_rotation_job job);
   _ ← append_audit h kh ty sev "allow" (md job); mret job) w = (Ok j', w') →
  job_status j' = st ∧ ∃ events, represents (db w')
    (with_audit (v_audit v ++ events) (with_jobs (oput (job_id j) j' (v_jobs v)) v)).
Proof.
  intros Hrep Hwf Hmd Hrun.
  apply st_bind_ok_inv in Hrun as (job & w1 & Ht & Hrun).
  apply (transition_inv _ _ _ _ _ _ v Hrep) in Ht as (Hrep1 & Hid & Hst & Hwf'); [|done].
  apply st_bind_ok_inv in Hrun as ([] & w2 & Hs & Hrun).
  apply (try_call_inv (SaveRotationJob job) _ _ _ v Hrep1) in Hs as [_ Hrep2]; [|done].
  apply st_bind_ok_inv in Hrun as (e & w3 & Ha & Hrun). injection Hrun as -> <-.
  apply (append_inv _ _ _ _ _ _ _ _ _ _ Hrep2) in Ha as (evs & Hrep3 & _); [|by apply Hmd].
  cbn [spec snd] in Hrep3. rewrite Hid in Hrep3. split; [done|]. by exists evs.
Qed.

Lemma save_fingerprint_inv kh s n pt w w' v :
  represents (db w) v → save_fingerprint kh s n pt w = (Ok tt, w') →
  ∃ fp, represents (db w') (with_fingerprints fp v).
Proof.
  intros Hrep Hrun. unfold save_fingerprint in Hrun.
  apply st_bind_ok_inv in Hrun as (k & w1 & Hk & Hrun). apply lift_ok_inv in Hk as [_ <-].
  eapply (try_call_inv (SaveFingerprint s n _)) in Hrun as [Ho Hrep1]; [|exact Hrep|exact I].
  cbn [spec] in Ho, Hrep1. destruct (n <=? i64_max); [|done]. by eexists.
Qed.

Lemma rotation_inv o id p j' w w' v :
  represents (db w) v → run_rotation o id p w = (Ok j', w') →
  ∃ kh j v', unlocks_as p w kh ∧ oget id (v_jobs v) = Some j ∧
    job_step o (job_status j) (job_status j') ∧
    (o ≠ RollbackJob → ∃ pt, decrypt_secret kh (job_staged_record j) = Ok pt) ∧
    represents (db w') v' ∧ v_jobs v' = oput id j' (v_jobs v) ∧
    v_records v' = if decide (o = PromoteJob)
                   then oput (rec_secret_ref (job_staged_record j),
                              rec_secret_version (job_staged_record j))
                          (set_status Active (job_staged_record j)) (v_records v)
                   else v_records v.
Proof.
  intros Hrep Hrun.
  assert (∀ s ev, json_ok (JObj (map_from_json (obj [("job_id", JStr s); ("secret_ref", JStr ev)]))) = true)
    as Hmd by (intros; metadata).
  destruct o; cbn [run_rotation] in Hrun;
    [unfold verify_rotation in Hrun|unfold promote_rotation in Hrun|unfold rollback_rotation in Hrun];
    apply st_bind_ok_inv in Hrun as ([h kh] & w1 & Hu & Hrun);
    (assert (unlocks_as p w kh) as Hunlock by (exists h, w, w1; by split));
    apply (unlock_inv _ _ _ _ _ v Hrep) in Hu as (Hrep1 & _ & _); cbn beta iota in Hrun;
    apply st_bind_ok_inv in Hrun as (j & w2 & Hf & Hrun);
    apply (find_job_inv _ _ _ _ v Hrep1) in Hf as (Hrep2 & Hj & Hwf & Hid);
    apply st_bind_ok_inv in Hrun as ([] & w3 & Hg & Hrun); unfold guard_ in Hg;
    (destruct (negb _) eqn:Hst; [done|]); injection Hg as <-; apply negb_false_iff in Hst.
  - apply bool_decide_eq_true_1 in Hst.
    apply st_bind_ok_inv in Hrun as (pt & w4 & Hd & Hrun). apply lift_ok_inv in Hd as [Hd <-].
    apply res_try_ok in Hd.
    apply (advance_inv h kh j JobVerified _ _
      (λ j, map_from_json (obj [("job_id", JStr id); ("secret_ref", JStr (job_secret_ref j))])) _ _ _ v
      Hrep2 Hwf) in Hrun as (Hst' & evs & Hrep'); [|done].
    exists kh, j. eexists. split; [done|]. split; [done|].
    split; [rewrite Hst, Hst'; constructor|]. split; [by exists pt|].
    split; [exact Hrep'|]. split; [by rewrite <-Hid|done].
  - apply bool_decide_eq_true_1 in Hst.
    apply st_bind_ok_inv in Hrun as (pt & w4 & Hd & Hrun). apply lift_ok_inv in Hd as [Hd <-].
    apply res_try_ok in Hd.
    apply st_bind_ok_inv in Hrun as ([] & w5 & Hs & Hrun).
    apply (try_call_inv (SaveSecretRecord _) _ _ _ v Hrep2) in Hs as [Ho Hrep5];
      [|apply set_status_wf, Hwf].
    cbn [spec] in Ho, Hrep5. destruct (v_header v); [|done]. destruct (_ <=? i64_max); [|done].
    cbn [snd] in Hrep5.
    apply st_bind_ok_inv in Hrun as ([] & w6 & Hs & Hrun).
    apply (save_fingerprint_inv _ _ _ _ _ _ _ Hrep5) in Hs as (fp & Hrep6).
    apply (advance_inv h kh j JobPromoted _ _
      (λ j, map_from_json (obj [("job_id", JStr id); ("secret_ref", JStr (job_secret_ref j));
        ("version", ser_u64 (job_staged_version j))])) _ _ _ _
      Hrep6 Hwf) in Hrun as (Hst' & evs & Hrep'); [|intros j1 Hj1; metadata].
    exists kh, j. eexists. split; [done|]. split; [done|].
    split; [rewrite Hst, Hst'; constructor|]. split; [by exists pt|].
    split; [exact Hrep'|]. split; [by rewrite <-Hid|done].
  - apply (advance_inv h kh j JobRolledBack _ _
      (λ j, map_from_json (obj [("job_id", JStr id); ("secret_ref", JStr (job_secret_ref j))])) _ _ _ v
      Hrep2 Hwf) in Hrun as (Hst' & evs & Hrep'); [|done].
    exists kh, j. eexists. split; [done|]. split; [done|]. split.
    { rewrite Hst'. unfold has in Hst. destruct (job_status j); try discriminate; constructor. }
    split; [done|]. split; [exact Hrep'|]. split; [by rewrite <-Hid|done].
Qed.
End states.

(** ** Properties *)

(** C30: a rotation goes through its states in order and touches secrets only when promoted.
    Whenever an operation on a rotation job succeeds, on any store, the stored job was in a
    state the operation starts from (verify: staged; promote: verified; roll back: staged or
    verified) and is now in the one it leads to; verification and promotion decrypted the
    staged record; only promotion changes the secrets, filing the staged record, active,
    under its own version. *)
Theorem rotation_in_order {X : Ext} {HC : CodecLaws} {HT : ChronoLaws} {HH : HashLaws}
    o id p j' w w' v :
  represents (db w) v → run_rotation o id p w = (Ok j', w') →
  ∃ kh j v', unlocks_as p w kh ∧ oget id (v_jobs v) = Some j ∧
    job_step o (job_status j) (job_status j') ∧
    (o ≠ RollbackJob → ∃ pt, decrypt_secret kh (job_staged_record j) = Ok pt) ∧
    represents (db w') v' ∧ v_jobs v' = oput id j' (v_jobs v) ∧
    v_records v' = if decide (o = PromoteJob)
                   then oput (rec_secret_ref (job_staged_record j),
                              rec_secret_version (job_staged_record j))
                          (set_status Active (job_staged_record j)) (v_records v)
                   else v_records v.
Proof. apply rotation_inv. Qed.

Lemma rotation_in_order_witness : ∃ h kh w v j w1 v1 j' w2 v2,
  init "correct horse" "prod" world0 = (Ok h, w) ∧ ready kh "correct horse" w v ∧
  start_rotation "secret://db" (be_bytes 3 7) "correct horse" Password w = (Ok j, w1) ∧
  represents (db w1) v1 ∧ run_rotation VerifyJob (job_id j) "correct horse" w1 = (Ok j', w2) ∧
  represents (db w2) v2 ∧ v_jobs v2 = oput (job_id j) j' (v_jobs v1).
Proof.
  destruct sample_vault as (h & kh & w & v & Hi & Hr & Hrec & _).
  assert (latest "secret://db" v = 0) as Hl by (unfold latest; by rewrite Hrec).
  destruct (start_rotation_run kh _ w v "secret://db" (be_bytes 3 7) Password Hr)
    as (j & w1 & v1 & md & Hs & Hr1 & Hsg & e & Hv1 & _); [reflexivity|rewrite Hl; reflexivity|].
  assert (oget (job_id j) (v_jobs v1) = Some j) as Hj by (subst v1; apply oget_oput_eq).
  destruct (verify_rotation_run kh _ w1 v1 (job_id j) j _ _ _ Hr1 Hj Hsg)
    as (j' & w2 & _ & _ & Hv & _).
  pose proof (lv_rep _ _ _ (rd_live _ _ _ _ Hr1)) as Hrep1.
  destruct (rotation_in_order VerifyJob (job_id j) "correct horse" j' w1 w2 v1 Hrep1 Hv)
    as (_ & _ & v2 & _ & _ & _ & _ & Hrep2 & Hjobs & _).
  exists h, kh, w, v, j, w1, v1, j', w2, v2.
  exact (conj Hi (conj Hr (conj Hs (conj Hrep1 (conj Hv (conj Hrep2 Hjobs)))))).
Defined.

Section lifecycle.
Context {X : Ext} {HC : CodecLaws} {HT : ChronoLaws} {HH : HashLaws} {HA : AeadLaws} {HE : EnvLaws}
  {HN : NoFaults}.

(** From a staged job to reading its plaintext. *)
Lemma finish_rotation kh p w v j s n pt :
  ready kh p w v → oget (job_id j) (v_jobs v) = Some j → stages kh s n pt JobStaged j →
  n <= i64_max → (∀ n', is_Some (oget (s, n') (v_records v)) → n' <= n) →
  ∃ j1 w1 j2 w2 w3 v3, verify_rotation (job_id j) p w = (Ok j1, w1) ∧
    promote_rotation (job_id j) p w1 = (Ok j2, w2) ∧ job_status j2 = JobPromoted ∧
    get_secret s p w2 = (Ok pt, w3) ∧ ready kh p w3 v3 ∧
    v_records v3 = oput (s, n) (set_status Active (job_staged_record j1)) (v_records v) ∧
    stages kh s n pt JobVerified j1.
Proof.
  intros Hr Hj Hsg Hn Hmax.
  destruct (verify_rotation_run kh p w v _ j s n pt Hr Hj Hsg)
    as (j1 & w1 & v1 & md1 & Hv & Hr1 & Hsg1 & Hid1 & e1 & Hv1 & _).
  assert (oget (job_id j) (v_jobs v1) = Some j1) as Hj1 by (subst v1; apply oget_oput_eq).
  destruct (promote_rotation_run kh p w1 v1 _ j1 s n pt Hr1 Hj1 Hsg1 Hn)
    as (j2 & fp & w2 & v2 & md2 & Hp & Hr2 & Hsg2 & _ & e2 & Hv2 & _).
  assert (v_records v2 = oput (s, n) (set_status Active (job_staged_record j1)) (v_records v)) as Hrec
    by (subst v2 v1; reflexivity).
  pose proof (proj1 (vk_records _ (rp_ok _ _ (lv_rep _ _ _ (rd_live _ _ _ _ Hr))))) as Hsort.
  assert (last (versions_of s (v_records v2)) = Some (n, set_status Active (job_staged_record j1)))
    as Hlast.
  { rewrite Hrec. apply last_versions_spec; [by apply osorted_oput|].
    split; [by apply oget_oput_eq|]. intros n'. rewrite oget_oput. case_decide as Hd.
    - injection Hd as ->. intros _. apply Z.le_refl.
    - apply Hmax. }
  destruct (get_run kh p w2 v2 s n _ pt Hr2 Hlast eq_refl (sg_opens _ _ _ _ _ _ Hsg1))
    as (w3 & v3 & Hg & Hr3 & e3 & Hv3 & _).
  exists j1, w1, j2, w2, w3, v3. split; [done|]. split; [done|].
  split; [apply (sg_status _ _ _ _ _ _ Hsg2)|]. split; [done|]. split; [done|].
  split; [subst v3; exact Hrec|done].
Qed.

Lemma latest_max v s n' :
  View_ok v → is_Some (oget (s, n') (v_records v)) → n' <= latest s v.
Proof.
  intros Hok Hn. pose proof (proj1 (vk_records _ Hok)) as Hsort. unfold latest.
  destruct (last (versions_of s (v_records v))) as [[n r]|] eqn:Hl; simpl.
  - apply last_versions_spec in Hl as [_ Hmax]; [|done]. by apply Hmax.
  - destruct Hn as [r Hr%oget_elem_of%elem_of_versions]. apply last_None in Hl.
    rewrite Hl in Hr. by apply elem_of_nil in Hr.
Qed.
End lifecycle.

(** C31: a rotation rotates. On a working store, staging new bytes for a reference changes no
    secret; verifying and promoting the job then succeed, and reading the reference returns
    the new bytes, at the next version, every older version being kept. *)
Theorem rotation_completes {X : Ext} {HC : CodecLaws} {HT : ChronoLaws} {HH : HashLaws}
    {HA : AeadLaws} {HE : EnvLaws} {HN : NoFaults} kh p w v s pt t :
  ready kh p w v → starts_with s "secret://" = true → latest s v < i64_max →
  ∃ j w1 v1 j1 w2 j2 w3 w4 v4, start_rotation s pt p t w = (Ok j, w1) ∧ ready kh p w1 v1 ∧
    v_records v1 = v_records v ∧ verify_rotation (job_id j) p w1 = (Ok j1, w2) ∧
    promote_rotation (job_id j) p w2 = (Ok j2, w3) ∧ get_secret s p w3 = (Ok pt, w4) ∧
    ready kh p w4 v4 ∧
    (∀ k, k ≠ (s, latest s v + 1) → oget k (v_records v4) = oget k (v_records v)).
Proof.
  intros Hr Hs Hlt. pose proof (rp_ok _ _ (lv_rep _ _ _ (rd_live _ _ _ _ Hr))) as Hok.
  destruct (start_rotation_run kh p w v s pt t Hr Hs Hlt)
    as (j & w1 & v1 & md & Hst & Hr1 & Hsg & e & Hv1 & _).
  assert (oget (job_id j) (v_jobs v1) = Some j) as Hj by (subst v1; apply oget_oput_eq).
  assert (v_records v1 = v_records v) as Hrec1 by (subst v1; reflexivity).
  destruct (finish_rotation kh p w1 v1 j s (latest s v + 1) pt Hr1 Hj Hsg)
    as (j1 & w2 & j2 & w3 & w4 & v4 & Hv & Hp & _ & Hg & Hr4 & Hrec4 & _); [lia| |].
  { intros n' Hn'. rewrite Hrec1 in Hn'. pose proof (latest_max v s n' Hok Hn'). lia. }
  exists j, w1, v1, j1, w2, j2, w3, w4, v4. split; [done|]. split; [done|]. split; [done|].
  split; [done|]. split; [done|]. split; [done|]. split; [done|].
  intros k Hk. rewrite Hrec4, Hrec1. by apply oget_oput_ne.
Qed.

Lemma rotation_completes_witness : ∃ h w j w1 j1 w2 j2 w3 w4,
  init "correct horse" "prod" world0 = (Ok h, w) ∧
  start_rotation "secret://db" (be_bytes 3 7) "correct horse" Password w = (Ok j, w1) ∧
  verify_rotation (job_id j) "correct horse" w1 = (Ok j1, w2) ∧
  promote_rotation (job_id j) "correct horse" w2 = (Ok j2, w3) ∧
  get_secret "secret://db" "correct horse" w3 = (Ok (be_bytes 3 7), w4).
Proof.
  destruct sample_vault as (h & kh & w & v & Hi & Hr & Hrec & _).
  assert (latest "secret://db" v = 0) as Hl by (unfold latest; by rewrite Hrec).
  destruct (rotation_completes kh _ w v "secret://db" (be_bytes 3 7) Password Hr)
    as (j & w1 & v1 & j1 & w2 & j2 & w3 & w4 & v4 & Hs & _ & _ & Hv & Hp & Hg & _);
    [reflexivity|rewrite Hl; reflexivity|].
  exists h, w, j, w1, j1, w2, j2, w3, w4. exact (conj Hi (conj Hs (conj Hv (conj Hp Hg)))).
Defined.

(** Promotion overwrites a version stored in the meantime. The staged version number is
    chosen when the rotation starts and not checked again: when a secret is put under the
    same reference between start and promotion, it gets the very version number of the
    staged record, and promoting replaces it. Reading then returns the rotated bytes; no
    version holds the record that was put. *)
Theorem promotion_overwrites {X : Ext} {HC : CodecLaws} {HT : ChronoLaws} {HH : HashLaws}
    {HA : AeadLaws} {HE : EnvLaws} {HN : NoFaults} kh p w v s pt pt' t :
  ready kh p w v → starts_with s "secret://" = true → latest s v < i64_max →
  ∃ j w1 w2 v2 r j1 w3 j2 w4 w5 v5, start_rotation s pt p t w = (Ok j, w1) ∧
    put_secret s pt' p t w1 = (Ok (job_staged_version j), w2) ∧
    represents (db w2) v2 ∧ oget (s, job_staged_version j) (v_records v2) = Some r ∧
    decrypt_secret kh r = Ok pt' ∧
    verify_rotation (job_id j) p w2 = (Ok j1, w3) ∧
    promote_rotation (job_id j) p w3 = (Ok j2, w4) ∧
    get_secret s p w4 = (Ok pt, w5) ∧ represents (db w5) v5 ∧
    v_records v5 = oput (s, job_staged_version j) (set_status Active (job_staged_record j1))
                     (v_records v2) ∧
    decrypt_secret kh (job_staged_record j1) = Ok pt.
Proof.
  intros Hr Hs Hlt. pose proof (rp_ok _ _ (lv_rep _ _ _ (rd_live _ _ _ _ Hr))) as Hok.
  destruct (start_rotation_run kh p w v s pt t Hr Hs Hlt)
    as (j & w1 & v1 & md & Hst & Hr1 & Hsg & e & Hv1 & _).
  pose proof (proj1 (sg_version _ _ _ _ _ _ Hsg)) as Hver.
  assert (latest s v1 = latest s v) as Hlat by (subst v1; reflexivity).
  destruct (put_run kh p w1 v1 s pt' t Hr1 Hs) as (w2 & r & fp & v2 & Hput & Hr2 & Hho & e2 & Hv2 & _);
    [lia|]. rewrite Hlat in *.
  assert (oget (job_id j) (v_jobs v2) = Some j) as Hj by (subst v2 v1; apply oget_oput_eq).
  assert (v_records v2 = oput (s, latest s v + 1) r (v_records v)) as Hrec2
    by (subst v2 v1; reflexivity).
  destruct (finish_rotation kh p w2 v2 j s (latest s v + 1) pt Hr2 Hj Hsg)
    as (j1 & w3 & j2 & w4 & w5 & v5 & Hv & Hp & _ & Hg & Hr5 & Hrec5 & Hsg1); [lia| |].
  { intros n'. rewrite Hrec2, oget_oput. case_decide as Hd.
    - injection Hd as ->. intros _. apply Z.le_refl.
    - intros Hn'. pose proof (latest_max v s n' Hok Hn'). lia. }
  exists j, w1, w2, v2, r, j1, w3, j2, w4, w5, v5. rewrite Hver.
  split; [done|]. split; [done|]. split; [apply (rd_live _ _ _ _ Hr2)|].
  split; [rewrite Hrec2; by apply oget_oput_eq|]. split; [apply Hho|]. split; [done|].
  split; [done|]. split; [done|]. split; [apply (rd_live _ _ _ _ Hr5)|]. split; [done|].
  apply (sg_opens _ _ _ _ _ _ Hsg1).
Qed.

Lemma promotion_overwrites_witness : ∃ h w j w1 w2 j1 w3 j2 w4 w5,
  init "correct horse" "prod" world0 = (Ok h, w) ∧
  start_rotation "secret://db" (be_bytes 3 7) "correct horse" Password w = (Ok j, w1) ∧
  put_secret "secret://db" (be_bytes 3 8) "correct horse" Password w1
    = (Ok (job_staged_version j), w2) ∧
  verify_rotation (job_id j) "correct horse" w2 = (Ok j1, w3) ∧
  promote_rotation (job_id j) "correct horse" w3 = (Ok j2, w4) ∧
  get_secret "secret://db" "correct horse" w4 = (Ok (be_bytes 3 7), w5).
Proof.
  destruct sample_vault as (h & kh & w & v & Hi & Hr & Hrec & _).
  assert (latest "secret://db" v = 0) as Hl by (unfold latest; by rewrite Hrec).
  destruct (promotion_overwrites kh _ w v "secret://db" (be_bytes 3 7) (be_bytes 3 8) Password Hr)
    as (j & w1 & w2 & v2 & r & j1 & w3 & j2 & w4 & w5 & v5 & Hs & Hput & _ & _ & _ & Hv & Hp & Hg & _);
    [reflexivity|rewrite Hl; reflexivity|].
  exists h, w, j, w1, w2, j1, w3, j2, w4, w5.
  exact (conj Hi (conj Hs (conj Hput (conj Hv (conj Hp Hg))))).
Defined.
