(* ===== verification/VaultLockdown.v ===== *)
(** * The emergency revocation (vault.rs, [revoke_all_tickets])

    The tickets are revoked one by one in the order of their identifiers.  When every live
    ticket carries its MAC all of them are revoked; the first one that does not ends the
    operation with the tickets after it untouched and nothing in the audit log. *)

From S2P Require Export VaultTickets.
From S2P Require Import Toy.
#[local] Open Scope Z_scope.

Section sorted.
Context {K V : Type} `{!EqDecision K} `{Klaws : OrdKeyLaws K}.

Lemma osorted_NoDup (m : omap K V) : osorted m → NoDup m.*1.
Proof.
  induction m as [|[k x] m IH]; [constructor|]. intros [Hall Hs]. cbn. constructor; [|auto].
  intros ([k' y] & Hk & Hin)%list_elem_of_fmap. simpl in Hk. subst k'.
  apply (proj1 (Forall_forall _ _) Hall) in Hin. simpl in Hin. by rewrite klt_irrefl in Hin.
Qed.
End sorted.

Section lockdown.
Context {X : Ext}.

(** Each live ticket replaced by its revocation. *)
Definition revoke_tickets (key : bytes) (l : list SecretAccessTicket)
    (m : omap string SecretAccessTicket) : omap string SecretAccessTicket :=
  foldl (λ m t, if tk_revoked t then m
                else match revoke key t with Ok t' => oput (tk_ticket_id t) t' m | _ => m end) m l.

Lemma revoke_tickets_cons key t l m :
  revoke_tickets key (t :: l) m =
    revoke_tickets key l
      (if tk_revoked t then m
       else match revoke key t with Ok t' => oput (tk_ticket_id t) t' m | _ => m end).
Proof. done. Qed.

Definition live_tickets (l : list SecretAccessTicket) : Z :=
  Z.of_nat (length (List.filter (λ t, negb (tk_revoked t)) l)).

(** What the revocation needs of a ticket. *)
Definition revocable (key : bytes) (t : SecretAccessTicket) : Prop :=
  tk_revoked t = true ∨ authentic key t.

Context {HC : CodecLaws} {HT : ChronoLaws} {HH : HashLaws} {HN : NoFaults}.

Lemma revoke_tickets_out key l m id :
  Forall (λ t, tk_ticket_id t ≠ id) l → oget id (revoke_tickets key l m) = oget id m.
Proof.
  intros Hl. revert m. induction Hl as [|t l Ht _ IH]; intros m; [done|].
  rewrite revoke_tickets_cons, IH.
  destruct (tk_revoked t); [done|]. destruct (revoke key t); [|done..]. by apply oget_oput_ne.
Qed.

Lemma revoke_tickets_in key l m :
  NoDup (tk_ticket_id <$> l) → Forall SecretAccessTicket_wf l → Forall (revocable key) l →
  Forall (λ t, oget (tk_ticket_id t) m = Some t) l →
  Forall (λ t, ∃ t', oget (tk_ticket_id t) (revoke_tickets key l m) = Some t' ∧
                     tk_revoked t' = true) l.
Proof.
  revert m. induction l as [|t l IH]; intros m Hnd Hwf Hr Hm; [constructor|].
  rewrite fmap_cons in Hnd. apply NoDup_cons in Hnd as [Hni Hnd].
  apply Forall_cons in Hwf as [Htw Hwf]. apply Forall_cons in Hr as [Htr Hr].
  apply Forall_cons in Hm as [Htm Hm].
  assert (Forall (λ u, tk_ticket_id u ≠ tk_ticket_id t) l) as Hne.
  { apply Forall_forall. intros u Hu Heq. apply Hni. rewrite <-Heq. by apply list_elem_of_fmap_2. }
  rewrite revoke_tickets_cons. constructor.
  - rewrite revoke_tickets_out by done. destruct (tk_revoked t) eqn:Hrv; [by eauto|].
    destruct Htr as [?|Hau]; [congruence|]. destruct (revoke_spec key t Htw Hau) as (t' & Hrev & _).
    rewrite Hrev. exists t'. split; [by apply oget_oput_eq|].
    by apply revoke_ok_inv in Hrev as (_ & _ & ? & _).
  - apply IH; [done..|]. apply Forall_forall. intros u Hu.
    pose proof (proj1 (Forall_forall _ _) Hm _ Hu) as Hum.
    pose proof (proj1 (Forall_forall _ _) Hne _ Hu) as Hut.
    destruct (tk_revoked t); [done|]. destruct (revoke key t); [|done..].
    by rewrite oget_oput_ne.
Qed.

(** Working through the revocable tickets. *)
Lemma each_run kh key l l2 n w v :
  live kh w v → Forall SecretAccessTicket_wf l → Forall (revocable key) l →
  ∃ w', revoke_each key (l ++ l2) n w = revoke_each key l2 (n + live_tickets l) w' ∧
    live kh w' (with_tickets (revoke_tickets key l (v_tickets v)) v).
Proof.
  revert n w v. induction l as [|t l IH]; intros n w v Hl Hwf Hr.
  { exists w. unfold live_tickets. rewrite Z.add_0_r. split; [done|]. by destruct v. }
  apply Forall_cons in Hwf as [Htw Hwf]. apply Forall_cons in Hr as [Htr Hr].
  unfold live_tickets. rewrite revoke_tickets_cons. cbn [app revoke_each List.filter].
  destruct (tk_revoked t) eqn:Hrv; cbn [negb].
  { by apply IH. }
  destruct Htr as [?|Hau]; [congruence|]. destruct (revoke_spec key t Htw Hau) as (t' & Hrev & _).
  rewrite Hrev. pose proof (revoke_ok_inv _ _ _ Htw Hrev) as (Hwf' & Hid' & _ & _).
  cbn [res_try]. rewrite st_lift_ok.
  destruct (exec_refines (SaveTicket t') w v (lv_rep _ _ _ Hl) Hwf' (no_fault _)) as (d' & Hrun & Hrep').
  cbn [spec fst snd] in *. change (exec (SaveTicket t')) with (save_ticket t') in Hrun.
  rewrite (st_bind_ok _ _ _ _ _ (try_ok (F:=VaultError) _ _ _ _ Hrun)). cbn beta.
  pose proof (live_spec_same kh w v (SaveTicket t') d' Hl I Hrep') as Hl'.
  destruct (IH (n + 1) _ _ Hl' Hwf Hr) as (w' & Heq & Hl''). exists w'.
  rewrite Heq. split; [|cbn in Hl''; rewrite <-Hid'; exact Hl''].
  f_equal. unfold live_tickets. cbn [length]. lia.
Qed.

Lemma tickets_listed v :
  View_ok v →
  NoDup (tk_ticket_id <$> (v_tickets v).*2) ∧ Forall SecretAccessTicket_wf (v_tickets v).*2 ∧
  Forall (λ t, oget (tk_ticket_id t) (v_tickets v) = Some t) (v_tickets v).*2.
Proof.
  intros Hok. destruct (vk_tickets _ Hok) as [Hs Hf]. split; [|split].
  - assert (tk_ticket_id <$> (v_tickets v).*2 = (v_tickets v).*1) as ->; [|by apply osorted_NoDup].
    rewrite <-list_fmap_compose. apply list_fmap_ext. intros i [k t] Hi.
    apply list_elem_of_lookup_2 in Hi. apply (proj1 (Forall_forall _ _) Hf) in Hi as [Hk _].
    simpl in *. by rewrite Hk.
  - apply Forall_fmap. eapply Forall_impl; [exact Hf|]. by intros kv [].
  - apply Forall_fmap, Forall_forall. intros [k t] Hin.
    pose proof (proj1 (Forall_forall _ _) Hf _ Hin) as [Hk _]. simpl in *. rewrite <-Hk.
    by apply elem_of_oget.
Qed.
Context {HA : AeadLaws} {HE : EnvLaws}.

Lemma revoke_all_start kh p w v why key :
  ready kh p w v → ticket_mac_key (E:=VaultError) kh = Ok key →
  ∃ h w', live kh w' v ∧ v_header v = Some h ∧ opens_header kh p h ∧
    revoke_all_tickets p why w =
      (revoke_each key (v_tickets v).*2 0 ≫= λ count,
       append_audit h kh "lockdown.tickets_revoked" "critical" "allow"
         (map_from_json (obj [ ("revoked_tickets", ser_u64 count); ("reason", JStr why) ])) ≫= λ _,
       mret count) w'.
Proof.
  intros [Hl (h & Hh & Ho)] Hkey.
  destruct (unlock_ready kh p w v h Hl Hh Ho) as (w1 & Hu & Hs).
  pose proof (live_same kh w w1 v Hl Hs) as Hl1.
  destruct (exec_refines ListTickets w1 v (lv_rep _ _ _ Hl1) I (no_fault _)) as (d' & Hrun & Hrep').
  cbn [spec fst snd] in *. change (exec ListTickets) with list_tickets in Hrun.
  exists h, {| tick := S (tick w1); db := d' |}.
  split; [exact (live_spec_same kh w1 v ListTickets d' Hl1 I Hrep')|].
  split; [done|]. split; [done|]. unfold revoke_all_tickets.
  rewrite (st_bind_ok _ _ _ _ _ Hu). cbn beta iota. rewrite Hkey, st_lift_ok.
  by rewrite (st_bind_ok _ _ _ _ _ (try_ok (F:=VaultError) _ _ _ _ Hrun)).
Qed.

Lemma revoke_all_run kh p w v why key :
  ready kh p w v → ticket_mac_key (E:=VaultError) kh = Ok key →
  Z.of_nat (length (v_tickets v)) <= u64_max → Forall (revocable key) (v_tickets v).*2 →
  ∃ w' v' md, revoke_all_tickets p why w = (Ok (live_tickets (v_tickets v).*2), w') ∧
    ready kh p w' v' ∧ audited "lockdown.tickets_revoked" "critical" "allow" md
      (with_tickets (revoke_tickets key (v_tickets v).*2 (v_tickets v)) v) v'.
Proof.
  intros Hr Hkey Hn Hrev. pose proof (rp_ok _ _ (lv_rep _ _ _ (rd_live _ _ _ _ Hr))) as Hok.
  destruct (tickets_listed v Hok) as (_ & Hwf & _).
  destruct (revoke_all_start kh p w v why key Hr Hkey) as (h & w1 & Hl1 & Hh & Ho & ->).
  destruct (each_run kh key (v_tickets v).*2 [] 0 w1 v Hl1 Hwf Hrev) as (w2 & Heach & Hl2).
  rewrite app_nil_r in Heach. cbn [revoke_each] in Heach. rewrite Z.add_0_l in Heach.
  rewrite (st_bind_ok _ _ _ _ _ Heach).
  assert (0 <= live_tickets (v_tickets v).*2 <= u64_max) as Hb.
  { unfold live_tickets. split; [lia|]. etrans; [|exact Hn]. apply inj_le.
    etrans; [apply filter_length_le|]. by rewrite length_fmap. }
  set (count := live_tickets _) in *.
  match goal with |- context [append_audit h kh ?ty ?sev ?dec ?md ≫= ?f] =>
    assert (wp (append_audit h kh ty sev dec md ≫= f) w2 (λ r w', ∃ v', r = Ok count ∧
      ready kh p w' v' ∧ audited ty sev dec md
        (with_tickets (revoke_tickets key (v_tickets v).*2 (v_tickets v)) v) v')) as Hwp end.
  { eapply wp_append_bind; [exact Hl2|metadata|]. intros e w3 Hl3 He. eexists.
    split; [reflexivity|]. split; [|by exists e]. split; [exact Hl3|]. by exists h. }
  apply wp_run in Hwp as (r & w' & Hrun & v' & -> & Hr' & Ha).
  exists w', v'. eexists. split; [exact Hrun|]. split; [exact Hr'|exact Ha].
Qed.

Lemma revoke_all_stops_run kh p w v why key l1 t l2 :
  ready kh p w v → ticket_mac_key (E:=VaultError) kh = Ok key →
  (v_tickets v).*2 = l1 ++ t :: l2 → Forall (revocable key) l1 →
  tk_revoked t = false → ¬ authentic key t →
  ∃ w', revoke_all_tickets p why w = (Err (VTicket MacMismatch), w') ∧
    represents (db w') (with_tickets (revoke_tickets key l1 (v_tickets v)) v).
Proof.
  intros Hr Hkey Hlist Hrev Hrv Hna.
  pose proof (rp_ok _ _ (lv_rep _ _ _ (rd_live _ _ _ _ Hr))) as Hok.
  destruct (tickets_listed v Hok) as (_ & Hwf & _). rewrite Hlist in Hwf.
  apply Forall_app in Hwf as [Hwf1 [Hwt _]%Forall_cons].
  destruct (revoke_all_start kh p w v why key Hr Hkey) as (h & w1 & Hl1 & _ & _ & ->).
  rewrite Hlist.
  destruct (each_run kh key l1 (t :: l2) 0 w1 v Hl1 Hwf1 Hrev) as (w2 & Heach & Hl2).
  pose proof (revoke_forged key t Hwt Hna) as Ht.
  cbn [revoke_each] in Heach. rewrite Hrv, Ht in Heach. cbn [res_try] in Heach.
  rewrite st_lift_err in Heach. exists w2. split; [|apply Hl2].
  by rewrite (st_bind_err _ _ _ _ _ Heach).
Qed.
(** A ticket filed by other means than [issue_ticket]. *)
Lemma file_ready kh p w v t :
  ready kh p w v → SecretAccessTicket_wf t →
  ∃ w', ready kh p w' (with_tickets (oput (tk_ticket_id t) t (v_tickets v)) v).
Proof.
  intros [Hl (h & Hh & Ho)] Hwf.
  destruct (exec_refines (SaveTicket t) w v (lv_rep _ _ _ Hl) Hwf (no_fault _)) as (d' & _ & Hrep').
  eexists. split; [exact (live_spec_same kh w v (SaveTicket t) d' Hl I Hrep')|]. by exists h.
Qed.
End lockdown.

(** ** A ticket store with a forged ticket ["t"] before a genuine one ["u"] *)

Definition genuine_ticket (key : bytes) : SecretAccessTicket :=
  let t := {|
    tk_ticket_id := "u"; tk_vault_id := "v"; tk_secret_id := "s"; tk_secret_ref := "r";
    tk_secret_version := 1; tk_consumer := "c"; tk_purpose := "p"; tk_delivery_mode := Pipe;
    tk_http_host := None; tk_http_scheme := None; tk_http_method := None; tk_http_path := None;
    tk_http_request_body_bytes := None; tk_os_uid := None; tk_executable_path := None;
    tk_executable_sha256 := None; tk_policy_id := "p1"; tk_policy_hash := "h";
    tk_exportable := false; tk_model_visible := false; tk_shell_visible := false;
    tk_broker_session_id := None; tk_issued_at := ""; tk_expires_at := ""; tk_max_uses := 1;
    tk_uses_remaining := 1; tk_revoked := false; tk_mac := "" |} in
  set_ticket (tk_uses_remaining t) (tk_revoked t)
    (b64url_no_padding (hmac_sha256 key (json_to_vec (payload t)))) t.

Lemma genuine_authentic key : authentic key (genuine_ticket key).
Proof. apply authentic_self. Qed.

Lemma genuine_wf key : SecretAccessTicket_wf (genuine_ticket key).
Proof. split; simpl; try done; unfold u64_max, u32_max; lia. Qed.

Lemma forged_wf : SecretAccessTicket_wf no_ticket.
Proof. split; simpl; try done; unfold u64_max, u32_max; lia. Qed.

Lemma forged_not_authentic key : ¬ authentic key no_ticket.
Proof.
  unfold authentic, b64url_no_padding. intros Heq. apply (f_equal as_bytes) in Heq.
  change (base64_url_encode ?b) with (of_bytes b) in Heq.
  rewrite String.list_byte_of_string_of_list_byte in Heq. apply (f_equal length) in Heq.
  rewrite length_hmac_sha256 in Heq. discriminate.
Qed.

(** ** Properties *)

(** The emergency revocation revokes everything. On a working store where every live ticket
    carries its MAC, [revoke_all_tickets] succeeds, reports the number of tickets that were
    live, leaves every ticket revoked, and records the lockdown as the last event. *)
Theorem revoke_all_revokes {X : Ext} {HC : CodecLaws} {HT : ChronoLaws} {HH : HashLaws}
    {HN : NoFaults} {HA : AeadLaws} {HE : EnvLaws} kh p w v why key :
  ready kh p w v → ticket_mac_key (E:=VaultError) kh = Ok key →
  Z.of_nat (length (v_tickets v)) <= u64_max → Forall (revocable key) (v_tickets v).*2 →
  ∃ w' v' e, revoke_all_tickets p why w = (Ok (live_tickets (v_tickets v).*2), w') ∧
    ready kh p w' v' ∧ last (v_audit v') = Some e ∧ ev_event_type e = "lockdown.tickets_revoked" ∧
    ∀ id, is_Some (oget id (v_tickets v)) →
      ∃ t', oget id (v_tickets v') = Some t' ∧ tk_revoked t' = true.
Proof.
  intros Hr Hkey Hn Hrev.
  pose proof (rp_ok _ _ (lv_rep _ _ _ (rd_live _ _ _ _ Hr))) as Hok.
  destruct (tickets_listed v Hok) as (Hnd & Hwf & Hget).
  destruct (revoke_all_run kh p w v why key Hr Hkey Hn Hrev) as (w' & v' & md & Hrun & Hr' & e & -> & He).
  exists w'. eexists _, e. split; [exact Hrun|]. split; [exact Hr'|].
  split; [apply last_snoc|]. split; [apply He|]. intros id [t Ht].
  pose proof (revoke_tickets_in key _ _ Hnd Hwf Hrev Hget) as Hall.
  apply oget_elem_of in Ht as Hin.
  destruct (vk_tickets _ Hok) as [_ Hf].
  pose proof (proj1 (Forall_forall _ _) Hf _ Hin) as [Hid _]. simpl in Hid. subst id.
  apply (list_elem_of_fmap_2 snd) in Hin. by apply (proj1 (Forall_forall _ _) Hall) in Hin.
Qed.

Lemma revoke_all_revokes_witness : ∃ kh key w v w' v' e,
  oget "u" (v_tickets v) = Some (genuine_ticket key) ∧
  revoke_all_tickets "correct horse" "drill" w = (Ok 1, w') ∧ ready kh "correct horse" w' v' ∧
  last (v_audit v') = Some e ∧ ev_event_type e = "lockdown.tickets_revoked".
Proof.
  destruct sample_vault as (h & kh & w & v & _ & Hr & _ & _ & Ht & _).
  destruct (ticket_mac_key_ok (E:=VaultError) kh) as [key Hkey].
  destruct (file_ready kh _ w v (genuine_ticket key) Hr) as (w1 & Hr1); [apply genuine_wf|].
  rewrite Ht in Hr1.
  destruct (revoke_all_revokes kh _ w1 _ "drill" key Hr1 Hkey) as (w' & v' & e & Hrun & Hr' & Hl & He & _).
  { vm_compute. discriminate. }
  { constructor; [|constructor]. right. apply genuine_authentic. }
  exists kh, key, w1, (with_tickets [("u", genuine_ticket key)] v), w', v', e.
  exact (conj eq_refl (conj Hrun (conj Hr' (conj Hl He)))).
Defined.

(** The emergency revocation stops at the first ticket that fails its own authentication. On
    a working store whose tickets, in the order of their identifiers, are revocable up to a
    live ticket that does not carry its MAC, [revoke_all_tickets] is that ticket's MAC error:
    the ones before it are revoked, but this ticket and every one after it are left as they
    were, still live, and the audit log has no trace of the lockdown. *)
Theorem revoke_all_stops {X : Ext} {HC : CodecLaws} {HT : ChronoLaws} {HH : HashLaws}
    {HN : NoFaults} {HA : AeadLaws} {HE : EnvLaws} kh p w v why key l1 t l2 :
  ready kh p w v → ticket_mac_key (E:=VaultError) kh = Ok key →
  (v_tickets v).*2 = l1 ++ t :: l2 → Forall (revocable key) l1 →
  tk_revoked t = false → ¬ authentic key t →
  ∃ w' v', revoke_all_tickets p why w = (Err (VTicket MacMismatch), w') ∧
    represents (db w') v' ∧ v_audit v' = v_audit v ∧
    (∀ u, u ∈ l1 → ∃ u', oget (tk_ticket_id u) (v_tickets v') = Some u' ∧ tk_revoked u' = true) ∧
    (∀ u, u ∈ t :: l2 → oget (tk_ticket_id u) (v_tickets v') = Some u).
Proof.
  intros Hr Hkey Hlist Hrev Hrv Hna.
  pose proof (rp_ok _ _ (lv_rep _ _ _ (rd_live _ _ _ _ Hr))) as Hok.
  destruct (tickets_listed v Hok) as (Hnd & Hwf & Hget).
  destruct (revoke_all_stops_run kh p w v why key l1 t l2 Hr Hkey Hlist Hrev Hrv Hna)
    as (w' & Hrun & Hrep).
  exists w'. eexists. split; [exact Hrun|]. split; [exact Hrep|]. split; [done|].
  rewrite Hlist in Hnd, Hwf, Hget. rewrite fmap_app in Hnd. apply NoDup_app in Hnd as (Hnd1 & Hdis & _).
  apply Forall_app in Hwf as [Hwf1 _]. apply Forall_app in Hget as [Hget1 Hget2].
  split; intros u Hu; cbn [v_tickets with_tickets].
  - pose proof (revoke_tickets_in key _ _ Hnd1 Hwf1 Hrev Hget1) as Hall.
    by apply (proj1 (Forall_forall _ _) Hall) in Hu.
  - rewrite revoke_tickets_out; [by apply (proj1 (Forall_forall _ _) Hget2) in Hu|].
    apply Forall_forall. intros u' Hu' Heq. apply (Hdis (tk_ticket_id u')).
    + by apply list_elem_of_fmap_2.
    + rewrite Heq. by apply list_elem_of_fmap_2.
Qed.

Lemma revoke_all_stops_witness : ∃ key w w' v',
  revoke_all_tickets "correct horse" "drill" w = (Err (VTicket MacMismatch), w') ∧
  represents (db w') v' ∧ oget "u" (v_tickets v') = Some (genuine_ticket key) ∧
  tk_revoked (genuine_ticket key) = false.
Proof.
  destruct sample_vault as (h & kh & w & v & _ & Hr & _ & _ & Ht & _).
  destruct (ticket_mac_key_ok (E:=VaultError) kh) as [key Hkey].
  destruct (file_ready kh _ w v no_ticket Hr forged_wf) as (w1 & Hr1). rewrite Ht in Hr1.
  destruct (file_ready kh _ w1 _ (genuine_ticket key) Hr1 (genuine_wf key)) as (w2 & Hr2).
  destruct (revoke_all_stops kh _ w2 _ "drill" key [] no_ticket [genuine_ticket key] Hr2 Hkey)
    as (w' & v' & Hrun & Hrep & _ & _ & Hafter); [reflexivity|constructor|reflexivity|
    apply forged_not_authentic|].
  exists key, w2, w', v'. refine (conj Hrun (conj Hrep (conj _ eq_refl))).
  apply (Hafter (genuine_ticket key)). right. left.
Defined.
