(* ===== verification/TicketRaces.v ===== *)
(** * Concurrent uses of one ticket (vault.rs over store.rs)

    Every call of the store is one SQLite transaction, but an operation of the vault is several
    calls: two processes can both load a ticket before either saves it.  The steps below are
    those of [consume_ticket_for_secret] and of [revoke_ticket] (and [renew_ticket]) around
    one ticket, cut at the calls of the store, in any interleaving of any number of clients,
    with any other call of the store in between that does not write this ticket. *)

From S2P Require Export VaultTickets.
From S2P Require Import Toy.
From stdpp Require Import relations.
#[local] Open Scope Z_scope.

(** The state: the store's view; the uses prepared and not yet saved, each a ticket as loaded
    and its update; the revocations prepared and not yet saved; and how many uses were saved. *)
Record race : Type := {
  rc_view : View;
  rc_uses : list (SecretAccessTicket * SecretAccessTicket);
  rc_revocations : list SecretAccessTicket;
  rc_saved : Z;
  rc_closed : bool;
}.

Section race.
Context `{Ext} (key : bytes) (id : string).

(** Calls that write no row of this ticket. *)
Definition elsewhere {A} (c : call A) : Prop :=
  match c with
  | SaveTicket t => tk_ticket_id t ≠ id
  | SaveTicketIfCurrent t _ => tk_ticket_id t ≠ id
  | _ => True
  end.

Inductive race_step : race → race → Prop :=
| race_load_use s t t' r now :
    (spec (LoadTicket id) (rc_view s)).1 = Ok (Some t) → consume key t r now = Ok t' →
    race_step s {| rc_view := rc_view s; rc_uses := (t, t') :: rc_uses s;
                   rc_revocations := rc_revocations s; rc_saved := rc_saved s;
                   rc_closed := rc_closed s |}
| race_save_use s t t' uses v' :
    rc_uses s ≡ₚ (t, t') :: uses →
    spec (SaveTicketIfCurrent t t') (rc_view s) = (Ok tt, v') →
    race_step s {| rc_view := v'; rc_uses := uses; rc_revocations := rc_revocations s;
                   rc_saved := rc_saved s + 1; rc_closed := rc_closed s |}
| race_lose_use s t t' uses e v' :
    rc_uses s ≡ₚ (t, t') :: uses →
    spec (SaveTicketIfCurrent t t') (rc_view s) = (Err e, v') →
    race_step s {| rc_view := v'; rc_uses := uses; rc_revocations := rc_revocations s;
                   rc_saved := rc_saved s; rc_closed := rc_closed s |}
| race_load_revocation s t t' :
    (spec (LoadTicket id) (rc_view s)).1 = Ok (Some t) → revoke key t = Ok t' →
    race_step s {| rc_view := rc_view s; rc_uses := rc_uses s;
                   rc_revocations := t' :: rc_revocations s; rc_saved := rc_saved s;
                   rc_closed := rc_closed s |}
| race_save_revocation s t' revocations v' :
    rc_revocations s ≡ₚ t' :: revocations →
    spec (SaveTicket t') (rc_view s) = (Ok tt, v') →
    race_step s {| rc_view := v'; rc_uses := rc_uses s; rc_revocations := revocations;
                   rc_saved := rc_saved s; rc_closed := true |}
| race_elsewhere {A} (c : call A) s :
    elsewhere c → race_step s {| rc_view := (spec c (rc_view s)).2; rc_uses := rc_uses s;
                                 rc_revocations := rc_revocations s; rc_saved := rc_saved s;
                                 rc_closed := rc_closed s |}.

Definition race_start (v : View) : race := {|
  rc_view := v; rc_uses := []; rc_revocations := []; rc_saved := 0; rc_closed := false |}.

(** ** The invariant *)

(** What is prepared was made from well-formed copies of this ticket. *)
Definition spend_ok (p : SecretAccessTicket * SecretAccessTicket) : Prop :=
  tk_ticket_id p.1 = id ∧ tk_ticket_id p.2 = id ∧ SecretAccessTicket_wf p.2 ∧
  tk_revoked p.1 = false ∧ tk_revoked p.2 = false ∧ 1 <= tk_uses_remaining p.1 ∧
  tk_uses_remaining p.2 = tk_uses_remaining p.1 - 1.
Definition revocation_ok (t : SecretAccessTicket) : Prop :=
  tk_ticket_id t = id ∧ SecretAccessTicket_wf t ∧ tk_revoked t = true.

(** [uses] is the number of uses the stored ticket started with. *)
Record race_inv (uses : Z) (s : race) : Prop := {
  ri_stored : ∃ t, oget id (v_tickets (rc_view s)) = Some t ∧ tk_ticket_id t = id ∧
    SecretAccessTicket_wf t ∧ (rc_closed s = true → tk_revoked t = true) ∧
    (tk_revoked t = false → rc_saved s + tk_uses_remaining t = uses);
  ri_saved : 0 <= rc_saved s <= uses;
  ri_uses : Forall spend_ok (rc_uses s);
  ri_revocations : Forall revocation_ok (rc_revocations s);
}.

Lemma elsewhere_ticket {A} (c : call A) v :
  elsewhere c → oget id (v_tickets (spec c v).2) = oget id (v_tickets v).
Proof.
  intros Hc. destruct c; cbn [spec elsewhere] in *; try done; repeat case_match; simpl; try done;
    by apply oget_oput_ne.
Qed.

Lemma load_use_ok t t' r now :
  tk_ticket_id t = id → SecretAccessTicket_wf t → consume key t r now = Ok t' → spend_ok (t, t').
Proof.
  intros Hid Hwf Hc. pose proof Hc as Hc'. unfold consume in Hc'.
  apply res_bind_ok_inv in Hc' as ([] & Hv & Hc'). apply validate_spec in Hv; [|done].
  apply res_bind_ok_inv in Hc' as (mac & _ & Hc'). injection Hc' as <-.
  pose proof (ta_uses _ _ _ _ Hv). pose proof (wf_tk_uses _ Hwf).
  split; [done|]. split; [done|]. split.
  - apply set_ticket_wf; [apply set_ticket_wf; [done|lia]|simpl; lia].
  - pose proof (ta_live _ _ _ _ Hv). by repeat split.
Qed.

Lemma load_revocation_ok t t' :
  tk_ticket_id t = id → SecretAccessTicket_wf t → revoke key t = Ok t' → revocation_ok t'.
Proof.
  intros Hid Hwf Hr. unfold revoke in Hr. apply res_bind_ok_inv in Hr as (mac & _ & Hr).
  destruct (differ _ _); [done|]. apply res_bind_ok_inv in Hr as (mac' & _ & Hr).
  injection Hr as <-. pose proof (wf_tk_uses _ Hwf). split; [done|]. split; [|done].
  apply set_ticket_wf; [apply set_ticket_wf; done|done].
Qed.
Lemma permuted_head {A} (P : A → Prop) l x l' :
  l ≡ₚ x :: l' → Forall P l → P x ∧ Forall P l'.
Proof. intros Hp Hl. rewrite Hp in Hl. by apply Forall_cons in Hl. Qed.

(** A use is saved only over the very ticket it was made from. *)
Lemma save_use_inv t t' v v' :
  tk_ticket_id t = id → spec (SaveTicketIfCurrent t t') v = (Ok tt, v') →
  oget id (v_tickets v) = Some t ∧ v' = with_tickets (oput id t' (v_tickets v)) v.
Proof.
  intros <- Hs. cbn [spec] in Hs. destruct (oget _ _) as [u|] eqn:Hu; [|done].
  destruct (bool_decide _) eqn:Hd; [|done]. apply bool_decide_eq_true_1 in Hd as ->.
  by injection Hs as <-.
Qed.
Lemma lose_use_inv t t' v e v' : spec (SaveTicketIfCurrent t t') v = (Err e, v') → v' = v.
Proof. cbn [spec]. repeat case_match; by intros [= _ <-]. Qed.

Lemma race_inv_step uses s s' : race_step s s' → race_inv uses s → race_inv uses s'.
Proof.
  intros Hstep [(t0 & Hget & Hid & Hwf & Hcl & Hsum) Hsv Hus Hrv].
  destruct Hstep as [s t t' r now Hl Hc|s t t' us v' Hp Hs|s t t' us e v' Hp Hs|s t t' Hl Hr|
    s t' rs v' Hp Hs|A c s Hc].
  - cbn in Hl. rewrite Hget in Hl. injection Hl as <-.
    split; [by exists t0|done| |done]. constructor; [by eapply load_use_ok|done].
  - apply (permuted_head _ _ _ _ Hp) in Hus as [(Hi & Hi' & Hwf' & Hr & Hr' & H1 & H2) Hus].
    cbn [fst snd] in *. apply save_use_inv in Hs as [Hcur ->]; [|done].
    rewrite Hget in Hcur. injection Hcur as ->. specialize (Hsum Hr).
    pose proof (wf_tk_uses _ Hwf').
    split; [|simpl; lia|done..]. exists t'. cbn [rc_view v_tickets with_tickets rc_closed rc_saved].
    split; [by apply oget_oput_eq|]. split; [done|]. split; [done|]. split; [|lia].
    intros Hc%Hcl. congruence.
  - apply (permuted_head _ _ _ _ Hp) in Hus as [_ Hus]. apply lose_use_inv in Hs as ->.
    by split; [exists t0|..].
  - cbn in Hl. rewrite Hget in Hl. injection Hl as <-.
    split; [by exists t0|done|done|]. constructor; [by eapply load_revocation_ok|done].
  - apply (permuted_head _ _ _ _ Hp) in Hrv as [(Hi & Hwf' & Hr) Hrv]. injection Hs as <-.
    split; [|done..]. exists t'. cbn [rc_view v_tickets with_tickets rc_closed rc_saved].
    rewrite Hi. split; [by apply oget_oput_eq|]. split; [done|]. split; [done|]. split; [done|].
    intros. congruence.
  - split; [|done..]. exists t0. cbn [rc_view]. by rewrite elsewhere_ticket.
Qed.

Lemma race_inv_start v t :
  View_ok v → oget id (v_tickets v) = Some t → race_inv (tk_uses_remaining t) (race_start v).
Proof.
  intros Hok Hget. pose proof Hget as Hin%oget_elem_of.
  destruct (vk_tickets _ Hok) as [_ Hf]. apply (proj1 (Forall_forall _ _) Hf) in Hin as [Hid Hwf].
  cbn [fst snd] in *. pose proof (wf_tk_uses _ Hwf).
  split; [|simpl; lia|constructor..]. exists t. by split_and!.
Qed.

Lemma race_inv_steps uses s s' : rtc race_step s s' → race_inv uses s → race_inv uses s'.
Proof. induction 1; eauto using race_inv_step. Qed.

(** Once a revocation is saved, no use is: the stored ticket is revoked, what was prepared was
    made from live ones. *)
Lemma closed_step uses s s' :
  race_inv uses s → rc_closed s = true → race_step s s' →
  rc_saved s' = rc_saved s ∧ rc_closed s' = true.
Proof.
  intros [(t0 & Hget & _ & _ & Hcl & _) _ Hus _] Hc Hstep. specialize (Hcl Hc).
  destruct Hstep as [| s t t' us v' Hp Hs | | | |]; try done. exfalso.
  apply (permuted_head _ _ _ _ Hp) in Hus as [(Hi & _ & _ & Hr & _) _]. cbn [fst] in *.
  apply save_use_inv in Hs as [Hcur _]; [|done]. congruence.
Qed.
End race.

(** ** Properties *)

(** C4: no interleaving spends a ticket more often than it allows, and none after its
    revocation. From any well-formed store holding a ticket, through any interleaving of
    clients that load and save uses of it, of revocations that load and save it, and of other
    calls of the store, the number of uses saved is at most the number the ticket had left,
    and from the moment a revocation is saved it does not change any more. *)
Theorem races_never_overspend {X : Ext} {HC : CodecLaws} key id v t s :
  View_ok v → oget id (v_tickets v) = Some t → rtc (race_step key id) (race_start v) s →
  rc_saved s <= tk_uses_remaining t ∧
  ∀ s', rc_closed s = true → rtc (race_step key id) s s' → rc_saved s' = rc_saved s.
Proof.
  intros Hok Hget Hsteps. pose proof (race_inv_start id v t Hok Hget) as Hi.
  apply (race_inv_steps key id _ _ _ Hsteps) in Hi as Hi'. split; [apply (ri_saved _ _ _ Hi')|].
  intros s' Hc Hs. revert Hc Hi'. clear Hsteps.
  induction Hs as [s|s s1 s2 Hstep Hs IH]; intros Hc Hi'; [done|].
  destruct (closed_step key id _ _ _ Hi' Hc Hstep) as [<- Hc']. apply IH; [done|].
  by eapply race_inv_step.
Qed.

(** Two clients load the same ticket of two uses; the first saves its use, the second loses. *)
Definition race_key : bytes := be_bytes 32 5.
Definition race_ticket : SecretAccessTicket :=
  match (issue (E:=VaultError) race_key "v" "s" 1 (sample_request 0) sample_policy "h" None
           world0).1 with Ok t => t | _ => no_ticket end.
Definition race_used : SecretAccessTicket :=
  match consume race_key race_ticket (sample_request 0) 0 with Ok t => t | _ => no_ticket end.
Definition race_view : View := with_tickets [(tk_ticket_id race_ticket, race_ticket)] empty_view.

Lemma race_view_ok : View_ok race_view.
Proof.
  assert (SecretAccessTicket_wf race_ticket) as Hwf.
  { destruct (ok_run (issue (E:=VaultError) race_key "v" "s" 1 (sample_request 0) sample_policy "h"
      None) world0) as (t & w & Hi); [vm_compute; reflexivity|].
    assert (race_ticket = t) as -> by (unfold race_ticket; rewrite Hi; reflexivity).
    eapply issue_ok_inv; [exact Hi|unfold u64_max; lia| |apply sample_policy_wf].
    split; [discriminate|]. intros n Hn. injection Hn as <-. unfold u32_max. lia. }
  split; [done|by split|by split|split; [by split|]|constructor|done|by split].
  constructor; [by split|constructor].
Qed.

Lemma races_never_overspend_witness : ∃ s,
  rtc (race_step race_key (tk_ticket_id race_ticket)) (race_start race_view) s ∧
  rc_saved s = 1 ∧ rc_saved s <= 2.
Proof.
  set (id := tk_ticket_id race_ticket).
  set (pending n := {| rc_view := race_view; rc_uses := repeat (race_ticket, race_used) n;
                       rc_revocations := []; rc_saved := 0; rc_closed := false |}).
  set (v1 := with_tickets (oput id race_used (v_tickets race_view)) race_view).
  set (saved uses := {| rc_view := v1; rc_uses := uses; rc_revocations := []; rc_saved := 0 + 1;
                        rc_closed := false |}).
  assert (consume race_key race_ticket (sample_request 0) 0 = Ok race_used) as Hc
    by (vm_compute; reflexivity).
  assert ((spec (LoadTicket id) race_view).1 = Ok (Some race_ticket)) as Hl
    by (vm_compute; reflexivity).
  assert (rtc (race_step race_key id) (race_start race_view)
    (saved [])) as Hrtc.
  { apply (rtc_l _ _ (pending 1%nat)); 
      [exact (race_load_use race_key id (race_start race_view) _ _ _ _ Hl Hc)|].
    apply (rtc_l _ _ (pending 2%nat)); 
      [exact (race_load_use race_key id (pending 1%nat) _ _ _ _ Hl Hc)|].
    apply (rtc_l _ _ (saved [(race_ticket, race_used)])).
    { apply (race_save_use race_key id (pending 2%nat) race_ticket race_used); [reflexivity|].
      vm_compute. reflexivity. }
    apply (rtc_l _ _ (saved [])); [|apply rtc_refl].
    apply (race_lose_use race_key id (saved [(race_ticket, race_used)]) race_ticket race_used []
      (TicketConflict id) v1); [reflexivity|]. vm_compute. reflexivity. }
  exists (saved []).
  split; [exact Hrtc|]. split; [reflexivity|].
  destruct (races_never_overspend race_key id race_view race_ticket _ race_view_ok eq_refl Hrtc)
    as [Hle _]. exact Hle.
Defined.
