(* ===== verification/Files.v ===== *)
(** * Files and the state of a command

    The file system as the program uses it: paths, and a map from a path's components to files,
    directories and sockets with their modes.  An operation may fail without an effect, and a
    write may fail and leave anything in the file.  Symbolic links, [..] and ownership are not
    modelled.  The database of the vault stays the [World]'s: what is read from its file is an
    image of the tables.  A [Site] is what a command of the program works on: the vault, the
    files, what was printed and the processes that were started. *)

From S2P Require Export Host World.
From S2P Require Import Toy.
From stdpp Require Export gmap.
#[local] Open Scope Z_scope.

(** ** Paths (std::path) *)

Definition SLASH : ascii := "/".

(** [components]: empty parts and single dots go; the root is a part of its own. *)
Definition path_key (p : string) : list string :=
  (if starts_with p "/" then ["/"] else []) ++
  List.filter (λ c, negb (is_empty c || String.eqb c ".")) (split_char SLASH p).

(** Without the separators and single dots at its end. *)
Fixpoint trim_right (fuel : nat) (p : string) : string :=
  match fuel with
  | O => p
  | S fuel =>
      match Text.strip_suffix "/" p with
      | Some (String _ _ as q) => trim_right fuel q
      | _ => match Text.strip_suffix "/." p with
             | Some q => trim_right fuel (q +:+ "/")
             | None => p
             end
      end
  end.
Definition trimmed (p : string) : string := trim_right (2 * String.length p) p.

(** The text up to and with the last separator, and after it. *)
Fixpoint rsplit_slash (s : string) : string * string :=
  match s with
  | EmptyString => (EmptyString, EmptyString)
  | String a s =>
      let '(dir, name) := rsplit_slash s in
      if negb (is_empty dir) then (String a dir, name)
      else if Ascii.eqb a SLASH then (String a EmptyString, name)
      else (EmptyString, String a name)
  end.

(** [parent]: none of the root or of the empty path; empty for a bare name. *)
Definition parent (p : string) : option string :=
  let p := trimmed p in
  if is_empty p || String.eqb p "/" then None else Some (trimmed (rsplit_slash p).1).

(** [file_name], [extension], [with_extension] and [join]. *)
Definition file_name (p : string) : option string :=
  let name := (rsplit_slash (trimmed p)).2 in
  if is_empty name || String.eqb name "." || String.eqb name ".." then None else Some name.

(** The last dot of a name, unless it starts it. *)
Fixpoint rsplit_dot (s : string) : option (string * string) :=
  match s with
  | EmptyString => None
  | String a s =>
      match rsplit_dot s with
      | Some (stem, ext) => Some (String a stem, ext)
      | None => if Ascii.eqb a "." then Some (EmptyString, s) else None
      end
  end.
Definition name_split (name : string) : string * option string :=
  match rsplit_dot name with
  | Some (String _ _ as stem, ext) => (stem, Some ext)
  | _ => (name, None)
  end.
Definition extension (p : string) : option string := file_name p ≫= λ name, (name_split name).2.
Definition with_extension (p ext : string) : string :=
  match file_name p with
  | None => p
  | Some name =>
      let stem := ((rsplit_slash (trimmed p)).1 +:+ (name_split name).1)%string in
      if is_empty ext then stem else (stem +:+ "." +:+ ext)%string
  end.
Definition path_join (p q : string) : string :=
  if starts_with q "/" then q
  else if is_empty p || ends_with p "/" then (p +:+ q)%string else (p +:+ "/" +:+ q)%string.

Example parent_examples :
  parent "/a//b" = Some "/a" ∧ parent "a/./b/" = Some "a" ∧ parent "vault.db" = Some "" ∧
  parent "/vault.db" = Some "/" ∧ parent "/" = None ∧ parent "./x" = Some ".".
Proof. by vm_compute. Qed.
Example extension_examples :
  extension "/a/vault.db" = Some "db" ∧ extension "/a/.env" = None ∧
  with_extension "/a/vault.db" "dbtmp" = "/a/vault.dbtmp" ∧ with_extension "v" "tmp" = "v.tmp".
Proof. by vm_compute. Qed.

(** ** The disk *)

Inductive Node : Type :=
| File (mode : Z) (data : bytes)
| Dir (mode : Z)
| Socket (mode : Z).
Definition node_mode (n : Node) : Z :=
  match n with File mode _ => mode | Dir mode => mode | Socket mode => mode end.
Definition set_mode (mode : Z) (n : Node) : Node :=
  match n with File _ data => File mode data | Dir _ => Dir mode | Socket _ => Socket mode end.
Definition is_dir (n : Node) : bool := match n with Dir _ => true | _ => false end.

(** The working directory and the root have the keys [[]] and [["/"]]. *)
Abbreviation Files := (gmap (list string) Node).

Class Disk : Type := {
  (* whether the n-th operation fails; what a failing write leaves; the umask *)
  fs_fault : nat → bool;
  torn_write : nat → bytes → option bytes;
  umask : Z;
  (* the database file: whether it exists, the WAL checkpoint ([None]: an error, [Some false]:
     busy), whether it can be read, an image of the tables and one of earlier tables, and the
     tables found when an image is opened *)
  vault_file_exists : nat → bool;
  wal_checkpoint : nat → option bool;
  vault_file_readable : nat → bool;
  db_image : nat → Db → bytes;
  stale_image : nat → bytes;
  db_open : bytes → option Db;
  (* zip: an archive of deflated entries; the names in one, and the contents under a name *)
  zip_write : list (string * bytes) → option bytes;
  zip_names : bytes → option (list string);
  zip_read : bytes → string → option bytes;
}.

Class DiskLaws {D : Disk} : Prop := {
  db_open_image i d : db_open (db_image i d) = Some d;
  zip_names_write l z : zip_write l = Some z → zip_names z = Some l.*1;
  zip_read_write l z k b :
    zip_write l = Some z → NoDup l.*1 → (k, b) ∈ l → zip_read z k = Some b;
}.

(** ** A site *)

Record Site : Type := {
  site_world : World;
  site_files : Files;
  site_out : list string;
  site_children : list Child;
}.

Inductive IoError : Type := Io.

Definition set_world (w : World) (s : Site) : Site := {|
  site_world := w; site_files := site_files s; site_out := site_out s;
  site_children := site_children s |}.
Definition set_files (fs : Files) (s : Site) : Site := {|
  site_world := site_world s; site_files := fs; site_out := site_out s;
  site_children := site_children s |}.

(** No child was started. *)
Definition same_children (s s' : Site) : Prop := site_children s' = site_children s.
#[export] Instance same_children_preorder : PreOrder same_children.
Proof. split; [by intros s|intros s1 s2 s3 H1 H2; unfold same_children in *; congruence]. Qed.

Section site.
Context {E : Type}.
Definition on_vault {F A} `{From F E} (m : ST World F A) : ST Site E A := λ s,
  let '(r, w) := m (site_world s) in (res_try r, set_world w s).
Definition ask {A} (f : nat → A) : ST Site E A := on_vault (query (E:=E) f).
Definition print (text : string) : ST Site E unit := λ s,
  (Ok tt, {| site_world := site_world s; site_files := site_files s;
             site_out := site_out s ++ [text]; site_children := site_children s |}).
Definition println (text : string) : ST Site E unit := print (text +:+ String LF "")%string.
(** A child that was started is kept, whatever becomes of it. *)
Definition record_child (child : Child) : ST Site E unit := λ s,
  (Ok tt, {| site_world := site_world s; site_files := site_files s; site_out := site_out s;
             site_children := site_children s ++ [child] |}).
End site.

Section disk.
Context `{Ext, Disk}.
Abbreviation IO := (ST Site IoError).

(** An operation on the files: it may fail, without an effect. *)
Definition on_files {A} (f : Files → option (A * Files)) : IO A := λ s,
  match f (site_files s) with
  | Some (a, fs) => (Ok a, set_files fs s)
  | None => (Err Io, s)
  end.
Definition fs_op {A} (f : Files → option (A * Files)) : IO A :=
  i ← ask (λ i, i);
  if fs_fault i then throw Io else on_files f.

Definition created_mode (mode : Z) : Z := Z.land mode (Z.lnot umask).
Definition has_dir (fs : Files) (k : list string) : bool :=
  match fs !! k with Some n => is_dir n | None => false end.

(** [create_dir_all]: every missing prefix is made, outermost first. *)
Definition get_files : IO Files := λ s, (Ok (site_files s), s).
Definition create_dir (k : list string) : IO unit :=
  fs ← get_files;
  if has_dir fs k then mret tt else
  fs_op (λ fs, match fs !! k with
               | None => if has_dir fs (removelast k)
                         then Some (tt, <[k := Dir (created_mode 511)]> fs) else None
               | Some _ => None
               end).
Fixpoint create_dirs (made todo : list string) : IO unit :=
  match todo with
  | [] => mret tt
  | c :: todo => let k := made ++ [c] in _ ← create_dir k; create_dirs k todo
  end.
Definition create_dir_all (p : string) : IO unit := create_dirs [] (path_key p).

(** [set_permissions]; the empty path names nothing. *)
Definition set_permissions (p : string) (mode : Z) : IO unit := fs_op (λ fs,
  if is_empty p then None else
  n ← fs !! path_key p; Some (tt, <[path_key p := set_mode mode n]> fs)).

(** [OpenOptions] with [write], [create] and [truncate]: the mode is for a file it creates. *)
Definition open_truncate (p : string) (mode : Z) : IO unit := fs_op (λ fs,
  if is_empty p then None else
  match fs !! path_key p with
  | Some (File old _) => Some (tt, <[path_key p := File old []]> fs)
  | Some _ => None
  | None => if has_dir fs (removelast (path_key p))
            then Some (tt, <[path_key p := File (created_mode mode) []]> fs) else None
  end).

(** [write_all] to the file just opened. *)
Definition set_data (p : string) (f : bytes → bytes) : IO unit := on_files (λ fs,
  match fs !! path_key p with
  | Some (File mode old) => Some (tt, <[path_key p := File mode (f old)]> fs)
  | _ => None
  end).
Definition write_all (p : string) (data : bytes) : IO unit :=
  i ← ask (λ i, i);
  match torn_write i data with
  | Some torn => _ ← set_data p (λ _, torn); throw Io
  | None => set_data p (λ old, old ++ data)
  end.

(** [fs::write], [fs::read], [fs::rename], [fs::remove_file] and [exists]. *)
Definition fs_write (p : string) (data : bytes) : IO unit :=
  _ ← open_truncate p 438; write_all p data.
Definition fs_read (p : string) : IO bytes := fs_op (λ fs,
  match fs !! path_key p with Some (File _ data) => Some (data, fs) | _ => None end).
Definition fs_rename (p q : string) : IO unit := fs_op (λ fs,
  n ← fs !! path_key p;
  if has_dir fs (path_key q) || negb (has_dir fs (removelast (path_key q))) then None
  else Some (tt, <[path_key q := n]> (delete (path_key p) fs))).
Definition fs_remove (p : string) : IO unit := fs_op (λ fs,
  match fs !! path_key p with
  | Some (Dir _) | None => None
  | Some _ => Some (tt, delete (path_key p) fs)
  end).
Definition fs_exists (p : string) : ST Site IoError bool := λ s,
  (Ok (bool_decide (is_Some (site_files s !! path_key p))), s).
End disk.

(** ** Lemmas: paths *)

Lemma split_char_app (x y : string) :
  split_char SLASH (x +:+ String SLASH y)%string = split_char SLASH x ++ split_char SLASH y.
Proof.
  induction x as [|a x IH].
  - rewrite str_app_nil_l. cbn [split_char]. by rewrite Ascii.eqb_refl.
  - rewrite str_app_cons. cbn [split_char]. destruct (Ascii.eqb a SLASH); [by rewrite IH|].
    rewrite IH. destruct (split_char SLASH x) as [|z r] eqn:Hs; [|done].
    destruct x as [|b x]; cbn [split_char] in Hs; [done|].
    destruct (Ascii.eqb b SLASH); [done|]. by destruct (split_char SLASH x).
Qed.

Lemma split_char_none x : no_char SLASH x = true → split_char SLASH x = [x].
Proof.
  unfold no_char. induction x as [|a x IH]; [done|]. cbn [all_chars split_char].
  rewrite andb_true_iff, negb_true_iff. intros [-> Hx]. by rewrite IH.
Qed.

Definition part_ok (c : string) : bool := negb (is_empty c || String.eqb c ".").
Definition parts (p : string) : list string := List.filter part_ok (split_char SLASH p).

Lemma path_key_parts p : path_key p = (if starts_with p "/" then ["/"] else []) ++ parts p.
Proof. done. Qed.

Lemma parts_app x y : parts (x +:+ String SLASH y)%string = parts x ++ parts y.
Proof. unfold parts. by rewrite split_char_app, List.filter_app. Qed.

Lemma parts_none x : no_char SLASH x = true → part_ok x = true → parts x = [x].
Proof. intros Hs Hok. unfold parts. rewrite split_char_none by done. simpl. by rewrite Hok. Qed.

Lemma starts_with_app (p : string) t : is_empty p = false → starts_with (p +:+ t)%string "/" = starts_with p "/".
Proof.
  destruct p as [|a p]; [done|]. intros _. rewrite str_app_cons. unfold starts_with.
  cbn [String.prefix]. destruct (ascii_dec _ _); [|done]. by destruct (p +:+ t)%string, p.
Qed.

(** Dropping a trailing separator or dot keeps the key. *)
Lemma path_key_trim_right fuel p : path_key (trim_right fuel p) = path_key p.
Proof.
  revert p. induction fuel as [|fuel IH]; intros p; [done|]. cbn [trim_right].
  assert (Hdot : path_key (match Text.strip_suffix "/." p with
    | Some q => trim_right fuel (q +:+ "/")%string | None => p end) = path_key p).
  { destruct (Text.strip_suffix "/." p) as [q|] eqn:Hq; [|done].
    apply strip_suffix_Some in Hq as ->. rewrite IH, !path_key_parts.
    change (q +:+ "/.")%string with (q +:+ String SLASH ".")%string.
    change (q +:+ "/")%string with (q +:+ String SLASH "")%string. rewrite !parts_app.
    destruct q as [|a q]; [done|]. by rewrite !starts_with_app. }
  destruct (Text.strip_suffix "/" p) as [[|a q]|] eqn:Hq; [done| |done].
  apply strip_suffix_Some in Hq as ->. rewrite IH, !path_key_parts.
  change (String a q +:+ "/")%string with (String a q +:+ String SLASH "")%string.
  rewrite parts_app, starts_with_app by done. by rewrite app_nil_r.
Qed.
Lemma path_key_trimmed p : path_key (trimmed p) = path_key p.
Proof. apply path_key_trim_right. Qed.

(** The directory part is empty or ends in a separator, the name has none. *)
Lemma rsplit_slash_spec s d n : rsplit_slash s = (d, n) →
  s = (d +:+ n)%string ∧ no_char SLASH n = true ∧
  (d = "" ∨ ∃ x, d = (x +:+ String SLASH "")%string).
Proof.
  revert d n. induction s as [|a s IH]; intros d n; cbn [rsplit_slash].
  - intros [= <- <-]. repeat split. by left.
  - destruct (rsplit_slash s) as [d' n'] eqn:Hr. destruct (IH _ _ eq_refl) as (-> & Hn & Hd).
    destruct (is_empty d') eqn:He; cbn [negb].
    + destruct d'; [|done]. destruct (Ascii.eqb a SLASH) eqn:Ha; intros [= <- <-].
      * apply Ascii.eqb_eq in Ha as ->. repeat split; [done|]. right. by exists "".
      * repeat split; [|by left]. unfold no_char in *. cbn [all_chars]. by rewrite Ha, Hn.
    + intros [= <- <-]. repeat split; [done|]. right.
      destruct Hd as [->|(x & ->)]; [done|]. by exists (String a x).
Qed.

(** A key in a directory: the directory's key and the name. *)
Lemma path_key_in d n :
  no_char SLASH n = true → part_ok n = true → d = "" ∨ (∃ x, d = (x +:+ String SLASH "")%string) →
  path_key (d +:+ n)%string = path_key d ++ [n].
Proof.
  intros Hn Hok [->|(x & ->)]; rewrite !path_key_parts.
  - rewrite str_app_nil_l, parts_none by done. cbn [parts split_char List.filter part_ok].
    destruct n as [|a n]; [done|]. unfold starts_with. cbn [String.prefix].
    unfold no_char in Hn. cbn [all_chars] in Hn. apply andb_true_iff in Hn as [Ha _].
    destruct (ascii_dec "/" a) as [<-|]; [done|]. done.
  - rewrite str_app_assoc, str_app_cons, str_app_nil_l, !parts_app, (parts_none n) by done.
    change (parts "") with (@nil string). rewrite app_nil_r, (assoc_L (++)). do 2 f_equal.
    destruct x as [|a x]; [by destruct n|]. by rewrite !starts_with_app.
Qed.

Lemma file_name_inv p n : file_name p = Some n → ∃ d,
  rsplit_slash (trimmed p) = (d, n) ∧ part_ok n = true ∧ no_char SLASH n = true ∧
  path_key p = path_key d ++ [n] ∧ (d = "" ∨ ∃ x, d = (x +:+ String SLASH "")%string).
Proof.
  unfold file_name. destruct (rsplit_slash (trimmed p)) as [d m] eqn:Hr. cbn [snd].
  destruct (is_empty m || String.eqb m "." || String.eqb m "..") eqn:Hm; [done|]. intros [= ->].
  apply orb_false_iff in Hm as [Hm _].
  destruct (rsplit_slash_spec _ _ _ Hr) as (Hp & Hn & Hd). exists d.
  assert (part_ok n = true) as Hok by (unfold part_ok; by rewrite Hm).
  split_and!; try done. rewrite <-path_key_trimmed, Hp. by apply path_key_in.
Qed.

Lemma parent_inv p n q : file_name p = Some n → parent p = Some q → path_key p = path_key q ++ [n].
Proof.
  intros (d & Hr & _ & _ & Hk & _)%file_name_inv. unfold parent. rewrite Hr.
  destruct (_ || _); [done|]. intros [= <-]. by rewrite path_key_trimmed.
Qed.

Lemma rsplit_dot_Some s stem ext : rsplit_dot s = Some (stem, ext) → s = (stem +:+ "." +:+ ext)%string.
Proof.
  revert stem ext. induction s as [|a s IH]; intros stem ext; cbn [rsplit_dot]; [done|].
  destruct (rsplit_dot s) as [[st ex]|].
  - intros [= <- <-]. by rewrite str_app_cons, <-(IH st ex).
  - destruct (Ascii.eqb a ".") eqn:Ha; [|done]. intros [= <- <-]. by apply Ascii.eqb_eq in Ha as ->.
Qed.

Lemma name_split_spec n stem o : name_split n = (stem, o) →
  n = match o with Some ext => stem +:+ "." +:+ ext | None => stem end%string ∧
  (n ≠ "" → stem ≠ "").
Proof.
  unfold name_split. destruct (rsplit_dot n) as [[[|a st] ex]|] eqn:Hd; intros [= <- <-]; split; try done.
  by apply rsplit_dot_Some in Hd.
Qed.

(** A longer extension names another file of the same directory. *)
Lemma with_extension_other p n ext :
  file_name p = Some n → ext ≠ "" → no_char SLASH ext = true →
  (String.length (default "" (extension p)) < String.length ext)%nat →
  ∃ m, m ≠ n ∧ path_key (with_extension p ext) = removelast (path_key p) ++ [m].
Proof.
  intros Hf He Hs Hl. pose proof (file_name_inv _ _ Hf) as (d & Hr & Hok & Hn & Hk & Hd).
  unfold extension in Hl. rewrite Hf in Hl. cbn [mbind option_bind] in Hl.
  unfold with_extension. rewrite Hf, Hr. cbn [fst].
  destruct (name_split n) as [stem o] eqn:Hsp. cbn [fst snd] in *.
  destruct (name_split_spec _ _ _ Hsp) as [Hname Hne].
  assert (Hstem : stem ≠ "") by (apply Hne; by intros ->).
  destruct ext as [|a ext]; [done|]. cbn [is_empty]. exists (stem +:+ "." +:+ String a ext)%string. split.
  - intros Hc. apply (f_equal String.length) in Hc. subst n. destruct o as [e|]; revert Hc Hl;
      rewrite !str_length_app; simpl; lia.
  - rewrite Hk, removelast_last, str_app_assoc. apply path_key_in; [| |done].
    + unfold no_char in *. rewrite !all_chars_app. rewrite Hs. cbn [all_chars andb].
      rewrite andb_true_r. destruct o as [e|]; subst n; [|done]. rewrite all_chars_app in Hn.
      by apply andb_true_iff in Hn as [? _].
    + destruct stem as [|b stem]; [done|]. unfold part_ok. cbn [is_empty orb].
      apply negb_true_iff, String.eqb_neq. rewrite str_app_cons. intros [= _ Hc].
      by destruct stem.
Qed.

(** A bare name lies in the working directory, which is named by the empty path. *)
Lemma parent_bare n :
  no_char SLASH n = true → is_empty n = false → parent n = Some "".
Proof.
  intros Hn He. assert (Hstrip : ∀ p, Text.strip_suffix ("/" +:+ p)%string n = None).
  { intros p. destruct (Text.strip_suffix _ n) as [q|] eqn:Hq; [|done].
    apply strip_suffix_Some in Hq as ->. unfold no_char in Hn. rewrite !all_chars_app in Hn.
    cbn [all_chars] in Hn. by rewrite andb_false_r in Hn. }
  assert (Ht : trimmed n = n).
  { unfold trimmed. destruct (2 * String.length n)%nat; [done|]. cbn [trim_right].
    pose proof (Hstrip "" : Text.strip_suffix "/" n = None) as H1.
    pose proof (Hstrip "." : Text.strip_suffix "/." n = None) as H2. by rewrite H1, H2. }
  unfold parent. rewrite Ht, He. destruct (String.eqb_spec n "/") as [->|_]; [done|]. cbn [orb].
  assert (rsplit_slash n = ("", n)) as ->; [|done]. clear Hstrip Ht He. unfold no_char in Hn.
  induction n as [|a n IH]; [done|]. cbn [all_chars] in Hn.
  apply andb_true_iff in Hn as [Ha%negb_true_iff Hn]. cbn [rsplit_slash]. rewrite IH by done.
  cbn [is_empty negb]. by rewrite Ha.
Qed.

(** ** What an operation leaves alone *)

Definition same_files (s s' : Site) : Prop := site_files s' = site_files s.
Definition same_at (k : list string) (s s' : Site) : Prop := site_files s' !! k = site_files s !! k.
#[export] Instance same_files_preorder : PreOrder same_files.
Proof. split; [by intros s|intros s1 s2 s3 H1 H2; unfold same_files in *; congruence]. Qed.
#[export] Instance same_at_preorder k : PreOrder (same_at k).
Proof. split; [by intros s|intros s1 s2 s3 H1 H2; unfold same_at in *; congruence]. Qed.

Section fs_lemmas.
Context `{Ext, Disk}.

Lemma keeps_files_at {E A} k (m : ST Site E A) : keeps same_files m → keeps (same_at k) m.
Proof. intros Hm s. unfold same_at. by rewrite (Hm s). Qed.

Lemma keeps_on_vault {E F A} `{From F E} (m : ST World F A) :
  keeps same_files (on_vault m : ST Site E A).
Proof. intros s. unfold on_vault. by destruct (m (site_world s)) as [r w]. Qed.
Lemma keeps_on_vault_at {E F A} `{From F E} k (m : ST World F A) :
  keeps (same_at k) (on_vault m : ST Site E A).
Proof. apply keeps_files_at, keeps_on_vault. Qed.

Lemma keeps_on_files {A} (k : list string) (f : Files → option (A * Files)) :
  (∀ fs a fs', f fs = Some (a, fs') → fs' !! k = fs !! k) → keeps (same_at k) (on_files f).
Proof.
  intros Hf s. unfold on_files, same_at. destruct (f (site_files s)) as [[a fs]|] eqn:Hs; [|done].
  simpl. by eapply Hf.
Qed.

Lemma keeps_fs_op {A} (k : list string) (f : Files → option (A * Files)) :
  (∀ fs a fs', f fs = Some (a, fs') → fs' !! k = fs !! k) → keeps (same_at k) (fs_op f).
Proof.
  intros Hf. unfold fs_op. apply keeps_bind; [apply _|apply keeps_on_vault_at|intros i].
  destruct (fs_fault i); [apply keeps_throw, _|by apply keeps_on_files].
Qed.

Lemma keeps_set_permissions k p mode : path_key p ≠ k → keeps (same_at k) (set_permissions p mode).
Proof.
  intros Hk. apply keeps_fs_op. intros fs a fs'. destruct (is_empty p); [done|].
  destruct (fs !! path_key p); simpl; [|done]. intros [= _ <-]. by apply lookup_insert_ne.
Qed.

Lemma keeps_open_truncate k p mode : path_key p ≠ k → keeps (same_at k) (open_truncate p mode).
Proof.
  intros Hk. apply keeps_fs_op. intros fs a fs'. destruct (is_empty p); [done|].
  destruct (fs !! path_key p) as [[]|]; [intros [= _ <-]; by apply lookup_insert_ne|done..|].
  destruct (has_dir _ _); [intros [= _ <-]; by apply lookup_insert_ne|done].
Qed.

Lemma keeps_set_data k p f : path_key p ≠ k → keeps (same_at k) (set_data p f).
Proof.
  intros Hk. apply keeps_on_files. intros fs a fs'.
  destruct (fs !! path_key p) as [[]|]; [intros [= _ <-]; by apply lookup_insert_ne|done..].
Qed.

Lemma keeps_write_all k p data : path_key p ≠ k → keeps (same_at k) (write_all p data).
Proof.
  intros Hk. apply keeps_bind; [apply _|apply keeps_on_vault_at|intros i].
  destruct (torn_write i data); [|by apply keeps_set_data].
  apply keeps_bind; [apply _|by apply keeps_set_data|intros; apply keeps_throw, _].
Qed.

Lemma keeps_fs_write k p data : path_key p ≠ k → keeps (same_at k) (fs_write p data).
Proof.
  intros Hk. apply keeps_bind; [apply _|by apply keeps_open_truncate|].
  intros; by apply keeps_write_all.
Qed.

Lemma keeps_fs_read p : keeps same_files (fs_read p).
Proof.
  unfold fs_read, fs_op. apply keeps_bind; [apply _|apply keeps_on_vault|intros i].
  destruct (fs_fault i); [apply keeps_throw, _|]. intros s. unfold on_files, same_files.
  by destruct (site_files s !! path_key p) as [[]|].
Qed.

Lemma keeps_create_dir k q : q ≠ k → keeps (same_at k) (create_dir q).
Proof.
  intros Hk. apply keeps_bind; [apply _|by intros s|intros fs]. destruct (has_dir fs q).
  - apply keeps_ret, _.
  - apply keeps_fs_op. intros fs' a fs''. destruct (fs' !! q); [done|].
    destruct (has_dir _ _); [intros [= _ <-]; by apply lookup_insert_ne|done].
Qed.

(** Making directories touches no longer key. *)
Lemma keeps_create_dir_all k p :
  (length (path_key p) < length k)%nat → keeps (same_at k) (create_dir_all p).
Proof.
  unfold create_dir_all. cut (∀ made todo, (length made + length todo < length k)%nat →
    keeps (same_at k) (create_dirs made todo)).
  { intros Hc Hl. by apply Hc. }
  intros made todo. revert made. induction todo as [|c todo IH]; intros made Hl; cbn [create_dirs].
  - apply keeps_ret, _.
  - cbv zeta. apply keeps_bind; [apply _| |intros _; apply IH; rewrite length_app; simpl in *; lia].
    apply keeps_create_dir. intros <-. rewrite length_app in Hl. simpl in Hl. lia.
Qed.

(** ** Inversion of runs *)

Lemma on_vault_ok_inv {E F A} `{From F E} (m : ST World F A) s a s' :
  (on_vault m : ST Site E A) s = (Ok a, s') →
  m (site_world s) = (Ok a, site_world s') ∧ s' = set_world (site_world s') s.
Proof.
  unfold on_vault. destruct (m (site_world s)) as [[b|e|] w] eqn:Hm; intros [= <- <-]. done.
Qed.

Lemma ask_ok_inv {E A} (f : nat → A) s a s' :
  (ask f : ST Site E A) s = (Ok a, s') →
  a = f (tick (site_world s)) ∧ site_files s' = site_files s ∧ db (site_world s') = db (site_world s).
Proof. unfold ask, on_vault, query, mbind, st_bind, draw. by intros [= <- <-]. Qed.

Lemma fs_op_ok_inv {A} (f : Files → option (A * Files)) s a s' :
  fs_op f s = (Ok a, s') →
  f (site_files s) = Some (a, site_files s') ∧ db (site_world s') = db (site_world s) ∧
  site_out s' = site_out s ∧ site_children s' = site_children s.
Proof.
  unfold fs_op. intros Hrun. apply st_bind_ok_inv in Hrun as (i & s1 & Ha & Hrun).
  unfold ask in Ha. apply on_vault_ok_inv in Ha as (Hq & Hs1).
  unfold query, mbind, st_bind, draw in Hq. injection Hq as _ Hw.
  destruct (fs_fault i); [done|]. unfold on_files in Hrun.
  destruct (f (site_files s1)) as [[b fs]|] eqn:Hf; [|done]. injection Hrun as <- <-.
  rewrite Hs1 in Hf. simpl in Hf. simpl. split; [done|]. rewrite Hs1, <-Hw. done.
Qed.

Lemma write_all_ok_inv p data s s' :
  write_all p data s = (Ok tt, s') → ∃ mode old, site_files s !! path_key p = Some (File mode old) ∧
    site_files s' = <[path_key p := File mode (old ++ data)]> (site_files s) ∧
    db (site_world s') = db (site_world s).
Proof.
  unfold write_all. intros Hrun. apply st_bind_ok_inv in Hrun as (i & s1 & Ha & Hrun).
  apply ask_ok_inv in Ha as (_ & Hf & Hd).
  destruct (torn_write i data).
  { apply st_bind_ok_inv in Hrun as (? & ? & _ & Hrun). done. }
  unfold set_data, on_files in Hrun. rewrite Hf in Hrun.
  destruct (site_files s !! path_key p) as [[mode old| |]|] eqn:Hp; try done.
  injection Hrun as <-. simpl. rewrite Hd. eauto.
Qed.

(** The file just opened is empty; it has the asked mode if it is new, else the one it had. *)
Lemma open_truncate_ok_inv p mode s s' :
  open_truncate p mode s = (Ok tt, s') →
  ∃ m, site_files s' !! path_key p = Some (File m []) ∧ db (site_world s') = db (site_world s) ∧
    m = match site_files s !! path_key p with Some n => node_mode n | None => created_mode mode end.
Proof.
  intros (Ho & Hd & _)%fs_op_ok_inv. destruct (is_empty p); [done|].
  destruct (site_files s !! path_key p) as [[]|]; try done.
  - injection Ho as <-. rewrite lookup_insert_eq. eauto.
  - destruct (has_dir _ _); [|done]. injection Ho as <-. rewrite lookup_insert_eq. eauto.
Qed.

Lemma fs_write_ok_inv p data s s' :
  fs_write p data s = (Ok tt, s') →
  ∃ mode, site_files s' !! path_key p = Some (File mode data) ∧ db (site_world s') = db (site_world s).
Proof.
  unfold fs_write. intros Hrun. apply st_bind_ok_inv in Hrun as ([] & s1 & Ho & Hrun).
  apply open_truncate_ok_inv in Ho as (m & Hm & Hd & _).
  apply write_all_ok_inv in Hrun as (mode & old & Hl & Hfs & Hd').
  rewrite Hm in Hl. injection Hl as <- <-. exists m. rewrite Hfs, lookup_insert_eq.
  split; [done|congruence].
Qed.

Lemma set_permissions_ok_inv p mode s s' :
  set_permissions p mode s = (Ok tt, s') → ∃ n, site_files s !! path_key p = Some n ∧
    site_files s' = <[path_key p := set_mode mode n]> (site_files s).
Proof.
  intros (Ho & _)%fs_op_ok_inv. destruct (is_empty p); [done|].
  destruct (site_files s !! path_key p) as [n|]; [|done]. injection Ho as <-. eauto.
Qed.

Lemma fs_rename_ok_inv p q s s' :
  fs_rename p q s = (Ok tt, s') → ∃ n, site_files s !! path_key p = Some n ∧
    site_files s' = <[path_key q := n]> (delete (path_key p) (site_files s)).
Proof.
  intros (Ho & _)%fs_op_ok_inv. destruct (site_files s !! path_key p) as [n|]; [|done].
  cbn [mbind option_bind] in Ho. destruct (_ || _); [done|]. injection Ho as <-. eauto.
Qed.

Lemma fs_read_ok_inv p data s s' :
  fs_read p s = (Ok data, s') →
  (∃ mode, site_files s !! path_key p = Some (File mode data)) ∧ site_files s' = site_files s ∧
  db (site_world s') = db (site_world s).
Proof.
  intros (Ho & Hd & _)%fs_op_ok_inv.
  destruct (site_files s !! path_key p) as [[mode b| |]|]; try done.
  injection Ho as <- <-. eauto.
Qed.

(** A failed operation changed nothing. *)
Lemma fs_op_failed {F A} `{From IoError F} (f : Files → option (A * Files)) s (o : res F A) s' :
  try_ (fs_op f) s = (o, s') → (∀ a, o ≠ Ok a) → site_files s' = site_files s.
Proof.
  unfold try_, fs_op, ask, on_vault, query, mbind, st_bind, draw. simpl. unfold on_files.
  destruct (fs_fault _); simpl; [by intros [= _ <-]|].
  destruct (f (site_files s)) as [[a fs]|]; simpl; [|by intros [= _ <-]].
  intros [= <- _] Hne. by destruct (Hne a).
Qed.

(** A file set to the mode it has is the same, whether or not that succeeds. *)
Lemma set_permissions_mode {F} `{From IoError F} p s (o : res F unit) s' mode data :
  try_ (set_permissions p mode) s = (o, s') → site_files s !! path_key p = Some (File mode data) →
  site_files s' !! path_key p = Some (File mode data).
Proof.
  intros Hrun Hp. destruct o as [[]|e|].
  - apply try_ok_inv, set_permissions_ok_inv in Hrun as (n & Hn & ->). rewrite Hp in Hn.
    injection Hn as <-. by rewrite lookup_insert_eq.
  - apply fs_op_failed in Hrun; [|done]. by rewrite Hrun.
  - apply fs_op_failed in Hrun; [|done]. by rewrite Hrun.
Qed.

(** The empty path names nothing. *)
Lemma set_permissions_empty mode s : ∃ w,
  set_permissions "" mode s = (Err Io, set_world w s) ∧ db w = db (site_world s).
Proof.
  unfold set_permissions, fs_op, ask, on_vault, query, mbind, st_bind, draw. simpl.
  eexists. destruct (fs_fault _); [by split|]. unfold on_files. simpl. by split.
Qed.
End fs_lemmas.

#[export] Hint Extern 1 (keeps same_files (on_vault _)) => apply keeps_on_vault : keeps.
#[export] Hint Extern 1 (keeps same_files (ask _)) => apply keeps_on_vault : keeps.
#[export] Hint Extern 1 (keeps same_files (fs_read _)) => apply keeps_fs_read : keeps.
#[export] Hint Extern 2 (keeps (same_at _) _) => apply keeps_files_at : keeps.

(** ** A concrete disk

    The image of a database and an archive are JSON texts of their parts. *)

Definition pair_json (kv : string * string) : json := JArr [JStr kv.1; JStr kv.2].
Definition json_pair (v : json) : option (string * string) :=
  match v with JArr [JStr k; JStr x] => Some (k, x) | _ => None end.

Definition list_json {A} (f : A → json) (l : list A) : json := JArr (f <$> l).
Definition json_list {A} (f : json → option A) (v : json) : option (list A) :=
  match v with JArr l => mapM f l | _ => None end.

Lemma json_list_round {A} (f : A → json) g l : (∀ a, g (f a) = Some a) → json_list g (list_json f l) = Some l.
Proof. intros Hg. apply mapM_fmap_Forall_Some. by apply Forall_forall. Qed.

Definition record_json (kv : string * Z * SecretRow) : json :=
  let r := kv.2 in
  JArr [ JStr kv.1.1; JNum (JPos kv.1.2); JStr (row_secret_id r); JStr (row_namespace_id r);
         JStr (row_status r); JStr (row_secret_type r); JStr (row_created_at r);
         JStr (row_record_json r) ].
Definition json_record (v : json) : option (string * Z * SecretRow) :=
  match v with
  | JArr [JStr s; JNum (JPos n); JStr a; JStr b; JStr c; JStr d; JStr e; JStr f] =>
      Some (s, n, {| row_secret_id := a; row_namespace_id := b; row_status := c;
                     row_secret_type := d; row_created_at := e; row_record_json := f |})
  | _ => None
  end.
Definition fingerprint_json (kv : string * Z * string) : json :=
  JArr [JStr kv.1.1; JNum (JPos kv.1.2); JStr kv.2].
Definition json_fingerprint (v : json) : option (string * Z * string) :=
  match v with JArr [JStr s; JNum (JPos n); JStr f] => Some (s, n, f) | _ => None end.
Definition job_json (kv : string * RotationRow) : json :=
  JArr [JStr kv.1; JStr (rot_secret_ref kv.2); JStr (rot_status kv.2); JStr (rot_job_json kv.2)].
Definition json_job (v : json) : option (string * RotationRow) :=
  match v with
  | JArr [JStr k; JStr a; JStr b; JStr c] =>
      Some (k, {| rot_secret_ref := a; rot_status := b; rot_job_json := c |})
  | _ => None
  end.

Definition db_json (d : Db) : json := JArr [
  list_json pair_json (vault_metadata d); list_json record_json (secret_records d);
  list_json pair_json (policies d); list_json pair_json (tickets d);
  list_json pair_json (audit_events d); list_json fingerprint_json (redaction_fingerprints d);
  list_json job_json (rotation_jobs d) ].
Definition json_db (v : json) : option Db :=
  match v with
  | JArr [a; b; c; d; e; f; g] =>
      a ← json_list json_pair a; b ← json_list json_record b; c ← json_list json_pair c;
      d ← json_list json_pair d; e ← json_list json_pair e; f ← json_list json_fingerprint f;
      g ← json_list json_job g;
      Some {| vault_metadata := a; secret_records := b; policies := c; tickets := d;
              audit_events := e; redaction_fingerprints := f; rotation_jobs := g |}
  | _ => None
  end.

Lemma json_db_round d : json_db (db_json d) = Some d.
Proof.
  unfold json_db, db_json.
  assert (Hp : ∀ l, json_list json_pair (list_json pair_json l) = Some l).
  { intros l. apply json_list_round. by intros []. }
  rewrite !Hp, !json_list_round; [by destruct d|by intros [[] []]|by intros [[] ?]|by intros [? []]].
Qed.

Definition entry_json (kv : string * bytes) : json := pair_json (kv.1, of_bytes kv.2).
Definition toy_entries (z : bytes) : option (list (string * string)) :=
  parse_text z ≫= json_list json_pair.

#[export] Instance toy_disk : Disk := {
  fs_fault _ := false;
  torn_write _ _ := None;
  umask := 18;
  vault_file_exists _ := true;
  wal_checkpoint _ := Some true;
  vault_file_readable _ := true;
  db_image _ d := toy_print_json (db_json d);
  stale_image _ := [];
  db_open b := parse_text b ≫= json_db;
  zip_write l := Some (toy_print_json (list_json entry_json l));
  zip_names z := list_fmap _ _ fst <$> toy_entries z;
  zip_read z k := l ← toy_entries z; as_bytes <$> OMap.assoc k l;
}.

Lemma toy_entries_write (l : list (string * bytes)) :
  toy_entries (toy_print_json (list_json entry_json l)) = Some ((λ kv, (kv.1, of_bytes kv.2)) <$> l).
Proof.
  unfold toy_entries. rewrite parse_text_print. cbn [mbind option_bind].
  unfold list_json, entry_json. rewrite (list_fmap_compose (λ kv, (kv.1, of_bytes kv.2)) pair_json).
  change (JArr (pair_json <$> ?l)) with (list_json pair_json l).
  apply json_list_round. by intros [].
Qed.

#[export] Instance toy_disk_laws : DiskLaws.
Proof.
  split.
  - intros i d. cbn [db_open db_image toy_disk]. rewrite parse_text_print. apply json_db_round.
  - intros l z. cbn [zip_write zip_names toy_disk]. intros <-%(inj Some). rewrite toy_entries_write.
    cbn [fmap option_fmap option_map]. f_equal. symmetry. apply (list_fmap_compose (λ kv, (kv.1, of_bytes kv.2)) fst).
  - intros l z k b. cbn [zip_write zip_read toy_disk]. intros <-%(inj Some) Hnd Hin.
    rewrite toy_entries_write. cbn [mbind option_bind]. induction l as [|[k' b'] l IH]; [by apply elem_of_nil in Hin|].
    rewrite fmap_cons in *. cbn [OMap.assoc fst snd]. apply NoDup_cons in Hnd as [Hk Hnd].
    apply elem_of_cons in Hin as [[= <- <-]|Hin].
    + rewrite String.eqb_refl. cbn. by rewrite String.list_byte_of_string_of_list_byte.
    + destruct (String.eqb_spec k k') as [->|_]; [|by apply IH].
      destruct Hk. apply list_elem_of_fmap. by exists (k', b).
Qed.
