(* ===== verification/Backup.v ===== *)
(** * Backups and the files of recovery packages (backup.rs, recovery.rs)

    A backup is a zip archive of a manifest and an image of the vault's database; restoring it
    checks the names, the manifest and the hash of the image before the destination is touched,
    and replaces the destination in one step.  [RecoveryPackage::read] and [write]. *)

From S2P Require Export Files StoreSpec Recovery.
From S2P Require Import Toy.
#[local] Open Scope Z_scope.

Inductive BackupError : Type :=
| BackupStore (e : StoreError) | VaultDatabaseMissing | UnexpectedContents | DatabaseHashMismatch
| BackupIo | BackupZip | BackupJson | BackupSqlite.
#[export] Instance from_backup_store : From StoreError BackupError := BackupStore.
#[export] Instance from_recovery_io : From IoError RecoveryError := λ _, RecoveryIo.
#[export] Instance from_store_io : From IoError StoreError := λ _, StoreIo.
#[export] Instance from_backup_io : From IoError BackupError := λ _, BackupIo.

Record BackupManifest : Type := {
  bk_format_version : Z;
  bk_created_at : string;
  bk_vault_id : string;
  bk_database_sha256 : string;
  bk_contains_plaintext_secrets : bool;
  bk_contains_plaintext_root_key : bool;
}.

Definition BackupManifest_fields (m : BackupManifest) : list (string * json) :=
  [ ("format_version", ser_u64 (bk_format_version m)); ("created_at", JStr (bk_created_at m));
    ("vault_id", JStr (bk_vault_id m)); ("database_sha256", JStr (bk_database_sha256 m));
    ("contains_plaintext_secrets", JBool (bk_contains_plaintext_secrets m));
    ("contains_plaintext_root_key", JBool (bk_contains_plaintext_root_key m)) ].
Definition BackupManifest_of_object (m : omap string json) : option BackupManifest :=
  format_version ← field "format_version" de_u64 m;
  created_at ← field "created_at" as_str m;
  vault_id ← field "vault_id" as_str m;
  database_sha256 ← field "database_sha256" as_str m;
  secrets ← field_or "contains_plaintext_secrets" as_bool false m;
  root_key ← field_or "contains_plaintext_root_key" as_bool false m;
  Some {| bk_format_version := format_version; bk_created_at := created_at;
          bk_vault_id := vault_id; bk_database_sha256 := database_sha256;
          bk_contains_plaintext_secrets := secrets; bk_contains_plaintext_root_key := root_key |}.
#[export] Instance BackupManifest_serde : Serde BackupManifest := {
  to_value m := obj (BackupManifest_fields m);
  of_value v := as_object v ≫= BackupManifest_of_object;
}.
Definition BackupManifest_wf (m : BackupManifest) : Prop := 0 <= bk_format_version m <= u64_max.

Definition MANIFEST_NAME : string := "manifest.json".
Definition DATABASE_NAME : string := "vault.db".

Section backup.
Context `{Ext, Host, Disk}.
Abbreviation BACKUP := (ST Site BackupError).

(** [serde_json::to_string_pretty] of a typed value. *)
Definition to_string_pretty `{Serde A} (a : A) : string := json_to_string_pretty (to_value a).

Definition create_private_file (path : string) : BACKUP unit := try_ (open_truncate path 384).
Definition harden_dir_permissions {E} `{From IoError E} (path : string) : ST Site E unit :=
  try_ (set_permissions path 448).
Definition harden_file_permissions (path : string) : BACKUP unit := try_ (set_permissions path 384).

(** The directory of a file, made and closed to others. *)
Definition private_parent {E} `{From IoError E} (path : string) : ST Site E unit :=
  match parent path with
  | Some parent => _ ← try_ (create_dir_all parent); harden_dir_permissions parent
  | None => mret tt
  end.

(** What [SQLiteVaultStore::initialize_schema], hence every operation on the store, does first. *)
Definition initialize_vault_dir (vault_path : string) : ST Site StoreError unit :=
  private_parent vault_path.

(** The checkpoint may find the database busy, which is no error. *)
Definition checkpoint_database : BACKUP bool :=
  done ← ask wal_checkpoint; lift (ok_or BackupSqlite done).

(** [fs::read(store.path())]: after a checkpoint that was busy, an image of earlier tables. *)
Definition read_database (done : bool) : BACKUP bytes :=
  i ← ask (λ i, i);
  tables ← on_vault get_db;
  if vault_file_readable i
  then mret (if done then db_image i tables else stale_image i) else throw BackupIo.

Definition create_backup (destination : string) : BACKUP BackupManifest :=
  header ← on_vault load_header;
  exists_ ← ask vault_file_exists;
  _ ← guard_ (negb exists_) VaultDatabaseMissing;
  done ← checkpoint_database;
  data ← read_database done;
  now ← on_vault (Utc_now (E:=StoreError));
  let manifest := {| bk_format_version := 1; bk_created_at := utc_millis now;
    bk_vault_id := hd_vault_id header;
    bk_database_sha256 := b64url_no_padding (sha256 data);
    bk_contains_plaintext_secrets := false; bk_contains_plaintext_root_key := false |} in
  _ ← private_parent destination;
  _ ← create_private_file destination;
  archive ← lift (ok_or BackupZip (zip_write
    [(MANIFEST_NAME, as_bytes (to_string_pretty manifest)); (DATABASE_NAME, data)]));
  _ ← try_ (write_all destination archive);
  mret manifest.

(** The name of the temporary file beside a destination. *)
Definition restore_tmp (destination_db : string) : string :=
  with_extension destination_db (default "" (extension destination_db) +:+ "tmp").

(** The archive's two entries, checked: the manifest and the image it vouches for. *)
Definition open_backup (archive : bytes) : res BackupError (BackupManifest * bytes) :=
  names ← ok_or BackupZip (zip_names archive);
  if negb (bool_decide (list_to_set (C:=gset string) names = {[MANIFEST_NAME; DATABASE_NAME]}))
  then Err UnexpectedContents else
  manifest_json ← ok_or BackupZip (zip_read archive MANIFEST_NAME);
  manifest_json ← ok_or BackupIo (from_utf8 manifest_json);
  manifest ← ok_or BackupJson (from_str manifest_json);
  db_data ← ok_or BackupZip (zip_read archive DATABASE_NAME);
  let actual_hash := b64url_no_padding (sha256 db_data) in
  if negb (String.eqb actual_hash (bk_database_sha256 manifest))
  then Err DatabaseHashMismatch else Ok (manifest, db_data).

Definition restore_backup (source destination_db : string) : BACKUP BackupManifest :=
  archive ← try_ (fs_read source);
  opened ← lift (open_backup archive);
  let '(manifest, db_data) := opened in
  _ ← private_parent destination_db;
  let tmp := restore_tmp destination_db in
  _ ← try_ (fs_write tmp db_data);
  _ ← harden_file_permissions tmp;
  _ ← try_ (fs_rename tmp destination_db);
  _ ← harden_file_permissions destination_db;
  mret manifest.

(** ** recovery.rs *)

Definition RecoveryPackage_write (package : RecoveryPackage) (path : string)
  : ST Site RecoveryError unit :=
  _ ← match parent path with
      | Some parent => try_ (create_dir_all parent)
      | None => mret tt
      end;
  _ ← try_ (open_truncate path 384);
  try_ (write_all path (as_bytes (to_string_pretty package))).
Definition RecoveryPackage_read (path : string) : ST Site RecoveryError RecoveryPackage :=
  data ← try_ (fs_read path);
  lift (ok_or RecoveryJson (json_from_slice data ≫= of_value)).
End backup.

(** ** Lemmas: the manifest and the archive *)

(** What serde_json prints with line breaks it also reads. *)
Class PrettyLaws {X : Ext} {HS : Host} : Prop :=
  pretty_round v : json_ok v = true → json_from_slice (as_bytes (json_to_string_pretty v)) = Some v.
#[export] Instance toy_pretty_laws : PrettyLaws.
Proof.
  intros v _. cbn [json_to_string_pretty toy_host]. rewrite String.list_byte_of_string_of_list_byte.
  apply parse_text_print.
Qed.

(** What every Rust string is. *)
Definition is_text (s : string) : Prop := from_utf8 (as_bytes s) = Some s.
#[export] Instance is_text_dec s : Decision (is_text s) := decide (from_utf8 (as_bytes s) = Some s).

Lemma BackupManifest_round m :
  BackupManifest_wf m → BackupManifest_of_object (of_list (BackupManifest_fields m)) = Some m.
Proof.
  intros Hm. unfold BackupManifest_of_object. repeat serde_step.
  rewrite de_ser_u64 by done. by destruct m.
Qed.
Lemma BackupManifest_json_ok m : BackupManifest_wf m → json_ok (to_value m) = true.
Proof.
  intros Hm. apply json_ok_obj. unfold BackupManifest_fields. cbn [forallb snd].
  by rewrite ser_u64_ok.
Qed.
#[export] Instance BackupManifest_serde_laws : SerdeLaws BackupManifest BackupManifest_wf.
Proof. split; [apply BackupManifest_round|apply BackupManifest_json_ok]. Qed.

Section backup_lemmas.
Context {X : Ext} {HS : Host} {D : Disk} {HD : DiskLaws} {HP : PrettyLaws}.

(** What a manifest and its image were zipped into opens as them. *)
Lemma open_backup_zip m image archive :
  BackupManifest_wf m → is_text (to_string_pretty m) → bk_database_sha256 m = b64url_no_padding (sha256 image) →
  zip_write [(MANIFEST_NAME, as_bytes (to_string_pretty m)); (DATABASE_NAME, image)] = Some archive →
  open_backup archive = Ok (m, image).
Proof.
  intros Hm Ht Hh Hz. assert (Hnd : NoDup [MANIFEST_NAME; DATABASE_NAME]).
  { apply NoDup_cons_2, NoDup_singleton. by intros [=]%list_elem_of_singleton. }
  unfold open_backup. rewrite (zip_names_write _ _ Hz). cbn [ok_or mbind res_bind fmap list_fmap fst].
  rewrite bool_decide_eq_true_2 by set_solver. cbn [negb].
  rewrite (zip_read_write _ _ MANIFEST_NAME _ Hz Hnd) by left. cbn [ok_or mbind res_bind].
  rewrite Ht. cbn [ok_or mbind res_bind]. unfold from_str, to_string_pretty. rewrite pretty_round by (by eapply to_value_ok). cbn [mbind option_bind].
  rewrite of_to_value by done. cbn [ok_or mbind res_bind].
  rewrite (zip_read_write _ _ DATABASE_NAME _ Hz Hnd) by (right; left). cbn [ok_or mbind res_bind].
  by rewrite Hh, String.eqb_refl.
Qed.

Lemma open_backup_inv archive m image :
  open_backup archive = Ok (m, image) → bk_database_sha256 m = b64url_no_padding (sha256 image).
Proof.
  unfold open_backup. intros Ho. do 2 (apply res_bind_ok_inv in Ho as (? & _ & Ho); try destruct (negb _); try done).
  apply res_bind_ok_inv in Ho as (? & _ & Ho). apply res_bind_ok_inv in Ho as (m' & _ & Ho).
  apply res_bind_ok_inv in Ho as (image' & _ & Ho).
  destruct (String.eqb_spec (b64url_no_padding (sha256 image')) (bk_database_sha256 m')); [|done].
  cbn [negb] in Ho. congruence.
Qed.

Lemma load_header_db w h w' : load_header w = (Ok h, w') → db w' = db w.
Proof.
  unfold load_header, initialize_schema. intros Hrun.
  apply st_bind_ok_inv in Hrun as ([] & w1 & Hi & Hrun). rewrite draw_bind in Hi.
  destruct (store_fault (tick w)) as [[]|]; try done. injection Hi as <-.
  apply st_bind_ok_inv in Hrun as (d & w2 & Hd & Hrun). injection Hd as _ <-.
  apply st_bind_ok_inv in Hrun as (raw & w3 & Hr & Hrun). apply lift_ok_inv in Hr as [_ <-].
  by apply lift_ok_inv in Hrun as [_ <-].
Qed.

(** A backup that succeeded: the destination is the archive of an image of the tables. *)
Lemma create_backup_inv destination s m s' :
  (∀ i, wal_checkpoint i ≠ Some false) → create_backup destination s = (Ok m, s') →
  ∃ i archive, BackupManifest_wf m ∧
    bk_database_sha256 m = b64url_no_padding (sha256 (db_image i (db (site_world s)))) ∧
    bk_contains_plaintext_secrets m = false ∧ bk_contains_plaintext_root_key m = false ∧
    zip_write [(MANIFEST_NAME, as_bytes (to_string_pretty m));
               (DATABASE_NAME, db_image i (db (site_world s)))] = Some archive ∧
    ∃ mode, site_files s' !! path_key destination = Some (File mode archive).
Proof.
  intros Hbusy Hrun. unfold create_backup in Hrun.
  apply st_bind_ok_inv in Hrun as (h & s1 & Hl & Hrun).
  apply on_vault_ok_inv in Hl as [Hd1%load_header_db _].
  apply st_bind_ok_inv in Hrun as (ex & s2 & Ha & Hrun). apply ask_ok_inv in Ha as (_ & _ & Hd2).
  apply st_bind_ok_inv in Hrun as ([] & s2' & Hg & Hrun).
  unfold guard_ in Hg. destruct (negb ex); [done|]. injection Hg as <-.
  apply st_bind_ok_inv in Hrun as (ck & s3 & Hc & Hrun).
  apply st_bind_ok_inv in Hc as (o & s3' & Ha & Hc). apply ask_ok_inv in Ha as (Ho & _ & Hd3).
  apply lift_ok_inv in Hc as [Hc%ok_or_ok_inv ->].
  assert (ck = true) as ->. { destruct ck; [done|]. exfalso. eapply Hbusy. rewrite <-Ho. exact Hc. }
  apply st_bind_ok_inv in Hrun as (image & s4 & Hr & Hrun). unfold read_database in Hr.
  apply st_bind_ok_inv in Hr as (i & s5 & Ha & Hr). apply ask_ok_inv in Ha as (_ & _ & Hd5).
  apply st_bind_ok_inv in Hr as (tables & s6 & Ht & Hr). apply on_vault_ok_inv in Ht as [Ht _].
  injection Ht as <- _. destruct (vault_file_readable i); [|done]. injection Hr as <- <-.
  assert (db (site_world s5) = db (site_world s)) as Hd.
  { rewrite Hd5, Hd3, Hd2. exact Hd1. }
  rewrite Hd in Hrun. clear -Hrun.
  apply st_bind_ok_inv in Hrun as (now & s7 & _ & Hrun). cbv zeta in Hrun.
  apply st_bind_ok_inv in Hrun as ([] & s8 & _ & Hrun).
  apply st_bind_ok_inv in Hrun as ([] & s9 & Ho & Hrun).
  apply try_ok_inv, open_truncate_ok_inv in Ho as (mode & Hm & _).
  apply st_bind_ok_inv in Hrun as (archive & s9' & Hz & Hrun).
  apply lift_ok_inv in Hz as [Hz%ok_or_ok_inv ->].
  apply st_bind_ok_inv in Hrun as ([] & s10 & Hw & Hrun). injection Hrun as <- <-.
  apply try_ok_inv, write_all_ok_inv in Hw as (mode' & old & Hold & Hfs & _).
  rewrite Hm in Hold. injection Hold as <- <-. exists i, archive.
  split; [unfold BackupManifest_wf; simpl; unfold u64_max; lia|]. do 3 (split; [done|]).
  split; [exact Hz|]. exists mode. by rewrite Hfs, lookup_insert_eq.
Qed.

Lemma restore_backup_inv source destination s m s' :
  restore_backup source destination s = (Ok m, s') →
  ∃ mode archive image, site_files s !! path_key source = Some (File mode archive) ∧
    open_backup archive = Ok (m, image) ∧
    site_files s' !! path_key destination = Some (File 384 image).
Proof.
  intros Hrun. unfold restore_backup in Hrun.
  apply st_bind_ok_inv in Hrun as (archive & s1 & Hr & Hrun).
  apply try_ok_inv, fs_read_ok_inv in Hr as ([mode Hr] & _).
  apply st_bind_ok_inv in Hrun as ([m' image] & s2 & Ho & Hrun). apply lift_ok_inv in Ho as [Ho <-].
  cbv beta iota zeta in Hrun.
  apply st_bind_ok_inv in Hrun as ([] & s3 & _ & Hrun).
  apply st_bind_ok_inv in Hrun as ([] & s4 & Hw & Hrun).
  apply try_ok_inv, fs_write_ok_inv in Hw as (mode4 & Hw & _).
  apply st_bind_ok_inv in Hrun as ([] & s5 & Hh & Hrun).
  apply try_ok_inv, set_permissions_ok_inv in Hh as (n & Hn & Hfs). rewrite Hw in Hn. injection Hn as <-.
  apply st_bind_ok_inv in Hrun as ([] & s6 & Hm & Hrun).
  apply try_ok_inv, fs_rename_ok_inv in Hm as (n & Hn & Hfs6).
  rewrite Hfs, lookup_insert_eq in Hn. injection Hn as <-.
  apply st_bind_ok_inv in Hrun as ([] & s7 & Hh & Hrun).
  apply try_ok_inv, set_permissions_ok_inv in Hh as (n & Hn & Hfs7).
  rewrite Hfs6, lookup_insert_eq in Hn. injection Hn as <-. injection Hrun as <- <-.
  exists mode, archive, image. split; [done|]. split; [done|].
  by rewrite Hfs7, lookup_insert_eq.
Qed.

Lemma keeps_private_parent {E} `{From IoError E} k p n :
  file_name p = Some n → path_key p = k → keeps (same_at k) (private_parent p : ST Site E unit).
Proof.
  intros Hn <-. unfold private_parent. destruct (parent p) as [q|] eqn:Hq; [|apply keeps_ret, _].
  pose proof (parent_inv _ _ _ Hn Hq) as Hk.
  assert (length (path_key q) < length (path_key p))%nat as Hl.
  { rewrite Hk, length_app. simpl. lia. }
  apply keeps_bind; [apply _|apply keeps_try, keeps_create_dir_all, Hl|intros _].
  apply keeps_try, keeps_set_permissions. intros Heq. rewrite Heq in Hl. lia.
Qed.

Lemma restore_tmp_other p n : file_name p = Some n → path_key (restore_tmp p) ≠ path_key p.
Proof.
  intros Hn. pose proof (file_name_inv _ _ Hn) as (d & _ & _ & Hs & Hk & _).
  set (ext := default "" (extension p)).
  assert (Hext : no_char SLASH ext = true).
  { subst ext. unfold extension. rewrite Hn. cbn [mbind option_bind].
    destruct (name_split n) as [stem [e|]] eqn:Hsp; [|done]. cbn [snd default].
    apply name_split_spec in Hsp as [-> _]. unfold no_char in *. rewrite !all_chars_app in Hs.
    by apply andb_true_iff in Hs as [_ Hs]. }
  destruct (with_extension_other p n (ext +:+ "tmp")) as (m & Hm & Hkm); [done| | | |].
  - intros Hc. apply (f_equal String.length) in Hc. rewrite str_length_app in Hc. simpl in Hc. lia.
  - unfold no_char in *. by rewrite all_chars_app, Hext.
  - rewrite str_length_app. simpl. fold ext. lia.
  - unfold restore_tmp. fold ext. rewrite Hkm, Hk, removelast_last.
    intros Hc%app_inj_tail. by destruct Hc as [_ ->].
Qed.

(** Whatever comes of a restore, the destination is as it was or the whole image. *)
Lemma restore_cases source destination n s r s' :
  file_name destination = Some n → restore_backup source destination s = (r, s') →
  same_at (path_key destination) s s' ∨
  ∃ mode archive m image, site_files s !! path_key source = Some (File mode archive) ∧
    open_backup archive = Ok (m, image) ∧
    site_files s' !! path_key destination = Some (File 384 image).
Proof.
  intros Hn. pose proof (restore_tmp_other _ _ Hn) as Htmp.
  remember (path_key destination) as k eqn:Hkey. intros Hrun. unfold restore_backup in Hrun.
  apply (keeps_bind_cases (same_at k)) in Hrun as [?|(archive & s1 & H1 & Hr & Hrun)];
    [by left| |by keeps_auto].
  apply try_ok_inv, fs_read_ok_inv in Hr as ([mode Hr] & _).
  apply (keeps_bind_cases (same_at k)) in Hrun as [?|([m image] & s2 & H2 & Ho & Hrun)];
    [left; by trans s1| |by keeps_auto].
  apply lift_ok_inv in Ho as [Ho _]. cbv beta iota zeta in Hrun.
  apply (keeps_bind_cases (same_at k)) in Hrun as [?|([] & s3 & H3 & _ & Hrun)];
    [left; by do 2 etrans| |by eapply keeps_private_parent].
  apply (keeps_bind_cases (same_at k)) in Hrun as [?|([] & s4 & H4 & Hw & Hrun)];
    [left; by do 3 etrans| |by apply keeps_try, keeps_fs_write].
  apply try_ok_inv, fs_write_ok_inv in Hw as (mode4 & Hw & _).
  apply (keeps_bind_cases (same_at k)) in Hrun as [?|([] & s5 & H5 & Hh & Hrun)];
    [left; by do 4 etrans| |by apply keeps_try, keeps_set_permissions].
  apply try_ok_inv, set_permissions_ok_inv in Hh as (x & Hx & Hfs). rewrite Hw in Hx. injection Hx as <-.
  assert (Hold : same_at k s s5) by (by do 4 etrans). clear H1 H2 H3 H4 H5 s1 s2 s3 Hw.
  apply st_bind_cases in Hrun as [([] & s6 & Hm & Hrun)|(o & Hm & Hne & _)].
  2:{ left. trans s5; [done|]. apply fs_op_failed in Hm; [|done]. unfold same_at. by rewrite Hm. }
  apply try_ok_inv, fs_rename_ok_inv in Hm as (x & Hx & Hfs6).
  rewrite Hfs, lookup_insert_eq in Hx. injection Hx as <-.
  assert (Hk6 : site_files s6 !! k = Some (File 384 image)) by (by rewrite Hfs6, Hkey, lookup_insert_eq).
  right. exists mode, archive, m, image. do 2 (split; [done|]).
  apply st_bind_cases in Hrun as [([] & s7 & Hh & Hrun)|(o & Hh & _)].
  - apply try_ok_inv, set_permissions_ok_inv in Hh as (x & Hx & Hfs7). rewrite <-Hkey in Hx, Hfs7.
    rewrite Hk6 in Hx. injection Hx as <-. injection Hrun as _ <-. by rewrite Hfs7, lookup_insert_eq.
  - eapply set_permissions_mode in Hh; [|rewrite <-Hkey; exact Hk6]. by rewrite Hkey.
Qed.

(** A bare name's directory cannot be closed: the empty path names nothing. *)
Lemma private_parent_bare {E} `{From IoError E} name :
  no_char SLASH name = true → is_empty name = false →
  refuses same_files (private_parent name : ST Site E unit).
Proof.
  intros Hn He s. unfold private_parent. rewrite parent_bare by done.
  destruct (set_permissions_empty 448 s) as (w & Hs & _).
  assert (((_ ← try_ (create_dir_all ""); harden_dir_permissions "") : ST Site E unit) s =
    (Err (from_err Io), set_world w s)) as ->; [|done].
  etrans; [by apply (st_bind_ok _ _ _ tt s)|]. unfold harden_dir_permissions. by apply try_err.
Qed.
End backup_lemmas.

(** ** Properties *)

(** C27: a backup is the vault. If a backup succeeds, its checkpoint having completed, and a
    restore from a copy of the file it wrote succeeds, on the same disk or another, then the
    restore reports the backup's manifest, which claims no plaintext, and the restored file is
    readable by its owner alone and holds a database with exactly the tables the vault had. *)
Theorem backup_restores_vault `{X : Ext, HS : Host, D : Disk, !DiskLaws, !PrettyLaws}
    destination s m s1 source destination_db s2 m' s3 :
  (∀ i, wal_checkpoint i ≠ Some false) → create_backup destination s = (Ok m, s1) →
  is_text (to_string_pretty m) →
  site_files s2 !! path_key source = site_files s1 !! path_key destination →
  restore_backup source destination_db s2 = (Ok m', s3) →
  m' = m ∧ bk_contains_plaintext_secrets m = false ∧ bk_contains_plaintext_root_key m = false ∧
  ∃ image, site_files s3 !! path_key destination_db = Some (File 384 image) ∧
    db_open image = Some (db (site_world s)).
Proof.
  intros Hbusy Hc Ht Hcopy Hr.
  apply create_backup_inv in Hc as (i & archive & Hwf & Hh & Hs & Hk & Hz & mode & Hf); [|done].
  apply restore_backup_inv in Hr as (mode' & archive' & image & Hsrc & Ho & Hd).
  rewrite Hcopy, Hf in Hsrc. injection Hsrc as -> <-.
  rewrite (open_backup_zip m _ _ Hwf Ht Hh Hz) in Ho. injection Ho as <- <-.
  split; [done|]. split; [done|]. split; [done|]. eexists. split; [exact Hd|]. apply db_open_image.
Qed.

(** A vault on a disk with a directory for backups. *)
Definition sample_header : VaultHeader := {| hd_vault_id := "vault-1"; hd_namespace_id := "prod";
  hd_schema_version := 1; hd_created_at := "now"; hd_provider_binding := obj [] |}.
Definition sample_files : Files :=
  <[[] := Dir 493]> (<[["/"] := Dir 493]> (<[["/"; "srv"] := Dir 493]> ∅)).
Definition sample_site : Site := {|
  site_world := (create_vault sample_header {| tick := 0; db := empty_db |}).2;
  site_files := sample_files; site_out := []; site_children := [] |}.
Definition backed_up : res BackupError BackupManifest * Site :=
  create_backup "/srv/backups/vault.zip" sample_site.
Definition restored : res BackupError BackupManifest * Site :=
  restore_backup "/srv/backups/vault.zip" "/srv/restored/vault.db" backed_up.2.

Lemma sample_backup : ∃ m, backed_up = (Ok m, backed_up.2) ∧ is_text (to_string_pretty m).
Proof.
  assert (match backed_up.1 with
          | Ok m => bool_decide (is_text (to_string_pretty m)) | _ => false end = true) as Hb
    by (vm_compute; reflexivity).
  destruct backed_up as [[m|e|] s]; [|discriminate Hb..]. exists m.
  split; [reflexivity|]. exact (bool_decide_eq_true_1 _ Hb).
Qed.
Lemma sample_restore : ∃ m, restored = (Ok m, restored.2).
Proof.
  assert (is_ok restored.1 = true) as Hb by (vm_compute; reflexivity).
  destruct restored as [[m|e|] s]; [|discriminate Hb..]. exists m. reflexivity.
Qed.

Lemma backup_restores_vault_witness : ∃ m image,
  backed_up = (Ok m, backed_up.2) ∧ restored = (Ok m, restored.2) ∧
  site_files restored.2 !! path_key "/srv/restored/vault.db" = Some (File 384 image) ∧
  db_open image = Some (db (site_world sample_site)).
Proof.
  destruct sample_backup as (m & Hb & Ht). destruct sample_restore as (m' & Hr).
  destruct (backup_restores_vault "/srv/backups/vault.zip" sample_site m backed_up.2
    "/srv/backups/vault.zip" "/srv/restored/vault.db" backed_up.2 m' restored.2)
    as (Hm & _ & _ & image & Hf & Hd); [discriminate|exact Hb|exact Ht|reflexivity|exact Hr|].
  rewrite Hm in Hr. exists m, image. exact (conj Hb (conj Hr (conj Hf Hd))).
Defined.

(** C28: a restore replaces the destination in one step, or not at all. Whatever fails, on the way
    or in the archive, the destination afterwards is what it was, or it is exactly the image
    found in the archive, readable by its owner alone, and then that image has the hash the
    archive's manifest names. *)
Theorem restore_is_atomic `{X : Ext, HS : Host, D : Disk} source destination n s r s' :
  file_name destination = Some n → restore_backup source destination s = (r, s') →
  site_files s' !! path_key destination = site_files s !! path_key destination ∨
  ∃ mode archive m image, site_files s !! path_key source = Some (File mode archive) ∧
    open_backup archive = Ok (m, image) ∧
    bk_database_sha256 m = b64url_no_padding (sha256 image) ∧
    site_files s' !! path_key destination = Some (File 384 image).
Proof.
  intros Hn Hrun. destruct (restore_cases _ _ _ _ _ _ Hn Hrun) as [?|(mode & archive & m & image & ? & Ho & ?)];
    [by left|right]. exists mode, archive, m, image. split_and!; try done. by eapply open_backup_inv.
Qed.

Lemma restore_is_atomic_witness :
  site_files restored.2 !! path_key "/srv/restored/vault.db" =
    site_files backed_up.2 !! path_key "/srv/restored/vault.db" ∨
  ∃ mode archive m image,
    site_files backed_up.2 !! path_key "/srv/backups/vault.zip" = Some (File mode archive) ∧
    open_backup archive = Ok (m, image) ∧
    bk_database_sha256 m = b64url_no_padding (sha256 image) ∧
    site_files restored.2 !! path_key "/srv/restored/vault.db" = Some (File 384 image).
Proof.
  destruct sample_restore as (m & Hr).
  apply (restore_is_atomic "/srv/backups/vault.zip" "/srv/restored/vault.db" "vault.db" backed_up.2
    (Ok m) restored.2); [reflexivity|exact Hr].
Defined.

(** A file named without a directory is refused. For a path that is a bare name, which lies in
    the working directory, the directory to close is the empty path, which names nothing:
    opening the vault there, writing a backup there and restoring to it never succeed, and
    leave every file as it was. *)
Theorem bare_name_refused `{X : Ext, HS : Host, D : Disk} name source :
  no_char SLASH name = true → is_empty name = false →
  refuses same_files (initialize_vault_dir name) ∧ refuses same_files (create_backup name) ∧
  refuses same_files (restore_backup source name).
Proof.
  intros Hn He. split; [by apply private_parent_bare|split].
  - unfold create_backup, checkpoint_database, read_database.
    do 6 (apply refuses_later; [apply _|by keeps_auto|intros ?]).
    by apply refuses_first, private_parent_bare.
  - unfold restore_backup.
    do 2 (apply refuses_later; [apply _|by keeps_auto|intros ?]).
    destruct a0 as [m image]. by apply refuses_first, private_parent_bare.
Qed.

Lemma bare_name_refused_witness :
  refuses same_files (initialize_vault_dir "vault.db") ∧
  refuses same_files (create_backup "vault.db") ∧
  refuses same_files (restore_backup "/srv/backups/vault.zip" "vault.db").
Proof. apply (bare_name_refused "vault.db" "/srv/backups/vault.zip"); reflexivity. Defined.
