(* ===== verification/Release.v ===== *)
(** * Release evidence and signatures (release.rs)

    The evidence of a release is a directory of files; signing writes a manifest with the hash
    and size of every file of it and of the artifacts, and a signature of the manifest's
    canonical form; verifying reads everything back.  The signature scheme and its key files
    are the class [Signing] over the crates ed25519-dalek, pkcs8 and spki. *)

From stdpp Require Import sorting.
From S2P Require Export Backup.
From S2P Require Import Toy.
#[local] Open Scope Z_scope.

Class Signing : Type := {
  (* ed25519-dalek: a key from its seed, [sign], [Signature::try_from] a slice, [verify] *)
  verifying_key : bytes → bytes;
  ed25519_sign : bytes → bytes → bytes;
  signature_try_from : bytes → option bytes;
  ed25519_verify : bytes → bytes → bytes → bool;
  (* pkcs8 and spki: a seed in a PEM text, plain or under a pass phrase with fresh salts; a
     verifying key in a PEM text *)
  to_pkcs8_pem : bytes → option string;
  to_pkcs8_encrypted_pem : nat → bytes → bytes → option string;
  from_pkcs8_pem : string → option bytes;
  from_pkcs8_encrypted_pem : string → string → option bytes;
  to_public_key_pem : bytes → option string;
  from_public_key_pem : string → option bytes;
  (* the text of an error; the platform the program was built for *)
  error_text : nat → string;
  consts_os : string;
  consts_arch : string;
}.

Class SigningLaws {G : Signing} : Prop := {
  pkcs8_round seed pem : to_pkcs8_pem seed = Some pem → from_pkcs8_pem pem = Some seed;
  pkcs8_encrypted_round i seed pass pem :
    to_pkcs8_encrypted_pem i seed (as_bytes pass) = Some pem →
    from_pkcs8_encrypted_pem pem pass = Some seed;
  public_key_round key pem : to_public_key_pem key = Some pem → from_public_key_pem pem = Some key;
  public_key_text key pem : to_public_key_pem key = Some pem → is_text pem;
  signature_round seed msg :
    signature_try_from (ed25519_sign seed msg) = Some (ed25519_sign seed msg);
  sign_verifies seed msg :
    ed25519_verify (verifying_key seed) msg (ed25519_sign seed msg) = true;
}.

Inductive ReleaseError : Type :=
| ReleaseIo | ReleaseJson | ReleaseCanonicalJson (e : SerializationError) | ReleasePkcs8
| ReleaseSpki | ReleaseSignatureError | ReleaseBase64 | ReleaseMessage (text : string).
#[export] Instance from_release_io : From IoError ReleaseError := λ _, ReleaseIo.
#[export] Instance from_release_canonical : From SerializationError ReleaseError :=
  ReleaseCanonicalJson.

(** ** Data *)

Record ArtifactEntry : Type := {
  art_path : string;
  art_sha256 : string;
  art_size : Z;
}.
Definition ArtifactEntry_fields (a : ArtifactEntry) : list (string * json) :=
  [ ("path", JStr (art_path a)); ("sha256", JStr (art_sha256 a)); ("size", ser_u64 (art_size a)) ].
Definition ArtifactEntry_of_object (m : omap string json) : option ArtifactEntry :=
  path ← field "path" as_str m;
  sha256 ← field "sha256" as_str m;
  size ← field "size" de_u64 m;
  Some {| art_path := path; art_sha256 := sha256; art_size := size |}.
#[export] Instance ArtifactEntry_serde : Serde ArtifactEntry := {
  to_value a := obj (ArtifactEntry_fields a);
  of_value v := as_object v ≫= ArtifactEntry_of_object;
}.

Record ArtifactManifest : Type := {
  man_schema : string;
  man_project : string;
  man_version : string;
  man_created_at : string;
  man_source_digest : option string;
  man_public_key_sha256 : string;
  man_artifacts : list ArtifactEntry;
}.
Definition ArtifactManifest_fields (m : ArtifactManifest) : list (string * json) :=
  [ ("schema", JStr (man_schema m)); ("project", JStr (man_project m));
    ("version", JStr (man_version m)); ("created_at", JStr (man_created_at m));
    ("source_digest", ser_opt JStr (man_source_digest m));
    ("public_key_sha256", JStr (man_public_key_sha256 m));
    ("artifacts", ser_list to_value (man_artifacts m)) ].
Definition ArtifactManifest_of_object (m : omap string json) : option ArtifactManifest :=
  schema ← field "schema" as_str m;
  project ← field "project" as_str m;
  version ← field "version" as_str m;
  created_at ← field "created_at" as_str m;
  source_digest ← field_opt "source_digest" as_str m;
  public_key_sha256 ← field "public_key_sha256" as_str m;
  artifacts ← field "artifacts" (de_list of_value) m;
  Some {| man_schema := schema; man_project := project; man_version := version;
          man_created_at := created_at; man_source_digest := source_digest;
          man_public_key_sha256 := public_key_sha256; man_artifacts := artifacts |}.
#[export] Instance ArtifactManifest_serde : Serde ArtifactManifest := {
  to_value m := obj (ArtifactManifest_fields m);
  of_value v := as_object v ≫= ArtifactManifest_of_object;
}.

Record ReleaseSignature : Type := {
  sig_mode : string;
  sig_manifest : string;
  sig_manifest_sha256 : string;
  sig_public_key_sha256 : string;
  sig_signature : string;
  sig_signed_at : string;
}.
Definition ReleaseSignature_fields (s : ReleaseSignature) : list (string * json) :=
  [ ("mode", JStr (sig_mode s)); ("manifest", JStr (sig_manifest s));
    ("manifest_sha256", JStr (sig_manifest_sha256 s));
    ("public_key_sha256", JStr (sig_public_key_sha256 s));
    ("signature", JStr (sig_signature s)); ("signed_at", JStr (sig_signed_at s)) ].
Definition ReleaseSignature_of_object (m : omap string json) : option ReleaseSignature :=
  mode ← field "mode" as_str m;
  manifest ← field "manifest" as_str m;
  manifest_sha256 ← field "manifest_sha256" as_str m;
  public_key_sha256 ← field "public_key_sha256" as_str m;
  signature ← field "signature" as_str m;
  signed_at ← field "signed_at" as_str m;
  Some {| sig_mode := mode; sig_manifest := manifest; sig_manifest_sha256 := manifest_sha256;
          sig_public_key_sha256 := public_key_sha256; sig_signature := signature;
          sig_signed_at := signed_at |}.
#[export] Instance ReleaseSignature_serde : Serde ReleaseSignature := {
  to_value s := obj (ReleaseSignature_fields s);
  of_value v := as_object v ≫= ReleaseSignature_of_object;
}.

Record ReleaseCheck : Type := {
  rc_name : string;
  rc_status : string;
  rc_detail : string;
}.
Record ReleaseVerification : Type := {
  rv_passed : bool;
  rv_checks : list ReleaseCheck;
}.
Record ReleaseKeygenResult : Type := {
  kg_private_key_path : string;
  kg_public_key_path : string;
  kg_public_key_sha256 : string;
}.
Record ReleaseEvidence : Type := {
  evd_output_dir : string;
  evd_source_digest : string;
  evd_signature_mode : string;
}.

(** What main.rs prints of them. *)
Definition ReleaseCheck_fields (c : ReleaseCheck) : list (string * json) :=
  [ ("name", JStr (rc_name c)); ("status", JStr (rc_status c)); ("detail", JStr (rc_detail c)) ].
Definition ReleaseVerification_fields (v : ReleaseVerification) : list (string * json) :=
  [ ("passed", JBool (rv_passed v));
    ("checks", JArr ((λ c, obj (ReleaseCheck_fields c)) <$> rv_checks v)) ].
Definition ReleaseKeygenResult_fields (k : ReleaseKeygenResult) : list (string * json) :=
  [ ("private_key_path", JStr (kg_private_key_path k));
    ("public_key_path", JStr (kg_public_key_path k));
    ("public_key_sha256", JStr (kg_public_key_sha256 k)) ].
Definition ReleaseEvidence_fields (e : ReleaseEvidence) : list (string * json) :=
  [ ("output_dir", JStr (evd_output_dir e)); ("source_digest", JStr (evd_source_digest e));
    ("signature_mode", JStr (evd_signature_mode e)) ].

Definition check (name status detail : string) : ReleaseCheck := {|
  rc_name := name; rc_status := status; rc_detail := detail |}.

Definition hex_sha256 `{Ext} (data : bytes) : string :=
  concat_str (hex_byte false <$> sha256 data).

(** ** The lock file of cargo *)

(** [trim_matches] of a quotation mark. *)
Definition QUOTE : string := str_of_codes [34]%N.
Definition trim_quotes (s : string) : string := trim_end_chars [QUOTE] (trim_start_chars [QUOTE] s).

Definition library_component (name version : string) : json :=
  obj [("type", JStr "library"); ("name", JStr name); ("version", JStr version)].
Definition component_of (name version : option string) : list json :=
  match name, version with
  | Some name, Some version => [library_component name version]
  | _, _ => []
  end.

Fixpoint lock_components (lines : list string) (current_name current_version : option string)
  : list json :=
  match lines with
  | [] => component_of current_name current_version
  | line :: lines =>
      let trimmed := trim line in
      if String.eqb trimmed "[[package]]"
      then component_of current_name current_version ++ lock_components lines None None
      else lock_components lines
        (match Text.strip_prefix "name = " trimmed with
         | Some value => Some (trim_quotes value) | None => current_name end)
        (match Text.strip_prefix "version = " trimmed with
         | Some value => Some (trim_quotes value) | None => current_version end)
  end.

(** ** Files *)

Fixpoint st_mapM {W E A B} (f : A → ST W E B) (l : list A) : ST W E (list B) :=
  match l with
  | [] => mret []
  | a :: l => b ← f a; bs ← st_mapM f l; mret (b :: bs)
  end.

Section files.
Context `{Ext, Host, Disk}.
Abbreviation IO := (ST Site IoError).

(** [is_file], [read_to_string], [canonicalize] (there are no links to follow), and
    [fs::copy], which gives the copy the permissions of its source. *)
Definition node_is_file (n : Node) : bool := match n with File _ _ => true | _ => false end.
Definition fs_is_file (p : string) : IO bool := λ s,
  (Ok (match site_files s !! path_key p with Some n => node_is_file n | None => false end), s).
Definition read_to_string (p : string) : IO string :=
  data ← fs_read p; lift (ok_or Io (from_utf8 data)).
Definition canonicalize (p : string) : IO (list string) := fs_op (λ fs,
  if is_empty p then None else _ ← fs !! path_key p; Some (path_key p, fs)).
Definition file_and_mode (p : string) : IO (bytes * Z) := fs_op (λ fs,
  match fs !! path_key p with Some (File mode data) => Some ((data, mode), fs) | _ => None end).
Definition fs_copy (p q : string) : IO unit :=
  source ← file_and_mode p;
  _ ← open_truncate q source.2;
  _ ← set_permissions q source.2;
  write_all q source.1.

(** [read_dir] and an entry's [file_type].  The entries come in the order of the map. *)
Definition child_name (k k' : list string) : option string :=
  match last k' with
  | Some name => if decide (k' = k ++ [name]) then Some name else None
  | None => None
  end.
Definition dir_names (fs : Files) (k : list string) : list string :=
  base.omap (child_name k) (map_to_list fs).*1.
Definition read_dir (p : string) : IO (list string) := fs_op (λ fs,
  if is_empty p || negb (has_dir fs (path_key p)) then None
  else Some (dir_names fs (path_key p), fs)).
Definition file_type_is_dir (p : string) : IO bool := fs_op (λ fs,
  n ← fs !! path_key p; Some (is_dir n, fs)).

(** ** The source digest *)

Definition SKIPPED_DIRS : list string :=
  [".git"; ".venv"; ".pytest_cache"; "__pycache__"; "build"; "dist"; "release"; "target"].
Definition is_skipped (name : string) : bool := existsb (String.eqb name) SKIPPED_DIRS.

(** The recursion goes one directory deeper every time; no key of the files is longer than
    [depth]. *)
Definition depth (fs : Files) : nat := map_fold (λ k _ d, Nat.max (length k) d) 0%nat fs.

Definition collect_entry (collect : string → IO (list string)) (current name : string)
  : IO (list string) :=
  let path := path_join current name in
  dir ← file_type_is_dir path;
  if dir : bool then (if is_skipped name then mret [] else collect path)
  else file ← fs_is_file path; mret (if file : bool then [path] else []).
Fixpoint collect_source_paths (fuel : nat) (current : string) : IO (list string) :=
  match fuel with
  | O => mret []
  | S fuel =>
      names ← read_dir current;
      found ← st_mapM (collect_entry (collect_source_paths fuel) current) names;
      mret (concat found)
  end.

(** Paths order by their components. *)
Fixpoint key_leb (a b : list string) : bool :=
  match a, b with
  | [], _ => true
  | _, [] => false
  | x :: a, y :: b => if decide (x = y) then key_leb a b else String.leb x y
  end.
Definition path_le (p q : string) : Prop := key_leb (path_key p) (path_key q) = true.
#[export] Instance path_le_dec : RelDecision path_le := λ p q, decide (_ = true).

(** [strip_prefix], [to_string_lossy] and [replace]. *)
Definition relative_path (root path : string) : string :=
  replace "\" "/" (Text.join "/" (drop (length (path_key root)) (path_key path))).
Definition digest_entry (relative : string) (data : bytes) : bytes :=
  as_bytes relative ++ [x00] ++ data ++ [x00].
Definition read_entry (root path : string) : IO bytes :=
  data ← fs_read path; mret (digest_entry (relative_path root path) data).

Definition source_digest (root : string) : IO string :=
  fs ← get_files;
  paths ← collect_source_paths (S (depth fs)) root;
  entries ← st_mapM (read_entry root) (merge_sort path_le paths);
  mret (b64url_no_padding (sha256 (concat entries))).

Definition cargo_lock_components (path : string) : IO (list json) :=
  raw ← read_to_string path; mret (lock_components (lines raw) None None).
End files.

(** ** Evidence *)

Section release.
Context `{Ext, Host, Disk, Signing}.
Abbreviation IO := (ST Site IoError).
Abbreviation RELEASE := (ST Site ReleaseError).

Definition write_pretty_json (path : string) (value : json) : IO unit :=
  fs_write path (as_bytes (json_to_string_pretty value)).

Definition rustc_version : IO string :=
  output ← ask (λ i, match run_process i [] "rustc" ["--version"] [] with
                     | Exited _ stdout _ _ => trim <$> from_utf8 stdout
                     | _ => None
                     end);
  mret (match output with Some (String _ _ as value) => value | _ => "unknown" end).

(** [path.canonicalize().ok()]. *)
Definition canonical (p : string) : IO (option (list string)) :=
  r ← attempt (canonicalize p); mret (match r with Ok k => Some k | _ => None end).

Fixpoint copy_openapi (sources : list string) (destination : string) : IO bool :=
  match sources with
  | [] => mret false
  | source :: sources =>
      file ← fs_is_file source;
      if file : bool then
        a ← canonical source;
        b ← canonical destination;
        _ ← (if decide (a = b) then mret tt else fs_copy source destination);
        mret true
      else copy_openapi sources destination
  end.
Definition openapi_stub : json := obj
  [ ("openapi", JStr "3.1.0");
    ("info", obj [("title", JStr "HBSE"); ("version", JStr "native-local")]);
    ("paths", obj []);
    ("x-hbse-note", JStr "Native release evidence generated without REST OpenAPI export input.") ].
Definition write_openapi_evidence (root output : string) : IO unit :=
  let destination := path_join output "openapi.json" in
  copied ← copy_openapi [path_join root "release/openapi.json"; path_join root "openapi.json"]
             destination;
  if copied : bool then mret tt else write_pretty_json destination openapi_stub.

Definition proto_stub : string :=
  ("syntax = " +:+ QUOTE +:+ "proto3" +:+ QUOTE +:+ ";" +:+ String LF "" +:+ "package hbse.v1;" +:+
   String LF "")%string.
Definition make_parent_dir (p : string) : IO unit :=
  match parent p with Some parent => create_dir_all parent | None => mret tt end.
Definition write_proto_evidence (root output : string) : IO unit :=
  let source := path_join root "proto/hbse/v1/hbse.proto" in
  let destination := path_join output "proto/hbse/v1/hbse.proto" in
  _ ← make_parent_dir destination;
  file ← fs_is_file source;
  if file : bool then fs_copy source destination else fs_write destination (as_bytes proto_stub).

Definition sbom (version : string) (components : list json) : json := obj
  [ ("bomFormat", JStr "CycloneDX-lite"); ("specVersion", JStr "1.0-local");
    ("metadata", obj [("component", obj [("name", JStr "hbse"); ("version", JStr version)])]);
    ("components", JArr components) ].
Definition provenance (version created_at rustc source_digest : string) : json := obj
  [ ("project", JStr "hbse"); ("version", JStr version); ("created_at", JStr created_at);
    ("rustc", JStr rustc); ("platform", JStr consts_os); ("arch", JStr consts_arch);
    ("source_digest", JStr source_digest) ].
Definition checklist : json := obj
  [ ("crypto_tests", JStr "run-required"); ("policy_tests", JStr "run-required");
    ("ticket_tests", JStr "run-required"); ("audit_tests", JStr "run-required");
    ("redaction_tests", JStr "run-required"); ("backup_restore_tests", JStr "run-required");
    ("external_security_review", JStr "required-for-A4-plus");
    ("real_hardware_provider_matrix", JStr "required-for-A4-plus") ].
Definition UNSIGNED : string := "unsigned-development-evidence".
Definition unsigned_signature (source_digest : string) : json := obj
  [ ("mode", JStr UNSIGNED); ("source_digest", JStr source_digest);
    ("warning", JStr "Run hbse release sign with an Ed25519 release key for production.") ].
Definition dependency_lock (version source_digest : string) (components : list json) : json := obj
  [ ("project", JStr "hbse"); ("version", JStr version); ("source_digest", JStr source_digest);
    ("components", JArr components) ].

(** [a.or_else(|_| b).unwrap_or_default()]. *)
Definition project_components (root : string) : IO (list json) :=
  a ← attempt (cargo_lock_components (path_join root "Cargo.lock"));
  match a with
  | Ok components => mret components
  | _ => b ← attempt (cargo_lock_components (path_join root "rust/Cargo.lock"));
         mret (match b with Ok components => components | _ => [] end)
  end.

Definition write_evidence (output root version : string) : IO ReleaseEvidence :=
  _ ← create_dir_all output;
  source_digest ← source_digest root;
  components ← project_components root;
  _ ← write_pretty_json (path_join output "sbom.json") (sbom version components);
  now ← on_vault (Utc_now (E:=IoError));
  rustc ← rustc_version;
  _ ← write_pretty_json (path_join output "provenance.json")
        (provenance version (utc_millis now) rustc source_digest);
  _ ← write_pretty_json (path_join output "production_checklist.json") checklist;
  _ ← write_pretty_json (path_join output "artifact.sig") (unsigned_signature source_digest);
  _ ← write_pretty_json (path_join output "dependency-lock.json")
        (dependency_lock version source_digest components);
  _ ← write_openapi_evidence root output;
  _ ← write_proto_evidence root output;
  mret {| evd_output_dir := output; evd_source_digest := source_digest;
          evd_signature_mode := UNSIGNED |}.
Definition generate_release_evidence (output root version : string) : RELEASE ReleaseEvidence :=
  try_ (write_evidence output root version).

(** ** Keys *)

Definition write_private_file (path : string) (data : bytes) : IO unit :=
  _ ← make_parent_dir path;
  _ ← open_truncate path mode_0600;
  write_all path data.

Definition private_key_pem (seed : bytes) (passphrase : option string) : RELEASE string :=
  match passphrase with
  | Some passphrase =>
      pem ← ask (λ i, to_pkcs8_encrypted_pem i seed (as_bytes passphrase));
      lift (ok_or ReleasePkcs8 pem)
  | None => lift (ok_or ReleasePkcs8 (to_pkcs8_pem seed))
  end.
Definition generate_signing_keypair (private_path public_path : string) (passphrase : option string)
  : RELEASE ReleaseKeygenResult :=
  seed ← on_vault (random (E:=ReleaseError) 32);
  private_pem ← private_key_pem seed passphrase;
  public_pem ← lift (ok_or ReleaseSpki (to_public_key_pem (verifying_key seed)));
  _ ← try_ (write_private_file private_path (as_bytes private_pem));
  _ ← try_ (make_parent_dir public_path);
  _ ← try_ (fs_write public_path (as_bytes public_pem));
  mret {| kg_private_key_path := private_path; kg_public_key_path := public_path;
          kg_public_key_sha256 := hex_sha256 (as_bytes public_pem) |}.

(** ** The manifest *)

Definition artifact_entry (path : string) : IO ArtifactEntry :=
  data ← fs_read path;
  mret {| art_path := replace "\" "/" path; art_sha256 := hex_sha256 data;
          art_size := Z.of_nat (length data) |}.

(** The loop: a path whose file was seen is not listed again. *)
Fixpoint artifact_entries (paths : list string) (seen : gset (list string))
  : RELEASE (list ArtifactEntry) :=
  match paths with
  | [] => mret []
  | path :: paths =>
      file ← try_ (fs_is_file path);
      if negb file then throw (ReleaseMessage (path +:+ " missing")) else
      resolved ← try_ (canonicalize path);
      if decide (resolved ∈ seen) then artifact_entries paths seen
      else entry ← try_ (artifact_entry path);
           entries ← artifact_entries paths ({[resolved]} ∪ seen);
           mret (entry :: entries)
  end.

Definition EVIDENCE_FILES : list string :=
  [ "sbom.json"; "dependency-lock.json"; "provenance.json"; "production_checklist.json";
    "openapi.json"; "proto/hbse/v1/hbse.proto" ].
Definition recorded_source_digest (release_dir : string) : RELEASE (option string) :=
  raw ← attempt (read_to_string (path_join release_dir "provenance.json"));
  mret (match raw with
        | Ok raw => (json_from_slice (as_bytes raw) ≫= jget "source_digest") ≫= as_str
        | _ => None
        end).

Definition MANIFEST_SCHEMA : string := "hbse.release.artifacts.v1".
Definition artifact_manifest (release_dir : string) (artifact_paths : list string)
  (version public_key_sha256 : string) : RELEASE ArtifactManifest :=
  entries ← artifact_entries ((path_join release_dir <$> EVIDENCE_FILES) ++ artifact_paths) ∅;
  source_digest ← recorded_source_digest release_dir;
  now ← on_vault (Utc_now (E:=ReleaseError));
  mret {| man_schema := MANIFEST_SCHEMA; man_project := "hbse"; man_version := version;
          man_created_at := utc_millis now; man_source_digest := source_digest;
          man_public_key_sha256 := public_key_sha256; man_artifacts := entries |}.

(** ** Signing *)

Definition signing_key (private_pem : string) (key_passphrase : option string)
  : res ReleaseError bytes :=
  ok_or ReleasePkcs8 match key_passphrase with
    | Some passphrase => from_pkcs8_encrypted_pem private_pem passphrase
    | None => from_pkcs8_pem private_pem
    end.
Definition public_key_file (release_dir : string) (public_key_path : option string) : string :=
  default (path_join release_dir "signing_public_key.pem") public_key_path.

Definition sign_manifest (seed manifest_bytes public_pem : bytes) (now : Z) : ReleaseSignature := {|
  sig_mode := "ed25519"; sig_manifest := "artifacts.json";
  sig_manifest_sha256 := hex_sha256 manifest_bytes;
  sig_public_key_sha256 := hex_sha256 public_pem;
  sig_signature := b64url_no_padding (ed25519_sign seed manifest_bytes);
  sig_signed_at := utc_millis now |}.

Definition sign_release_artifacts (release_dir : string) (artifact_paths : list string)
  (private_key_path : string) (public_key_path key_passphrase : option string) (version : string)
  : RELEASE (ArtifactManifest * ReleaseSignature) :=
  _ ← try_ (create_dir_all release_dir);
  private_pem ← try_ (read_to_string private_key_path);
  seed ← lift (signing_key private_pem key_passphrase);
  public_pem ← lift (ok_or ReleaseSpki (to_public_key_pem (verifying_key seed)));
  let public_path := public_key_file release_dir public_key_path in
  _ ← try_ (make_parent_dir public_path);
  _ ← try_ (fs_write public_path (as_bytes public_pem));
  manifest ← artifact_manifest release_dir artifact_paths version (hex_sha256 (as_bytes public_pem));
  manifest_bytes ← lift (res_try (canonical_json_bytes (to_value manifest)));
  _ ← try_ (fs_write (path_join release_dir "artifacts.json") manifest_bytes);
  now ← on_vault (Utc_now (E:=ReleaseError));
  let signature := sign_manifest seed manifest_bytes (as_bytes public_pem) now in
  _ ← try_ (fs_write (path_join release_dir "artifact.sig") (as_bytes (to_string_pretty signature)));
  mret (manifest, signature).

(** ** Verification: every failure is a check *)

Definition CHECKED_FILES : list string :=
  [ "sbom.json"; "provenance.json"; "production_checklist.json"; "artifact.sig";
    "dependency-lock.json"; "openapi.json"; "proto/hbse/v1/hbse.proto"; "artifacts.json" ].
Definition JSON_FILES : list string :=
  [ "sbom.json"; "provenance.json"; "production_checklist.json"; "artifact.sig";
    "dependency-lock.json"; "openapi.json"; "artifacts.json" ].

Definition exists_status (name : string) (exists_ : bool) : string :=
  if String.eqb name "artifacts.json" && negb exists_ then "warn"
  else if exists_ then "pass" else "fail".
Definition file_check (root name : string) : IO ReleaseCheck :=
  exists_ ← fs_exists (path_join root name);
  mret (check name (exists_status name exists_) (if exists_ then "exists" else "missing")).

Definition parse_file (path : string) : IO json :=
  raw ← read_to_string path; lift (ok_or Io (json_from_slice (as_bytes raw))).
(** A check that fails with the text of the error. *)
Definition judge {A} (m : IO A) (name detail : string) : IO ReleaseCheck :=
  r ← attempt m;
  match r with
  | Ok _ => mret (check name "pass" detail)
  | _ => text ← ask error_text; mret (check name "fail" text)
  end.
Definition json_check (root name : string) : IO (list ReleaseCheck) :=
  exists_ ← fs_exists (path_join root name);
  if negb exists_ then mret [] else
  c ← judge (parse_file (path_join root name)) (name +:+ ":json") "valid JSON"; mret [c].

Definition read_signature (path : string) : RELEASE ReleaseSignature :=
  data ← try_ (fs_read path); lift (ok_or ReleaseJson (json_from_slice data ≫= of_value)).

Definition artifact_check (item : ArtifactEntry) : IO ReleaseCheck :=
  let name := ("artifact:" +:+ art_path item)%string in
  data ← attempt (fs_read (art_path item));
  mret match data with
       | Ok data =>
           let actual_sha := hex_sha256 data in
           let actual_size := Z.of_nat (length data) in
           check name (if String.eqb actual_sha (art_sha256 item) && (actual_size =? art_size item)
                       then "pass" else "fail")
             ("sha256=" +:+ actual_sha +:+ " size=" +:+ dec actual_size)
       | _ => check name "fail" "missing"
       end.
Definition verify_manifest_artifact_hashes (manifest : ArtifactManifest) : IO (list ReleaseCheck) :=
  st_mapM artifact_check (man_artifacts manifest).

Definition signature_result (manifest : ArtifactManifest) (signature : ReleaseSignature)
  (public_pem : string) : res ReleaseError unit :=
  key ← ok_or ReleaseSpki (from_public_key_pem public_pem);
  signature_bytes ← ok_or ReleaseBase64 (b64url_decode_no_padding (sig_signature signature));
  signature ← ok_or ReleaseSignatureError (signature_try_from signature_bytes);
  message ← res_try (canonical_json_bytes (to_value manifest));
  if ed25519_verify key message signature then Ok tt else Err ReleaseSignatureError.

Definition equal_status (a b : string) : string := if String.eqb a b then "pass" else "fail".
Definition key_checks (release_dir : string) (manifest : ArtifactManifest)
  (signature : ReleaseSignature) (public_key_path : option string) : IO (list ReleaseCheck) :=
  let public_path := public_key_file release_dir public_key_path in
  pem ← attempt (read_to_string public_path);
  match pem with
  | Ok public_pem =>
      let public_sha := hex_sha256 (as_bytes public_pem) in
      let key_check := check "artifact.sig:public_key"
        (equal_status public_sha (sig_public_key_sha256 signature)) public_sha in
      if negb (String.eqb public_sha (sig_public_key_sha256 signature)) then mret [key_check] else
      match signature_result manifest signature public_pem with
      | Ok _ => mret [key_check; check "artifact.sig:signature" "pass" "valid Ed25519 signature"]
      | _ => text ← ask error_text; mret [key_check; check "artifact.sig:signature" "fail" text]
      end
  | _ => mret [check "artifact.sig:public_key" "fail" (public_path +:+ " missing")]
  end.

Definition verify_ed25519_signature (release_dir : string) (signature : ReleaseSignature)
  (public_key_path : option string) : IO (list ReleaseCheck) :=
  data ← attempt (fs_read (path_join release_dir (sig_manifest signature)));
  match data with
  | Ok manifest_bytes =>
      let actual_manifest_sha := hex_sha256 manifest_bytes in
      let sha_check := check "artifacts.json:sha256"
        (equal_status actual_manifest_sha (sig_manifest_sha256 signature)) actual_manifest_sha in
      match json_from_slice manifest_bytes ≫= of_value with
      | None => text ← ask error_text; mret [sha_check; check "artifacts.json:parse" "fail" text]
      | Some manifest =>
          artifacts ← verify_manifest_artifact_hashes manifest;
          keys ← key_checks release_dir manifest signature public_key_path;
          mret (sha_check :: artifacts ++ keys)
      end
  | _ => mret [check "artifacts.json:signature" "fail" "manifest missing"]
  end.

Definition signature_checks (root : string) (public_key_path : option string)
  : IO (list ReleaseCheck) :=
  let signature_path := path_join root "artifact.sig" in
  exists_ ← fs_exists signature_path;
  if negb exists_ then mret [] else
  signature ← attempt (read_signature signature_path);
  match signature with
  | Ok signature =>
      if String.eqb (sig_mode signature) UNSIGNED
      then mret [check "artifact.sig:mode" "warn" UNSIGNED]
      else if String.eqb (sig_mode signature) "ed25519"
      then checks ← verify_ed25519_signature root signature public_key_path;
           mret (check "artifact.sig:mode" "pass" "ed25519" :: checks)
      else mret [check "artifact.sig:mode" "fail" ("unsupported mode: " +:+ sig_mode signature)]
  | _ => text ← ask error_text; mret [check "artifact.sig:parse" "fail" text]
  end.

Definition verify_release_evidence (root : string) (public_key_path : option string)
  : IO ReleaseVerification :=
  files ← st_mapM (file_check root) CHECKED_FILES;
  parsed ← st_mapM (json_check root) JSON_FILES;
  signed ← signature_checks root public_key_path;
  let checks := files ++ concat parsed ++ signed in
  mret {| rv_passed := forallb (λ c, negb (String.eqb (rc_status c) "fail")) checks;
          rv_checks := checks |}.
End release.

(** ** Lemmas: data *)

Definition ArtifactEntry_wf (a : ArtifactEntry) : Prop := 0 <= art_size a <= u64_max.
Definition ArtifactManifest_wf (m : ArtifactManifest) : Prop :=
  Forall ArtifactEntry_wf (man_artifacts m).

Lemma ArtifactEntry_round a :
  ArtifactEntry_wf a → ArtifactEntry_of_object (of_list (ArtifactEntry_fields a)) = Some a.
Proof.
  intros Ha. unfold ArtifactEntry_of_object. repeat serde_step.
  rewrite de_ser_u64 by done. by destruct a.
Qed.
Lemma ArtifactEntry_json_ok a : ArtifactEntry_wf a → json_ok (to_value a) = true.
Proof.
  intros Ha. apply json_ok_obj. unfold ArtifactEntry_fields. cbn [forallb snd]. by rewrite ser_u64_ok.
Qed.
#[export] Instance ArtifactEntry_serde_laws : SerdeLaws ArtifactEntry ArtifactEntry_wf.
Proof. split; [apply ArtifactEntry_round|apply ArtifactEntry_json_ok]. Qed.

Lemma ArtifactManifest_round m :
  ArtifactManifest_wf m → ArtifactManifest_of_object (of_list (ArtifactManifest_fields m)) = Some m.
Proof.
  intros Hm. unfold ArtifactManifest_of_object.
  assert (field_opt "source_digest" as_str (of_list (ArtifactManifest_fields m)) =
    Some (man_source_digest m)) as -> by (serde_opt idtac; done).
  repeat serde_step. rewrite de_ser_list; [by destruct m|].
  eapply Forall_impl; [exact Hm|]. intros a Ha. by apply of_to_value.
Qed.
Lemma ArtifactManifest_json_ok m : ArtifactManifest_wf m → json_ok (to_value m) = true.
Proof.
  intros Hm. apply json_ok_obj. unfold ArtifactManifest_fields. cbn [forallb snd].
  rewrite ser_opt_ok by done. rewrite ser_list_ok; [done|].
  eapply Forall_impl; [exact Hm|]. intros a Ha. by apply to_value_ok.
Qed.
#[export] Instance ArtifactManifest_serde_laws : SerdeLaws ArtifactManifest ArtifactManifest_wf.
Proof. split; [apply ArtifactManifest_round|apply ArtifactManifest_json_ok]. Qed.

Lemma ReleaseSignature_round s :
  ReleaseSignature_of_object (of_list (ReleaseSignature_fields s)) = Some s.
Proof. unfold ReleaseSignature_of_object. repeat serde_step. by destruct s. Qed.
#[export] Instance ReleaseSignature_serde_laws : SerdeLaws ReleaseSignature (λ _, True).
Proof. split; [intros s _; apply ReleaseSignature_round|intros s _; by apply json_ok_obj]. Qed.

(** ** A concrete scheme

    A key is its seed, a signature the MAC of the message under it, and a key file the seed
    itself, or the seed behind its pass phrase. *)

#[export] Instance toy_signing : Signing := {
  verifying_key seed := seed;
  ed25519_sign seed msg := hmac_sha256 seed msg;
  signature_try_from b := Some b;
  ed25519_verify key msg sig := bool_decide (sig = hmac_sha256 key msg);
  to_pkcs8_pem seed := Some (of_bytes seed);
  to_pkcs8_encrypted_pem _ seed pass := Some (of_bytes pass +:+ of_bytes seed);
  from_pkcs8_pem pem := Some (as_bytes pem);
  from_pkcs8_encrypted_pem pem pass := as_bytes <$> Text.strip_prefix pass pem;
  to_public_key_pem key := if decide (is_text (of_bytes key)) then Some (of_bytes key) else None;
  from_public_key_pem pem := Some (as_bytes pem);
  error_text _ := "error";
  consts_os := "linux";
  consts_arch := "x86_64";
}.
#[export] Instance toy_signing_laws : SigningLaws.
Proof.
  split; cbn [verifying_key ed25519_sign signature_try_from ed25519_verify to_pkcs8_pem
    to_pkcs8_encrypted_pem from_pkcs8_pem from_pkcs8_encrypted_pem to_public_key_pem
    from_public_key_pem toy_signing].
  - intros seed pem [= <-]. by rewrite String.list_byte_of_string_of_list_byte.
  - intros i seed pass pem [= <-]. rewrite String.string_of_list_byte_of_string, strip_prefix_app.
    cbn. by rewrite String.list_byte_of_string_of_list_byte.
  - intros key pem. destruct (decide _); [|done]. intros [= <-].
    by rewrite String.list_byte_of_string_of_list_byte.
  - intros key pem. destruct (decide _); [|done]. by intros [= <-].
  - done.
  - intros seed msg. by apply bool_decide_eq_true_2.
Qed.
