(* ===== verification/ReleaseSpec.v ===== *)
(** * What a verified release is (release.rs)

    Verification always answers and writes nothing; when it passes a signed release, every
    file it vouches for is there as the signature says; and what was signed passes. *)

From S2P Require Export Release.
From S2P Require Import Toy.
#[local] Open Scope Z_scope.

(** ** Computations that answer

    Whatever operations fail, [m] returns a value that satisfies [P], on a site with the files
    [fs], and leaves those files. *)

Definition answers {E A : Type} (fs : Files) (m : ST Site E A) (P : A → Prop) : Prop :=
  ∀ s, site_files s = fs → ∃ a s', m s = (Ok a, s') ∧ site_files s' = fs ∧ P a.
(** The value of an [attempt], if it is one. *)
Definition ok_post {E A} (P : A → Prop) (r : res E A) : Prop := ∀ a, r = Ok a → P a.

Section answers.
Context {fs : Files}.
Lemma answers_ret {E A} (a : A) (P : A → Prop) : P a → answers fs (mret a : ST Site E A) P.
Proof. intros Ha s Hs. by exists a, s. Qed.
Lemma answers_bind {E A B} (m : ST Site E A) (f : A → ST Site E B) P Q :
  answers fs m P → (∀ a, P a → answers fs (f a) Q) → answers fs (m ≫= f) Q.
Proof.
  intros Hm Hf s Hs. destruct (Hm s Hs) as (a & s1 & Hrun & Hs1 & Ha).
  destruct (Hf a Ha s1 Hs1) as (b & s2 & Hrun2 & Hs2 & Hb). exists b, s2.
  by rewrite (st_bind_ok _ _ _ _ _ Hrun).
Qed.
Lemma answers_weaken {E A} (m : ST Site E A) (P Q : A → Prop) :
  answers fs m P → (∀ a, P a → Q a) → answers fs m Q.
Proof. intros Hm HPQ s Hs. destruct (Hm s Hs) as (a & s1 & ? & ? & ?). eauto 10. Qed.
Lemma answers_ask {E A} (f : nat → A) : answers fs (ask f : ST Site E A) (λ _, True).
Proof.
  intros s Hs. unfold ask, on_vault, query, mbind, st_bind, draw. simpl. by do 2 eexists.
Qed.
Lemma answers_mapM {E A B} (f : A → ST Site E B) (P : A → B → Prop) l :
  (∀ a, answers fs (f a) (P a)) → answers fs (st_mapM f l) (Forall2 P l).
Proof.
  intros Hf. induction l as [|a l IH]; cbn [st_mapM]; [by apply answers_ret|].
  eapply answers_bind; [apply Hf|intros b Hb]. eapply answers_bind; [apply IH|intros bs Hbs].
  apply answers_ret. by constructor.
Qed.
(** A computation that leaves the files and does not panic, as an attempt. *)
Lemma answers_attempt {E F A} (m : ST Site E A) (P : A → Prop) :
  keeps same_files m → (∀ s a s', site_files s = fs → m s = (Ok a, s') → P a) →
  (∀ s, (m s).1 ≠ Panic) → answers fs (attempt m : ST Site F (res E A)) (ok_post P).
Proof.
  intros Hk HP Hp s Hs. specialize (Hk s). specialize (HP s). specialize (Hp s).
  unfold attempt, same_files in *. destruct (m s) as [[a|e|] s1]; simpl in *; [| |done].
  - exists (Ok a), s1. split; [done|]. split; [congruence|]. intros a' [= <-]. by eapply HP.
  - exists (Err e), s1. split; [done|]. split; [congruence|]. by intros a'.
Qed.
End answers.

(** ** Reading *)

Definition file_at (fs : Files) (p : string) (data : bytes) : Prop :=
  ∃ mode, fs !! path_key p = Some (File mode data).

Section reading.
Context {X : Ext} {HS : Host} {D : Disk}.

Lemma fs_op_no_panic {A} (f : Files → option (A * Files)) s : (fs_op f s).1 ≠ Panic.
Proof.
  unfold fs_op, ask, on_vault, query, mbind, st_bind, draw. simpl. destruct (fs_fault _); [done|].
  unfold on_files. by destruct (f _) as [[]|].
Qed.
Lemma bind_lift_no_panic {E A B} (m : ST Site E A) (f : A → res E B) s :
  (m s).1 ≠ Panic → (∀ a, f a ≠ Panic) → ((a ← m; lift (f a)) s).1 ≠ Panic.
Proof. intros Hm Hf. unfold mbind, st_bind. destruct (m s) as [[a|e|] s1]; [apply Hf|done..]. Qed.
Lemma ok_or_no_panic {E A} (e : E) (o : option A) : ok_or e o ≠ Panic.
Proof. by destruct o. Qed.

Lemma keeps_read_to_string p : keeps same_files (read_to_string p).
Proof. unfold read_to_string. keeps_auto. Qed.
Lemma read_to_string_inv p text s s' :
  read_to_string p s = (Ok text, s') →
  (∃ data, file_at (site_files s) p data ∧ from_utf8 data = Some text) ∧ site_files s' = site_files s.
Proof.
  intros (data & s1 & Hr & Hrun)%st_bind_ok_inv. apply fs_read_ok_inv in Hr as (Hd & Hfs & _).
  apply lift_ok_inv in Hrun as [Hu%ok_or_ok_inv ->]. eauto.
Qed.

Context {fs : Files}.
Lemma answers_exists p :
  answers fs (fs_exists p) (λ b, b = bool_decide (is_Some (fs !! path_key p))).
Proof. intros s <-. by do 2 eexists. Qed.
Lemma answers_read {F} p :
  answers fs (attempt (fs_read p) : ST Site F (res IoError bytes)) (ok_post (file_at fs p)).
Proof.
  apply answers_attempt; [keeps_auto| |apply fs_op_no_panic].
  intros s a s' <- Hr. by apply fs_read_ok_inv in Hr as (Hd & _).
Qed.
Lemma answers_read_text {F} p :
  answers fs (attempt (read_to_string p) : ST Site F (res IoError string))
    (ok_post (λ text, ∃ data, file_at fs p data ∧ from_utf8 data = Some text)).
Proof.
  apply answers_attempt; [apply keeps_read_to_string| |].
  - intros s a s' <- Hr. by apply read_to_string_inv in Hr as [? _].
  - intros s. apply bind_lift_no_panic; [apply fs_op_no_panic|intros; apply ok_or_no_panic].
Qed.
End reading.

(** ** Verification *)

Definition passing (c : ReleaseCheck) : Prop := rc_status c ≠ "fail".
Definition parsed_at `{Ext, Serde A} (fs : Files) (p : string) (a : A) : Prop :=
  ∃ data, file_at fs p data ∧ json_from_slice data ≫= of_value = Some a.

(** An artifact is as its entry says. *)
Definition artifact_ok `{Ext} (fs : Files) (item : ArtifactEntry) : Prop :=
  ∃ data, file_at fs (art_path item) data ∧ hex_sha256 data = art_sha256 item ∧
    Z.of_nat (length data) = art_size item.

Definition key_ok `{Ext, Signing} (fs : Files) (key_file : string) (manifest : ArtifactManifest)
  (signature : ReleaseSignature) : Prop :=
  ∃ data public_pem key sig_bytes sig message, file_at fs key_file data ∧
    from_utf8 data = Some public_pem ∧
    hex_sha256 (as_bytes public_pem) = sig_public_key_sha256 signature ∧
    from_public_key_pem public_pem = Some key ∧
    b64url_decode_no_padding (sig_signature signature) = Some sig_bytes ∧
    signature_try_from sig_bytes = Some sig ∧
    canonical_json_bytes (to_value manifest) = Ok message ∧
    ed25519_verify key message sig = true.

(** A manifest with the hash the signature names, its artifacts, and a signature that verifies
    under the key of the file [key_file]. *)
Definition manifest_ok `{Ext, Signing} (fs : Files) (root key_file : string)
  (signature : ReleaseSignature) : Prop :=
  ∃ manifest_bytes manifest,
    file_at fs (path_join root (sig_manifest signature)) manifest_bytes ∧
    hex_sha256 manifest_bytes = sig_manifest_sha256 signature ∧
    json_from_slice manifest_bytes ≫= of_value = Some manifest ∧
    Forall (artifact_ok fs) (man_artifacts manifest) ∧ key_ok fs key_file manifest signature.

Definition ed25519_check : ReleaseCheck := check "artifact.sig:mode" "pass" "ed25519".

Section verification.
Context {X : Ext} {HS : Host} {D : Disk} {G : Signing} {fs : Files}.

Lemma answers_file_check root name :
  answers fs (file_check root name) (λ c, rc_name c = name ∧
    (passing c → name ≠ "artifacts.json" → is_Some (fs !! path_key (path_join root name)))).
Proof.
  unfold file_check. eapply answers_bind; [apply answers_exists|intros b ->]. apply answers_ret.
  split; [done|]. unfold passing, exists_status. cbn [rc_status check].
  case_bool_decide; [done|]. rewrite andb_true_r. by destruct (String.eqb_spec name "artifacts.json").
Qed.

Lemma answers_judge {A} (m : ST Site IoError A) name detail P :
  answers fs (attempt m : ST Site IoError (res IoError A)) (ok_post P) →
  answers fs (judge m name detail) (λ c, rc_name c = name ∧ (passing c → ∃ a, P a)).
Proof.
  intros Hm. unfold judge. eapply answers_bind; [exact Hm|]. intros [a|e|] Ha.
  1: apply answers_ret; split; [done|]; intros _; exists a; by apply Ha.
  all: eapply answers_bind; [apply answers_ask|intros text _]; apply answers_ret;
    split; [done|intros Hp; by destruct Hp].
Qed.
Lemma answers_json_check root name :
  answers fs (json_check root name) (λ cs, Forall (λ c, rc_name c = (name +:+ ":json")%string) cs).
Proof.
  unfold json_check. eapply answers_bind; [apply answers_exists|intros b _].
  destruct (negb b); [by apply answers_ret|].
  eapply answers_bind; [apply (answers_judge _ _ _ (λ _, True))|].
  - apply answers_attempt; [unfold parse_file; keeps_auto; apply keeps_read_to_string|done|].
    intros s. apply bind_lift_no_panic; [|intros; apply ok_or_no_panic].
    apply bind_lift_no_panic; [apply fs_op_no_panic|intros; apply ok_or_no_panic].
  - intros c [Hc _]. apply answers_ret. by constructor.
Qed.

Lemma answers_artifact item :
  answers fs (artifact_check item) (λ c, passing c → artifact_ok fs item).
Proof.
  unfold artifact_check. eapply answers_bind; [apply answers_read|].
  intros [data|e|] Hd; apply answers_ret; [|by intros []..]. unfold passing. cbn [rc_status check].
  destruct (String.eqb_spec (hex_sha256 data) (art_sha256 item)) as [Hh|]; [|done].
  destruct (Z.eqb_spec (Z.of_nat (length data)) (art_size item)); [|done]. intros _.
  exists data. split; [by apply Hd|done].
Qed.

Lemma signature_result_inv manifest signature pem :
  signature_result manifest signature pem = Ok tt → ∃ key sig_bytes sig message,
    from_public_key_pem pem = Some key ∧
    b64url_decode_no_padding (sig_signature signature) = Some sig_bytes ∧
    signature_try_from sig_bytes = Some sig ∧
    canonical_json_bytes (to_value manifest) = Ok message ∧ ed25519_verify key message sig = true.
Proof.
  unfold signature_result. intros (key & Hk%ok_or_ok_inv & Hr)%res_bind_ok_inv.
  apply res_bind_ok_inv in Hr as (sig_bytes & Hb%ok_or_ok_inv & Hr).
  apply res_bind_ok_inv in Hr as (sig & Hs%ok_or_ok_inv & Hr).
  apply res_bind_ok_inv in Hr as (message & Hm & Hr).
  destruct (canonical_json_bytes (to_value manifest)) as [m|e|]; try done. injection Hm as ->.
  destruct (ed25519_verify key message sig) eqn:Hv; [|done]. by exists key, sig_bytes, sig, message.
Qed.

Lemma answers_keys root manifest signature pk :
  answers fs (key_checks root manifest signature pk)
    (λ cs, Forall passing cs → key_ok fs (public_key_file root pk) manifest signature).
Proof.
  unfold key_checks. cbv zeta. eapply answers_bind; [apply answers_read_text|].
  intros [pem|e|] Hpem.
  2-3: apply answers_ret; intros Hp; inversion Hp as [|?? Hf]; by destruct Hf.
  destruct (Hpem pem eq_refl) as (data & Hd & Hu). unfold equal_status.
  destruct (String.eqb_spec (hex_sha256 (as_bytes pem)) (sig_public_key_sha256 signature)) as [Hh|].
  2: apply answers_ret; intros Hp; inversion Hp as [|?? Hf]; by destruct Hf.
  destruct (signature_result manifest signature pem) as [[]|e|] eqn:Hr; cbn [negb].
  - apply answers_ret. intros _. apply signature_result_inv in Hr as (key & sb & sig & msg & Hr).
    by exists data, pem, key, sb, sig, msg.
  - eapply answers_bind; [apply answers_ask|intros text _]. apply answers_ret.
    intros Hp. inversion Hp as [|?? _ Hp']. inversion Hp' as [|?? Hf]. by destruct Hf.
  - eapply answers_bind; [apply answers_ask|intros text _]. apply answers_ret.
    intros Hp. inversion Hp as [|?? _ Hp']. inversion Hp' as [|?? Hf]. by destruct Hf.
Qed.

Lemma answers_ed25519 root signature pk :
  answers fs (verify_ed25519_signature root signature pk)
    (λ cs, Forall passing cs → manifest_ok fs root (public_key_file root pk) signature).
Proof.
  unfold verify_ed25519_signature. eapply answers_bind; [apply answers_read|].
  intros [data|e|] Hd.
  2-3: apply answers_ret; intros Hp; inversion Hp as [|?? Hf]; by destruct Hf.
  cbv zeta. destruct (json_from_slice data ≫= of_value) as [manifest|] eqn:Hm.
  2: { eapply answers_bind; [apply answers_ask|intros text _]. apply answers_ret.
       intros Hp. inversion Hp as [|?? _ Hp']. inversion Hp' as [|?? Hf]. by destruct Hf. }
  eapply answers_bind; [apply answers_mapM, answers_artifact|intros cs Hcs].
  eapply answers_bind; [apply answers_keys|intros ks Hks]. apply answers_ret.
  intros Hp. inversion Hp as [|?? Hsha Hrest]. apply Forall_app in Hrest as [Harts Hkeys].
  exists data, manifest. split; [by apply Hd|]. unfold passing, equal_status in Hsha. cbn in Hsha.
  destruct (String.eqb_spec (hex_sha256 data) (sig_manifest_sha256 signature)); [|done].
  split; [done|]. split; [done|]. split; [|by apply Hks].
  clear -Hcs Harts. induction Hcs as [|item c items cs Hc _ IH]; [done|].
  inversion Harts. constructor; auto.
Qed.

Lemma answers_signature root pk :
  answers fs (signature_checks root pk) (λ cs, Forall passing cs → ed25519_check ∈ cs →
    ∃ signature, parsed_at fs (path_join root "artifact.sig") signature ∧
      sig_mode signature = "ed25519" ∧ manifest_ok fs root (public_key_file root pk) signature).
Proof.
  unfold signature_checks. cbv zeta. eapply answers_bind; [apply answers_exists|intros b _].
  destruct (negb b); [apply answers_ret; by intros _ ?%elem_of_nil|].
  eapply answers_bind.
  { apply (answers_attempt _ (parsed_at fs (path_join root "artifact.sig"))).
    - unfold read_signature. keeps_auto.
    - intros s a s' <- Hr. apply st_bind_ok_inv in Hr as (data & s1 & Hr%try_ok_inv & Hp).
      apply fs_read_ok_inv in Hr as (Hd & _). apply lift_ok_inv in Hp as [Hp%ok_or_ok_inv _].
      by exists data.
    - intros s. apply bind_lift_no_panic; [|intros; apply ok_or_no_panic].
      unfold try_. pose proof (fs_op_no_panic (λ fs, match fs !! path_key (path_join root "artifact.sig") with
        Some (File _ data) => Some (data, fs) | _ => None end) s) as Hp.
      unfold fs_read. by destruct (fs_op _ s) as [[]]. }
  intros [signature|e|] Hsig.
  2-3: eapply answers_bind; [apply answers_ask|intros text _]; apply answers_ret;
    intros Hp; inversion Hp as [|?? Hf]; by destruct Hf.
  destruct (String.eqb (sig_mode signature) UNSIGNED).
  { apply answers_ret. by intros _ [=]%list_elem_of_singleton. }
  destruct (String.eqb_spec (sig_mode signature) "ed25519") as [Hmode|].
  - eapply answers_bind; [apply answers_ed25519|intros cs Hcs]. apply answers_ret.
    intros Hp _. inversion Hp. exists signature. split; [by apply Hsig|]. split; [done|auto].
  - apply answers_ret. intros Hp. inversion Hp as [|?? Hf]. by destruct Hf.
Qed.
End verification.

(** ** Signing *)

(** Files that are not written stay as they are. *)
Definition untouched (ks : list (list string)) (s s' : Site) : Prop :=
  ∀ k n, k ∉ ks → site_files s !! k = Some n → site_files s' !! k = Some n.
#[export] Instance untouched_preorder ks : PreOrder (untouched ks).
Proof. split; [by intros s k n|intros s1 s2 s3 H1 H2 k n Hk Hn; by apply H2, H1]. Qed.

Section signing.
Context {X : Ext} {HS : Host} {D : Disk} {G : Signing}.

Lemma untouched_same {E A : Type} (ks : list (list string)) (m : ST Site E A) : keeps same_files m → keeps (untouched ks) m.
Proof. intros Hm s k n _. by rewrite (Hm s). Qed.
Lemma untouched_fs_op {A : Type} (ks : list (list string)) (f : Files → option (A * Files)) :
  (∀ fs a fs' k n, f fs = Some (a, fs') → k ∉ ks → fs !! k = Some n → fs' !! k = Some n) →
  keeps (untouched ks) (fs_op f).
Proof.
  intros Hf. unfold fs_op. apply keeps_bind; [apply _|apply untouched_same, keeps_on_vault|intros i].
  destruct (fs_fault i); [apply keeps_throw, _|]. intros s k n Hk Hn. unfold on_files.
  destruct (f (site_files s)) as [[a fs']|] eqn:Hs; [|done]. by eapply Hf.
Qed.
Lemma untouched_create_dir_all ks p : keeps (untouched ks) (create_dir_all p).
Proof.
  unfold create_dir_all. generalize (path_key p) as todo, (@nil string) as made.
  induction todo as [|c todo IH]; intros made; cbn [create_dirs]; [apply keeps_ret, _|]. cbv zeta.
  apply keeps_bind; [apply _| |intros; apply IH]. unfold create_dir.
  apply keeps_bind; [apply _|by apply untouched_same; intros s|intros fs].
  destruct (has_dir _ _); [apply keeps_ret, _|]. apply untouched_fs_op. intros fs1 [] fs' k n.
  destruct (fs1 !! (made ++ [c])) eqn:Hl; [done|]. destruct (has_dir _ _); [|done].
  intros [= <-] _ Hn. rewrite lookup_insert_ne; [done|]. intros <-. by rewrite Hl in Hn.
Qed.
Lemma untouched_make_parent ks p : keeps (untouched ks) (make_parent_dir p).
Proof.
  unfold make_parent_dir. destruct (parent p); [apply untouched_create_dir_all|apply keeps_ret, _].
Qed.
(** A write that succeeded: the file is there, the others are as they were. *)
Lemma write_inv ks p data s s' :
  path_key p ∈ ks → try_ (fs_write p data) s = (Ok tt, s' : Site) :> res ReleaseError unit * Site →
  untouched ks s s' ∧ file_at (site_files s') p data ∧ ∀ k, path_key p ≠ k → same_at k s s'.
Proof.
  intros Hp Hrun%try_ok_inv.
  assert (∀ k, path_key p ≠ k → same_at k s s') as Hsame.
  { intros k Hk. pose proof (keeps_fs_write k p data Hk s) as Hs. by rewrite Hrun in Hs. }
  split_and!; [|by apply fs_write_ok_inv in Hrun as (mode & ? & _); exists mode|done].
  intros k n Hk Hn. rewrite <-Hn. apply Hsame. by intros <-.
Qed.
(** A step that leaves all files but [ks], and succeeded. *)
Lemma untouched_inv {E A : Type} (ks : list (list string)) (m : ST Site E A) s r s' :
  keeps (untouched ks) m → m s = (r, s') → untouched ks s s'.
Proof. intros Hk Hrun. specialize (Hk s). by rewrite Hrun in Hk. Qed.
Lemma file_at_same s s' p data :
  same_at (path_key p) s s' → file_at (site_files s) p data → file_at (site_files s') p data.
Proof. intros Hs (mode & Hf). exists mode. by rewrite Hs. Qed.

(** Entries that were listed: every path is a file, and every entry is as that file says. *)
Definition listed (fs : Files) (paths : list string) (entries : list ArtifactEntry) : Prop :=
  Forall (λ p, ∃ data, file_at fs p data) paths ∧
  Forall (λ e, ∃ p data, p ∈ paths ∧ file_at fs p data ∧ art_path e = replace "\" "/" p ∧
    art_sha256 e = hex_sha256 data ∧ art_size e = Z.of_nat (length data)) entries.

Lemma canonicalize_inv p k s s' :
  canonicalize p s = (Ok k, s') → site_files s' = site_files s.
Proof.
  intros (Ho & _)%fs_op_ok_inv. destruct (is_empty p); [done|].
  destruct (site_files s !! path_key p); [|done]. by injection Ho as _ <-.
Qed.
Lemma artifact_entries_inv paths seen s entries s' :
  artifact_entries paths seen s = (Ok entries, s') →
  listed (site_files s) paths entries ∧ site_files s' = site_files s.
Proof.
  revert seen s entries. induction paths as [|p paths IH]; intros seen s entries; cbn [artifact_entries].
  { intros [= <- <-]. by repeat constructor. }
  intros (b & s1 & Hb & Hrun)%st_bind_ok_inv. apply try_ok_inv in Hb. injection Hb as Hb <-.
  destruct (site_files s !! path_key p) as [[mode data| |]|] eqn:Hp; subst b; try done. cbn [negb node_is_file] in Hrun.
  apply st_bind_ok_inv in Hrun as (k & s2 & Hk%try_ok_inv%canonicalize_inv & Hrun).
  assert (∀ l, listed (site_files s) paths l → listed (site_files s) (p :: paths) l) as Hmore.
  { intros l [H1 H2]. split; [constructor; [by exists data, mode|done]|].
    eapply Forall_impl; [exact H2|]. intros e (q & d & Hq & ?). exists q, d. split; [by right|done]. }
  destruct (decide (k ∈ seen)).
  - apply IH in Hrun as [Hl Hs]. rewrite Hk in *. eauto.
  - apply st_bind_ok_inv in Hrun as (e & s3 & He%try_ok_inv & Hrun).
    apply st_bind_ok_inv in Hrun as (l & s4 & Hl & Hrun). injection Hrun as <- <-.
    apply st_bind_ok_inv in He as (d & s5 & Hd & He). injection He as <- <-.
    apply fs_read_ok_inv in Hd as ([m Hd] & Hs5 & _). rewrite Hk in *. rewrite Hp in Hd. injection Hd as <- <-.
    apply IH in Hl as [Hl Hs]. rewrite Hs5 in *. split; [|done]. destruct (Hmore _ Hl) as [H1 H2].
    split; [done|]. constructor; [|done]. exists p, data. split; [by left|]. split; [by exists mode|done].
Qed.
Lemma artifact_manifest_inv dir arts version sha s m s' :
  artifact_manifest dir arts version sha s = (Ok m, s') →
  listed (site_files s) ((path_join dir <$> EVIDENCE_FILES) ++ arts) (man_artifacts m) ∧
  man_version m = version ∧ man_public_key_sha256 m = sha ∧ site_files s' = site_files s.
Proof.
  unfold artifact_manifest. intros (l & s1 & Hl & Hrun)%st_bind_ok_inv.
  apply artifact_entries_inv in Hl as [Hl Hs1].
  apply st_bind_ok_inv in Hrun as (o & s2 & Ho & Hrun).
  assert (site_files s2 = site_files s1) as Hs2.
  { assert (keeps same_files (recorded_source_digest dir)) as Hk.
    { unfold recorded_source_digest. apply keeps_bind; [apply _| |intros; apply keeps_ret, _].
      apply keeps_attempt, keeps_read_to_string. }
    pose proof (Hk s1) as Hs. by rewrite Ho in Hs. }
  apply st_bind_ok_inv in Hrun as (now & s3 & Hn & Hrun). injection Hrun as <- <-. simpl.
  apply on_vault_ok_inv in Hn as [_ ->]. simpl. do 3 (split; [done|]). congruence.
Qed.

(** What a signing that succeeded wrote, and over which files. *)
Definition outputs (dir : string) (pk : option string) : list (list string) :=
  [ path_key (public_key_file dir pk); path_key (path_join dir "artifacts.json");
    path_key (path_join dir "artifact.sig") ].
Lemma outputs_distinct dir pk :
  NoDup (outputs dir pk) →
  path_key (public_key_file dir pk) ∈ outputs dir pk ∧
  path_key (path_join dir "artifacts.json") ∈ outputs dir pk ∧
  path_key (path_join dir "artifact.sig") ∈ outputs dir pk ∧
  path_key (public_key_file dir pk) ≠ path_key (path_join dir "artifacts.json") ∧
  path_key (public_key_file dir pk) ≠ path_key (path_join dir "artifact.sig") ∧
  path_key (path_join dir "artifacts.json") ≠ path_key (path_join dir "artifact.sig").
Proof. unfold outputs. rewrite !NoDup_cons. set_solver. Qed.
Lemma sign_inv dir arts private pk pass version s m sig s' :
  sign_release_artifacts dir arts private pk pass version s = (Ok (m, sig), s') →
  NoDup (outputs dir pk) →
  ∃ seed pem bytes now fs, untouched (outputs dir pk) s s' ∧
    to_public_key_pem (verifying_key seed) = Some pem ∧
    canonical_json_bytes (to_value m) = Ok bytes ∧
    sig = sign_manifest seed bytes (as_bytes pem) now ∧ man_version m = version ∧
    listed fs ((path_join dir <$> EVIDENCE_FILES) ++ arts) (man_artifacts m) ∧
    (∀ k n, k ∉ outputs dir pk → fs !! k = Some n → site_files s' !! k = Some n) ∧
    file_at (site_files s') (public_key_file dir pk) (as_bytes pem) ∧
    file_at (site_files s') (path_join dir "artifacts.json") bytes ∧
    file_at (site_files s') (path_join dir "artifact.sig") (as_bytes (to_string_pretty sig)).
Proof.
  intros Hrun Hnd. unfold sign_release_artifacts in Hrun. set (pkf := public_key_file dir pk) in *.
  destruct (outputs_distinct _ _ Hnd) as (Hin1 & Hin2 & Hin3 & Hne1 & Hne2 & Hne3).
  fold pkf in Hin1, Hne1, Hne2. set (ks := outputs dir pk) in *.
  apply st_bind_ok_inv in Hrun as ([] & s1 & Hr1 & Hrun).
  apply (untouched_inv ks) in Hr1 as Hu1; [|apply keeps_try, untouched_create_dir_all].
  apply st_bind_ok_inv in Hrun as (private_pem & s2 & Hr2%try_ok_inv%read_to_string_inv & Hrun).
  destruct Hr2 as [_ Hs2].
  apply st_bind_ok_inv in Hrun as (seed & s3 & Hr3 & Hrun). apply lift_ok_inv in Hr3 as [_ ->].
  apply st_bind_ok_inv in Hrun as (pem & s4 & Hr4 & Hrun).
  apply lift_ok_inv in Hr4 as [Hpem%ok_or_ok_inv ->]. cbv zeta in Hrun. fold pkf in Hrun.
  apply st_bind_ok_inv in Hrun as ([] & s5 & Hr5 & Hrun).
  apply (untouched_inv ks) in Hr5 as Hu5; [|apply keeps_try, untouched_make_parent].
  apply st_bind_ok_inv in Hrun as ([] & s6 & Hr6 & Hrun).
  apply (write_inv ks) in Hr6 as (Hu6 & Hf6 & _); [|done].
  apply st_bind_ok_inv in Hrun as (m' & s7 & Hm & Hrun).
  apply artifact_manifest_inv in Hm as (Hl & Hv & _ & Hs7).
  apply st_bind_ok_inv in Hrun as (bytes & s8 & Hr8 & Hrun). apply lift_ok_inv in Hr8 as [Hb ->].
  apply st_bind_ok_inv in Hrun as ([] & s9 & Hr9 & Hrun).
  apply (write_inv ks) in Hr9 as (Hu9 & Hf9 & Hk9); [|done].
  apply st_bind_ok_inv in Hrun as (now & s10 & Hn & Hrun). apply on_vault_ok_inv in Hn as [_ Hs10].
  assert (site_files s10 = site_files s9) as Hs10f by (by rewrite Hs10). clear Hs10.
  apply st_bind_ok_inv in Hrun as ([] & s11 & Hr11 & Hrun). injection Hrun as <- <- <-.
  apply (write_inv ks) in Hr11 as (Hu11 & Hf11 & Hk11); [|done].
  assert (untouched ks s6 s11) as Hlast.
  { intros k n Hk Hn. apply Hu11; [done|]. rewrite Hs10f. apply Hu9; [done|]. by rewrite Hs7. }
  exists seed, pem, bytes, now, (site_files s6). split_and!; try done.
  - trans s6; [|done]. trans s5; [|done]. trans s1; [done|]. intros k n Hk Hn. apply Hu5; [done|]. by rewrite Hs2.
  - by destruct (canonical_json_bytes (to_value m')) as [x|e|]; try done; injection Hb as ->.
  - apply (file_at_same s10); [by apply Hk11|]. rewrite Hs10f. apply (file_at_same s8); [by apply Hk9|]. by rewrite Hs7.
  - apply (file_at_same s10); [by apply Hk11|]. by rewrite Hs10f.
Qed.
End signing.

(** ** Verification on a disk that works *)

Section working.
Context {X : Ext} {HS : Host} {D : Disk} {G : Signing} {fs : Files}.
Context (Hdisk : ∀ i, fs_fault i = false).

Lemma fs_op_run {A : Type} (f : Files → option (A * Files)) s a fs' :
  f (site_files s) = Some (a, fs') → ∃ s', fs_op f s = (Ok a, s') ∧ site_files s' = fs'.
Proof using Hdisk.
  intros Hf. unfold fs_op, ask, on_vault, query, mbind, st_bind, draw. simpl. rewrite Hdisk.
  unfold on_files. simpl. rewrite Hf. by eexists.
Qed.
Lemma fs_read_run p data s :
  file_at (site_files s) p data → ∃ s', fs_read p s = (Ok data, s') ∧ site_files s' = site_files s.
Proof using Hdisk. intros (mode & Hf). apply fs_op_run. by rewrite Hf. Qed.
Lemma read_to_string_run p text s :
  file_at (site_files s) p (as_bytes text) → is_text text →
  ∃ s', read_to_string p s = (Ok text, s') ∧ site_files s' = site_files s.
Proof using Hdisk.
  intros Hf Ht. destruct (fs_read_run p _ s Hf) as (s' & Hr & Hs). exists s'. split; [|done].
  unfold read_to_string. rewrite (st_bind_ok _ _ _ _ _ Hr), Ht. done.
Qed.
Lemma attempt_run {E F A : Type} (m : ST Site E A) a :
  (∀ s, site_files s = fs → ∃ s', m s = (Ok a, s') ∧ site_files s' = site_files s) →
  answers fs (attempt m : ST Site F (res E A)) (λ r, r = Ok a).
Proof. intros Hm s Hs. destruct (Hm s Hs) as (s' & Hr & Hs'). exists (Ok a), s'. unfold attempt. rewrite Hr. naive_solver congruence. Qed.
Lemma read_works {F} p data :
  file_at fs p data → answers fs (attempt (fs_read p) : ST Site F (res IoError bytes)) (λ r, r = Ok data).
Proof using Hdisk. intros Hf. apply attempt_run. intros s <-. by apply fs_read_run. Qed.

Lemma file_check_passes root name :
  is_Some (fs !! path_key (path_join root name)) → answers fs (file_check root name) passing.
Proof.
  intros Hf. unfold file_check. eapply answers_bind; [apply answers_exists|intros b ->].
  rewrite bool_decide_eq_true_2 by done. apply answers_ret. unfold passing, exists_status.
  cbn. by rewrite andb_false_r.
Qed.
(** A file that holds JSON. *)
Definition json_at (p : string) : Prop :=
  ∃ text v, file_at fs p (as_bytes text) ∧ is_text text ∧ json_from_slice (as_bytes text) = Some v.
Lemma json_check_passes root name :
  json_at (path_join root name) → answers fs (json_check root name) (Forall passing).
Proof using Hdisk.
  intros (text & v & Hf & Ht & Hv). unfold json_check.
  eapply answers_bind; [apply answers_exists|intros b ->]. destruct Hf as (mode & Hm).
  rewrite Hm, bool_decide_eq_true_2 by done. cbn [negb]. unfold judge.
  eapply answers_bind; [|intros c Hc; apply answers_ret; constructor; [exact Hc|constructor]].
  eapply answers_bind; [apply (attempt_run _ v)|intros r ->; by apply answers_ret].
  intros s <-. destruct (read_to_string_run (path_join root name) text s) as (s' & Hr & Hs); [by exists mode|done|].
  exists s'. unfold parse_file. by rewrite (st_bind_ok _ _ _ _ _ Hr), Hv.
Qed.
Lemma artifact_passes item : artifact_ok fs item → answers fs (artifact_check item) passing.
Proof using Hdisk.
  intros (data & Hf & Hh & Hl). unfold artifact_check.
  eapply answers_bind; [by apply read_works|intros r ->]. apply answers_ret.
  unfold passing. cbn [rc_status check]. by rewrite Hh, Hl, String.eqb_refl, Z.eqb_refl.
Qed.
Lemma all_pass {E A : Type} (f : A → ST Site E ReleaseCheck) l :
  (∀ a, a ∈ l → answers fs (f a) passing) → answers fs (st_mapM f l) (Forall passing).
Proof.
  induction l as [|a l IH]; intros Hf; cbn [st_mapM]; [by apply answers_ret|].
  eapply answers_bind; [apply Hf; by left|intros c Hc].
  eapply answers_bind; [apply IH; intros; apply Hf; by right|intros cs Hcs]. apply answers_ret. by constructor.
Qed.
Lemma all_pass_lists {E A : Type} (f : A → ST Site E (list ReleaseCheck)) l :
  (∀ a, a ∈ l → answers fs (f a) (Forall passing)) →
  answers fs (st_mapM f l) (λ cs, Forall passing (concat cs)).
Proof.
  induction l as [|a l IH]; intros Hf; cbn [st_mapM]; [by apply answers_ret; constructor|].
  eapply answers_bind; [apply Hf; by left|intros c Hc].
  eapply answers_bind; [apply IH; intros; apply Hf; by right|intros cs Hcs]. apply answers_ret.
  cbn [concat]. by apply Forall_app.
Qed.

Lemma read_signature_run {HP : PrettyLaws} p signature s s' :
  fs_read p s = (Ok (as_bytes (to_string_pretty signature)), s') →
  read_signature p s = (Ok signature, s').
Proof.
  intros Hr. unfold read_signature. erewrite st_bind_ok by (apply try_ok; exact Hr).
  unfold to_string_pretty. rewrite pretty_round by (by apply (to_value_ok signature)).
  cbn [mbind option_bind]. by rewrite of_to_value.
Qed.
(** A signature that calls itself unsigned is not checked, whatever key the operator names. *)
Lemma stripped_signature_warns {HP : PrettyLaws} root pk signature :
  sig_mode signature = UNSIGNED →
  file_at fs (path_join root "artifact.sig") (as_bytes (to_string_pretty signature)) →
  answers fs (signature_checks root pk) (λ cs, cs = [check "artifact.sig:mode" "warn" UNSIGNED]).
Proof using Hdisk.
  intros Hmode Hsig. unfold signature_checks. cbv zeta.
  eapply answers_bind; [apply answers_exists|intros b ->].
  pose proof Hsig as (mode & ->). rewrite bool_decide_eq_true_2 by done. cbn [negb].
  eapply answers_bind; [apply (attempt_run _ signature)|intros r ->].
  - intros s <-. destruct (fs_read_run _ _ s Hsig) as (s' & Hr & Hs). exists s'. split; [|done].
    by apply read_signature_run.
  - rewrite Hmode. by apply answers_ret.
Qed.

Section signed.
Context {HC : CodecLaws} {HP : PrettyLaws} {HG : SigningLaws}.
Context (root : string) (pk : option string) (seed bytes : bytes) (pem : string) (now : Z)
  (m : ArtifactManifest).
Let signature := sign_manifest seed bytes (as_bytes pem) now.
Context (Hpem : to_public_key_pem (verifying_key seed) = Some pem)
  (Hm : ArtifactManifest_wf m) (Hb : canonical_json_bytes (to_value m) = Ok bytes)
  (Harts : Forall (artifact_ok fs) (man_artifacts m))
  (Hkey : file_at fs (public_key_file root pk) (as_bytes pem))
  (Hman : file_at fs (path_join root "artifacts.json") bytes)
  (Hsig : file_at fs (path_join root "artifact.sig") (as_bytes (to_string_pretty signature))).

Lemma signature_passes_result : signature_result m signature pem = Ok tt.
Proof using HC HG Hpem Hb.
  unfold signature_result. rewrite (public_key_round _ _ Hpem). simpl.
  unfold b64url_decode_no_padding, b64url_no_padding. rewrite base64_url_round. simpl.
  rewrite signature_round. simpl. change (obj (ArtifactManifest_fields m)) with (to_value m).
  rewrite Hb. simpl. by rewrite sign_verifies.
Qed.
Lemma canonical_manifest : bytes = json_to_vec (to_value m).
Proof using Hm Hb.
  pose proof (to_value_ok m Hm) as Hok. revert Hb. change (to_value m) with (obj (ArtifactManifest_fields m)).
  unfold obj. rewrite canonical_json_bytes_ok by exact Hok. by intros [=].
Qed.
Lemma keys_pass : answers fs (key_checks root m signature pk) (Forall passing).
Proof using All.
  unfold key_checks. cbv zeta. eapply answers_bind.
  { apply (attempt_run _ pem). intros s <-. apply read_to_string_run; [exact Hkey|]. by eapply public_key_text. }
  intros r ->. cbn [sig_public_key_sha256 sign_manifest signature]. unfold equal_status.
  rewrite String.eqb_refl. cbn [negb]. rewrite signature_passes_result. apply answers_ret.
  by repeat constructor.
Qed.
Lemma ed25519_passes : answers fs (verify_ed25519_signature root signature pk) (Forall passing).
Proof using All.
  unfold verify_ed25519_signature. eapply answers_bind; [by apply read_works|intros r ->].
  cbv zeta. rewrite canonical_manifest, json_round by (by apply (to_value_ok m)).
  cbn [mbind option_bind]. rewrite (of_to_value m Hm).
  eapply answers_bind.
  { apply all_pass. intros item Hi. apply artifact_passes. by eapply Forall_forall in Harts. }
  intros cs Hcs. eapply answers_bind; [apply keys_pass|intros ks Hks]. apply answers_ret.
  constructor; [|by apply Forall_app]. unfold passing, equal_status. cbn [rc_status check signature sign_manifest sig_manifest_sha256].
  by rewrite canonical_manifest, String.eqb_refl.
Qed.
Lemma signature_passes :
  answers fs (signature_checks root pk) (λ cs, Forall passing cs ∧ ed25519_check ∈ cs).
Proof using All.
  unfold signature_checks. cbv zeta. eapply answers_bind; [apply answers_exists|intros b ->].
  pose proof Hsig as (mode & Hmode). rewrite Hmode, bool_decide_eq_true_2 by done. cbn [negb].
  eapply answers_bind.
  { apply (attempt_run _ signature). intros s <-.
    destruct (fs_read_run _ _ s Hsig) as (s' & Hr & Hs). exists s'. split; [|done].
    by apply read_signature_run. }
  intros r ->. cbn [sig_mode signature sign_manifest].
  change (String.eqb "ed25519" UNSIGNED) with false. change (String.eqb "ed25519" "ed25519") with true.
  cbn beta iota. eapply answers_bind; [apply ed25519_passes|intros cs Hcs]. apply answers_ret.
  split; [by constructor|by left].
Qed.
End signed.
End working.

(** The evidence that [generate_release_evidence] leaves unsigned is not a [ReleaseSignature], so
    its verification fails to parse it and never comes to the warning for its mode. *)
Lemma unsigned_evidence_unreadable source_digest :
  of_value (unsigned_signature source_digest) = None :> option ReleaseSignature.
Proof. reflexivity. Qed.

(** The digest of a source tree does not separate its files: one file with a zero byte and a
    name in it is digested as two. *)
Lemma source_digest_ambiguous (a b : string) (x y : bytes) :
  concat [digest_entry a x; digest_entry b y] =
  concat [digest_entry a (x ++ [x00] ++ as_bytes b ++ [x00] ++ y)].
Proof. unfold digest_entry. cbn [concat]. by rewrite !app_nil_r, <-!(assoc_L (++)). Qed.

(** ** The whole verification *)

Lemma Forall2_elem_r {A B} (P : A → B → Prop) l k b :
  Forall2 P l k → b ∈ k → ∃ a, a ∈ l ∧ P a b.
Proof.
  intros Hl Hb. apply list_elem_of_lookup in Hb as [i Hb].
  destruct (Forall2_lookup_r _ _ _ _ _ Hl Hb) as (a & Ha & HP). exists a. split; [|done].
  by eapply list_elem_of_lookup_2.
Qed.
Lemma elem_of_concat {A} (x : A) ls : x ∈ concat ls → ∃ l, l ∈ ls ∧ x ∈ l.
Proof.
  induction ls as [|l ls IH]; cbn [concat]; [by intros ?%elem_of_nil|].
  intros [Hx|Hx]%elem_of_app; [exists l; by split; [left|]|].
  destruct (IH Hx) as (l' & ? & ?). exists l'. by split; [right|].
Qed.

Section whole.
Context {X : Ext} {HS : Host} {D : Disk} {G : Signing} {fs : Files}.

(** No other check has the name of the mode's. *)
Lemma ed25519_check_last root pk :
  answers fs (verify_release_evidence root pk) (λ v, ∃ files parsed signed,
    rv_passed v = forallb (λ c, negb (String.eqb (rc_status c) "fail")) (rv_checks v) ∧
    rv_checks v = files ++ concat parsed ++ signed ∧
    Forall2 (λ name c, rc_name c = name ∧ (passing c → name ≠ "artifacts.json" →
      is_Some (fs !! path_key (path_join root name)))) CHECKED_FILES files ∧
    (ed25519_check ∈ rv_checks v → ed25519_check ∈ signed) ∧
    (Forall passing signed → ed25519_check ∈ signed →
      ∃ signature, parsed_at fs (path_join root "artifact.sig") signature ∧
        sig_mode signature = "ed25519" ∧ manifest_ok fs root (public_key_file root pk) signature)).
Proof.
  unfold verify_release_evidence.
  eapply answers_bind; [apply answers_mapM, answers_file_check|intros files Hfiles].
  eapply answers_bind; [apply answers_mapM, answers_json_check|intros parsed Hparsed].
  eapply answers_bind; [apply answers_signature|intros signed Hsigned]. apply answers_ret.
  exists files, parsed, signed. cbn [rv_passed rv_checks]. do 2 (split; [done|]). split; [done|].
  split; [|done]. intros [Hm|[Hm|Hm]%elem_of_app]%elem_of_app; [exfalso..|done].
  - destruct (Forall2_elem_r _ _ _ _ Hfiles Hm) as (name & Hin & Hn & _). cbn in Hn. subst name.
    revert Hin. unfold CHECKED_FILES. set_solver.
  - apply elem_of_concat in Hm as (cs & Hcs & Hm).
    destruct (Forall2_elem_r _ _ _ _ Hparsed Hcs) as (name & Hin & Hn).
    eapply Forall_forall in Hn; [|exact Hm]. cbn in Hn. revert Hin Hn. unfold JSON_FILES.
    rewrite !elem_of_cons, elem_of_nil. by intros [->|[->|[->|[->|[->|[->|[->|[]]]]]]]].
Qed.
Lemma passed_checks checks :
  forallb (λ c, negb (String.eqb (rc_status c) "fail")) checks = true ↔ Forall passing checks.
Proof.
  rewrite forallb_forall, Forall_forall. unfold passing. split; intros Hp c Hc.
  - specialize (Hp c (proj1 (list_elem_of_In _ _) Hc)). by destruct (String.eqb_spec (rc_status c) "fail").
  - apply negb_true_iff, String.eqb_neq, Hp. by apply list_elem_of_In.
Qed.

Context (Hdisk : ∀ i, fs_fault i = false) {HC : CodecLaws} {HP : PrettyLaws} {HG : SigningLaws}.
Context (root : string) (pk : option string) (seed bytes : bytes) (pem : string) (now : Z)
  (m : ArtifactManifest).
Context (Hpem : to_public_key_pem (verifying_key seed) = Some pem)
  (Hm : ArtifactManifest_wf m) (Hb : canonical_json_bytes (to_value m) = Ok bytes)
  (Harts : Forall (artifact_ok fs) (man_artifacts m))
  (Hkey : file_at fs (public_key_file root pk) (as_bytes pem))
  (Hman : file_at fs (path_join root "artifacts.json") bytes)
  (Hsig : file_at fs (path_join root "artifact.sig")
            (as_bytes (to_string_pretty (sign_manifest seed bytes (as_bytes pem) now))))
  (Hev : ∀ name, name ∈ EVIDENCE_FILES → is_Some (fs !! path_key (path_join root name)))
  (Hj1 : json_at (fs:=fs) (path_join root "artifacts.json"))
  (Hj2 : json_at (fs:=fs) (path_join root "artifact.sig"))
  (Hj : ∀ name, name ∈ JSON_FILES → name ≠ "artifacts.json" → name ≠ "artifact.sig" →
    json_at (fs:=fs) (path_join root name)).
Lemma whole_passes :
  answers fs (verify_release_evidence root pk) (λ v, rv_passed v = true ∧ ed25519_check ∈ rv_checks v).
Proof using All.
  unfold verify_release_evidence. eapply answers_bind; [apply all_pass|intros files Hfiles].
  { intros name Hn. apply file_check_passes.
    destruct (decide (name = "artifacts.json")) as [->|]; [by destruct Hman as (mode & ->)|].
    destruct (decide (name = "artifact.sig")) as [->|]; [by destruct Hsig as (mode & ->)|].
    apply Hev. revert Hn. unfold CHECKED_FILES, EVIDENCE_FILES. set_solver. }
  eapply answers_bind; [apply all_pass_lists|intros parsed Hparsed].
  { intros name Hn. apply json_check_passes; [done|].
    destruct (decide (name = "artifacts.json")) as [->|]; [done|].
    destruct (decide (name = "artifact.sig")) as [->|]; [done|auto]. }
  eapply answers_bind; [by apply (signature_passes Hdisk root pk seed bytes pem now m)|].
  intros signed [Hsigned Hmode]. apply answers_ret. cbn [rv_passed rv_checks]. split.
  - by apply passed_checks, Forall_app; split; [|apply Forall_app].
  - apply elem_of_app. right. apply elem_of_app. by right.
Qed.
End whole.

(** ** Properties *)

(** C24: what a passing verification vouches for.  On any disk, whatever fails, verification
    returns a report and writes nothing.  When the report passes, the evidence is all there;
    when it also reports an Ed25519 signature, artifact.sig names a manifest whose bytes have
    the hash it states, the key file (the operator's, or the one beside the manifest) has the
    hash it states and holds a key under which the signature of the manifest's canonical form
    verifies, and every artifact of the manifest is a file with the hash and size listed. *)
Theorem verified_release_is_signed {X : Ext} {HS : Host} {D : Disk} {G : Signing} root pk s :
  ∃ v s', verify_release_evidence root pk s = (Ok v, s') ∧ site_files s' = site_files s ∧
    (rv_passed v = true →
      (∀ name, name ∈ CHECKED_FILES → name ≠ "artifacts.json" →
        is_Some (site_files s !! path_key (path_join root name))) ∧
      (ed25519_check ∈ rv_checks v → ∃ signature,
        parsed_at (site_files s) (path_join root "artifact.sig") signature ∧
        sig_mode signature = "ed25519" ∧
        manifest_ok (site_files s) root (public_key_file root pk) signature)).
Proof.
  destruct (ed25519_check_last (fs:=site_files s) root pk s eq_refl)
    as (v & s' & Hrun & Hs & files & parsed & signed & Hp & Hc & Hf & Hm & Hsig).
  exists v, s'. split; [done|]. split; [done|]. rewrite Hp. intros Hall%passed_checks.
  rewrite Hc in Hall. apply Forall_app in Hall as [Hpf [_ Hps]%Forall_app]. split; [|auto].
  intros name Hin Hne. apply list_elem_of_lookup in Hin as [i Hi].
  destruct (Forall2_lookup_l _ _ _ _ _ Hf Hi) as (c & Hci & _ & Hc'). apply Hc'; [|done].
  by eapply Forall_lookup_1 in Hpf.
Qed.

(** C25: what is signed verifies.  On a disk that works, when signing succeeds over evidence
    whose JSON files parse, verification with the same key file passes and reports the Ed25519
    signature.  The files signing writes are none of those it signs, no path has a backslash
    (it would be listed as a slash), and what it printed is UTF-8. *)
Theorem signed_release_verifies {X : Ext} {HS : Host} {D : Disk} {G : Signing} {HC : CodecLaws}
    {HP : PrettyLaws} {HG : SigningLaws} dir arts private pk pass version s m sig s' :
  (∀ i, fs_fault i = false) →
  sign_release_artifacts dir arts private pk pass version s = (Ok (m, sig), s') →
  NoDup (outputs dir pk) →
  (∀ p, p ∈ (path_join dir <$> EVIDENCE_FILES) ++ arts →
    (path_key p ∉ outputs dir pk) ∧ replace "\" "/" p = p) →
  (∀ name, name ∈ JSON_FILES → name ≠ "artifacts.json" → name ≠ "artifact.sig" →
    json_at (fs:=site_files s) (path_join dir name)) →
  ArtifactManifest_wf m → is_text (to_string m) → is_text (to_string_pretty sig) →
  ∃ v s'', verify_release_evidence dir pk s' = (Ok v, s'') ∧ site_files s'' = site_files s' ∧
    rv_passed v = true ∧ ed25519_check ∈ rv_checks v.
Proof.
  intros Hdisk Hrun Hnd Hpaths Hjson Hwf Htm Hts.
  destruct (sign_inv _ _ _ _ _ _ _ _ _ _ Hrun Hnd) as (seed & pem & bytes & now & fs & Hu & Hpem &
    Hb & -> & _ & [Hfiles Hlist] & Hlast & Hkey & Hman & Hsig).
  pose proof (canonical_manifest bytes m Hwf Hb) as Hbytes.
  assert (∀ p data, p ∈ (path_join dir <$> EVIDENCE_FILES) ++ arts → file_at fs p data →
    file_at (site_files s') p data) as Hkept.
  { intros p data Hp (mode & Hf). exists mode. apply Hlast; [by apply Hpaths|done]. }
  assert (Forall (artifact_ok (site_files s')) (man_artifacts m)) as Harts.
  { eapply Forall_impl; [exact Hlist|]. intros e (p & data & Hp & Hf & He & Hh & Hl). exists data.
    rewrite He, (proj2 (Hpaths p Hp)). auto. }
  assert (∀ name, name ∈ EVIDENCE_FILES → path_join dir name ∈ (path_join dir <$> EVIDENCE_FILES) ++ arts) as Hin
    by (intros name Hn; apply elem_of_app; left; by apply list_elem_of_fmap_2).
  refine (whole_passes Hdisk dir pk seed bytes pem now m Hpem Hwf Hb Harts Hkey Hman Hsig _ _ _ _ s' eq_refl).
  - intros name Hn. eapply Forall_forall in Hfiles as (data & Hd); [|by apply Hin].
    apply (Hkept _ _ (Hin _ Hn)) in Hd as (mode & ->). done.
  - exists (to_string m), (to_value m). unfold to_string, json_to_string in *.
    rewrite String.list_byte_of_string_of_list_byte, <-Hbytes in *.
    split; [done|]. split; [done|]. rewrite Hbytes. by apply json_round, (to_value_ok m).
  - eexists _, _. split; [exact Hsig|]. split; [exact Hts|]. unfold to_string_pretty. by apply pretty_round, (to_value_ok (sign_manifest _ _ _ _)).
  - intros name Hn Hne1 Hne2. destruct (Hjson name Hn Hne1 Hne2) as (text & v & (mode & Hf) & Ht & Hv).
    exists text, v. split; [|done]. exists mode. apply Hu; [|done]. apply Hpaths, Hin.
    revert Hn. unfold JSON_FILES, EVIDENCE_FILES. set_solver.
Qed.

(** A release of a source tree of one file: its evidence, a key pair, and the signature. *)
Definition release_files : Files :=
  <[["/"; "srv"; "src"] := Dir 493]> (<[["/"; "srv"; "src"; "hbse"] := File 493 (as_bytes "binary")]>
    sample_files).
Definition prepared : ST Site ReleaseError ReleaseKeygenResult :=
  _ ← generate_release_evidence "/srv/release" "/srv/src" "0.1.0";
  generate_signing_keypair "/srv/keys/private.pem" "/srv/keys/public.pem" None.
Definition release_site : Site := (prepared (set_files release_files sample_site)).2.
Definition signed_release : res ReleaseError (ArtifactManifest * ReleaseSignature) * Site :=
  sign_release_artifacts "/srv/release" ["/srv/src/hbse"] "/srv/keys/private.pem"
    (Some "/srv/keys/public.pem") None "0.1.0" release_site.

Definition json_atb (fs : Files) (p : string) : bool :=
  match fs !! path_key p with
  | Some (File _ data) => bool_decide (is_text (of_bytes data)) && bool_decide (is_Some (json_from_slice data))
  | _ => false
  end.
Lemma json_atb_ok fs p : json_atb fs p = true → json_at (fs:=fs) p.
Proof.
  unfold json_atb. destruct (fs !! path_key p) as [[mode data| |]|] eqn:Hp; try done.
  intros [Ht%bool_decide_eq_true [v Hv]%bool_decide_eq_true]%andb_true_iff.
  exists (of_bytes data), v. rewrite String.list_byte_of_string_of_list_byte. split; [by exists mode|done].
Qed.
Definition signed_ok (r : res ReleaseError (ArtifactManifest * ReleaseSignature)) : bool :=
  match r with
  | Ok (m, sig) =>
      forallb (λ a, (0 <=? art_size a) && (art_size a <=? u64_max)) (man_artifacts m) &&
      bool_decide (is_text (to_string m)) && bool_decide (is_text (to_string_pretty sig))
  | _ => false
  end.
Lemma sample_signed_ok : signed_ok signed_release.1 = true.
Proof. vm_compute. reflexivity. Qed.
Lemma sample_signed : ∃ m sig, signed_release = (Ok (m, sig), signed_release.2) ∧
  ArtifactManifest_wf m ∧ is_text (to_string m) ∧ is_text (to_string_pretty sig).
Proof.
  pose proof sample_signed_ok as Hok. destruct signed_release as [[[m sig]|e|] s]; [|done..].
  exists m, sig. split; [done|]. cbn [signed_ok fst] in Hok. apply andb_true_iff in Hok as [Hok Hs%bool_decide_eq_true].
  apply andb_true_iff in Hok as [Hok Hm%bool_decide_eq_true]. split; [|done].
  apply Forall_forall. intros a Ha. rewrite forallb_forall in Hok.
  specialize (Hok a (proj1 (list_elem_of_In _ _) Ha)). unfold ArtifactEntry_wf. lia.
Qed.
Lemma sample_evidence :
  forallb (json_atb (site_files release_site))
    (path_join "/srv/release" <$> ["sbom.json"; "provenance.json"; "production_checklist.json";
      "dependency-lock.json"; "openapi.json"]) = true.
Proof. vm_compute. reflexivity. Qed.
Lemma sample_outputs :
  forallb (λ p, bool_decide (path_key p ∉ outputs "/srv/release" (Some "/srv/keys/public.pem")) &&
      bool_decide (replace "\" "/" p = p))
    ((path_join "/srv/release" <$> EVIDENCE_FILES) ++ ["/srv/src/hbse"]) = true.
Proof. vm_compute. reflexivity. Qed.

Lemma signed_release_verifies_witness : ∃ m sig v s'',
  signed_release = (Ok (m, sig), signed_release.2) ∧
  verify_release_evidence "/srv/release" (Some "/srv/keys/public.pem") signed_release.2 = (Ok v, s'') ∧
  rv_passed v = true ∧ ed25519_check ∈ rv_checks v.
Proof.
  destruct sample_signed as (m & sig & Hrun & Hwf & Hm & Hs).
  destruct (signed_release_verifies "/srv/release" ["/srv/src/hbse"] "/srv/keys/private.pem"
    (Some "/srv/keys/public.pem") None "0.1.0" release_site m sig signed_release.2)
    as (v & s'' & Hv & _ & Hp & Hmode).
  - done.
  - exact Hrun.
  - apply (bool_decide_eq_true_1 (NoDup _)). vm_compute. reflexivity.
  - intros p Hp. pose proof sample_outputs as Ho. rewrite forallb_forall in Ho.
    specialize (Ho p (proj1 (list_elem_of_In _ _) Hp)). apply andb_true_iff in Ho as [H1 H2].
    split; [exact (bool_decide_eq_true_1 _ H1)|exact (bool_decide_eq_true_1 _ H2)].
  - intros name Hn H1 H2. pose proof sample_evidence as He. rewrite forallb_forall in He.
    apply json_atb_ok, He, list_elem_of_In, list_elem_of_fmap_2.
    clear -Hn H1 H2. unfold JSON_FILES in Hn. repeat (apply elem_of_cons in Hn as [->|Hn]; [first [done|by repeat constructor]|]).
    by apply elem_of_nil in Hn.
  - exact Hwf.
  - exact Hm.
  - exact Hs.
  - exists m, sig, v, s''. exact (conj Hrun (conj Hv (conj Hp Hmode))).
Defined.
