(* ===== verification/Typing.v ===== *)
(** * The types of the documents that are read (serde over records.rs, policy.rs, tickets.rs, mfa.rs,
    provider.rs, backup.rs, release.rs)

    A document is read from JSON that anyone may have written.  What is read is a value of the Rust
    type: every number of it fits its width, at every depth, so it is also written and read back as
    itself.  A policy needs one thing more, which its type does not give: a date that RFC 3339
    prints with a year of four digits. *)

From S2P Require Export Policy Records Tickets Mfa Provider Backup Release.
From S2P Require Import Toy.
#[local] Open Scope Z_scope.

(** A reader of [A] gives values within [wf], where [guard] holds of them, and reads back what is
    written of them. *)
Definition reads_typed {A} `{Serde A} (guard wf : A → Prop) : Prop :=
  ∀ v a, of_value v = Some a → guard a → wf a ∧ of_value (to_value a) = Some a.
Definition unguarded {A : Type} : A → Prop := λ _, True.

Lemma reads_typed_intro {A} `{HL : SerdeLaws A wf} (guard : A → Prop) :
  (∀ v a, of_value v = Some a → guard a → wf a) → reads_typed guard wf.
Proof. intros Hw v a Hv Hg. split; [by eapply Hw|]. apply of_to_value. by eapply Hw. Qed.

(** ** Lemmas on the readers of a field *)

Lemma de_u64_range v n : de_u64 v = Some n → 0 <= n <= u64_max.
Proof.
  unfold de_u64. intros (k & _ & Hk)%bind_Some. destruct (_ && _) eqn:Hb; [|done].
  injection Hk as <-. apply andb_true_iff in Hb as [?%Z.leb_le ?%Z.leb_le]. lia.
Qed.
Lemma de_u32_range v n : de_u32 v = Some n → 0 <= n <= u32_max.
Proof.
  unfold de_u32. intros (k & _ & Hk)%bind_Some. destruct (_ && _) eqn:Hb; [|done].
  injection Hk as <-. apply andb_true_iff in Hb as [?%Z.leb_le ?%Z.leb_le]. lia.
Qed.
Lemma de_list_Forall {A} (f : json → option A) (P : A → Prop) v l :
  (∀ v a, f v = Some a → P a) → de_list f v = Some l → Forall P l.
Proof.
  intros Hf. destruct v; try done. simpl. intros Hl. apply mapM_Some in Hl.
  induction Hl; constructor; eauto.
Qed.

Lemma field_range {A} k (f : json → option A) (P : A → Prop) m a :
  (∀ v a, f v = Some a → P a) → field k f m = Some a → P a.
Proof. unfold field. intros Hf (v & _ & Hv)%bind_Some. eauto. Qed.
Lemma field_or_range {A} k (f : json → option A) (P : A → Prop) d m a :
  (∀ v a, f v = Some a → P a) → P d → field_or k f d m = Some a → P a.
Proof. unfold field_or. intros Hf Hd. destruct (oget k m); [eauto|by intros [= <-]]. Qed.
Lemma field_opt_range {A} k (f : json → option A) (P : A → Prop) m o a :
  (∀ v a, f v = Some a → P a) → field_opt k f m = Some o → o = Some a → P a.
Proof.
  unfold field_opt. intros Hf Ho ->. destruct (oget k m) as [[]|]; simplify_option_eq; eauto.
Qed.

(** The fields of the documents, by the width of what they hold. *)
Definition u64_range (n : Z) : Prop := 0 <= n <= u64_max.
Definition u32_range (n : Z) : Prop := 0 <= n <= u32_max.
Lemma field_u64 k m n : field k de_u64 m = Some n → u64_range n.
Proof. apply field_range, de_u64_range. Qed.
Lemma field_u32 k m n : field k de_u32 m = Some n → u32_range n.
Proof. apply field_range, de_u32_range. Qed.
Lemma small_range n : 0 <= n <= 65535 → u64_range n ∧ u32_range n.
Proof. unfold u64_range, u32_range, u64_max, u32_max. lia. Qed.
Lemma field_or_u64 k d m n : field_or k de_u64 d m = Some n → 0 <= d <= 65535 → u64_range n.
Proof. intros Hn Hd%small_range. revert Hn. apply field_or_range; [apply de_u64_range|apply Hd]. Qed.
Lemma field_or_u32 k d m n : field_or k de_u32 d m = Some n → 0 <= d <= 65535 → u32_range n.
Proof. intros Hn Hd%small_range. revert Hn. apply field_or_range; [apply de_u32_range|apply Hd]. Qed.
Lemma field_opt_u64 k m o : field_opt k de_u64 m = Some o → ∀ n, o = Some n → u64_range n.
Proof. intros Ho n. by eapply field_opt_range; [apply de_u64_range|]. Qed.
Lemma field_opt_u32 k m o : field_opt k de_u32 m = Some o → ∀ n, o = Some n → u32_range n.
Proof. intros Ho n. by eapply field_opt_range; [apply de_u32_range|]. Qed.
Lemma field_or_u32s k m l : field_or k (de_list de_u32) [] m = Some l → Forall u32_range l.
Proof. apply field_or_range; [|constructor]. intros v l'. apply de_list_Forall, de_u32_range. Qed.

(** A document is read field by field: the equations of the fields, and the value they make. *)
Tactic Notation "reads" hyp(H) reference(reader) :=
  cbn in H; apply bind_Some in H as (? & _ & H); unfold reader in H;
  repeat (let Hf := fresh "Hfield" in apply bind_Some in H as (? & Hf & H));
  injection H as <-.
(** What its equation says of the width of a field. *)
Ltac widths :=
  repeat match goal with
  | H : field _ de_u64 _ = Some _ |- _ => apply field_u64 in H
  | H : field _ de_u32 _ = Some _ |- _ => apply field_u32 in H
  | H : field_or _ de_u64 _ _ = Some _ |- _ => apply field_or_u64 in H; [|by vm_compute]
  | H : field_or _ de_u32 _ _ = Some _ |- _ => apply field_or_u32 in H; [|by vm_compute]
  | H : field_opt _ de_u64 _ = Some _ |- _ => pose proof (field_opt_u64 _ _ _ H); clear H
  | H : field_opt _ de_u32 _ = Some _ |- _ => pose proof (field_opt_u32 _ _ _ H); clear H
  | H : field_or _ (de_list de_u32) _ _ = Some _ |- _ => apply field_or_u32s in H
  end; cbn; assumption.

(** ** The documents *)

Lemma ScryptParams_read v (p : ScryptParams) : of_value v = Some p → ScryptParams_wf p.
Proof. intros H. reads H ScryptParams_of_object. split; widths. Qed.
Lemma PassphraseProviderBinding_read v (b : PassphraseProviderBinding) :
  of_value v = Some b → PassphraseProviderBinding_wf b.
Proof.
  intros H. reads H PassphraseProviderBinding_of_object.
  unfold PassphraseProviderBinding_wf. cbn. by eapply field_range; [apply ScryptParams_read|].
Qed.
Lemma TotpConfig_read v (c : TotpConfig) : of_value v = Some c → TotpConfig_wf c.
Proof. intros H. reads H TotpConfig_of_object. split; widths. Qed.
Lemma SecretRecord_read v (r : SecretRecord) : of_value v = Some r → SecretRecord_wf r.
Proof. intros H. reads H SecretRecord_of_object. unfold SecretRecord_wf. widths. Qed.
Lemma RotationJob_read v (j : RotationJob) : of_value v = Some j → RotationJob_wf j.
Proof.
  intros H. reads H RotationJob_of_object. split; [widths|]. cbn.
  by eapply field_range; [apply SecretRecord_read|].
Qed.
Lemma SecretAccessTicket_read v (t : SecretAccessTicket) : of_value v = Some t → SecretAccessTicket_wf t.
Proof. intros H. reads H SecretAccessTicket_of_object. split; widths. Qed.
Lemma AccessPolicy_read `{Ext} v (p : AccessPolicy) :
  of_value v = Some p → (∀ t, pol_expires_at p = Some t → four_digit_year t) → AccessPolicy_wf p.
Proof. intros Hv Hd. reads Hv AccessPolicy_of_object. split; try exact Hd; widths. Qed.
Lemma BackupManifest_read v (m : BackupManifest) : of_value v = Some m → BackupManifest_wf m.
Proof. intros H. reads H BackupManifest_of_object. unfold BackupManifest_wf. widths. Qed.
Lemma ArtifactEntry_read v (a : ArtifactEntry) : of_value v = Some a → ArtifactEntry_wf a.
Proof. intros H. reads H ArtifactEntry_of_object. unfold ArtifactEntry_wf. widths. Qed.
Lemma ArtifactManifest_read v (m : ArtifactManifest) : of_value v = Some m → ArtifactManifest_wf m.
Proof.
  intros H. reads H ArtifactManifest_of_object. unfold ArtifactManifest_wf. cbn.
  eapply field_range; [|eassumption]. intros w l. apply de_list_Forall, ArtifactEntry_read.
Qed.

(** C38: what is read is of its type. A secret record, a rotation job, a ticket, a pass phrase
    binding, a manifest of a backup or of a release, and a policy whose date has a year of four
    digits: whatever JSON such a document is read from, every number of it, those of the documents
    within it too, is in the range of its field's type, and what is written of it reads back as
    itself. The digits and the period of a one-time password are in range in the same way. *)
Theorem documents_are_typed {X : Ext} {HT : ChronoLaws} :
  reads_typed unguarded SecretRecord_wf ∧ reads_typed unguarded RotationJob_wf ∧
  reads_typed unguarded SecretAccessTicket_wf ∧ reads_typed unguarded PassphraseProviderBinding_wf ∧
  reads_typed unguarded BackupManifest_wf ∧ reads_typed unguarded ArtifactManifest_wf ∧
  reads_typed (λ p, ∀ t, pol_expires_at p = Some t → four_digit_year t) AccessPolicy_wf ∧
  (∀ v (c : TotpConfig), of_value v = Some c → TotpConfig_wf c).
Proof.
  split_and!; try (apply reads_typed_intro; intros v a Hv Hg).
  - by eapply SecretRecord_read.
  - by eapply RotationJob_read.
  - by eapply SecretAccessTicket_read.
  - by eapply PassphraseProviderBinding_read.
  - by eapply BackupManifest_read.
  - by eapply ArtifactManifest_read.
  - by eapply AccessPolicy_read.
  - intros v c Hv. by eapply TotpConfig_read.
Qed.

Definition sample_totp_json : json := obj [
  ("secret_base32", JStr "JBSWY3DPEHPK3PXP"); ("issuer", JStr "HBSE"); ("account", JStr "alice");
  ("algorithm", JStr "SHA1"); ("digits", ser_u64 6); ("period_seconds", ser_u64 30) ].
Definition sample_manifest_json : json := obj [
  ("format_version", ser_u64 1); ("created_at", JStr "now"); ("vault_id", JStr "v");
  ("database_sha256", JStr "h") ].
Lemma documents_are_typed_witness :
  (∃ c : TotpConfig, of_value sample_totp_json = Some c ∧ TotpConfig_wf c) ∧
  (∃ m : BackupManifest, of_value sample_manifest_json = Some m ∧ of_value (to_value m) = Some m).
Proof.
  destruct documents_are_typed as (_ & _ & _ & _ & Hm & _ & _ & Hc). split.
  - eexists. split; [reflexivity|]. apply (Hc sample_totp_json). reflexivity.
  - eexists. split; [reflexivity|]. apply (Hm sample_manifest_json); reflexivity.
Defined.
