(* ===== verification/Dotenv.v ===== *)
(** * Environment files (dotenv.rs)

    Scanning a file for references to secrets and for what looks like a raw secret, parsing it
    into a map from names to values, and telling the references from the plain values.  What
    is written in the quoted form is read back as it was, whatever the value. *)

From S2P Require Export Host World.
From S2P Require Import Toy.
#[local] Open Scope Z_scope.

Inductive DotenvError : Type := DotenvIo | DotenvRegex.

Record DotenvFinding : Type := {
  finding_line : Z;
  finding_kind : string;
  finding_key : option string;
  finding_detail : string;
}.

Definition finding_to_value (f : DotenvFinding) : json := obj [
  ("line", ser_u64 (finding_line f)); ("kind", JStr (finding_kind f));
  ("key", ser_opt JStr (finding_key f)); ("detail", JStr (finding_detail f)) ].

Definition DOUBLE_QUOTE : string := str_of_codes [34]%N.
Definition SINGLE_QUOTE : string := "'".

Definition dotenv_key (line : string) : option string :=
  match split_once "=" line with
  | Some (key, _) => let key := trim key in if is_empty key then None else Some key
  | None => None
  end.

(** [strip_prefix(q).and_then(|v| v.strip_suffix(q))]. *)
Definition within (quote value : string) : option string :=
  value ← Text.strip_prefix quote value; Text.strip_suffix quote value.
Definition unquote (value : string) : string :=
  match within DOUBLE_QUOTE value with
  | Some value => value
  | None => default value (within SINGLE_QUOTE value)
  end.

(** A line that is blank or a comment, once trimmed. *)
Definition skipped (stripped : string) : bool := is_empty stripped || starts_with stripped "#".

Definition parse_line (line : string) : option (string * string) :=
  let stripped := trim line in
  if skipped stripped || negb (contains stripped "=") then None else
  '(key, value) ← split_once "=" stripped;
  let key := trim key in
  if is_empty key then None else Some (key, unquote (trim value)).

Definition parse_lines (text : list string) : omap string string :=
  fold_left (λ values line, match parse_line line with
                            | Some (key, value) => oput key value values
                            | None => values
                            end) text [].

Section dotenv.
Context `{Ext, Host}.
Abbreviation DOTENV := (ST World DotenvError).

(** [fs::read_to_string(path)?]. *)
Definition read_dotenv (path : string) : DOTENV string :=
  text ← query (λ i, read_file i path);
  lift (ok_or DotenvIo text).

Definition scan_line (line_no : Z) (line : string) : list DotenvFinding :=
  let stripped := trim line in
  if skipped stripped then [] else
  ((λ matched, {| finding_line := line_no; finding_kind := "secret_ref";
                  finding_key := dotenv_key stripped; finding_detail := matched |})
     <$> regex_find_iter SECRET_REF_PATTERN stripped) ++
  match regex_captures LIKELY_SECRET_PATTERN stripped with
  | Some captures =>
      if contains stripped "secret://" then [] else
      [ {| finding_line := line_no; finding_kind := "likely_raw_secret";
           finding_key := match dotenv_key stripped with
                          | Some key => Some key
                          | None => nth 1 captures None
                          end;
           finding_detail := "dotenv value looks like raw secret material" |} ]
  | None => []
  end.

Fixpoint scan_lines (line_no : Z) (text : list string) : list DotenvFinding :=
  match text with
  | [] => []
  | line :: text => scan_line line_no line ++ scan_lines (line_no + 1) text
  end.

Definition scan_dotenv (path : string) : DOTENV (list DotenvFinding) :=
  text ← read_dotenv path;
  mret (scan_lines 1 (lines text)).

Definition parse_dotenv (path : string) : DOTENV (omap string string) :=
  text ← read_dotenv path;
  mret (parse_lines (lines text)).

(** The two maps, plain values and references, filled in the order of the names. *)
Definition split_dotenv_values (values : omap string string)
  : omap string string * omap string string :=
  fold_left (λ '(plain, refs) '(key, value),
    if regex_is_match SECRET_REF_ANCHORED value
    then (plain, oput key value refs) else (oput key value plain, refs)) values ([], []).
End dotenv.

(** ** Writing and reading back *)

(** The quoted form of an assignment, and of a whole file. *)
Definition render_line (kv : string * string) : string :=
  (kv.1 +:+ "='" +:+ kv.2 +:+ "'")%string.
Definition render (values : omap string string) : string :=
  concat_str ((λ kv, render_line kv +:+ String LF "")%string <$> values).

(** A name an environment variable may have. *)
Definition name_char (a : ascii) : bool := ascii_is_alnum a || Ascii.eqb a "_".
Definition env_name (s : string) : bool := negb (is_empty s) && all_chars name_char s.

(** Any text of one line. *)
Definition one_line (s : string) : bool :=
  no_char LF s && match s with String a _ => negb (is_continuation a) | EmptyString => true end.

Lemma name_char_plain a :
  name_char a = true →
  is_continuation a = false ∧ is_whitespace (String a "") = false ∧
  Ascii.eqb a LF = false ∧ Ascii.eqb a "=" = false ∧ Ascii.eqb a "#" = false.
Proof. destruct a as [[] [] [] [] [] [] [] []]; vm_compute; intros; repeat split; congruence. Qed.

Lemma name_no_char a s :
  (∀ b, name_char b = true → Ascii.eqb b a = false) → all_chars name_char s = true →
  no_char a s = true.
Proof. intros Ha. apply all_chars_impl. intros b Hb. by rewrite (Ha b Hb). Qed.

(** A text ending in a quote, or a name, is not changed by trimming. *)
Lemma trim_ends s a b t :
  is_continuation a = false → is_whitespace (String a "") = false →
  chars (s +:+ String a "")%string = String b "" :: t → is_whitespace (String b "") = false →
  trim (s +:+ String a "")%string = (s +:+ String a "")%string.
Proof. intros Ha Hwa Hb Hwb. eapply trim_id; [exact Hb|done|by apply chars_snoc|done]. Qed.

Lemma env_name_inv k : env_name k = true →
  ∃ a s, k = String a s ∧ name_char a = true ∧ all_chars name_char s = true.
Proof.
  destruct k as [|a s]; [done|]. unfold env_name. cbn [is_empty negb all_chars andb].
  intros [? ?]%andb_true_iff. by exists a, s.
Qed.

Lemma name_is_ascii k : all_chars name_char k = true → all_chars is_ascii k = true.
Proof. apply all_chars_impl. intros a. destruct a as [[] [] [] [] [] [] [] []]; vm_compute; congruence. Qed.

Lemma trim_name k : env_name k = true → trim k = k.
Proof.
  intros (a & s & -> & Ha & Hs)%env_name_inv.
  assert (Hch : chars (String a s) = (λ a, String a EmptyString) <$> ascii_list (String a s)).
  { apply chars_ascii, name_is_ascii. simpl. by rewrite Ha, Hs. }
  destruct (exists_last (l := ascii_list (String a s))) as (l & b & Hl); [done|].
  assert (Hb : name_char b = true).
  { assert (Hall : Forall (λ b, name_char b = true) (ascii_list (String a s))).
    { clear Hch Hl. cbn [ascii_list]. constructor; [done|]. induction s as [|c s IH]; [constructor|].
      cbn [all_chars] in Hs. apply andb_true_iff in Hs as [Hc Hs]. constructor; auto. }
    rewrite Hl, Forall_app, Forall_singleton in Hall. apply Hall. }
  eapply (trim_id _ (String a "") _ (String b "")).
  - rewrite Hch. reflexivity.
  - by apply name_char_plain.
  - rewrite Hch, Hl, fmap_app. reflexivity.
  - by apply name_char_plain.
Qed.

Lemma within_quotes q v : within q (q +:+ v +:+ q)%string = Some v.
Proof. unfold within. rewrite strip_prefix_app. simpl. apply strip_suffix_app. Qed.

Lemma quote_char : is_continuation "'" = false ∧ is_whitespace "'" = false.
Proof. by split. Qed.

Lemma chars_quoted v : one_line v = true → ∃ t, chars ("'" +:+ v +:+ "'")%string = "'" :: t.
Proof.
  intros [_ Hv]%andb_true_iff. destruct v as [|a v]; [by eexists|].
  apply negb_true_iff in Hv. change ("'" +:+ String a v +:+ "'")%string with
    (String "'" (String a (v +:+ "'")))%string.
  rewrite chars_head by done. by eexists.
Qed.

Lemma unquote_quoted v : one_line v = true → unquote (trim ("'" +:+ v +:+ "'")%string) = v.
Proof.
  intros Hv. destruct (chars_quoted v Hv) as (t & Ht). rewrite <-str_app_assoc in Ht |- *.
  erewrite trim_ends; [|apply quote_char..|exact Ht|apply quote_char].
  rewrite str_app_assoc. unfold unquote. rewrite (within_quotes "'").
  change (within DOUBLE_QUOTE ("'" +:+ v +:+ "'")%string) with (@None string). done.
Qed.

Lemma chars_named k v : env_name k = true → ∃ b t,
  chars (k +:+ String "=" v)%string = String b "" :: t ∧ is_whitespace (String b "") = false.
Proof.
  intros (a & s & -> & Ha & Hs)%env_name_inv. exists a. rewrite str_app_cons.
  assert (∃ c u, (s +:+ String "=" v)%string = String c u ∧ is_continuation c = false) as (c & u & -> & Hc).
  { destruct s as [|c s]; [by eexists _, _|]. rewrite str_app_cons. eexists _, _. split; [done|].
    cbn [all_chars] in Hs. apply andb_true_iff in Hs as [Hc _]. by apply name_char_plain. }
  rewrite chars_head by done. eexists. split; [done|]. by apply name_char_plain.
Qed.

Lemma parse_render_line k v :
  env_name k = true → one_line v = true → parse_line (render_line (k, v)) = Some (k, v).
Proof.
  intros Hk Hv. pose proof (env_name_inv k Hk) as (a & s & Heq & Ha & Hs).
  pose proof (name_char_plain a Ha) as (Hac & Haw & _ & _ & Hash).
  assert (Hline : render_line (k, v) = (k +:+ String "=" ("'" +:+ v +:+ "'"))%string) by done.
  assert (Htrim : trim (render_line (k, v)) = render_line (k, v)).
  { unfold render_line. cbn [fst snd]. destruct (chars_named k ("'" +:+ v +:+ "'") Hk) as (b & t & Ht & Hb).
    assert (Hs' : (k +:+ "='" +:+ v +:+ "'" = (k +:+ "='" +:+ v) +:+ "'")%string) by (by rewrite !str_app_assoc).
    rewrite Hs'. eapply (trim_ends _ "'" b); [apply quote_char..| |done].
    rewrite <-Hs'. exact Ht. }
  unfold parse_line. cbv zeta. rewrite Htrim, Hline.
  assert (skipped (k +:+ String "=" ("'" +:+ v +:+ "'"))%string = false) as ->.
  { rewrite Heq, str_app_cons. unfold skipped, starts_with. cbn [is_empty orb String.prefix].
    destruct (ascii_dec "#" a) as [<-|]; [|done]. by rewrite Ascii.eqb_refl in Hash. }
  pose proof (contains_app "=" k ("'" +:+ v +:+ "'")%string) as Hc.
  change ("=" +:+ ("'" +:+ v +:+ "'"))%string with (String "=" ("'" +:+ v +:+ "'"))%string in Hc.
  rewrite Hc. cbn [orb negb]. rewrite split_once_char.
  2:{ unfold env_name in Hk. apply andb_true_iff in Hk as [_ Hk].
      eapply name_no_char; [|done]. intros b Hb. by apply name_char_plain. }
  cbn [mbind option_bind]. rewrite trim_name by done. rewrite Heq. cbn [is_empty]. rewrite <-Heq.
  by rewrite unquote_quoted.
Qed.

Lemma render_line_plain k v :
  env_name k = true → one_line v = true →
  no_char LF (render_line (k, v)) = true ∧ Text.strip_suffix (String CR "") (render_line (k, v)) = None.
Proof.
  intros Hk [Hv _]%andb_true_iff. unfold render_line. cbn [fst snd]. split.
  - unfold no_char in *. rewrite !all_chars_app, Hv. cbn [all_chars andb].
    apply andb_true_iff in Hk as [_ Hk].
    assert (all_chars (λ b, negb (Ascii.eqb b LF)) k = true) as ->; [|done].
    apply (name_no_char LF); [|done]. intros b Hb. by apply name_char_plain.
  - rewrite <-!str_app_assoc. by apply (strip_suffix_last CR "'").
Qed.

Definition entry_ok (kv : string * string) : Prop := env_name kv.1 = true ∧ one_line kv.2 = true.

Lemma lines_render values :
  Forall entry_ok values → lines (render values) = render_line <$> values.
Proof.
  unfold render. induction 1 as [|[k v] values [Hk Hv] _ IH]; [done|].
  rewrite !fmap_cons. cbn [concat_str foldr]. rewrite str_app_assoc.
  change (String LF "" +:+ ?t)%string with (String LF t).
  destruct (render_line_plain k v Hk Hv) as [Hl Hc].
  rewrite lines_cons by done. f_equal. exact IH.
Qed.

Lemma parse_lines_render values :
  Forall entry_ok values → parse_lines (render_line <$> values) = of_list values.
Proof.
  intros Hf. unfold parse_lines, of_list. generalize (@nil (string * string)).
  induction Hf as [|[k v] values [Hk Hv] _ IH]; intros acc; [done|].
  rewrite fmap_cons. cbn [fold_left]. rewrite parse_render_line by done. apply IH.
Qed.

(** ** References and plain values *)

Section split.
Context `{Host}.
Definition is_ref (kv : string * string) : bool := regex_is_match SECRET_REF_ANCHORED kv.2.

Lemma split_dotenv_go values plain refs :
  fold_left (λ '(plain, refs) '(key, value),
    if regex_is_match SECRET_REF_ANCHORED value
    then (plain, oput key value refs) else (oput key value plain, refs)) values (plain, refs) =
  (fold_left (λ m kv, oput kv.1 kv.2 m) (List.filter (λ kv, negb (is_ref kv)) values) plain,
   fold_left (λ m kv, oput kv.1 kv.2 m) (List.filter is_ref values) refs).
Proof.
  revert plain refs. induction values as [|[k v] values IH]; intros plain refs; [done|].
  cbn [fold_left List.filter]. change (is_ref (k, v)) with (regex_is_match SECRET_REF_ANCHORED v).
  destruct (regex_is_match SECRET_REF_ANCHORED v); cbn [negb]; by rewrite IH.
Qed.

Lemma osorted_filter {K V} `{OrdKey K} (p : K * V → bool) (m : omap K V) :
  osorted m → osorted (List.filter p m).
Proof.
  induction m as [|[k v] m IH]; simpl; [done|]. intros [Hf Hs].
  destruct (p (k, v)); simpl; [|auto]. split; [|auto].
  rewrite Forall_forall in *. intros kv Hin. apply Hf.
  rewrite list_elem_of_In, filter_In, <-list_elem_of_In in Hin. tauto.
Qed.

(** The two maps are the entries with and without a reference. *)
Lemma split_dotenv_filter values :
  osorted values →
  split_dotenv_values values =
    (List.filter (λ kv, negb (is_ref kv)) values, List.filter is_ref values).
Proof.
  intros Hs. unfold split_dotenv_values. rewrite split_dotenv_go.
  change (fold_left (λ m kv, oput kv.1 kv.2 m) ?l []) with (of_list l).
  by rewrite !of_list_sorted by (by apply osorted_filter).
Qed.
End split.

Lemma osorted_parse text : osorted (parse_lines text).
Proof.
  unfold parse_lines. assert (Hs : osorted ([] : omap string string)) by done. revert Hs.
  generalize (@nil (string * string)). induction text as [|l text IH]; intros m Hm; [done|].
  simpl. apply IH. destruct (parse_line l) as [[k v]|]; [by apply osorted_oput|done].
Qed.

(** A line that mentions a reference anywhere is never reported as a raw secret. *)
Lemma scan_mixed_line `{Host} n line f :
  contains (trim line) "secret://" = true → f ∈ scan_line n line → finding_kind f = "secret_ref".
Proof.
  intros Hc. unfold scan_line. cbv zeta. rewrite Hc. destruct (skipped _); [by intros ?%elem_of_nil|].
  destruct (regex_captures _ _); rewrite app_nil_r; intros (m & -> & _)%list_elem_of_fmap; done.
Qed.

(** C29: what is written in the quoted form is what is read. A file of lines NAME='value', one per
    entry of a map, in the order of its names, each name made of letters, digits and
    underscores, each value any text without a line feed (with quotes, hashes, equals signs or
    spaces in it), is parsed into exactly that map; and the map splits into the entries whose
    whole value is a reference to a secret and the others, none lost and none in both. *)
Theorem dotenv_reads_back `{X : Ext, HS : Host, !RegexLaws} path values w :
  osorted values → Forall entry_ok values → read_file (tick w) path = Some (render values) →
  parse_dotenv path w = (Ok values, {| tick := S (tick w); db := db w |}) ∧
  split_dotenv_values values =
    (List.filter (λ kv, negb (is_secret_ref kv.2)) values,
     List.filter (λ kv, is_secret_ref kv.2) values).
Proof.
  intros Hs Hf Hr. split.
  - unfold parse_dotenv, read_dotenv, query, mbind, st_bind, draw, mret, st_ret, lift. rewrite Hr.
    simpl. by rewrite lines_render, parse_lines_render, of_list_sorted.
  - rewrite split_dotenv_filter by done. unfold is_ref. f_equal; apply filter_ext; intros kv;
      by rewrite anchored_ref.
Qed.

Definition sample_values : omap string string :=
  [("APP_ENV", "it's #1 = dev"); ("TOKEN", "secret://default/api")].

Lemma dotenv_reads_back_witness :
  parse_dotenv "/home/alice/.env" {| tick := 0; db := empty_db |} =
    (Ok sample_values, {| tick := 1; db := empty_db |}) ∧
  split_dotenv_values sample_values =
    ([("APP_ENV", "it's #1 = dev")], [("TOKEN", "secret://default/api")]).
Proof.
  apply (dotenv_reads_back "/home/alice/.env" sample_values {| tick := 0; db := empty_db |}).
  - vm_compute. split; [repeat constructor|split; [constructor|exact I]].
  - repeat constructor.
  - reflexivity.
Defined.
