(* ===== verification/Systemd.v ===== *)
(** * The systemd units of the broker (systemd.rs)

    The text of the service and socket units, and their installation: the two files, and the
    systemctl commands that load, enable and start them. *)

From S2P Require Export Files Network.
From S2P Require Import Toy.
#[local] Open Scope Z_scope.

Inductive SystemdError : Type :=
| InvalidScope | SystemdIo | SystemctlFailed (command : list string).
#[export] Instance from_systemd_io : From IoError SystemdError := λ _, SystemdIo.

Record SystemdInstallResult : Type := {
  inst_scope : string;
  inst_unit_dir : string;
  inst_service_path : string;
  inst_socket_path : string;
  inst_service_name : string;
  inst_socket_name : string;
  inst_enabled : bool;
  inst_started : bool;
  inst_commands : list (list string);
}.
Definition ser_texts (l : list string) : json := JArr (JStr <$> l).
Definition SystemdInstallResult_fields (r : SystemdInstallResult) : list (string * json) :=
  [ ("scope", JStr (inst_scope r)); ("unit_dir", JStr (inst_unit_dir r));
    ("service_path", JStr (inst_service_path r)); ("socket_path", JStr (inst_socket_path r));
    ("service_name", JStr (inst_service_name r)); ("socket_name", JStr (inst_socket_name r));
    ("enabled", JBool (inst_enabled r)); ("started", JBool (inst_started r));
    ("commands", JArr (ser_texts <$> inst_commands r)) ].

Record BrokerServiceInstallOptions : Type := {
  opt_scope : string;
  opt_unit_dir : option string;
  opt_broker_executable : option string;
  opt_vault_path : string;
  opt_socket_path : option string;
  opt_idle_timeout_seconds : f64;
  opt_service_user : option string;
  opt_enable : bool;
  opt_start : bool;
  opt_dry_run : bool;
}.

(** ** Numbers

    [value.fract() == 0.0], and [{value:.0}] of such a value. *)
Definition f64_int (x : f64) : option (bool * Z) :=
  match x with
  | S754_zero s => Some (s, 0)
  | S754_finite s m e =>
      if 0 <=? e then Some (s, Zpos m * 2 ^ e)
      else if Zpos m mod 2 ^ (- e) =? 0 then Some (s, Zpos m / 2 ^ (- e)) else None
  | S754_infinity _ | S754_nan => None
  end.

Definition escape_env (value : string) : string := replace "%" "%%" value.

(** [rsplit_once('/')?.0]: up to the last separator. *)
Fixpoint before_last_slash (s : string) : option string :=
  match s with
  | EmptyString => None
  | String a s =>
      match before_last_slash s with
      | Some dir => Some (String a dir)
      | None => if Ascii.eqb a SLASH then Some EmptyString else None
      end
  end.
Definition parent_path (path : string) : option string :=
  if starts_with path "%t/" then
    dir ← before_last_slash path;
    Some (if is_empty dir then "%t" else dir)
  else parent path.
Example parent_path_examples :
  parent_path "%t/hbse/broker.sock" = Some "%t/hbse" ∧ parent_path "%t/x" = Some "%t" ∧
  parent_path "/run/hbse/broker.sock" = Some "/run/hbse" ∧ parent_path "vault.db" = Some "".
Proof. by vm_compute. Qed.

Definition is_scope (scope : string) : bool := String.eqb scope "user" || String.eqb scope "system".

(** ** The texts *)

Section texts.
(** [to_string] of a number that is not a whole one. *)
Context (f64_display : f64 → string).

Definition format_seconds (value : f64) : string :=
  match f64_int value with
  | Some (negative, n) => ((if negative : bool then "-" else "") +:+ dec n)%string
  | None => f64_display value
  end.

Definition write_paths (vault_path socket_path : string) : list string :=
  dedup_by String.eqb (sort_by klt (
    [ default "." (parent_path vault_path); default "%t/hbse" (parent_path socket_path) ] ++
    if starts_with socket_path "%t/" then ["%t/hbse"] else [])).

Definition scope_lines (scope vault_path socket_path : string) (service_user : option string)
  : list string :=
  if String.eqb scope "user" then
    [ "ProtectHome=read-only"; "RuntimeDirectory=hbse"; "RuntimeDirectoryMode=0700";
      "ReadWritePaths=" +:+ Text.join " " (write_paths vault_path socket_path) ]%string
  else
    match service_user with Some user => ["User=" +:+ user]%string | None => [] end ++
    [ "ProtectHome=true"; "StateDirectory=hbse"; "RuntimeDirectory=hbse";
      "RuntimeDirectoryMode=0700" ].

Definition service_lines (scope broker_executable vault_path socket_path : string)
  (idle_timeout_seconds : f64) (service_user : option string) : list string :=
  [ "[Unit]"; "Description=HBSE broker"; "After=network-online.target"; "";
    "[Service]"; "Type=simple"; "Environment=HBSE_VAULT_PATH=" +:+ escape_env vault_path;
    "ExecStart=" +:+ broker_executable +:+ " --vault " +:+ vault_path +:+ " --socket " +:+
      socket_path +:+ " --idle-timeout-seconds " +:+ format_seconds idle_timeout_seconds;
    "Restart=on-failure"; "RestartSec=2"; "NoNewPrivileges=true"; "PrivateTmp=true";
    "ProtectSystem=strict" ]%string ++
  scope_lines scope vault_path socket_path service_user ++
  [ "RestrictAddressFamilies=AF_UNIX AF_INET AF_INET6"; ""; "[Install]";
    if String.eqb scope "user" then "WantedBy=default.target" else "WantedBy=multi-user.target";
    "" ].
Definition join_lines (l : list string) : string := Text.join (String LF "") l.

Definition render_broker_service (scope broker_executable vault_path socket_path : string)
  (idle_timeout_seconds : f64) (service_user : option string) : res SystemdError string :=
  if negb (is_scope scope) then Err InvalidScope else
  Ok (join_lines (service_lines scope broker_executable vault_path socket_path
                    idle_timeout_seconds service_user)).

Definition render_broker_socket (scope socket_path : string) : res SystemdError string :=
  if negb (is_scope scope) then Err InvalidScope else
  Ok (join_lines
    [ "[Unit]"; "Description=HBSE broker socket"; ""; "[Socket]"; "ListenStream=" +:+ socket_path;
      "SocketMode=0600"; "DirectoryMode=0700"; ""; "[Install]"; "WantedBy=sockets.target"; "" ]%string).

(** ** The installation *)

Context `{Ext, Host, Disk}.
Abbreviation SYSTEMD := (ST Site SystemdError).

Definition home_dir : string := default "." (oget "HOME" environ).
Definition default_unit_dir (scope : string) : res SystemdError string :=
  if String.eqb scope "user"
  then Ok (path_join (default (path_join home_dir ".config") (oget "XDG_CONFIG_HOME" environ))
             "systemd/user")
  else if String.eqb scope "system" then Ok "/etc/systemd/system" else Err InvalidScope.
Definition default_socket_path (scope : string) : res SystemdError string :=
  if String.eqb scope "user" then Ok "%t/hbse/broker.sock"
  else if String.eqb scope "system" then Ok "/run/hbse/broker.sock" else Err InvalidScope.

Definition default_broker_executable : SYSTEMD string :=
  current ← ask exe_path;
  match current ≫= parent with
  | None => mret "hbse-broker"
  | Some parent =>
      let sibling := path_join parent "hbse-broker" in
      exists_ ← try_ (fs_exists sibling);
      mret (if exists_ : bool then sibling else "hbse-broker")
  end.

Definition systemctl (scope : string) (args : list string) : list string :=
  "systemctl" :: (if String.eqb scope "user" then ["--user"] else []) ++ args.
(** [Command::status], with the environment and the terminal of this process. *)
Definition run_systemctl (scope : string) (args : list string) (commands : list (list string))
  : SYSTEMD (list (list string)) :=
  let command := systemctl scope args in
  let child := {| ch_program := "systemctl"; ch_args := tail command; ch_env := environ;
                  ch_stdin := None; ch_files := []; ch_fds := [] |} in
  ended ← ask (λ i, run_child i child);
  match ended with
  | NotSpawned => throw SystemdIo
  | Spawned _ output =>
      _ ← record_child child;
      output ← lift (ok_or SystemdIo output);
      if bool_decide (output.1.1 = Some 0) then mret (commands ++ [command])
      else throw (SystemctlFailed command)
  end.

Definition SERVICE_NAME : string := "hbse-broker.service".
Definition SOCKET_NAME : string := "hbse-broker.socket".

(** What is done when it is not a dry run. *)
Definition install_units (o : BrokerServiceInstallOptions)
  (unit_dir service_path socket_unit_path service_text socket_text : string)
  : SYSTEMD (list (list string)) :=
  _ ← try_ (create_dir_all unit_dir);
  _ ← try_ (fs_write service_path (as_bytes service_text));
  _ ← try_ (fs_write socket_unit_path (as_bytes socket_text));
  commands ← run_systemctl (opt_scope o) ["daemon-reload"] [];
  commands ← (if opt_enable o
              then run_systemctl (opt_scope o) ["enable"; SOCKET_NAME; SERVICE_NAME] commands
              else mret commands);
  if opt_start o then run_systemctl (opt_scope o) ["start"; SERVICE_NAME] commands
  else mret commands.

(** The defaults are computed whether they are needed or not, so a bad scope is an error first. *)
Definition install_broker_service (o : BrokerServiceInstallOptions)
  : SYSTEMD SystemdInstallResult :=
  unit_dir ← lift (default_unit_dir (opt_scope o));
  let unit_dir := default unit_dir (opt_unit_dir o) in
  broker_executable ← match opt_broker_executable o with
                      | Some path => mret path
                      | None => default_broker_executable
                      end;
  socket_path ← lift (default_socket_path (opt_scope o));
  let socket_path := default socket_path (opt_socket_path o) in
  service_text ← lift (render_broker_service (opt_scope o) broker_executable (opt_vault_path o)
                         socket_path (opt_idle_timeout_seconds o) (opt_service_user o));
  socket_text ← lift (render_broker_socket (opt_scope o) socket_path);
  let service_path := path_join unit_dir SERVICE_NAME in
  let socket_unit_path := path_join unit_dir SOCKET_NAME in
  commands ← (if opt_dry_run o then mret []
              else install_units o unit_dir service_path socket_unit_path service_text socket_text);
  mret {| inst_scope := opt_scope o; inst_unit_dir := unit_dir; inst_service_path := service_path;
          inst_socket_path := socket_unit_path; inst_service_name := SERVICE_NAME;
          inst_socket_name := SOCKET_NAME; inst_enabled := opt_enable o && negb (opt_dry_run o);
          inst_started := opt_start o && negb (opt_dry_run o); inst_commands := commands |}.
End texts.
