(* ===== verification/SystemdSpec.v ===== *)
(** * What the installation of the units does (systemd.rs)

    A dry run and a refused scope do nothing; an installation writes the two rendered units and runs
    the commands it reports, in their order; and whatever becomes of it, nothing that was there is
    changed but the two units. *)

From S2P Require Export Systemd.
From S2P Require Import Toy.
#[local] Open Scope Z_scope.

(** ** The contract *)

(** The commands of an installation, and each as the process that is started. *)
Definition unit_commands (o : BrokerServiceInstallOptions) : list (list string) :=
  if opt_dry_run o then [] else
  [systemctl (opt_scope o) ["daemon-reload"]] ++
  (if opt_enable o then [systemctl (opt_scope o) ["enable"; SOCKET_NAME; SERVICE_NAME]] else []) ++
  (if opt_start o then [systemctl (opt_scope o) ["start"; SERVICE_NAME]] else []).
Definition command_child `{Ext, Host} (command : list string) : Child := {|
  ch_program := "systemctl"; ch_args := tail command; ch_env := environ; ch_stdin := None;
  ch_files := []; ch_fds := [] |}.

(** Whether nothing is to be done. *)
Definition idle (o : BrokerServiceInstallOptions) : bool :=
  opt_dry_run o || negb (is_scope (opt_scope o)).
Definition unit_dir_of `{Ext, Host} (o : BrokerServiceInstallOptions) : string :=
  default (match default_unit_dir (opt_scope o) with Ok dir => dir | _ => "" end) (opt_unit_dir o).
Definition is_unit `{Ext, Host} (o : BrokerServiceInstallOptions) (k : list string) : Prop :=
  k = path_key (path_join (unit_dir_of o) SERVICE_NAME) ∨
  k = path_key (path_join (unit_dir_of o) SOCKET_NAME).

(** What was at a path stays there; and no process was started. *)
Definition still_at (k : list string) (s s' : Site) : Prop :=
  ∀ n, site_files s !! k = Some n → site_files s' !! k = Some n.
#[export] Instance still_at_preorder k : PreOrder (still_at k).
Proof. split; [by intros s n|intros s1 s2 s3 H1 H2 n Hn; auto]. Qed.

(** ** Lemmas: paths *)

(** A name in a directory: also of the empty path, of the root and of one that ends in a slash. *)
Lemma path_key_join d n :
  no_char SLASH n = true → part_ok n = true → path_key (path_join d n) = path_key d ++ [n].
Proof.
  intros Hn Hok. assert (starts_with n "/" = false) as Hs.
  { destruct n as [|a n]; [done|]. unfold no_char in Hn. cbn [all_chars] in Hn.
    apply andb_true_iff in Hn as [Ha _]. unfold starts_with. cbn [String.prefix].
    by destruct (ascii_dec "/" a) as [<-|]. }
  unfold path_join. rewrite Hs. destruct (is_empty d || ends_with d "/") eqn:Hd.
  - apply path_key_in; [done..|]. apply orb_true_iff in Hd as [Hd|Hd]; [left; by destruct d|right].
    unfold ends_with in Hd. destruct (Text.strip_suffix "/" d) as [t|] eqn:Ht.
    + exists t. by apply strip_suffix_Some in Ht.
    + unfold Text.strip_suffix, Text.strip_prefix in Ht. by rewrite Hd in Ht.
  - apply orb_false_iff in Hd as [Hd _]. change (d +:+ "/" +:+ n)%string with (d +:+ (String SLASH "" +:+ n))%string.
    rewrite <-str_app_assoc, path_key_in; [|done..|right; by exists d].
    f_equal. destruct d as [|a d]; [done|]. rewrite !path_key_parts, parts_app.
    change (parts "") with (@nil string). by rewrite app_nil_r, starts_with_app.
Qed.

(** ** Lemmas: what a step leaves alone *)

Section steps.
Context `{Ext, Host, Disk}.

Lemma still_same {E A} k (m : ST Site E A) : keeps (same_at k) m → keeps (still_at k) m.
Proof. intros Hm s n Hn. specialize (Hm s). unfold same_at in Hm. by rewrite Hm. Qed.
Lemma spawns_on_vault {E F A} `{From F E} (m : ST World F A) :
  keeps same_children (on_vault m : ST Site E A).
Proof. intros s. unfold on_vault. by destruct (m (site_world s)). Qed.
Lemma children_on_files {A} (f : Files → option (A * Files)) : keeps same_children (on_files f).
Proof. intros s. unfold on_files. by destruct (f (site_files s)) as [[]|]. Qed.
Lemma children_get_files : keeps same_children get_files.
Proof. by intros s. Qed.
#[local] Hint Extern 1 (keeps same_children (on_vault _)) => apply spawns_on_vault : keeps.
#[local] Hint Extern 1 (keeps same_children (ask _)) => apply spawns_on_vault : keeps.
#[local] Hint Resolve children_on_files children_get_files : keeps.

Lemma children_fs_op {A} (f : Files → option (A * Files)) : keeps same_children (fs_op f).
Proof. unfold fs_op. keeps_auto. Qed.
#[local] Hint Resolve children_fs_op : keeps.
Lemma children_fs_write p data : keeps same_children (fs_write p data).
Proof. unfold fs_write, open_truncate, write_all, set_data. keeps_auto. Qed.
Lemma children_create_dir_all p : keeps same_children (create_dir_all p).
Proof.
  unfold create_dir_all. generalize (@nil string). induction (path_key p) as [|c l IH]; intros made.
  - apply keeps_ret, _.
  - cbn [create_dirs]. cbv zeta. unfold create_dir. keeps_auto.
Qed.
#[local] Hint Resolve children_fs_write children_create_dir_all : keeps.

(** A directory is made only where there is nothing. *)
Lemma still_create_dir_all k p : keeps (still_at k) (create_dir_all p).
Proof.
  unfold create_dir_all. generalize (@nil string). induction (path_key p) as [|c l IH]; intros made.
  - apply keeps_ret, _.
  - cbn [create_dirs]. cbv zeta. apply keeps_bind; [apply _| |intros _; apply IH].
    intros s n Hn. unfold create_dir, get_files, mbind, st_bind.
    destruct (has_dir _ _); [done|]. unfold fs_op, ask, on_vault, query, mbind, st_bind, draw. simpl.
    destruct (fs_fault _); [done|]. unfold on_files. simpl.
    destruct (site_files s !! (made ++ [c])) eqn:Hk; [done|]. destruct (has_dir _ _); [|done]. simpl.
    rewrite lookup_insert_ne; [done|]. intros <-. congruence.
Qed.
#[local] Hint Resolve still_create_dir_all : keeps.

(** ** Lemmas: systemctl *)

Lemma run_systemctl_files scope args commands : keeps same_files (run_systemctl scope args commands).
Proof.
  unfold run_systemctl. cbv zeta. keeps_auto. by intros s.
Qed.
Lemma run_systemctl_ok_inv scope args commands s commands' s' :
  run_systemctl scope args commands s = (Ok commands', s') →
  commands' = commands ++ [systemctl scope args] ∧
  site_children s' = site_children s ++ [command_child (systemctl scope args)].
Proof.
  unfold run_systemctl. cbv zeta. intros Hrun. apply st_bind_ok_inv in Hrun as (e & s1 & Ha & Hrun).
  apply on_vault_ok_inv in Ha as (_ & Hs1). destruct e as [|taken output]; [done|].
  apply st_bind_ok_inv in Hrun as ([] & s2 & Hc & Hrun).
  unfold record_child in Hc. injection Hc as <-.
  apply st_bind_ok_inv in Hrun as (out & s3 & Ho & Hrun). unfold lift in Ho. injection Ho as Ho <-.
  case_bool_decide; [|done]. injection Hrun as <- <-. cbn [site_children]. by rewrite Hs1.
Qed.

(** ** Lemmas: an installation *)

Context (f64_display : f64 → string).
Abbreviation install := (install_broker_service f64_display).

Lemma default_exe_files : keeps same_files default_broker_executable.
Proof. unfold default_broker_executable. keeps_auto. by intros ?. Qed.
Lemma default_exe_children : keeps same_children default_broker_executable.
Proof. unfold default_broker_executable. keeps_auto. Qed.

Lemma still_files {E A} k (m : ST Site E A) : keeps same_files m → keeps (still_at k) m.
Proof. intros Hm. by apply still_same, keeps_files_at. Qed.
#[local] Hint Extern 3 (keeps (still_at _) _) => apply still_files : keeps.
#[local] Hint Resolve run_systemctl_files default_exe_files default_exe_children : keeps.

Lemma still_install_units o k dir sp kp st kt :
  k ≠ path_key sp → k ≠ path_key kp → keeps (still_at k) (install_units o dir sp kp st kt).
Proof.
  intros Hs Hk. unfold install_units. keeps_auto.
  all: apply still_same, keeps_fs_write; congruence.
Qed.
Lemma keeps_lift_ok {W E A B} (R : W → W → Prop) (a : A) (f : A → ST W E B) :
  keeps R (f a) → keeps R (lift (Ok a) ≫= f).
Proof. done. Qed.
Lemma still_install o k : ¬ is_unit o k → keeps (still_at k) (install o).
Proof.
  intros Hk. unfold install_broker_service. destruct (default_unit_dir (opt_scope o)) as [dir|e|] eqn:Hd.
  - assert (default dir (opt_unit_dir o) = unit_dir_of o) as Hdir by (unfold unit_dir_of; by rewrite Hd).
    apply keeps_lift_ok. cbv beta zeta. rewrite Hdir.
    keeps_auto. apply still_install_units; intros ->; apply Hk; [by left|by right].
  - intros s n. done.
  - intros s n. done.
Qed.

Lemma unit_dir_scope scope : is_scope scope = false → default_unit_dir scope = Err InvalidScope.
Proof.
  unfold is_scope, default_unit_dir. destruct (String.eqb scope "user"); [done|].
  by destruct (String.eqb scope "system").
Qed.
Lemma install_idle o s r s' :
  idle o = true → install o s = (r, s') → site_files s' = site_files s ∧ site_children s' = site_children s.
Proof.
  unfold idle. intros Hi Hrun. destruct (is_scope (opt_scope o)) eqn:Hs.
  - rewrite orb_false_r in Hi. unfold install_broker_service in Hrun. cbv zeta in Hrun. rewrite Hi in Hrun.
    split.
    + assert (keeps same_files (install o)) as Hkeep; [|specialize (Hkeep s)].
      { unfold install_broker_service. cbv zeta. rewrite Hi. keeps_auto. }
      unfold install_broker_service in Hkeep. cbv zeta in Hkeep. by rewrite Hi, Hrun in Hkeep.
    + assert (keeps same_children (install o)) as Hkeep; [|specialize (Hkeep s)].
      { unfold install_broker_service. cbv zeta. rewrite Hi. keeps_auto. }
      unfold install_broker_service in Hkeep. cbv zeta in Hkeep. by rewrite Hi, Hrun in Hkeep.
  - unfold install_broker_service in Hrun. rewrite unit_dir_scope in Hrun by done.
    unfold lift, mbind, st_bind in Hrun. by injection Hrun as _ <-.
Qed.

(** What an installation wrote and ran. *)
Lemma install_units_ok_inv o dir sp kp st kt s commands s' :
  path_key sp ≠ path_key kp →
  install_units o dir sp kp st kt s = (Ok commands, s') →
  commands = [systemctl (opt_scope o) ["daemon-reload"]] ++
    (if opt_enable o then [systemctl (opt_scope o) ["enable"; SOCKET_NAME; SERVICE_NAME]] else []) ++
    (if opt_start o then [systemctl (opt_scope o) ["start"; SERVICE_NAME]] else []) ∧
  site_children s' = site_children s ++ (command_child <$> commands) ∧
  (∃ mode, site_files s' !! path_key sp = Some (File mode (as_bytes st))) ∧
  (∃ mode, site_files s' !! path_key kp = Some (File mode (as_bytes kt))).
Proof.
  intros Hne Hrun. unfold install_units in Hrun.
  apply st_bind_ok_inv in Hrun as ([] & s1 & Hw1%try_ok_inv & Hrun).
  apply st_bind_ok_inv in Hrun as ([] & s2 & Hw2%try_ok_inv & Hrun).
  apply st_bind_ok_inv in Hrun as ([] & s3 & Hw3%try_ok_inv & Hrun).
  pose proof (children_create_dir_all dir s) as C1. rewrite Hw1 in C1.
  pose proof (children_fs_write sp (as_bytes st) s1) as C2. rewrite Hw2 in C2.
  pose proof (children_fs_write kp (as_bytes kt) s2) as C3. rewrite Hw3 in C3.
  pose proof (keeps_fs_write (path_key sp) kp (as_bytes kt) (λ Heq, Hne (eq_sym Heq)) s2) as K3. rewrite Hw3 in K3.
  apply fs_write_ok_inv in Hw2 as (m2 & Hw2 & _). apply fs_write_ok_inv in Hw3 as (m3 & Hw3 & _).
  unfold same_children, same_at in *. cbn [snd] in *.
  apply st_bind_ok_inv in Hrun as (c1 & s4 & R1 & Hrun).
  apply st_bind_ok_inv in Hrun as (c2 & s5 & R2 & R3).
  assert (same_files s3 s') as F.
  { trans s4; [|trans s5].
    - pose proof (run_systemctl_files (opt_scope o) ["daemon-reload"] [] s3) as F. by rewrite R1 in F.
    - destruct (opt_enable o); [|by injection R2 as _ <-].
      pose proof (run_systemctl_files (opt_scope o) ["enable"; SOCKET_NAME; SERVICE_NAME] c1 s4) as F.
      by rewrite R2 in F.
    - destruct (opt_start o); [|by injection R3 as _ <-].
      pose proof (run_systemctl_files (opt_scope o) ["start"; SERVICE_NAME] c2 s5) as F. by rewrite R3 in F. }
  apply run_systemctl_ok_inv in R1 as (-> & S1).
  unfold same_files in F. rewrite F. split; [|split; [|split; [exists m2; congruence|by exists m3]]].
  - destruct (opt_enable o); [apply run_systemctl_ok_inv in R2 as (-> & _)|injection R2 as <- _];
      (destruct (opt_start o); [apply run_systemctl_ok_inv in R3 as (-> & _)|injection R3 as <- _]); done.
  - assert (site_children s3 = site_children s) as S3 by congruence.
    destruct (opt_enable o); [apply run_systemctl_ok_inv in R2 as (-> & S2)|injection R2 as <- <-];
      (destruct (opt_start o); [apply run_systemctl_ok_inv in R3 as (-> & S4); rewrite S4|injection R3 as <- <-]);
      rewrite ?S2, S1, S3, <-?(assoc_L (++)); done.
Qed.
End steps.

(** C39: the installation of the units does what it reports, and nothing else. A dry run, and a scope
    that is not user or system, write no file and start no process. Whatever becomes of it, what was
    there stays as it was, the two units apart. When it succeeds, the processes it started are
    systemctl with the reported commands, in their order: the reload, then the enabling and the start
    where they were asked for; and, but for a dry run, the two files it reports hold the two rendered
    units, for the executable, the socket and the vault that were asked for. *)
Theorem units_installed {X : Ext} {HO : Host} {DI : Disk} f64_display o s r s' :
  install_broker_service f64_display o s = (r, s') →
  (idle o = true → site_files s' = site_files s ∧ site_children s' = site_children s) ∧
  (∀ k n, ¬ is_unit o k → site_files s !! k = Some n → site_files s' !! k = Some n) ∧
  (∀ result, r = Ok result →
    is_scope (opt_scope o) = true ∧ inst_commands result = unit_commands o ∧
    site_children s' = site_children s ++ (command_child <$> unit_commands o) ∧
    inst_service_path result = path_join (unit_dir_of o) SERVICE_NAME ∧
    inst_socket_path result = path_join (unit_dir_of o) SOCKET_NAME ∧
    (opt_dry_run o = false → ∃ exe default_socket service_text socket_text m1 m2,
      (∀ e, opt_broker_executable o = Some e → exe = e) ∧
      default_socket_path (opt_scope o) = Ok default_socket ∧
      render_broker_service f64_display (opt_scope o) exe (opt_vault_path o)
        (default default_socket (opt_socket_path o)) (opt_idle_timeout_seconds o) (opt_service_user o)
        = Ok service_text ∧
      render_broker_socket (opt_scope o) (default default_socket (opt_socket_path o)) = Ok socket_text ∧
      site_files s' !! path_key (inst_service_path result) = Some (File m1 (as_bytes service_text)) ∧
      site_files s' !! path_key (inst_socket_path result) = Some (File m2 (as_bytes socket_text)))).
Proof.
  intros Hrun. split; [|split].
  - intros Hi. by eapply install_idle.
  - intros k n Hk Hn. pose proof (still_install f64_display o k Hk s n Hn) as Hs. by rewrite Hrun in Hs.
  - intros result ->. unfold install_broker_service in Hrun. cbv zeta in Hrun.
    apply st_bind_ok_inv in Hrun as (dir & s1 & Hd & Hrun). unfold lift in Hd. injection Hd as Hd <-.
    assert (default dir (opt_unit_dir o) = unit_dir_of o) as Hdir by (unfold unit_dir_of; by rewrite Hd).
    rewrite Hdir in Hrun.
    apply st_bind_ok_inv in Hrun as (exe & s2 & He & Hrun).
    apply st_bind_ok_inv in Hrun as (sock & s3 & Hso & Hrun). unfold lift in Hso. injection Hso as Hso <-.
    apply st_bind_ok_inv in Hrun as (st & s4 & Hst & Hrun). unfold lift in Hst. injection Hst as Hst <-.
    apply st_bind_ok_inv in Hrun as (kt & s5 & Hkt & Hrun). unfold lift in Hkt. injection Hkt as Hkt <-.
    apply st_bind_ok_inv in Hrun as (commands & s6 & Hc & Hrun). injection Hrun as <- <-.
    assert (is_scope (opt_scope o) = true) as Hscope.
    { unfold render_broker_socket in Hkt. by destruct (is_scope (opt_scope o)). }
    assert (site_children s2 = site_children s) as C.
    { destruct (opt_broker_executable o); [by injection He as _ <-|].
      pose proof (default_exe_children s) as C. by rewrite He in C. }
    split_and!; try done; unfold unit_commands; destruct (opt_dry_run o).
    + by injection Hc as <- _.
    + apply install_units_ok_inv in Hc as (-> & _); [done|]. rewrite !path_key_join by done.
      intros Heq%(inj (_ ++.)). discriminate Heq.
    + injection Hc as _ <-. by rewrite C, app_nil_r.
    + apply install_units_ok_inv in Hc as (-> & Hch & _); [by rewrite Hch, C|].
      rewrite !path_key_join by done. intros Heq%(inj (_ ++.)). discriminate Heq.
    + done.
    + intros _. apply install_units_ok_inv in Hc as (_ & _ & (m1 & F1) & (m2 & F2)).
      * exists exe, sock, st, kt, m1, m2. split_and!; try done. intros e Heq. rewrite Heq in He.
        by injection He as <- _.
      * rewrite !path_key_join by done. intros Heq%(inj (_ ++.)). discriminate Heq.
Qed.

Definition sample_options : BrokerServiceInstallOptions := {|
  opt_scope := "user"; opt_unit_dir := Some "/units"; opt_broker_executable := None;
  opt_vault_path := "/home/alice/vault.db"; opt_socket_path := None;
  opt_idle_timeout_seconds := S754_finite false 3 (-1); opt_service_user := None;
  opt_enable := true; opt_start := true; opt_dry_run := false |}.
Definition bare_site : Site := {|
  site_world := {| tick := 0; db := empty_db |};
  site_files := <[[] := Dir 493]> (<[["/"] := Dir 493]> (<[["/"; "etc"] := File 420 [] ]> ∅));
  site_out := []; site_children := [] |}.
Definition sample_display (_ : f64) : string := "1.5".
Lemma sample_install : ∃ result s',
  install_broker_service sample_display sample_options bare_site = (Ok result, s') ∧
  inst_service_path result = "/units/hbse-broker.service".
Proof.
  destruct (install_broker_service sample_display sample_options bare_site) as [r s'] eqn:Hrun.
  assert (match (install_broker_service sample_display sample_options bare_site).1 with
          | Ok result => String.eqb (inst_service_path result) "/units/hbse-broker.service"
          | _ => false end = true) as Hok by (vm_compute; reflexivity).
  rewrite Hrun in Hok. destruct r as [result|e|]; [|discriminate Hok..].
  exists result, s'. split; [reflexivity|by apply String.eqb_eq].
Qed.

Lemma units_installed_witness : ∃ result s',
  inst_commands result = [ ["systemctl"; "--user"; "daemon-reload"];
    ["systemctl"; "--user"; "enable"; "hbse-broker.socket"; "hbse-broker.service"];
    ["systemctl"; "--user"; "start"; "hbse-broker.service"] ] ∧
  length (site_children s') = 3%nat ∧
  site_files s' !! ["/"; "etc"] = Some (File 420 []) ∧
  is_Some (site_files s' !! ["/"; "units"; "hbse-broker.service"]).
Proof.
  destruct sample_install as (result & s' & Hrun & Hp).
  destruct (units_installed sample_display sample_options bare_site (Ok result) s' Hrun)
    as (_ & Hstill & Hok).
  destruct (Hok result eq_refl) as (_ & Hc & Hch & _ & _ & Hfiles).
  destruct (Hfiles eq_refl) as (exe & sock & st & kt & m1 & m2 & _ & _ & _ & _ & Hf & _).
  exists result, s'. split; [rewrite Hc; reflexivity|]. split; [rewrite Hch; reflexivity|].
  split; [|rewrite Hp in Hf; exists (File m1 (as_bytes st)); exact Hf].
  apply Hstill; [|reflexivity]. intros [Hk|Hk]; discriminate Hk.
Defined.
