(* ===== verification/Cli.v ===== *)
(** * The command line: pass phrases, requests and child processes (main.rs)

    What the commands of hbse share: where a pass phrase comes from and which vaults need one,
    the gate on plaintext export, the access request a command makes of its own process, and
    the child process that is started with secrets in its environment, in files, behind
    descriptors or on its standard input. *)

From S2P Require Export Vault Files Dotenv Backup Release Systemd.
#[local] Open Scope Z_scope.

(** [Box<dyn Error>]: a text of main.rs itself, or an error of a part. *)
Inductive CliError : Type :=
| Message (text : string) | CliVault (e : VaultError) | CliDotenv (e : DotenvError)
| CliBackup (e : BackupError) | CliRecovery (e : RecoveryError) | CliStore (e : StoreError)
| CliTpm (e : Tpm2ProviderError) | CliEsapi (e : Tpm2EsapiProviderError) | CliSystemd (e : SystemdError)
| CliRelease (e : ReleaseError) | CliIo | CliJson.
#[export] Instance from_cli_vault : From VaultError CliError := CliVault.
#[export] Instance from_cli_dotenv : From DotenvError CliError := CliDotenv.
#[export] Instance from_cli_backup : From BackupError CliError := CliBackup.
#[export] Instance from_cli_recovery : From RecoveryError CliError := CliRecovery.
#[export] Instance from_cli_store : From StoreError CliError := CliStore.
#[export] Instance from_cli_tpm : From Tpm2ProviderError CliError := CliTpm.
#[export] Instance from_cli_esapi : From Tpm2EsapiProviderError CliError := CliEsapi.
#[export] Instance from_cli_systemd : From SystemdError CliError := CliSystemd.
#[export] Instance from_cli_release : From ReleaseError CliError := CliRelease.
#[export] Instance from_cli_io : From IoError CliError := λ _, CliIo.

Definition HBSE_PASSPHRASE : string := "HBSE_PASSPHRASE".
Definition HBSE_RECOVERY_SECRET : string := "HBSE_RECOVERY_SECRET".

(** ** Arguments *)

Definition strip_separator (command : list string) : list string :=
  match command with
  | value :: rest => if String.eqb value "--" then rest else command
  | [] => []
  end.

Fixpoint parse_assignments (values : list string) (assignments : omap string string)
  : res CliError (omap string string) :=
  match values with
  | [] => Ok assignments
  | value :: values =>
      match split_once "=" value with
      | None => Err (Message ("environment assignment must use NAME=value: " +:+ value))
      | Some (key, value) =>
          let key := trim key in
          if is_empty key then Err (Message "environment assignment name must not be empty")
          else parse_assignments values (oput key value assignments)
      end
  end.
Definition parse_env_assignments (values : list string) : res CliError (omap string string) :=
  parse_assignments values [].

Fixpoint parse_header_values (values : list string) (headers : omap string json)
  : res CliError (omap string json) :=
  match values with
  | [] => Ok headers
  | value :: values =>
      match split_once ":" value with
      | None => Err (Message ("header must be KEY:VALUE: " +:+ value))
      | Some (key, header_value) =>
          parse_header_values values (oput (trim key) (JStr (trim header_value)) headers)
      end
  end.
Definition parse_headers (values : list string) : res CliError (omap string json) :=
  parse_header_values values [].

(** The names and aliases of a [match] on a text. *)
Definition secret_type_names : list (string * SecretType) :=
  [ ("api_key", ApiKey); ("access_token", AccessToken); ("refresh_token", RefreshToken);
    ("sso_token_bundle", SsoTokenBundle); ("oauth_token_bundle", SsoTokenBundle);
    ("password", Password); ("passphrase", Passphrase); ("pass_phrase", Passphrase);
    ("token", Token); ("mnemonic", MnemonicPhrase); ("mnemonic_phrase", MnemonicPhrase);
    ("ssh_key", SshKey); ("private_key", PrivateKey); ("certificate", Certificate);
    ("cert", Certificate); ("credential", Credential); ("json_credential", JsonCredential);
    ("generic", Generic) ].
Definition parse_secret_type (value : string) : res CliError SecretType :=
  ok_or (Message ("unsupported secret type: " +:+ value)) (OMap.assoc value secret_type_names).

Definition parse_delivery_mode (value : string) : res CliError DeliveryMode :=
  ok_or (Message ("unsupported delivery mode: " +:+ value)) (OMap.assoc value DeliveryMode_names).

Definition shell_single_quote (value : string) : string := replace "'" "'\''" value.
Definition shell_plain (c : string) : bool :=
  match c with
  | String a EmptyString => ascii_is_alnum a || existsb (Ascii.eqb a) (ascii_list "/._-:")
  | _ => false
  end.
Definition shell_quote (value : string) : string :=
  if forallb shell_plain (chars value) then value
  else ("'" +:+ shell_single_quote value +:+ "'")%string.

Definition require_plaintext_export_confirmation (allow_plaintext : bool)
  : res CliError unit :=
  if allow_plaintext then Ok tt
  else Err (Message "plaintext export requires --allow-plaintext; prefer hbse run, hbse dotenv run, or broker provider-http when possible").

Section cli.
Context `{Ext, Host, Disk}.
Abbreviation CLI := (ST Site CliError).

(** ** Pass phrases *)

Definition non_empty (value : option string) (why : string) : res CliError string :=
  match value with
  | Some value => if is_empty value then Err (Message why) else Ok value
  | None => Err (Message why)
  end.
Definition or_env (value : option string) (name : string) : option string :=
  match value with Some value => Some value | None => env_var name end.
Definition passphrase_or_env (value : option string) : res CliError string :=
  non_empty (or_env value HBSE_PASSPHRASE)
    "passphrase required; pass --passphrase or set HBSE_PASSPHRASE".
Definition recovery_secret_or_env (value : option string) : res CliError string :=
  non_empty (or_env value HBSE_RECOVERY_SECRET)
    "recovery secret required; pass --recovery-secret or set HBSE_RECOVERY_SECRET".

Definition unlock_passphrase (value : option string) : CLI string :=
  header ← on_vault LocalVault_status;
  let provider_id := default EmptyString (binding_str "provider_id" header) in
  if String.eqb provider_id TPM2_PROVIDER_ID || String.eqb provider_id TPM2_ESAPI_PROVIDER_ID
  then mret EmptyString
  else if String.eqb provider_id SYSTEM_FINGERPRINT_PROVIDER_ID then mret EmptyString
  else if String.eqb provider_id PASSPHRASE_PROVIDER_ID then lift (passphrase_or_env value)
  else throw (Message ("unsupported provider: " +:+ provider_id)).

(** A code is asked for when a device is enrolled. *)
Definition demand_mfa (passphrase : string) (mfa_code : option string) (why : string) : CLI unit :=
  enrolled ← on_vault totp_mfa_enrolled;
  if (enrolled : bool) then
    code ← lift (ok_or (Message why) mfa_code);
    on_vault (verify_totp_mfa passphrase code)
  else mret tt.

Definition plaintext_export_passphrase (passphrase : option string) (allow_plaintext : bool)
  (mfa_code : option string) : CLI string :=
  _ ← lift (require_plaintext_export_confirmation allow_plaintext);
  enabled ← on_vault plaintext_export_enabled;
  _ ← guard_ (negb enabled) (Message "plaintext export is disabled; enable it with `hbse config plaintext-export enable`");
  passphrase ← unlock_passphrase passphrase;
  _ ← demand_mfa passphrase mfa_code
        "plaintext export requires --mfa-code when TOTP MFA is enrolled";
  mret passphrase.

Definition config_change_passphrase (passphrase : option string) (mfa_code : option string)
  : CLI string :=
  passphrase ← unlock_passphrase passphrase;
  _ ← demand_mfa passphrase mfa_code
        "config change requires --mfa-code when TOTP MFA is enrolled";
  mret passphrase.

(** ** Input *)

Definition read_stdin : CLI string := text ← ask stdin_text; lift (ok_or CliIo text).

Definition read_secret_value (value : option string) (stdin : bool) : CLI string :=
  match value, stdin with
  | Some _, true => throw (Message "use either --value or --stdin, not both")
  | Some value, false => mret value
  | None, true => read_stdin
  | None, false => throw (Message "secret value required; pass --value or --stdin")
  end.

Definition read_text_input (file : option string) (stdin : bool) : CLI string :=
  match file, stdin with
  | Some _, true => throw (Message "use either --file or --stdin, not both")
  | Some path, false => data ← try_ (fs_read path); lift (ok_or CliIo (from_utf8 data))
  | None, true => read_stdin
  | None, false => throw (Message "input required; pass --file or --stdin")
  end.

(** ** Access requests *)

Definition current_os_uid : option Z := Some geteuid.
Definition current_executable_path : CLI (option string) := ask exe_path.
Definition current_executable_sha256 : CLI (option string) :=
  data ← ask exe_bytes;
  mret ((λ b, concat_str (hex_byte false <$> sha256 b)) <$> data).

(** What the flags of a command say of an HTTP request. *)
Record HttpFlags : Type := {
  flag_host : option string; flag_scheme : option string; flag_method : option string;
  flag_path : option string; flag_body_bytes : option Z;
}.
Definition no_http : HttpFlags := {|
  flag_host := None; flag_scheme := None; flag_method := None; flag_path := None;
  flag_body_bytes := None |}.

(** The request of this process; the structure fields are evaluated in their order. *)
Definition own_request (secret_ref consumer purpose : string) (delivery_mode : DeliveryMode)
  (assurance : string) (raw_export_requested : bool) (http : HttpFlags) (mfa_verified : bool)
  : CLI AccessRequest :=
  path ← current_executable_path;
  hash ← current_executable_sha256;
  now ← on_vault (Utc_now (E:=CliError));
  mret {| req_secret_ref := secret_ref; req_consumer := consumer; req_purpose := purpose;
          req_delivery_mode := delivery_mode; req_provider_assurance := assurance;
          req_raw_export_requested := raw_export_requested;
          req_http_host := flag_host http; req_http_scheme := flag_scheme http;
          req_http_method := flag_method http; req_http_path := flag_path http;
          req_http_request_body_bytes := flag_body_bytes http;
          req_os_uid := current_os_uid; req_executable_path := path;
          req_executable_sha256 := hash; req_mfa_verified := mfa_verified;
          req_broker_session_id := None; req_now := now |}.

Definition build_access_request (secret_ref consumer purpose delivery_mode : string)
  (raw_export_requested : bool) (provider_assurance : option string) (http : HttpFlags)
  : CLI AccessRequest :=
  mode ← lift (parse_delivery_mode delivery_mode);
  own_request secret_ref consumer purpose mode (default "A1" provider_assurance)
    raw_export_requested http false.

Definition provider_assurance : CLI string :=
  header ← on_vault LocalVault_status;
  mret (default "A1" (binding_str "assurance_level" header)).

Definition materialization_request (secret_ref consumer purpose : string)
  (delivery_mode : DeliveryMode) (mfa_verified : bool) : CLI AccessRequest :=
  assurance ← provider_assurance;
  own_request secret_ref consumer purpose delivery_mode assurance false no_http mfa_verified.

(** ** Child processes *)

(** [Command::envs]: the child inherits the environment, with these variables set. *)
Definition envs (child_env : omap string string) : omap string string :=
  fold_left (λ m kv, oput kv.1 kv.2 m) child_env environ.

(** [child.args(&command[1..])] of a command that is not empty; a child that was started is
    recorded, whatever becomes of it. *)
Definition exec_child (command : list string) (child_env : omap string string)
  (stdin_secret : option bytes) (files : list SecretFile) (fds : list (Z * bytes)) : CLI Z :=
  match command with
  | [] => panic
  | program :: args =>
      let child := {| ch_program := program; ch_args := args; ch_env := envs child_env;
                      ch_stdin := stdin_secret; ch_files := files; ch_fds := fds |} in
      ended ← ask (λ i, run_child i child);
      match ended with
      | NotSpawned => throw CliIo
      | Spawned stdin_taken output =>
          _ ← record_child child;
          _ ← guard_ (match stdin_secret with Some _ => negb stdin_taken | None => false end) CliIo;
          output ← lift (ok_or CliIo output);
          let '(code, stdout, stderr) := output in
          _ ← print (from_utf8_lossy stdout);
          mret (default 1 code)
      end
  end.

(** [make_fd_inheritable]: the close-on-exec flag is cleared. *)
Definition make_fd_inheritable (fd : Z) : CLI unit :=
  flags ← ask (λ i, fcntl_getfd i fd);
  _ ← guard_ (flags <? 0) CliIo;
  rc ← ask (λ i, fcntl_setfd i fd (Z.land flags (Z.lnot FD_CLOEXEC)));
  guard_ (rc <? 0) CliIo.
End cli.
