(* ===== verification/CliRun.v ===== *)
(** * hbse run and hbse dotenv run (main.rs)

    A command started with secrets: each is taken from the vault by a ticket issued for this
    process and used at once, and reaches the child in its environment, in a private temporary
    file, behind an inherited descriptor or on its standard input.  What the child is given
    beyond that is its caller's environment, and the caller's environment is inherited whole,
    the vault's pass phrase with it. *)

From S2P Require Export Cli VaultTickets.
From S2P Require Import Toy.
#[local] Open Scope Z_scope.

(** The arguments of [Command::Run]. *)
Record RunArgs : Type := {
  run_consumer : string;
  run_purpose : string;
  run_secret_env : list string;
  run_secret_file_env : list string;
  run_secret_fd_env : list string;
  run_secret_stdin : option string;
  run_env : list string;
  run_mfa_code : option string;
  run_command : list string;
}.

Section run.
Context `{Ext, Host, Disk}.
Abbreviation CLI := (ST Site CliError).

(** A ticket is issued and used at once. *)
Definition take_secret (consumer purpose passphrase : string) (mfa_verified : bool)
  (mode : DeliveryMode) (secret_ref : string) : CLI bytes :=
  request ← materialization_request secret_ref consumer purpose mode mfa_verified;
  ticket ← on_vault (issue_ticket request passphrase);
  on_vault (consume_ticket_for_secret (tk_ticket_id ticket) request passphrase).

Definition must_be_ref (what secret_ref : string) : CLI unit :=
  guard_ (negb (starts_with secret_ref "secret://"))
    (Message (what +:+ " must use a secret:// reference")).

(** What the child is given so far: its variables, its files, its descriptors. *)
Record Given : Type := {
  given_env : omap string string;
  given_files : list SecretFile;
  given_fds : list (Z * bytes);
}.
Definition give_env (name value : string) (g : Given) : Given := {|
  given_env := oput name value (given_env g); given_files := given_files g;
  given_fds := given_fds g |}.

Section secrets.
Context (take : DeliveryMode → string → CLI bytes).

(** One round of each loop. *)
Definition give_secret_env (env_name secret_ref : string) (g : Given) : CLI Given :=
  _ ← must_be_ref ("--secret-env " +:+ env_name +:+ "=...") secret_ref;
  secret ← take ChildEnv secret_ref;
  mret (give_env env_name (from_utf8_lossy secret) g).

(** [tempfile::Builder::new().prefix(prefix).tempfile()]. *)
Definition new_tempfile (prefix : string) : CLI string :=
  path ← ask (λ i, tempfile i prefix); lift (ok_or CliIo path).
Definition check_io (f : nat → bool) : CLI unit := ok ← ask f; guard_ (negb ok) CliIo.

Definition give_secret_file (env_name secret_ref : string) (g : Given) : CLI Given :=
  _ ← must_be_ref ("--secret-file-env " +:+ env_name +:+ "=...") secret_ref;
  secret ← take TempFile secret_ref;
  path ← new_tempfile "hbse-secret-";
  _ ← check_io (λ i, chmod_ok i path);
  _ ← check_io (λ i, file_write_ok i path);
  mret {| given_env := oput env_name path (given_env g);
          given_files := given_files g ++
            [{| tf_path := path; tf_mode := mode_0600; tf_data := secret |}];
          given_fds := given_fds g |}.

Definition give_secret_fd (env_name secret_ref : string) (g : Given) : CLI Given :=
  _ ← must_be_ref ("--secret-fd-env " +:+ env_name +:+ "=...") secret_ref;
  secret ← take Fd secret_ref;
  path ← new_tempfile "hbse-secret-fd-";
  _ ← check_io (λ i, file_write_ok i path);
  fd ← ask (λ i, reopen i path);
  fd ← lift (ok_or CliIo fd);
  _ ← check_io (λ i, seek_ok i fd);
  _ ← make_fd_inheritable fd;
  mret {| given_env := oput env_name (dec fd) (given_env g);
          given_files := given_files g ++
            [{| tf_path := path; tf_mode := TEMPFILE_MODE; tf_data := secret |}];
          given_fds := given_fds g ++ [(fd, secret)] |}.

(** [for (env_name, secret_ref) in parse_env_assignments(values)?]. *)
Fixpoint give_each (give : string → string → Given → CLI Given) (todo : list (string * string))
  (g : Given) : CLI Given :=
  match todo with
  | [] => mret g
  | (env_name, secret_ref) :: todo => g ← give env_name secret_ref g; give_each give todo g
  end.
Definition give_all (give : string → string → Given → CLI Given) (values : list string)
  (g : Given) : CLI Given :=
  todo ← lift (parse_env_assignments values); give_each give todo g.

Definition stdin_secret (secret_stdin : option string) : CLI (option bytes) :=
  match secret_stdin with
  | None => mret None
  | Some secret_ref =>
      _ ← must_be_ref "--secret-stdin" secret_ref;
      secret ← take Pipe secret_ref;
      mret (Some secret)
  end.
End secrets.

(** [if let Some(code) = mfa_code { verify; true } else { false }]. *)
Definition verify_code (passphrase : string) (mfa_code : option string) : CLI bool :=
  match mfa_code with
  | Some code => _ ← on_vault (verify_totp_mfa passphrase code); mret true
  | None => mret false
  end.

(** [Command::Run]; the result is the exit code. *)
Definition run_with_secrets (a : RunArgs) : CLI Z :=
  let command := strip_separator (run_command a) in
  _ ← guard_ (match command with [] => true | _ => false end)
        (Message "use hbse run --purpose <purpose> -- <command>");
  passphrase ← unlock_passphrase None;
  mfa_verified ← verify_code passphrase (run_mfa_code a);
  let take := take_secret (run_consumer a) (run_purpose a) passphrase mfa_verified in
  child_env ← lift (parse_env_assignments (run_env a));
  let g := {| given_env := child_env; given_files := []; given_fds := [] |} in
  g ← give_all (give_secret_env take) (run_secret_env a) g;
  g ← give_all (give_secret_file take) (run_secret_file_env a) g;
  g ← give_all (give_secret_fd take) (run_secret_fd_env a) g;
  stdin ← stdin_secret take (run_secret_stdin a);
  exec_child command (given_env g) stdin (given_files g) (given_fds g).

(** [DotenvCommand::Run]. *)
Definition give_reference (take : DeliveryMode → string → CLI bytes) (env_name secret_ref : string)
  (g : Given) : CLI Given :=
  secret ← take ChildEnv secret_ref;
  mret (give_env env_name (from_utf8_lossy secret) g).
Definition is_raw_finding (f : DotenvFinding) : bool :=
  String.eqb (finding_kind f) "likely_raw_secret".

Definition dotenv_run (path consumer purpose : string) (command : list string) : CLI Z :=
  let command := strip_separator command in
  _ ← guard_ (match command with [] => true | _ => false end)
        (Message "use hbse dotenv run <file> -- <command>");
  findings ← on_vault (scan_dotenv path);
  if existsb is_raw_finding findings then mret 8 else
  values ← on_vault (parse_dotenv path);
  let '(plain, refs) := split_dotenv_values values in
  passphrase ← unlock_passphrase None;
  let take := take_secret consumer purpose passphrase false in
  g ← give_each (give_reference take) refs
        {| given_env := plain; given_files := []; given_fds := [] |};
  exec_child command (given_env g) None [] [].
End run.
