(* ===== verification/CliSpec.v ===== *)
(** * What reaches a child process (main.rs over vault.rs)

    The composition of hbse run and hbse dotenv run with the vault: a child is started only
    with what its caller has and named, and with secrets that policies grant to this process
    for the way they are delivered; a file with a raw secret starts none; plaintext is printed
    only past the gate.  And a quoted word of a printed command is read back by a shell. *)

From S2P Require Export CliRun.
From S2P Require Import Toy.
#[local] Open Scope Z_scope.

(** ** Steps that start no child *)

(** Nothing changed but the time and what was printed. *)
Definition quiet (s s' : Site) : Prop :=
  db (site_world s') = db (site_world s) ∧ site_children s' = site_children s.
#[export] Instance quiet_preorder : PreOrder quiet.
Proof. split; [by intros s|]. intros s1 s2 s3 [] []. unfold quiet. split; congruence. Qed.

Lemma keeps_quiet_children {E A} (m : ST Site E A) : keeps quiet m → keeps same_children m.
Proof. intros Hm s. apply Hm. Qed.

Lemma children_on_vault {E F A} `{From F E} (m : ST World F A) :
  keeps same_children (on_vault m : ST Site E A).
Proof. intros s. unfold on_vault. by destruct (m (site_world s)). Qed.
Lemma quiet_on_vault {E F A} `{From F E} (m : ST World F A) :
  keeps same_db m → keeps quiet (on_vault m : ST Site E A).
Proof.
  intros Hm s. specialize (Hm (site_world s)). unfold on_vault.
  destruct (m (site_world s)) as [r w]. by destruct Hm.
Qed.
Lemma quiet_ask {E A} (f : nat → A) : keeps quiet (ask f : ST Site E A).
Proof. by intros s. Qed.
Lemma quiet_print {E} text : keeps quiet (print text : ST Site E unit).
Proof. by intros s. Qed.

#[export] Hint Resolve children_on_vault quiet_ask quiet_print : keeps.
#[export] Hint Extern 1 (keeps quiet (on_vault _)) =>
  apply quiet_on_vault; solve [auto with keeps typeclass_instances] : keeps.
#[export] Hint Extern 1 (keeps same_children (ask _)) => apply keeps_quiet_children, quiet_ask : keeps.
#[export] Hint Extern 1 (keeps same_children (print _)) => apply keeps_quiet_children, quiet_print : keeps.

Section run.
Context {X : Ext} {HS : Host} {D : Disk} {HC : CodecLaws} {HT : ChronoLaws} {HH : HashLaws}.

Lemma quiet_status : keeps same_db LocalVault_status.
Proof. apply keeps_try. auto with keeps typeclass_instances. Qed.
#[local] Hint Resolve quiet_status : keeps.

Lemma quiet_unlock_passphrase value : keeps quiet (unlock_passphrase value).
Proof. unfold unlock_passphrase. keeps_auto. Qed.

Lemma quiet_own_request a b c d e f g h : keeps quiet (own_request a b c d e f g h).
Proof.
  unfold own_request, current_executable_path, current_executable_sha256. keeps_auto.
Qed.

Lemma own_request_inv secret_ref consumer purpose mode assurance raw http mfa s r s' :
  own_request secret_ref consumer purpose mode assurance raw http mfa s = (Ok r, s') →
  req_secret_ref r = secret_ref ∧ req_consumer r = consumer ∧ req_purpose r = purpose ∧
  req_delivery_mode r = mode ∧ req_raw_export_requested r = raw ∧ req_os_uid r = Some geteuid ∧
  req_mfa_verified r = mfa ∧ req_http_request_body_bytes r = flag_body_bytes http.
Proof.
  unfold own_request. intros Hrun.
  do 3 (apply st_bind_ok_inv in Hrun as (? & ? & _ & Hrun)). by injection Hrun as <- _.
Qed.

Lemma children_take consumer purpose p mfa mode secret_ref :
  keeps same_children (take_secret consumer purpose p mfa mode secret_ref).
Proof.
  unfold take_secret, materialization_request, provider_assurance. keeps_auto.
  apply keeps_quiet_children, quiet_own_request.
Qed.

(** ** Secrets taken by tickets *)

(** The tables have a view that differs from [v0] in tickets and audit events alone. *)
Definition within_terms (v0 : View) (s : Site) : Prop :=
  ∃ v, represents (db (site_world s)) v ∧ same_terms v0 v.

(** The access request of a delivery to this process's child. *)
Record child_request (consumer purpose : string) (mfa : bool) (mode : DeliveryMode)
    (secret_ref : string) (r : AccessRequest) : Prop := {
  cr_ref : req_secret_ref r = secret_ref;
  cr_consumer : req_consumer r = consumer;
  cr_purpose : req_purpose r = purpose;
  cr_mode : req_delivery_mode r = mode;
  cr_raw : req_raw_export_requested r = false;
  cr_uid : req_os_uid r = Some geteuid;
  cr_mfa : req_mfa_verified r = mfa;
}.

(** A secret that was released for a delivery, under the policies and records of [v0]. *)
Definition delivered (v0 : View) (consumer purpose : string) (mfa : bool) (mode : DeliveryMode)
    (secret_ref : string) (secret : bytes) : Prop :=
  ∃ v access t, same_terms v0 v ∧ child_request consumer purpose mfa mode secret_ref access ∧
    released v access t secret.

Lemma within_quiet v0 s s' : within_terms v0 s → quiet s s' → within_terms v0 s'.
Proof. intros (v & Hv & Ht) [Hd _]. exists v. by rewrite Hd. Qed.

Lemma take_inv v0 consumer purpose p mfa mode secret_ref s secret s' :
  0 <= geteuid <= u32_max → within_terms v0 s →
  take_secret consumer purpose p mfa mode secret_ref s = (Ok secret, s') →
  within_terms v0 s' ∧ delivered v0 consumer purpose mfa mode secret_ref secret.
Proof.
  intros Huid (v & Hrep & Hterms) Hrun. unfold take_secret in Hrun.
  apply st_bind_ok_inv in Hrun as (access & s1 & Ha & Hrun).
  assert (quiet s s1) as [Hd _].
  { pose proof (keeps_bind quiet provider_assurance (λ assurance, own_request secret_ref consumer
      purpose mode assurance false no_http mfa)) as Hk.
    assert (keeps quiet provider_assurance) as Hp by (unfold provider_assurance; keeps_auto).
    specialize (Hk Hp (λ a, quiet_own_request _ _ _ _ _ _ _ _) s).
    unfold materialization_request in Ha. by rewrite Ha in Hk. }
  apply st_bind_ok_inv in Ha as (assurance & s1' & _ & Ha).
  apply own_request_inv in Ha as (Hr & Hc & Hp & Hm & Hraw & Hu & Hmfa & Hb).
  apply st_bind_ok_inv in Hrun as (t & s2 & Hi & Hrun).
  apply on_vault_ok_inv in Hi as [Hi _]. apply on_vault_ok_inv in Hrun as [Hrun _].
  assert (AccessRequest_wf access) as Hwf.
  { split; [by rewrite Hb|]. rewrite Hu. by intros n [= <-]. }
  assert (represents (db (site_world s1)) v) as Hrep1 by (by rewrite Hd).
  destruct (issue_consume_inv _ _ _ _ _ _ _ v Hrep1 Hwf Hi Hrun) as (Hrel & v1 & v' & t' & Hf & Hrep' & Hused).
  split.
  - exists v'. split; [done|]. trans v; [done|]. trans v1; [by eapply filed_same_terms|].
    by eapply used_same_terms.
  - exists v, access, t. by split_and!.
Qed.

(** ** What a child is given *)

(** What the caller named: assignments, and secrets by the variables that are to hold them, name the
    files with them, or name the descriptors they are behind; and one for the standard input. *)
Record Named : Type := {
  nm_plain : omap string string;
  nm_env : omap string string;
  nm_files : omap string string;
  nm_fds : omap string string;
  nm_stdin : option string;
}.
Definition named (N : Named) (name : string) : Prop :=
  name ∈ (nm_plain N ++ nm_env N ++ nm_files N ++ nm_fds N).*1.

Section given.
Context (v0 : View) (consumer purpose p : string) (mfa : bool) (N : Named)
  (Huid : 0 <= geteuid <= u32_max).
Abbreviation delivery := (delivered v0 consumer purpose mfa).
Abbreviation take := (take_secret consumer purpose p mfa).

(** A variable holds what it was named for: the assigned value, the secret of its reference, the
    path of the private file with it, or the number of the descriptor with it. *)
Inductive env_value (files : list SecretFile) (fds : list (Z * bytes)) (name value : string) : Prop :=
| EnvPlain : (name, value) ∈ nm_plain N → env_value files fds name value
| EnvSecret secret_ref secret :
    (name, secret_ref) ∈ nm_env N → delivery ChildEnv secret_ref secret →
    value = from_utf8_lossy secret → env_value files fds name value
| EnvFile secret_ref f :
    (name, secret_ref) ∈ nm_files N → f ∈ files → delivery TempFile secret_ref (tf_data f) →
    value = tf_path f → env_value files fds name value
| EnvFd secret_ref fd :
    (name, secret_ref) ∈ nm_fds N → fd ∈ fds → delivery Fd secret_ref fd.2 →
    value = dec fd.1 → env_value files fds name value.

Definition file_ok (f : SecretFile) : Prop :=
  tf_mode f = mode_0600 ∧ ∃ name secret_ref,
    (name, secret_ref) ∈ nm_files N ∧ delivery TempFile secret_ref (tf_data f) ∨
    (name, secret_ref) ∈ nm_fds N ∧ delivery Fd secret_ref (tf_data f).
Definition fd_ok (fd : Z * bytes) : Prop :=
  ∃ name secret_ref, (name, secret_ref) ∈ nm_fds N ∧ delivery Fd secret_ref fd.2.

Record given_ok (g : Given) : Prop := {
  go_env : ∀ name value, (name, value) ∈ given_env g →
    env_value (given_files g) (given_fds g) name value;
  go_files : Forall file_ok (given_files g);
  go_fds : Forall fd_ok (given_fds g);
}.
Definition gave (g : Given) (name : string) : Prop := is_Some (oget name (given_env g)).

Lemma env_value_more files fds files' fds' name value :
  env_value files fds name value → env_value (files ++ files') (fds ++ fds') name value.
Proof.
  intros [Hp|r b Hn Hd Hv|r f Hn Hf Hd Hv|r fd Hn Hf Hd Hv]; [by constructor 1|by econstructor 2| |].
  - econstructor 3; [done| |done..]. apply elem_of_app. by left.
  - econstructor 4; [done| |done..]. apply elem_of_app. by left.
Qed.

(** A round of a loop over what was named keeps what holds of what was given, and gives its name. *)
Definition gives (todo : omap string string) (give : string → string → Given → ST Site CliError Given) : Prop :=
  ∀ name secret_ref g s g' s', (name, secret_ref) ∈ todo → within_terms v0 s → given_ok g →
    give name secret_ref g s = (Ok g', s') →
    within_terms v0 s' ∧ given_ok g' ∧ gave g' name ∧ ∀ n, gave g n → gave g' n.

Lemma given_env_more name value g files fds :
  given_ok g → Forall file_ok files → Forall fd_ok fds →
  env_value (given_files g ++ files) (given_fds g ++ fds) name value →
  let g' := {| given_env := oput name value (given_env g); given_files := given_files g ++ files;
               given_fds := given_fds g ++ fds |} in
  given_ok g' ∧ gave g' name ∧ ∀ n, gave g n → gave g' n.
Proof.
  intros [He Hf Hd] Hf' Hd' Hv. split; [|split].
  - split; simpl; [|by apply Forall_app..].
    intros n x [[= -> ->]|Hin]%elem_of_oput; [done|]. by apply env_value_more, He.
  - unfold gave. simpl. rewrite oget_oput_eq. eauto.
  - intros n [x Hx]. unfold gave. simpl. rewrite oget_oput. case_decide; eauto.
Qed.

Lemma gives_secret_env : gives (nm_env N) (give_secret_env take).
Proof.
  intros name r g s g' s' Hn Hw Hg Hrun. unfold give_secret_env in Hrun.
  apply st_bind_ok_inv in Hrun as ([] & s1 & Hm & Hrun). unfold must_be_ref, guard_ in Hm.
  destruct (negb _); [done|]. injection Hm as <-.
  apply st_bind_ok_inv in Hrun as (b & s2 & Ht & Hrun). injection Hrun as <- <-.
  apply (take_inv v0) in Ht as [Hw' Hd]; [|done..]. split; [done|].
  unfold give_env. rewrite <-(app_nil_r (given_files g)), <-(app_nil_r (given_fds g)).
  apply given_env_more; [done|constructor..|by econstructor 2].
Qed.

Lemma gives_reference : gives (nm_env N) (give_reference take).
Proof.
  intros name r g s g' s' Hn Hw Hg Hrun. unfold give_reference in Hrun.
  apply st_bind_ok_inv in Hrun as (b & s2 & Ht & Hrun). injection Hrun as <- <-.
  apply (take_inv v0) in Ht as [Hw' Hd]; [|done..]. split; [done|].
  unfold give_env. rewrite <-(app_nil_r (given_files g)), <-(app_nil_r (given_fds g)).
  apply given_env_more; [done|constructor..|by econstructor 2].
Qed.

Lemma quiet_new_tempfile prefix : keeps quiet (new_tempfile prefix).
Proof. unfold new_tempfile. keeps_auto. Qed.
Lemma quiet_check_io f : keeps quiet (check_io f).
Proof. unfold check_io. keeps_auto. Qed.
Lemma quiet_make_inheritable fd : keeps quiet (make_fd_inheritable fd).
Proof. unfold make_fd_inheritable. keeps_auto. Qed.
#[local] Hint Resolve quiet_new_tempfile quiet_check_io quiet_make_inheritable : keeps.

Lemma quiet_run {E A} (m : ST Site E A) s a s' :
  keeps quiet m → m s = (Ok a, s') → within_terms v0 s → within_terms v0 s'.
Proof. intros Hk Hrun Hw. eapply within_quiet; [done|]. specialize (Hk s). by rewrite Hrun in Hk. Qed.

(** A quiet step of a run that succeeded. *)
Ltac quiet_step Hrun Hw :=
  let Hq := fresh "Hq" in let y := fresh "y" in let st := fresh "st" in
  apply st_bind_ok_inv in Hrun as (y & st & Hq & Hrun);
  eapply quiet_run in Hw; [|idtac|exact Hq]; [|solve [keeps_auto]].

Lemma gives_secret_file : gives (nm_files N) (give_secret_file take).
Proof.
  intros name r g s g' s' Hn Hw Hg Hrun. unfold give_secret_file in Hrun.
  unfold must_be_ref in Hrun. quiet_step Hrun Hw.
  apply st_bind_ok_inv in Hrun as (b & s2 & Ht & Hrun).
  apply (take_inv v0) in Ht as [Hw' Hd]; [|done..]. clear Hw.
  do 3 (quiet_step Hrun Hw'). injection Hrun as <- <-. split; [done|].
  rewrite <-(app_nil_r (given_fds g)). apply given_env_more; [done| |constructor|].
  - apply Forall_singleton. split; [done|]. exists name, r. by left.
  - econstructor 3; [done|apply elem_of_app; right; by apply list_elem_of_singleton|done..].
Qed.

Lemma gives_secret_fd : gives (nm_fds N) (give_secret_fd take).
Proof.
  intros name r g s g' s' Hn Hw Hg Hrun. unfold give_secret_fd in Hrun.
  unfold must_be_ref in Hrun. quiet_step Hrun Hw.
  apply st_bind_ok_inv in Hrun as (b & s2 & Ht & Hrun).
  apply (take_inv v0) in Ht as [Hw' Hd]; [|done..]. clear Hw.
  do 6 (quiet_step Hrun Hw'). injection Hrun as <- <-. split; [done|].
  apply given_env_more; [done| | |].
  - apply Forall_singleton. split; [done|]. exists name, r. by right.
  - apply Forall_singleton. by exists name, r.
  - econstructor 4; [done|apply elem_of_app; right; by apply list_elem_of_singleton|done..].
Qed.

Lemma gives_each all give todo g s g' s' :
  gives all give → todo ⊆ all → within_terms v0 s → given_ok g →
  give_each give todo g s = (Ok g', s') →
  within_terms v0 s' ∧ given_ok g' ∧ (∀ n, n ∈ todo.*1 ∨ gave g n → gave g' n).
Proof.
  intros Hgive. revert g s. induction todo as [|[n r] todo IH]; intros g s Hall Hw Hg Hrun.
  - injection Hrun as <- <-. split_and!; [done..|]. intros n [Hn|Hn]; [by apply not_elem_of_nil in Hn|done].
  - cbn [give_each] in Hrun. apply st_bind_ok_inv in Hrun as (g1 & s1 & H1 & Hrun).
    destruct (Hgive n r _ _ _ _ (Hall _ (list_elem_of_here _ _)) Hw Hg H1) as (Hw1 & Hg1 & Hn & Hmore).
    destruct (IH g1 s1) as (Hw2 & Hg2 & Hhas); [|done..|].
    { intros x Hx. apply Hall. by right. }
    split_and!; [done..|]. intros n' [Hn'|Hn']; [|by auto].
    cbn in Hn'. apply elem_of_cons in Hn' as [->|Hn']; by auto.
Qed.
Lemma gives_all give values todo g s g' s' :
  gives todo give → parse_env_assignments values = Ok todo → within_terms v0 s → given_ok g →
  give_all give values g s = (Ok g', s') →
  within_terms v0 s' ∧ given_ok g' ∧ (∀ n, n ∈ todo.*1 ∨ gave g n → gave g' n).
Proof.
  intros Hgive Htodo Hw Hg Hrun. unfold give_all in Hrun. rewrite Htodo, st_lift_ok in Hrun.
  by eapply gives_each.
Qed.
Lemma give_all_parses give values g s g' s' :
  give_all give values g s = (Ok g', s') → ∃ todo, parse_env_assignments values = Ok todo.
Proof. intros (todo & s1 & [Hl _]%lift_ok_inv & _)%st_bind_ok_inv. by exists todo. Qed.

Lemma given_ok_start :
  given_ok {| given_env := nm_plain N; given_files := []; given_fds := [] |}.
Proof. split; [|constructor..]. intros name value Hin. by constructor 1. Qed.

Lemma stdin_secret_inv s b s' :
  within_terms v0 s → stdin_secret take (nm_stdin N) s = (Ok b, s') →
  match nm_stdin N with
  | None => b = None
  | Some secret_ref => ∃ secret, b = Some secret ∧ delivery Pipe secret_ref secret
  end.
Proof.
  intros Hw Hrun. destruct (nm_stdin N) as [r|]; [|by injection Hrun as <- _].
  unfold stdin_secret, must_be_ref in Hrun. quiet_step Hrun Hw.
  apply st_bind_ok_inv in Hrun as (x & s2 & Ht & Hrun). injection Hrun as <- _.
  apply (take_inv v0) in Ht as [_ Hd]; [|done..]. by exists x.
Qed.

(** The child of a run: every variable that was named and holds what it was named for, and the
    caller's other variables as they are; on the standard input, the secret named for it. *)
Record child_ok (command : list string) (child : Child) : Prop := {
  co_command : ch_program child :: ch_args child = command;
  co_env : ∀ name value, oget name (ch_env child) = Some value →
    oget name environ = Some value ∧ ¬ named N name ∨
    env_value (ch_files child) (ch_fds child) name value;
  co_named : ∀ name, named N name → is_Some (oget name (ch_env child));
  co_files : Forall file_ok (ch_files child);
  co_fds : Forall fd_ok (ch_fds child);
  co_stdin : match nm_stdin N with
    | None => ch_stdin child = None
    | Some secret_ref => ∃ secret, ch_stdin child = Some secret ∧ delivery Pipe secret_ref secret
    end;
}.

Lemma oget_envs child_env name value :
  oget name (envs child_env) = Some value →
  (oget name environ = Some value ∧ name ∉ child_env.*1) ∨ (name, value) ∈ child_env.
Proof.
  unfold envs. generalize environ as m. induction child_env as [|[k x] l IH]; intros m Hg.
  { left. split; [done|]. apply not_elem_of_nil. }
  cbn [fold_left fst snd] in Hg. apply IH in Hg as [[Hg Hl]|Hin]; [|right; by right].
  rewrite oget_oput in Hg. case_decide as Hk; [right; subst; injection Hg as ->; by left|].
  left. split; [done|]. cbn. by apply not_elem_of_cons.
Qed.
Lemma oget_fold_some (l m : omap string string) name :
  is_Some (oget name m) ∨ name ∈ l.*1 →
  is_Some (oget name (fold_left (λ m kv, oput kv.1 kv.2 m) l m)).
Proof.
  revert m. induction l as [|[k x] l IH]; intros m Hin; cbn [fold_left fst snd].
  { destruct Hin as [Hm|Hin]; [done|by apply not_elem_of_nil in Hin]. }
  apply IH. rewrite oget_oput. case_decide as Hk; [left; eauto|].
  destruct Hin as [Hm|Hin]; [by left|]. apply elem_of_cons in Hin as [->|Hin]; [done|by right].
Qed.
Lemma elem_of_oget_some (l : omap string string) name : name ∈ l.*1 → is_Some (oget name l).
Proof.
  induction l as [|[k x] l IH]; intros Hin; [by apply not_elem_of_nil in Hin|].
  cbn [oget]. destruct (decide _) as [|Hne]; [eauto|]. apply elem_of_cons in Hin as [->|Hin]; [done|auto].
Qed.
Lemma gave_elem g name : gave g name → name ∈ (given_env g).*1.
Proof. intros [x Hx]. apply oget_elem_of in Hx. apply list_elem_of_fmap. by exists (name, x). Qed.

Lemma exec_child_inv command g stdin s r s' :
  given_ok g → (∀ name, named N name → gave g name) →
  match nm_stdin N with
  | None => stdin = None
  | Some secret_ref => ∃ secret, stdin = Some secret ∧ delivery Pipe secret_ref secret
  end →
  exec_child command (given_env g) stdin (given_files g) (given_fds g) s = (r, s') →
  site_children s' = site_children s ∨
  ∃ child, site_children s' = site_children s ++ [child] ∧ child_ok command child.
Proof.
  intros Hg Hall Hs Hrun. destruct command as [|program args]; [by injection Hrun as _ <-; left|].
  unfold exec_child in Hrun. cbv zeta in Hrun. set (child := {| ch_program := program |}) in *.
  apply st_bind_cases in Hrun as [(e & s1 & Ha & Hrun)|(o & Ha & Hne & _)].
  2:{ left. pose proof (quiet_ask (E:=CliError) (λ i, run_child i child) s) as [_ Hk]. by rewrite Ha in Hk. }
  pose proof (quiet_ask (E:=CliError) (λ i, run_child i child) s) as [_ Hk]. rewrite Ha in Hk. simpl in Hk.
  destruct e as [|taken output]; [by injection Hrun as _ <-; left|].
  right. exists child. rewrite <-Hk.
  apply st_bind_cases in Hrun as [([] & s2 & Hr & Hrun)|(o & Hr & Hne & _)].
  2:{ injection Hr as <- _. by destruct (Hne tt). }
  injection Hr as <-. split.
  - match type of Hrun with ?m ?s0 = _ =>
      assert (keeps same_children m) as Hq by keeps_auto; specialize (Hq s0) end.
    rewrite Hrun in Hq. exact Hq.
  - split; simpl; [done| | |apply Hg..|done].
    + intros name value [[? Hn]|Hin]%oget_envs; [|right; by apply Hg].
      left. split; [done|]. by intros Hnm%Hall%gave_elem.
    + intros name Hn%Hall%gave_elem. apply oget_fold_some. by right.
Qed.
End given.

(** *** The loops start no child *)

Lemma children_give_each give todo g :
  (∀ n r g, keeps same_children (give n r g)) → keeps same_children (give_each give todo g).
Proof.
  intros Hg. revert g. induction todo as [|[n r] todo IH]; intros g; cbn [give_each]; [apply keeps_ret, _|].
  apply keeps_bind; [apply _|apply Hg|apply IH].
Qed.
Lemma children_give_all give values g :
  (∀ n r g, keeps same_children (give n r g)) → keeps same_children (give_all give values g).
Proof.
  intros Hg. apply keeps_bind; [apply _|apply keeps_lift, _|intros]. by apply children_give_each.
Qed.

Hint Resolve children_take : keeps.
Lemma children_gives c p pass mfa n r g :
  keeps same_children (give_secret_env (take_secret c p pass mfa) n r g) ∧
  keeps same_children (give_secret_file (take_secret c p pass mfa) n r g) ∧
  keeps same_children (give_secret_fd (take_secret c p pass mfa) n r g) ∧
  keeps same_children (give_reference (take_secret c p pass mfa) n r g).
Proof.
  unfold give_secret_env, give_secret_file, give_secret_fd, give_reference, must_be_ref,
    new_tempfile, check_io, make_fd_inheritable.
  split_and!; keeps_auto.
Qed.

Lemma verify_code_inv v0 passphrase code s mfa s' :
  within_terms v0 s → verify_code passphrase code s = (Ok mfa, s') →
  within_terms v0 s' ∧ mfa = bool_decide (is_Some code) ∧
  ∀ c, code = Some c → verify_totp_mfa passphrase c (site_world s) = (Ok tt, site_world s').
Proof.
  intros (v & Hrep & Ht) Hrun. destruct code as [c|]; simpl in Hrun.
  - apply st_bind_ok_inv in Hrun as ([] & s1 & Hv & Hrun). injection Hrun as <- <-.
    apply on_vault_ok_inv in Hv as [Hv _].
    destruct (verify_totp_inv _ _ _ _ _ Hrep Hv) as (v' & Hrep' & Ht').
    split; [exists v'; split; [done|by trans v]|]. split; [done|]. by intros c' [= <-].
  - injection Hrun as <- <-. split; [by exists v|]. by split.
Qed.

(** A step that starts no child: the run did not end in it. *)
Ltac childless_step Hrun a s H :=
  apply (keeps_bind_cases same_children) in Hrun as [?|(a & s & ? & H & Hrun)];
  [unfold same_children in *; congruence| |].

(** What the arguments of a run name. *)
Record names_of (a : RunArgs) (N : Named) : Prop := {
  no_plain : parse_env_assignments (run_env a) = Ok (nm_plain N);
  no_env : parse_env_assignments (run_secret_env a) = Ok (nm_env N);
  no_files : parse_env_assignments (run_secret_file_env a) = Ok (nm_files N);
  no_fds : parse_env_assignments (run_secret_fd_env a) = Ok (nm_fds N);
  no_stdin : run_secret_stdin a = nm_stdin N;
}.

(** The four loops and the standard input, as one step of a run. *)
Definition gather (take : DeliveryMode → string → ST Site CliError bytes) (a : RunArgs)
  : ST Site CliError (Given * option bytes) :=
  child_env ← lift (parse_env_assignments (run_env a));
  let g := {| given_env := child_env; given_files := []; given_fds := [] |} in
  g ← give_all (give_secret_env take) (run_secret_env a) g;
  g ← give_all (give_secret_file take) (run_secret_file_env a) g;
  g ← give_all (give_secret_fd take) (run_secret_fd_env a) g;
  stdin ← stdin_secret take (run_secret_stdin a);
  mret (g, stdin).

Lemma gather_inv v0 a p mfa s g stdin s' :
  0 <= geteuid <= u32_max → within_terms v0 s →
  gather (take_secret (run_consumer a) (run_purpose a) p mfa) a s = (Ok (g, stdin), s') →
  ∃ N, names_of a N ∧ given_ok v0 (run_consumer a) (run_purpose a) mfa N g ∧
    (∀ name, named N name → gave g name) ∧
    match nm_stdin N with
    | None => stdin = None
    | Some r => ∃ secret, stdin = Some secret ∧
        delivered v0 (run_consumer a) (run_purpose a) mfa Pipe r secret
    end.
Proof.
  intros Huid Hw Hrun. unfold gather in Hrun.
  apply st_bind_ok_inv in Hrun as (plain & s1 & [Hplain <-]%lift_ok_inv & Hrun).
  apply st_bind_ok_inv in Hrun as (g1 & s2 & H1 & Hrun). apply st_bind_ok_inv in Hrun as (g2 & s3 & H2 & Hrun).
  apply st_bind_ok_inv in Hrun as (g3 & s4 & H3 & Hrun). apply st_bind_ok_inv in Hrun as (i & s5 & H4 & Hrun).
  injection Hrun as <- <- <-.
  destruct (give_all_parses _ _ _ _ _ _ H1) as [env Henv]. destruct (give_all_parses _ _ _ _ _ _ H2) as [files Hfiles].
  destruct (give_all_parses _ _ _ _ _ _ H3) as [fds Hfds].
  set (N := {| nm_plain := plain; nm_env := env; nm_files := files; nm_fds := fds;
               nm_stdin := run_secret_stdin a |}). exists N.
  apply (gives_all v0 (run_consumer a) (run_purpose a) mfa N _ _ env) in H1 as (Hw1 & Hg1 & Hh1);
    [|by apply gives_secret_env|done|done|exact (given_ok_start v0 _ _ mfa N)].
  apply (gives_all v0 (run_consumer a) (run_purpose a) mfa N _ _ files) in H2 as (Hw2 & Hg2 & Hh2);
    [|by apply gives_secret_file|done..].
  apply (gives_all v0 (run_consumer a) (run_purpose a) mfa N _ _ fds) in H3 as (Hw3 & Hg3 & Hh3);
    [|by apply gives_secret_fd|done..].
  split; [by split|]. split; [done|]. split; [|by eapply (stdin_secret_inv v0 _ _ _ mfa N)].
  unfold named. intros name. rewrite !fmap_app, !elem_of_app. cbn. intros [Hn|[Hn|[Hn|Hn]]].
  - apply Hh3. right. apply Hh2. right. apply Hh1. right. by apply elem_of_oget_some.
  - apply Hh3. right. apply Hh2. right. apply Hh1. by left.
  - apply Hh3. right. apply Hh2. by left.
  - apply Hh3. by left.
Qed.

Lemma children_gather c p pass mfa a : keeps same_children (gather (take_secret c p pass mfa) a).
Proof.
  unfold gather. do 4 (apply keeps_bind; [apply _|first [by keeps_auto|by apply children_give_all; intros; apply children_gives]|intros]).
  apply keeps_bind; [apply _| |intros; apply keeps_ret, _].
  unfold stdin_secret, must_be_ref. keeps_auto.
Qed.
Lemma run_gathers a s :
  run_with_secrets a s =
  (_ ← guard_ (match strip_separator (run_command a) with [] => true | _ => false end)
        (Message "use hbse run --purpose <purpose> -- <command>");
   passphrase ← unlock_passphrase None;
   mfa_verified ← verify_code passphrase (run_mfa_code a);
   gi ← gather (take_secret (run_consumer a) (run_purpose a) passphrase mfa_verified) a;
   exec_child (strip_separator (run_command a)) (given_env gi.1) gi.2 (given_files gi.1) (given_fds gi.1)) s.
Proof.
  unfold run_with_secrets, gather. cbv zeta. unfold mbind, st_bind. 
  repeat (case_match; simplify_eq; try done).
Qed.

Lemma run_inv a s r s' v0 :
  0 <= geteuid <= u32_max → represents (db (site_world s)) v0 →
  run_with_secrets a s = (r, s') → site_children s' ≠ site_children s →
  ∃ passphrase mfa N child w, db w = db (site_world s) ∧
    mfa = bool_decide (is_Some (run_mfa_code a)) ∧
    (∀ code, run_mfa_code a = Some code → ∃ w', verify_totp_mfa passphrase code w = (Ok tt, w')) ∧
    names_of a N ∧ site_children s' = site_children s ++ [child] ∧
    child_ok v0 (run_consumer a) (run_purpose a) mfa N (strip_separator (run_command a)) child.
Proof.
  intros Huid Hrep Hrun Hne. rewrite run_gathers in Hrun.
  assert (Hw : within_terms v0 s) by (by exists v0).
  childless_step Hrun u s1 Hg; [|by keeps_auto].
  assert (s1 = s) as -> by (unfold guard_ in Hg; destruct (strip_separator _); [done|by injection Hg]).
  childless_step Hrun passphrase s1 Hp; [|apply keeps_quiet_children, quiet_unlock_passphrase].
  pose proof (quiet_unlock_passphrase None s) as Hq. rewrite Hp in Hq. destruct Hq as [Hd1 _].
  apply (quiet_run v0) in Hp as Hw1; [|apply quiet_unlock_passphrase|done].
  childless_step Hrun mfa s2 Hv; [|by unfold verify_code; keeps_auto].
  apply (verify_code_inv v0) in Hv as (Hw2 & Hmfa & Hcode); [|done].
  childless_step Hrun gi s3 He; [|apply children_gather]. destruct gi as [g stdin].
  destruct (gather_inv v0 a passphrase mfa s2 g stdin s3 Huid Hw2 He) as (N & HN & Hg' & Hall & Hstdin).
  assert (site_children s3 = site_children s) as Hch by (unfold same_children in *; congruence).
  destruct (exec_child_inv v0 _ _ _ N _ _ _ _ _ _ Hg' Hall Hstdin Hrun) as [Hc|(child & Hc & Hok)]; [congruence|].
  exists passphrase, mfa, N, child, (site_world s1).
  split_and!; [done|done|by intros code Hc'; eexists; apply Hcode|done|congruence|done].
Qed.

(** A file read through [fs::read_to_string]. *)
Lemma read_dotenv_inv path w text w' :
  read_dotenv path w = (Ok text, w') → db w' = db w ∧ read_file (tick w) path = Some text.
Proof.
  unfold read_dotenv. intros Hrun. apply st_bind_ok_inv in Hrun as (o & w1 & Hq & Hrun).
  injection Hq as <- <-. by apply lift_ok_inv in Hrun as [Ho%ok_or_ok_inv <-].
Qed.
Lemma parse_dotenv_inv path w values w' :
  parse_dotenv path w = (Ok values, w') → ∃ text, db w' = db w ∧
    read_file (tick w) path = Some text ∧ values = parse_lines (lines text).
Proof.
  unfold parse_dotenv. intros Hrun. apply st_bind_ok_inv in Hrun as (text & w1 & Hr & Hrun).
  injection Hrun as <- <-. apply read_dotenv_inv in Hr as []. by exists text.
Qed.
Lemma scan_dotenv_inv path w findings w' :
  scan_dotenv path w = (Ok findings, w') → ∃ text, db w' = db w ∧
    read_file (tick w) path = Some text ∧ findings = scan_lines 1 (lines text).
Proof.
  unfold scan_dotenv. intros Hrun. apply st_bind_ok_inv in Hrun as (text & w1 & Hr & Hrun).
  injection Hrun as <- <-. apply read_dotenv_inv in Hr as []. by exists text.
Qed.

Lemma references_env_only take todo g s g' s' :
  give_each (give_reference take) todo g s = (Ok g', s') →
  given_files g' = given_files g ∧ given_fds g' = given_fds g.
Proof.
  revert g s. induction todo as [|[n r] todo IH]; intros g s Hrun; [by injection Hrun as <- _|].
  cbn [give_each] in Hrun. apply st_bind_ok_inv in Hrun as (g1 & s1 & H1 & Hrun).
  unfold give_reference in H1. apply st_bind_ok_inv in H1 as (b & s2 & _ & H1).
  injection H1 as <- _. by apply IH in Hrun.
Qed.

(** What a file names: its assignments and its references. *)
Definition names_of_file (text : string) : Named :=
  let values := split_dotenv_values (parse_lines (lines text)) in
  {| nm_plain := values.1; nm_env := values.2; nm_files := []; nm_fds := []; nm_stdin := None |}.

Lemma dotenv_run_inv path consumer purpose command s r s' v0 :
  0 <= geteuid <= u32_max → represents (db (site_world s)) v0 →
  dotenv_run path consumer purpose command s = (r, s') → site_children s' ≠ site_children s →
  ∃ i j scanned parsed child, read_file i path = Some scanned ∧ read_file j path = Some parsed ∧
    existsb is_raw_finding (scan_lines 1 (lines scanned)) = false ∧
    site_children s' = site_children s ++ [child] ∧
    child_ok v0 consumer purpose false (names_of_file parsed) (strip_separator command) child.
Proof.
  intros Huid Hrep Hrun Hne. unfold dotenv_run in Hrun. cbv zeta in Hrun.
  childless_step Hrun u s1 Hg; [|by keeps_auto].
  assert (s1 = s) as -> by (unfold guard_ in Hg; destruct (strip_separator _); [done|by injection Hg]).
  childless_step Hrun findings s1 Hs; [|by keeps_auto].
  apply on_vault_ok_inv in Hs as [Hs _]. apply scan_dotenv_inv in Hs as (scanned & Hd1 & Hr1 & ->).
  destruct (existsb _ _) eqn:Hraw.
  { injection Hrun as _ <-. by destruct Hne. }
  childless_step Hrun values s2 Hs; [|by keeps_auto].
  apply on_vault_ok_inv in Hs as [Hs _]. apply parse_dotenv_inv in Hs as (parsed & Hd2 & Hr2 & ->).
  destruct (split_dotenv_values _) as [plain refs] eqn:Hsplit.
  assert (Hw2 : within_terms v0 s2) by (exists v0; by rewrite Hd2, Hd1).
  childless_step Hrun passphrase s3 Hp; [|apply keeps_quiet_children, quiet_unlock_passphrase].
  apply (quiet_run v0) in Hp as Hw3; [|apply quiet_unlock_passphrase|done].
  childless_step Hrun g s4 He; [|by apply children_give_each; intros; apply children_gives].
  apply references_env_only in He as Hg'. destruct Hg' as [Hgf Hgd].
  set (N := {| nm_plain := plain; nm_env := refs; nm_files := []; nm_fds := []; nm_stdin := None |}).
  assert (names_of_file parsed = N) as HN by (unfold names_of_file; by rewrite Hsplit).
  apply (gives_each v0 consumer purpose false N refs) in He as (_ & Hgv & Hhas);
    [|exact (gives_reference v0 _ _ _ _ N Huid)|done|done|exact (given_ok_start v0 _ _ _ N)].
  replace (exec_child _ _ _ [] []) with
    (exec_child (strip_separator command) (given_env g) None (given_files g) (given_fds g)) in Hrun
    by (by rewrite Hgf, Hgd).
  assert (∀ name, named N name → gave g name) as Hall.
  { unfold named. cbn. intros name. rewrite app_nil_r, fmap_app, elem_of_app.
    intros [Hn|Hn]; apply Hhas; [right; by apply elem_of_oget_some|by left]. }
  destruct (exec_child_inv v0 consumer purpose false N _ _ _ _ _ _ Hgv Hall eq_refl Hrun)
    as [Hc|(child & Hc & Hok)]; [unfold same_children in *; congruence|].
  exists (tick (site_world s)), (tick (site_world s1)), scanned, parsed, child. rewrite HN.
  split_and!; try done. unfold same_children in *; congruence.
Qed.
End run.

(** ** Properties *)

(** C21: hbse run gives a child what its caller named, and nothing else, and of secrets only what
    policies grant. When a run starts a child at all, on any store and whatever fails on the way,
    it starts exactly one; a given code was verified. Every variable named by --env, --secret-env,
    --secret-file-env or --secret-fd-env is set, and to what it was named for: the assigned value;
    the secret of its reference, released for the environment; the path of a private file with
    that secret, released for files; the number of a descriptor behind which it is, released for
    descriptors. Every other variable is the caller's own. Every file has mode 0600, and it and
    every descriptor hold a secret that was so named. The standard input holds the secret named by
    --secret-stdin, released for that, or is not touched. Released means: granted by a policy to
    this consumer, purpose and user, from an active version, through a ticket issued and used for
    this request. *)
Theorem run_child_within_policy {X : Ext} {HS : Host} {D : Disk} {HC : CodecLaws}
    {HT : ChronoLaws} {HH : HashLaws} a s r s' v :
  0 <= geteuid <= u32_max → represents (db (site_world s)) v →
  run_with_secrets a s = (r, s') → site_children s' ≠ site_children s →
  ∃ passphrase mfa N child w, db w = db (site_world s) ∧
    mfa = bool_decide (is_Some (run_mfa_code a)) ∧
    (∀ code, run_mfa_code a = Some code → ∃ w', verify_totp_mfa passphrase code w = (Ok tt, w')) ∧
    names_of a N ∧ site_children s' = site_children s ++ [child] ∧
    child_ok v (run_consumer a) (run_purpose a) mfa N (strip_separator (run_command a)) child.
Proof. apply run_inv. Qed.

Definition ticket_site : Site := {|
  site_world := ticket_world; site_files := ∅; site_out := []; site_children := [] |}.
Definition sample_run : RunArgs := {|
  run_consumer := "cli"; run_purpose := "deploy";
  run_secret_env := ["TOKEN=secret://default/api"];
  run_secret_file_env := ["TOKEN_FILE=secret://default/api"];
  run_secret_fd_env := ["TOKEN_FD=secret://default/api"];
  run_secret_stdin := Some "secret://default/api"; run_env := ["MODE=dev"];
  run_mfa_code := None; run_command := ["--"; "/usr/bin/deploy"; "-v"] |}.

(** A run that ended well and started a child. *)
Definition started (run : res CliError Z * Site) : bool :=
  match run with (Ok 0, s) => (length (site_children s) =? 1)%nat | _ => false end.
Lemma started_inv run :
  started run = true → ∃ s child, run = (Ok 0, s) ∧ site_children s = [child].
Proof.
  destruct run as [[[| |]| |] s]; try discriminate. simpl.
  destruct (site_children s) as [|c []] eqn:Hs; [discriminate|eauto|discriminate].
Qed.
Lemma sample_run_starts : started (run_with_secrets sample_run ticket_site) = true.
Proof. vm_compute. reflexivity. Qed.
Lemma toy_uid : 0 <= geteuid <= u32_max.
Proof. unfold u32_max. cbn. lia. Qed.

Lemma run_child_within_policy_witness : ∃ v s' child,
  run_with_secrets sample_run ticket_site = (Ok 0, s') ∧ site_children s' = [child] ∧
  child_ok v "cli" "deploy" false {|
    nm_plain := [("MODE", "dev")]; nm_env := [("TOKEN", "secret://default/api")];
    nm_files := [("TOKEN_FILE", "secret://default/api")];
    nm_fds := [("TOKEN_FD", "secret://default/api")]; nm_stdin := Some "secret://default/api" |}
    ["/usr/bin/deploy"; "-v"] child.
Proof.
  destruct ticket_vault as (kh & v & Hr).
  destruct (started_inv _ sample_run_starts) as (s' & child & Hrun & Hc).
  destruct (run_child_within_policy sample_run ticket_site _ s' v toy_uid (lv_rep _ _ _ (rd_live _ _ _ _ Hr))
    Hrun) as (p & mfa & N & child' & w & _ & Hm & _ & HN & Hc' & Hok).
  { rewrite Hc. discriminate. }
  rewrite Hc in Hc'. injection Hc' as <-. subst mfa. destruct N, HN as [Hp He Hf Hd Hs].
  injection Hp as <-. injection He as <-. injection Hf as <-. injection Hd as <-. simpl in Hs. subst.
  exists v, s', child. split; [exact Hrun|]. split; [exact Hc|exact Hok].
Defined.

(** C22: hbse dotenv run starts no child past a raw secret.  When it starts a child at all, on
    any store and whatever fails on the way, the file as it was scanned held no line reported
    as a raw secret, it starts exactly one child; every variable the file assigns is set, to the
    value of its assignment if that is not a reference, and else to the secret of that reference,
    which a ticket released for the environment of this consumer's child; every other variable is
    the caller's own.  The file is read twice:
    the text that was scanned and the text that was used are two readings of one path. *)
Theorem dotenv_child_within_policy {X : Ext} {HS : Host} {D : Disk} {HC : CodecLaws}
    {HT : ChronoLaws} {HH : HashLaws} path consumer purpose command s r s' v :
  0 <= geteuid <= u32_max → represents (db (site_world s)) v →
  dotenv_run path consumer purpose command s = (r, s') → site_children s' ≠ site_children s →
  ∃ i j scanned parsed child, read_file i path = Some scanned ∧ read_file j path = Some parsed ∧
    existsb is_raw_finding (scan_lines 1 (lines scanned)) = false ∧
    site_children s' = site_children s ++ [child] ∧
    child_ok v consumer purpose false (names_of_file parsed) (strip_separator command) child.
Proof. apply dotenv_run_inv. Qed.

Lemma dotenv_run_starts :
  started (dotenv_run "/home/alice/.env" "cli" "deploy" ["--"; "/usr/bin/deploy"] ticket_site) = true.
Proof. vm_compute. reflexivity. Qed.
Lemma dotenv_child_within_policy_witness : ∃ v s' child text,
  dotenv_run "/home/alice/.env" "cli" "deploy" ["--"; "/usr/bin/deploy"] ticket_site = (Ok 0, s') ∧
  site_children s' = [child] ∧ child_ok v "cli" "deploy" false (names_of_file text) ["/usr/bin/deploy"] child.
Proof.
  destruct ticket_vault as (kh & v & Hr).
  destruct (started_inv _ dotenv_run_starts) as (s' & child & Hrun & Hc).
  destruct (dotenv_child_within_policy "/home/alice/.env" "cli" "deploy" ["--"; "/usr/bin/deploy"]
    ticket_site _ s' v toy_uid (lv_rep _ _ _ (rd_live _ _ _ _ Hr)) Hrun)
    as (i & j & scanned & parsed & child' & _ & _ & _ & Hc' & Hok).
  { rewrite Hc. discriminate. }
  rewrite Hc in Hc'. injection Hc' as <-. eexists v, s', child, _.
  split; [exact Hrun|]. split; [exact Hc|exact Hok].
Defined.
