(* ===== verification/CliVault.v ===== *)
(** * The commands over the vault (main.rs)

    The branches of [run] for vault, secret, audit, policy, config, ticket, rotation, mfa and
    lockdown: what each asks of the vault and what it prints.  The arguments are those clap
    makes of the command line, defaults filled in.  A command ends with an exit code; an error
    that [main] reports ends it with 1. *)

From S2P Require Export Cli.
#[local] Open Scope Z_scope.

(** ** Arguments *)

Inductive VaultCommand : Type :=
| VaultInit (namespace provider tpm_device : string) (passphrase : option string)
| VaultStatus
| VaultBackup (destination : string)
| VaultRestore (source : string)
| VaultRecoveryCreate (destination : string) (passphrase recovery_secret : option string)
    (mnemonic show_recovery_secret : bool)
| VaultRecoveryInspect (package : string) (recovery_secret recovery_mnemonic : option string)
| VaultRecover (package : string) (recovery_secret recovery_mnemonic : option string)
    (new_provider : string) (new_passphrase : option string) (tpm_device : string).

Inductive SecretCommand : Type :=
| SecretPut (secret_ref : string) (value : option string) (stdin : bool) (secret_type : string)
    (passphrase : option string)
| SecretGet (secret_ref : string) (passphrase : option string) (allow_plaintext : bool)
    (mfa_code : option string)
| SecretInspect (secret_ref : string)
| SecretDisable (secret_ref : string) (passphrase : option string)
| SecretDestroy (secret_ref : string) (passphrase : option string) (reason : string)
| SecretList.

Inductive AuditCommand : Type :=
| AuditList (event_type : option string) (limit : option Z)
| AuditExport (destination : string) (event_type : option string)
| AuditVerify (passphrase : option string).

(** What a command says of the access it asks for. *)
Record RequestArgs : Type := {
  ra_consumer : string;
  ra_purpose : string;
  ra_delivery_mode : string;
  ra_raw_export_requested : bool;
  ra_provider_assurance : option string;
  ra_http : HttpFlags;
}.

Inductive PolicyCommand : Type :=
| PolicyPut (file : option string) (stdin : bool) (passphrase : option string)
| PolicyList
| PolicyExport (destination : option string)
| PolicyHash (file : option string) (stdin : bool)
| PolicyTest (secret_ref : string) (args : RequestArgs).

Inductive ConfigCommand : Type :=
| ExportStatus
| ExportEnable (passphrase mfa_code : option string) (allow_without_mfa : bool)
| ExportDisable (passphrase mfa_code : option string).

Inductive TicketCommand : Type :=
| TicketList
| TicketInspect (ticket_id : string)
| TicketIssue (secret_ref : string) (args : RequestArgs) (passphrase : option string)
| TicketRevoke (ticket_id : string) (passphrase : option string)
| TicketValidate (ticket_id : string) (args : RequestArgs) (passphrase : option string)
| TicketRenew (ticket_id : string) (args : RequestArgs) (passphrase : option string)
| TicketConsume (ticket_id : string) (args : RequestArgs) (passphrase : option string)
    (allow_plaintext : bool) (mfa_code : option string).

Inductive RotationCommand : Type :=
| RotationStart (secret_ref : string) (value : option string) (stdin : bool)
    (secret_type : string) (passphrase : option string)
| RotationVerify (id : string) (passphrase : option string)
| RotationPromote (id : string) (passphrase : option string)
| RotationRollback (id : string) (passphrase : option string)
| RotationList.

Inductive MfaCommand : Type :=
| EnrollTotpCommand (issuer : string) (account passphrase : option string) (show_secret : bool)
| VerifyTotpCommand (code : string) (passphrase : option string)
| MfaStatus.

(** ** What is printed *)

Definition TAB : string := String (ascii_of_nat 9) EmptyString.
Definition columns (fields : list string) : string := Text.join TAB fields.
Definition bool_text (b : bool) : string := if b then "true" else "false".

Definition SecretSummary_fields (s : SecretSummary) : list (string * json) :=
  [ ("secret_ref", JStr (sum_secret_ref s)); ("secret_id", JStr (sum_secret_id s));
    ("namespace_id", JStr (sum_namespace_id s));
    ("latest_version", ser_u64 (sum_latest_version s)); ("status", JStr (sum_status s));
    ("secret_type", JStr (sum_secret_type s)); ("created_at", JStr (sum_created_at s)) ].
Definition TotpEnrollment_fields (e : TotpEnrollment) : list (string * json) :=
  [ ("issuer", JStr (enr_issuer e)); ("account", JStr (enr_account e));
    ("algorithm", JStr (enr_algorithm e)); ("digits", ser_u64 (enr_digits e));
    ("period_seconds", ser_u64 (enr_period_seconds e));
    ("secret_base32", JStr (enr_secret_base32 e)); ("otpauth_uri", JStr (enr_otpauth_uri e)) ].

Definition secret_type_string (t : SecretType) : string := enum_string t.
Definition secret_record_summary (r : SecretRecord) : json := obj [
  ("secret_ref", JStr (rec_secret_ref r)); ("secret_id", JStr (rec_secret_id r));
  ("namespace_id", JStr (rec_namespace_id r));
  ("latest_version", ser_u64 (rec_secret_version r));
  ("status", JStr (status_string (rec_status r)));
  ("secret_type", JStr (secret_type_string (rec_secret_type r)));
  ("created_at", JStr (rec_created_at r)); ("policy_id", JStr (rec_policy_id r));
  ("policy_hash", JStr (rec_policy_hash r)); ("metadata_hash", JStr (rec_metadata_hash r));
  ("provider_policy_hash", JStr (rec_provider_policy_hash r));
  ("algorithm_id", JStr (rec_algorithm_id r));
  ("wrap_algorithm_id", JStr (rec_wrap_algorithm_id r));
  ("secret_aad_hash", JStr (rec_secret_aad_hash r));
  ("dek_wrap_aad_hash", JStr (rec_dek_wrap_aad_hash r)) ].

Section commands.
Context `{Ext, Host, Disk}.
Abbreviation CLI := (ST Site CliError).
(** The path of the vault, and whether JSON is asked for. *)
Context (vault_path : string) (as_json : bool).

Definition print_json (v : json) : CLI unit := println (json_to_string_pretty v).
Fixpoint print_lines (text : list string) : CLI unit :=
  match text with [] => mret tt | line :: text => _ ← println line; print_lines text end.
Definition report (v : json) (text : list string) : CLI unit :=
  if as_json then print_json v else print_lines text.
(** The last step of a command that did not exit by itself. *)
Definition ends (m : CLI unit) : CLI Z := _ ← m; mret 0.

Definition print_vault_status (header : VaultHeader) (as_json : bool) : CLI unit :=
  let status key := opt_str (binding_str key header) in
  if as_json then print_json (obj [
    ("vault_id", JStr (hd_vault_id header)); ("namespace_id", JStr (hd_namespace_id header));
    ("schema_version", ser_u64 (hd_schema_version header));
    ("created_at", JStr (hd_created_at header)); ("provider_id", status "provider_id");
    ("assurance_level", status "assurance_level") ])
  else print_lines [
    "vault_id: " +:+ hd_vault_id header; "namespace_id: " +:+ hd_namespace_id header;
    "provider_id: " +:+ default "unknown" (binding_str "provider_id" header);
    "assurance_level: " +:+ default "unknown" (binding_str "assurance_level" header) ]%string.
Definition print_secret_update (r : SecretRecord) (action : string) : CLI unit :=
  report (obj [ ("secret_ref", JStr (rec_secret_ref r));
                ("version", ser_u64 (rec_secret_version r));
                ("status", JStr (status_string (rec_status r))) ])
    [ action +:+ " " +:+ rec_secret_ref r +:+ " version " +:+ dec (rec_secret_version r) ]%string.
Definition print_rotation_job (job : RotationJob) : CLI unit :=
  report (to_value job)
    [ job_id job +:+ " " +:+ job_secret_ref job +:+ " version " +:+ dec (job_staged_version job)
      +:+ " " +:+ rotation_state_string (job_status job) ]%string.
(** [print!("{}", String::from_utf8_lossy(&plaintext))]. *)
Definition print_plaintext (plaintext : bytes) : CLI unit := print (from_utf8_lossy plaintext).

(** ** vault *)

Definition not_both (a b : bool) (why : string) : CLI unit := guard_ (a && b) (Message why).

Definition vault_init (namespace provider tpm_device : string) (passphrase : option string)
  : CLI unit :=
  header ← (if String.eqb provider "passphrase" then
              passphrase ← lift (passphrase_or_env passphrase);
              on_vault (init_passphrase passphrase namespace)
            else if String.eqb provider "tpm2" then on_vault (init_tpm2 namespace tpm_device)
            else if String.eqb provider "tpm2-direct" || String.eqb provider "tpm2-esapi"
            then on_vault (init_tpm2_esapi namespace tpm_device)
            else if String.eqb provider "system-fingerprint"
            then on_vault (init_system_fingerprint namespace)
            else throw (Message ("unsupported provider: " +:+ provider)));
  print_vault_status header as_json.

Definition recovery_create (destination : string) (passphrase recovery_secret : option string)
  (mnemonic show_recovery_secret : bool) : CLI unit :=
  passphrase ← unlock_passphrase passphrase;
  _ ← not_both mnemonic (bool_decide (is_Some recovery_secret))
        "use either --mnemonic or --recovery-secret, not both";
  recovery_secret ← (if mnemonic then on_vault (generate_mnemonic_phrase (E:=CliError))
                     else lift (recovery_secret_or_env recovery_secret));
  package ← on_vault (create_recovery_package (Some passphrase) recovery_secret);
  _ ← try_ (RecoveryPackage_write package destination);
  report (obj ([ ("recovery_id", JStr (pkg_recovery_id package));
                 ("vault_id", JStr (pkg_vault_id package)); ("destination", JStr destination);
                 ("recovery_secret_format", JStr (if mnemonic then "hbse-mnemonic-v1" else "secret")) ] ++
               (if mnemonic then
                  ("recovery_secret_display",
                    JStr (if show_recovery_secret then "included" else "suppressed")) ::
                  (if show_recovery_secret then [("recovery_mnemonic", JStr recovery_secret)] else [])
                else [])))
    (("recovery package created: " +:+ destination)%string ::
     (if mnemonic then
        if show_recovery_secret
        then [ ("recovery_mnemonic: " +:+ recovery_secret)%string;
               "Store this mnemonic separately. It is shown only now." ]
        else [ "recovery_mnemonic: suppressed (rerun with --show-recovery-secret only in a private terminal)" ]
      else [])).

(** [.ok()] of a result: an error is dropped, a panic is not. *)
Definition ok_ {W E F A} (m : ST W E A) : ST W F (option A) :=
  r ← attempt m;
  match r with Ok a => mret (Some a) | Err _ => mret None | Panic => panic end.

Definition recovery_inspect (path : string) (recovery_secret recovery_mnemonic : option string)
  : CLI unit :=
  _ ← not_both (bool_decide (is_Some recovery_secret)) (bool_decide (is_Some recovery_mnemonic))
        "use either --recovery-secret or --recovery-mnemonic, not both";
  package ← try_ (RecoveryPackage_read path);
  header ← on_vault (ok_ (F:=CliError) LocalVault_status);
  let vault_id := default EmptyString (hd_vault_id <$> header) in
  let vault_matches := negb (is_empty vault_id) && String.eqb (pkg_vault_id package) vault_id in
  let secret := match normalize_mnemonic_phrase <$> recovery_mnemonic with
                | Some phrase => Some phrase
                | None => or_env recovery_secret HBSE_RECOVERY_SECRET
                end in
  verification ← match secret with
                 | Some secret => match RecoveryManager_unwrap_root_key package secret with
                                  | Ok _ => mret "verified"
                                  | Err _ => mret "failed"
                                  | Panic => panic
                                  end
                 | None => mret "not_checked"
                 end;
  report (obj [ ("format_version", ser_u64 (pkg_format_version package));
                ("recovery_id", JStr (pkg_recovery_id package));
                ("vault_id", JStr (pkg_vault_id package));
                ("created_at", JStr (pkg_created_at package));
                ("vault_matches_current", JBool vault_matches);
                ("secret_verification", JStr verification);
                ("warning", JStr (pkg_warning package)) ])
    [ "recovery_id: " +:+ pkg_recovery_id package; "vault_id: " +:+ pkg_vault_id package;
      "created_at: " +:+ pkg_created_at package;
      "vault_matches_current: " +:+ bool_text vault_matches;
      "secret_verification: " +:+ verification ]%string.

Definition recover (path : string) (recovery_secret recovery_mnemonic : option string)
  (new_provider : string) (new_passphrase : option string) (tpm_device : string) : CLI unit :=
  _ ← not_both (bool_decide (is_Some recovery_secret)) (bool_decide (is_Some recovery_mnemonic))
        "use either --recovery-secret or --recovery-mnemonic, not both";
  package ← try_ (RecoveryPackage_read path);
  recovery_secret ← match recovery_mnemonic with
                    | Some mnemonic => mret (normalize_mnemonic_phrase mnemonic)
                    | None => lift (recovery_secret_or_env recovery_secret)
                    end;
  header ← on_vault (recover_provider_from_package package recovery_secret new_provider
                       new_passphrase tpm_device);
  if as_json then print_vault_status header true
  else println ("recovered vault " +:+ hd_vault_id header +:+ " to provider " +:+
                default "unknown" (binding_str "provider_id" header))%string.

(** What the restored file holds is what the next command finds; this one ends. *)
Definition vault_command (c : VaultCommand) : CLI unit :=
  match c with
  | VaultInit namespace provider tpm_device passphrase =>
      vault_init namespace provider tpm_device passphrase
  | VaultStatus => header ← on_vault LocalVault_status; print_vault_status header as_json
  | VaultBackup destination =>
      manifest ← try_ (create_backup destination);
      report (to_value manifest) [ "backup created: " +:+ destination;
                                   "vault_id: " +:+ bk_vault_id manifest ]%string
  | VaultRestore source =>
      manifest ← try_ (restore_backup source vault_path);
      report (to_value manifest) [ "backup restored for vault " +:+ bk_vault_id manifest ]%string
  | VaultRecoveryCreate destination passphrase recovery_secret mnemonic show =>
      recovery_create destination passphrase recovery_secret mnemonic show
  | VaultRecoveryInspect package recovery_secret recovery_mnemonic =>
      recovery_inspect package recovery_secret recovery_mnemonic
  | VaultRecover package recovery_secret recovery_mnemonic new_provider new_passphrase device =>
      recover package recovery_secret recovery_mnemonic new_provider new_passphrase device
  end.

(** ** secret *)

Definition secret_command (c : SecretCommand) : CLI unit :=
  match c with
  | SecretPut secret_ref value stdin secret_type passphrase =>
      passphrase ← unlock_passphrase passphrase;
      plaintext ← read_secret_value value stdin;
      secret_type ← lift (parse_secret_type secret_type);
      version ← on_vault (put_secret secret_ref (as_bytes plaintext) passphrase secret_type);
      report (obj [("secret_ref", JStr secret_ref); ("version", ser_u64 version)])
        [ "stored " +:+ secret_ref +:+ " version " +:+ dec version ]%string
  | SecretGet secret_ref passphrase allow_plaintext mfa_code =>
      passphrase ← plaintext_export_passphrase passphrase allow_plaintext mfa_code;
      plaintext ← on_vault (get_secret secret_ref passphrase);
      print_plaintext plaintext
  | SecretInspect secret_ref =>
      record ← on_vault (LocalVault_load_latest_secret secret_ref);
      report (secret_record_summary record)
        [ "secret_ref: " +:+ rec_secret_ref record; "secret_id: " +:+ rec_secret_id record;
          "version: " +:+ dec (rec_secret_version record);
          "status: " +:+ status_string (rec_status record);
          "secret_type: " +:+ secret_type_string (rec_secret_type record);
          "created_at: " +:+ rec_created_at record; "policy_id: " +:+ rec_policy_id record ]%string
  | SecretDisable secret_ref passphrase =>
      passphrase ← unlock_passphrase passphrase;
      record ← on_vault (disable_secret secret_ref passphrase);
      print_secret_update record "disabled"
  | SecretDestroy secret_ref passphrase why =>
      _ ← guard_ (is_empty (trim why)) (Message "destroy reason must not be empty");
      passphrase ← unlock_passphrase passphrase;
      record ← on_vault (destroy_secret secret_ref passphrase);
      print_secret_update record "destroyed"
  | SecretList =>
      summaries ← on_vault LocalVault_list_secrets;
      report (JArr ((λ s, obj (SecretSummary_fields s)) <$> summaries))
        ((λ s, columns [sum_secret_ref s; dec (sum_latest_version s); sum_status s;
                        sum_secret_type s]) <$> summaries)
  end.

(** ** audit *)

Definition of_type (event_type : option string) (events : list AuditEvent) : list AuditEvent :=
  match event_type with
  | Some event_type => List.filter (λ e, String.eqb (ev_event_type e) event_type) events
  | None => events
  end.
(** [split_off(len - limit)] of a longer list. *)
Definition newest (limit : option Z) (events : list AuditEvent) : list AuditEvent :=
  match limit with
  | Some limit => if limit <? Z.of_nat (length events)
                  then drop (length events - Z.to_nat limit) events else events
  | None => events
  end.
(** The directory a file is written to. *)
Definition make_parent (destination : string) : CLI unit :=
  match parent destination with
  | Some parent => try_ (create_dir_all parent)
  | None => mret tt
  end.
Definition write_text (destination text : string) : CLI unit :=
  _ ← make_parent destination; try_ (fs_write destination (as_bytes (text +:+ String LF ""))).

Definition audit_command (c : AuditCommand) : CLI unit :=
  match c with
  | AuditList event_type limit =>
      events ← on_vault LocalVault_list_audit_events;
      let events := newest limit (of_type event_type events) in
      report (JArr (to_value <$> events))
        ((λ e, columns [ev_timestamp e; ev_event_type e; ev_severity e; ev_decision e;
                        ev_event_id e]) <$> events)
  | AuditExport destination event_type =>
      events ← on_vault LocalVault_list_audit_events;
      let events := of_type event_type events in
      _ ← write_text destination
            (json_to_string_pretty (obj [("events", JArr (to_value <$> events))]));
      report (obj [("destination", JStr destination)])
        [ "audit exported: " +:+ destination ]%string
  | AuditVerify passphrase =>
      passphrase ← unlock_passphrase passphrase;
      _ ← on_vault (verify_audit passphrase);
      report (obj [("verified", JBool true)]) ["audit chain verified"]
  end.

(** ** policy *)

Definition read_policy (file : option string) (stdin : bool) : CLI AccessPolicy :=
  raw ← read_text_input file stdin; lift (ok_or CliJson (from_str raw)).
Definition args_request (secret_ref : string) (args : RequestArgs) (raw_export_requested : bool)
  : CLI AccessRequest :=
  build_access_request secret_ref (ra_consumer args) (ra_purpose args) (ra_delivery_mode args)
    raw_export_requested (ra_provider_assurance args) (ra_http args).

Definition policy_command (c : PolicyCommand) : CLI unit :=
  match c with
  | PolicyPut file stdin passphrase =>
      passphrase ← unlock_passphrase passphrase;
      policy ← read_policy file stdin;
      policy ← on_vault (LocalVault_save_policy policy passphrase);
      report (to_value policy) [ "saved policy " +:+ pol_policy_id policy ]%string
  | PolicyList =>
      policies ← on_vault LocalVault_list_policies;
      report (JArr (to_value <$> policies)) (pol_policy_id <$> policies)
  | PolicyExport destination =>
      policies ← on_vault LocalVault_list_policies;
      let output := json_to_string_pretty (obj [("policies", JArr (to_value <$> policies))]) in
      match destination with
      | Some destination =>
          _ ← write_text destination output;
          report (obj [("destination", JStr destination)])
            [ "policy exported: " +:+ destination ]%string
      | None => println output
      end
  | PolicyHash file stdin =>
      policy ← read_policy file stdin;
      hash ← lift (policy_hash policy);
      report (obj [("policy_id", JStr (pol_policy_id policy)); ("policy_hash", JStr hash)]) [hash]
  | PolicyTest secret_ref args =>
      request ← args_request secret_ref args (ra_raw_export_requested args);
      result ← on_vault (LocalVault_evaluate_policy request);
      let '(allowed, why, policy_id) := result in
      let decision := if allowed : bool then "allow" else "deny" in
      report (obj [("decision", JStr decision); ("reason", JStr why);
                   ("policy_id", opt_str policy_id)])
        [ decision +:+ ": " +:+ why ]%string
  end.

(** ** config *)

Definition config_command (c : ConfigCommand) : CLI unit :=
  match c with
  | ExportStatus =>
      enabled ← on_vault plaintext_export_enabled;
      mfa_enrolled ← on_vault totp_mfa_enrolled;
      report (obj [("plaintext_export_enabled", JBool enabled);
                   ("totp_mfa_enrolled", JBool mfa_enrolled);
                   ("mfa_required_for_plaintext_export", JBool (enabled && mfa_enrolled))])
        [ "plaintext_export: " +:+ (if enabled : bool then "enabled" else "disabled");
          "totp_mfa: " +:+ (if mfa_enrolled : bool then "enrolled" else "not enrolled");
          "mfa_required_for_plaintext_export: " +:+ bool_text (enabled && mfa_enrolled) ]%string
  | ExportEnable passphrase mfa_code allow_without_mfa =>
      passphrase ← config_change_passphrase passphrase mfa_code;
      _ ← on_vault (set_plaintext_export_enabled passphrase true allow_without_mfa);
      println "plaintext export enabled"
  | ExportDisable passphrase mfa_code =>
      passphrase ← config_change_passphrase passphrase mfa_code;
      _ ← on_vault (set_plaintext_export_enabled passphrase false true);
      println "plaintext export disabled"
  end.

(** ** ticket *)

(** The request for a stored ticket's secret. *)
Definition ticket_request_for (ticket_id : string) (args : RequestArgs) (raw : bool)
  : CLI AccessRequest :=
  ticket ← on_vault (LocalVault_load_ticket ticket_id);
  args_request (tk_secret_ref ticket) args raw.

Definition ticket_command (c : TicketCommand) : CLI unit :=
  match c with
  | TicketList =>
      tickets ← on_vault LocalVault_list_tickets;
      report (JArr (to_value <$> tickets))
        ((λ t, columns [tk_ticket_id t; tk_secret_ref t; tk_consumer t; tk_purpose t;
                        delivery_mode_string (tk_delivery_mode t);
                        if tk_revoked t then "revoked" else "active"]) <$> tickets)
  | TicketInspect ticket_id =>
      t ← on_vault (LocalVault_load_ticket ticket_id);
      report (to_value t)
        [ "ticket_id: " +:+ tk_ticket_id t; "secret_ref: " +:+ tk_secret_ref t;
          "consumer: " +:+ tk_consumer t; "purpose: " +:+ tk_purpose t;
          "delivery_mode: " +:+ delivery_mode_string (tk_delivery_mode t);
          "uses_remaining: " +:+ dec (tk_uses_remaining t);
          "revoked: " +:+ bool_text (tk_revoked t); "expires_at: " +:+ tk_expires_at t ]%string
  | TicketIssue secret_ref args passphrase =>
      passphrase ← unlock_passphrase passphrase;
      request ← args_request secret_ref args (ra_raw_export_requested args);
      ticket ← on_vault (issue_ticket request passphrase);
      print_json (to_value ticket)
  | TicketRevoke ticket_id passphrase =>
      passphrase ← unlock_passphrase passphrase;
      ticket ← on_vault (revoke_ticket ticket_id passphrase);
      report (to_value ticket) [ "revoked ticket " +:+ tk_ticket_id ticket ]%string
  | TicketValidate ticket_id args passphrase =>
      passphrase ← unlock_passphrase passphrase;
      request ← ticket_request_for ticket_id args (ra_raw_export_requested args);
      ticket ← on_vault (validate_ticket ticket_id request passphrase);
      report (to_value ticket) [ "ticket " +:+ tk_ticket_id ticket +:+ " valid" ]%string
  | TicketRenew ticket_id args passphrase =>
      passphrase ← unlock_passphrase passphrase;
      request ← ticket_request_for ticket_id args (ra_raw_export_requested args);
      ticket ← on_vault (renew_ticket ticket_id request passphrase);
      print_json (to_value ticket)
  | TicketConsume ticket_id args passphrase allow_plaintext mfa_code =>
      passphrase ← plaintext_export_passphrase passphrase allow_plaintext mfa_code;
      request ← ticket_request_for ticket_id args true;
      plaintext ← on_vault (consume_ticket_for_secret ticket_id request passphrase);
      print_plaintext plaintext
  end.

(** ** rotation *)

Definition rotation_command (c : RotationCommand) : CLI unit :=
  match c with
  | RotationStart secret_ref value stdin secret_type passphrase =>
      passphrase ← unlock_passphrase passphrase;
      plaintext ← read_secret_value value stdin;
      secret_type ← lift (parse_secret_type secret_type);
      job ← on_vault (start_rotation secret_ref (as_bytes plaintext) passphrase secret_type);
      print_rotation_job job
  | RotationVerify id passphrase =>
      passphrase ← unlock_passphrase passphrase;
      job ← on_vault (verify_rotation id passphrase);
      print_rotation_job job
  | RotationPromote id passphrase =>
      passphrase ← unlock_passphrase passphrase;
      job ← on_vault (promote_rotation id passphrase);
      print_rotation_job job
  | RotationRollback id passphrase =>
      passphrase ← unlock_passphrase passphrase;
      job ← on_vault (rollback_rotation id passphrase);
      print_rotation_job job
  | RotationList =>
      jobs ← on_vault LocalVault_list_rotation_jobs;
      report (JArr (to_value <$> jobs))
        ((λ job, columns [job_id job; job_secret_ref job; dec (job_staged_version job);
                          rotation_state_string (job_status job)]) <$> jobs)
  end.

(** ** mfa and lockdown *)

Definition show_hint : string :=
  "rerun with --show-secret only in a private terminal to display enrollment material".
Definition enroll_totp (issuer : string) (account passphrase : option string)
  (show_secret : bool) : CLI unit :=
  passphrase ← unlock_passphrase passphrase;
  account ← match account with
            | Some account => mret account
            | None => header ← on_vault (ok_ (F:=CliError) LocalVault_status);
                      mret (default "local-vault" (hd_namespace_id <$> header))
            end;
  e ← on_vault (enroll_totp_mfa passphrase issuer account);
  report (if show_secret then obj (TotpEnrollment_fields e)
          else obj [("issuer", JStr (enr_issuer e)); ("account", JStr (enr_account e));
                    ("secret_display", JStr "suppressed"); ("hint", JStr show_hint)])
    ([ "TOTP MFA enrolled"; "issuer: " +:+ enr_issuer e; "account: " +:+ enr_account e ]%string ++
     if show_secret
     then [ "secret_base32: " +:+ enr_secret_base32 e; "otpauth_uri: " +:+ enr_otpauth_uri e ]%string
     else [ "secret_base32: suppressed"; "otpauth_uri: suppressed"; show_hint ]).

Definition mfa_command (c : MfaCommand) : CLI unit :=
  match c with
  | EnrollTotpCommand issuer account passphrase show_secret =>
      enroll_totp issuer account passphrase show_secret
  | VerifyTotpCommand code passphrase =>
      passphrase ← unlock_passphrase passphrase;
      _ ← on_vault (verify_totp_mfa passphrase code);
      report (obj [("ok", JBool true)]) ["TOTP MFA verified"]
  | MfaStatus =>
      enrolled ← on_vault totp_mfa_enrolled;
      report (obj [("totp_enrolled", JBool enrolled)])
        [ if enrolled : bool then "TOTP MFA enrolled" else "TOTP MFA not enrolled" ]
  end.

Definition lockdown (why : string) (passphrase : option string) : CLI unit :=
  passphrase ← unlock_passphrase passphrase;
  count ← on_vault (revoke_all_tickets passphrase why);
  report (obj [("revoked_tickets", ser_u64 count); ("reason", JStr why)])
    [ "Revoked " +:+ dec count +:+ " ticket(s)" ]%string.
End commands.
