(* ===== verification/CliProviders.v ===== *)
(** * The commands on providers and model providers (main.rs)

    Listing, testing and enrolling the providers of a vault's root key; the presets for model
    providers, and the set-up of one: the key is stored, a policy for it is saved, and the
    command of the gateway that serves it is printed. *)

From S2P Require Export CliVault.
#[local] Open Scope Z_scope.

Inductive ProviderCommand : Type :=
| ProviderList (device : string)
| ProviderDetect (device : string)
| TestTpm2 (device : string)
| TestTpm2Direct (device : string)
| TestSystemFingerprint
| TestYubikeyPiv
| ProviderEnroll (provider : string) (current_passphrase new_passphrase : option string)
    (tpm_device : string).

Record ModelProviderPreset : Type := {
  mp_id : string;
  mp_display_name : string;
  mp_base_url : string;
  mp_credential_header : string;
  mp_credential_prefix : string;
  mp_note : string;
}.
Definition ModelProviderPreset_fields (p : ModelProviderPreset) : list (string * json) :=
  [ ("id", JStr (mp_id p)); ("display_name", JStr (mp_display_name p));
    ("base_url", JStr (mp_base_url p)); ("credential_header", JStr (mp_credential_header p));
    ("credential_prefix", JStr (mp_credential_prefix p)); ("note", JStr (mp_note p)) ].

Definition bearer_preset (id display_name base_url note : string) : ModelProviderPreset := {|
  mp_id := id; mp_display_name := display_name; mp_base_url := base_url;
  mp_credential_header := "Authorization"; mp_credential_prefix := "Bearer "; mp_note := note |}.
Definition plain_preset (id display_name base_url header note : string) : ModelProviderPreset := {|
  mp_id := id; mp_display_name := display_name; mp_base_url := base_url;
  mp_credential_header := header; mp_credential_prefix := ""; mp_note := note |}.

Definition model_provider_presets : list ModelProviderPreset :=
  [ bearer_preset "openai" "OpenAI" "https://api.openai.com/v1" "OpenAI-compatible";
    bearer_preset "xai" "xAI" "https://api.x.ai/v1" "OpenAI-compatible";
    bearer_preset "openrouter" "OpenRouter" "https://openrouter.ai/api/v1" "OpenAI-compatible";
    bearer_preset "groq" "Groq" "https://api.groq.com/openai/v1" "OpenAI-compatible";
    bearer_preset "mistral" "Mistral AI" "https://api.mistral.ai/v1" "OpenAI-compatible";
    bearer_preset "deepseek" "DeepSeek" "https://api.deepseek.com/v1" "OpenAI-compatible";
    bearer_preset "together" "Together AI" "https://api.together.xyz/v1" "OpenAI-compatible";
    bearer_preset "perplexity" "Perplexity" "https://api.perplexity.ai"
      "OpenAI-compatible chat endpoint";
    plain_preset "azure-openai" "Azure OpenAI" "https://example.openai.azure.com/openai" "api-key"
      "override --upstream-base-url for your Azure resource/deployment/API version";
    plain_preset "anthropic" "Anthropic" "https://api.anthropic.com/v1" "x-api-key"
      "not OpenAI-compatible; use provider-http or a protocol adapter";
    plain_preset "amazon-bedrock" "Amazon Bedrock"
      "https://bedrock-runtime.us-east-1.amazonaws.com" "Authorization"
      "not OpenAI-compatible; AWS SigV4 support requires a protocol adapter" ].
Definition model_provider_preset (id : string) : option ModelProviderPreset :=
  List.find (λ preset, String.eqb (mp_id preset) id) model_provider_presets.

(** The arguments of [ModelProviderCommand::Setup]. *)
Record SetupArgs : Type := {
  su_preset : string;
  su_api_key_env : option string;
  su_stdin : bool;
  su_secret_ref : option string;
  su_policy_id : option string;
  su_consumer : option string;
  su_purpose : string;
  su_model_discovery_purpose : string;
  su_upstream_base_url : option string;
  su_listen : option string;
  su_credential_header : option string;
  su_credential_prefix : option string;
  su_max_body_bytes : Z;
  su_require_mfa : bool;
  su_passphrase : option string;
}.

Inductive ModelProviderCommand : Type :=
| ModelProviderList
| ModelProviderSetup (args : SetupArgs).

(** ** URLs *)

Definition strip_scheme (base_url : string) : option string :=
  match Text.strip_prefix "https://" base_url with
  | Some rest => Some rest
  | None => Text.strip_prefix "http://" base_url
  end.
(** [split('/').next()]; a split is never empty. *)
Definition before_slash (s : string) : string :=
  match split_once "/" s with Some (host, _) => host | None => s end.

Definition http_host_from_base_url (base_url : string) : res CliError string :=
  match strip_scheme base_url with
  | None => Err (Message "upstream base URL must start with http:// or https://")
  | Some without_scheme =>
      let host := before_slash without_scheme in
      if is_empty host then Err (Message "upstream base URL must include a host") else Ok host
  end.

(** [trim_matches('/')]. *)
Fixpoint trim_slashes_start (s : string) : string :=
  match s with
  | String a s' => if Ascii.eqb a SLASH then trim_slashes_start s' else s
  | EmptyString => EmptyString
  end.
Fixpoint trim_slashes_end (s : string) : string :=
  match s with
  | String a s' =>
      match trim_slashes_end s' with
      | EmptyString => if Ascii.eqb a SLASH then EmptyString else String a EmptyString
      | t => String a t
      end
  | EmptyString => EmptyString
  end.
Definition trim_slashes (s : string) : string := trim_slashes_end (trim_slashes_start s).

Definition http_path_prefix_from_base_url (base_url : string) : string :=
  let without_scheme := default base_url (strip_scheme base_url) in
  let path := match split_once "/" without_scheme with Some (_, path) => path | None => "" end in
  if is_empty path then "/v1/" else ("/" +:+ trim_slashes path +:+ "/")%string.

Definition DQ : string := str_of_codes [34]%N.
Definition model_provider_gateway_command (base_url secret_ref consumer purpose
    model_discovery_purpose credential_header credential_prefix listen : string) : string :=
  ("hbse-broker --vault " +:+ DQ +:+ "$HOME/.local/share/hbse/vault.db" +:+ DQ +:+ " --socket "
   +:+ DQ +:+ "$XDG_RUNTIME_DIR/hbse/broker.sock" +:+ DQ +:+
   " --idle-timeout-seconds 0 --http-listen " +:+ listen +:+
   " --http-upstream-base-url " +:+ base_url +:+ " --http-secret-ref " +:+ secret_ref +:+
   " --http-consumer " +:+ consumer +:+ " --http-purpose " +:+ purpose +:+
   " --http-model-discovery-purpose " +:+ model_discovery_purpose +:+
   " --http-credential-header '" +:+ shell_single_quote credential_header +:+
   "' --http-credential-prefix '" +:+ shell_single_quote credential_prefix +:+
   "' --http-max-request-body-bytes 1048576")%string.

(** [trim_end_matches(['\r', '\n'])]. *)
Fixpoint trim_line_ends (s : string) : string :=
  match s with
  | String a s' =>
      match trim_line_ends s' with
      | EmptyString => if Ascii.eqb a LF || Ascii.eqb a CR then EmptyString
                       else String a EmptyString
      | t => String a t
      end
  | EmptyString => EmptyString
  end.

(** What a set-up settles, its arguments and the preset together. *)
Record ModelProvider : Type := {
  mo_secret_ref : string;
  mo_policy_id : string;
  mo_consumer : string;
  mo_base_url : string;
  mo_credential_header : string;
  mo_credential_prefix : string;
  mo_listen : string;
}.
Definition settle (preset : ModelProviderPreset) (a : SetupArgs) : ModelProvider := {|
  mo_secret_ref := default ("secret://providers/" +:+ mp_id preset +:+ "/api-key")%string
                     (su_secret_ref a);
  mo_policy_id := default ("model-provider-" +:+ mp_id preset)%string (su_policy_id a);
  mo_consumer := default ("hbse.http-gateway." +:+ mp_id preset)%string (su_consumer a);
  mo_base_url := default (mp_base_url preset) (su_upstream_base_url a);
  mo_credential_header := default (mp_credential_header preset) (su_credential_header a);
  mo_credential_prefix := default (mp_credential_prefix preset) (su_credential_prefix a);
  mo_listen := default "127.0.0.1:8787" (su_listen a) |}.

Definition model_provider_policy (m : ModelProvider) (a : SetupArgs) (host path_prefix : string)
  : AccessPolicy := {|
  pol_policy_id := mo_policy_id m; pol_secret_refs := [mo_secret_ref m];
  pol_allowed_consumers := [mo_consumer m]; pol_denied_consumers := [];
  pol_allowed_purposes := [su_purpose a; su_model_discovery_purpose a];
  pol_denied_purposes := []; pol_allowed_delivery_modes := [BrokeredHttp];
  pol_allowed_http_hosts := [host]; pol_denied_http_hosts := [];
  pol_allowed_http_methods := ["GET"; "POST"; "DELETE"]; pol_denied_http_methods := [];
  pol_allowed_http_path_prefixes := [path_prefix]; pol_denied_http_path_prefixes := [];
  pol_require_https_for_brokered_http := starts_with (mo_base_url m) "https://";
  pol_max_http_request_body_bytes := Some (su_max_body_bytes a);
  pol_allowed_os_uids := []; pol_denied_os_uids := []; pol_allowed_executable_paths := [];
  pol_denied_executable_paths := []; pol_allowed_executable_sha256 := [];
  pol_denied_executable_sha256 := []; pol_exportable := false;
  pol_max_ticket_ttl_seconds := 60; pol_max_uses := 1; pol_minimum_provider_assurance := "A1";
  pol_require_mfa := su_require_mfa a; pol_allow_unbound_plaintext_export := false;
  pol_expires_at := None |}.

Section commands.
Context `{Ext, Host, Disk}.
Abbreviation CLI := (ST Site CliError).
Context (as_json : bool).
Abbreviation report := (CliVault.report as_json).

(** ** provider *)

(** A status is printed, and one that is not available ends the program with 4. *)
Definition status_exit (status : json) (available : bool) (detail : string) : CLI Z :=
  _ ← report status [detail];
  mret (if available then 0 else 4).
Definition catalog_entry_value (p : ProviderCatalogEntry) : json := obj [
  ("provider_id", JStr (cat_provider_id p)); ("name", JStr (cat_name p));
  ("assurance_level", JStr (cat_assurance_level p));
  ("hardware_backed", JBool (cat_hardware_backed p));
  ("vault_binding_supported", JBool (cat_vault_binding_supported p));
  ("available", JBool (cat_available p)); ("detail", JStr (cat_detail p));
  ("warning", opt_str (cat_warning p)); ("status", cat_status p) ].

Definition provider_command (c : ProviderCommand) : CLI Z :=
  match c with
  | ProviderList device =>
      providers ← on_vault (local_provider_catalog (E:=CliError) device);
      ends (report (JArr (catalog_entry_value <$> providers))
        ((λ p, columns [cat_provider_id p; cat_assurance_level p;
                        if cat_vault_binding_supported p then "vault-binding" else "detect-only";
                        if cat_available p then "available" else "unavailable";
                        cat_detail p]) <$> providers))
  | ProviderDetect device =>
      s ← on_vault (LinuxTpm2ToolsProvider_detect (E:=CliError) device);
      status_exit (obj (Tpm2ProviderStatus_fields s)) (ts_available s) (ts_detail s)
  | TestTpm2 device =>
      s ← on_vault (LinuxTpm2ToolsProvider_self_test device);
      status_exit (obj (Tpm2ProviderStatus_fields s)) (ts_available s) (ts_detail s)
  | TestTpm2Direct device =>
      s ← on_vault (LinuxTpm2EsapiProvider_self_test device);
      status_exit (obj (Tpm2EsapiProviderStatus_fields s)) (es_available s) (es_detail s)
  | TestSystemFingerprint =>
      s ← on_vault (SystemFingerprintProvider_detect (E:=CliError));
      status_exit (obj (SystemFingerprintStatus_fields s)) (sf_available s) (sf_detail s)
  | TestYubikeyPiv =>
      s ← on_vault (YubikeyPivProvider_detect (E:=CliError));
      status_exit (obj (YubikeyPivProviderStatus_fields s)) (yk_available s) (yk_detail s)
  | ProviderEnroll provider current_passphrase new_passphrase tpm_device =>
      current ← unlock_passphrase current_passphrase;
      header ← on_vault (rewrap_provider (Some current) provider new_passphrase tpm_device);
      ends (print_vault_status header as_json)
  end.

(** ** model-provider *)

Definition read_model_provider_key (api_key_env : option string) (stdin : bool) : CLI string :=
  if stdin then
    value ← read_stdin;
    if is_empty (trim value) then throw (Message "stdin did not contain an API key")
    else mret value
  else match api_key_env with
       | Some name =>
           value ← lift (ok_or (Message ("environment variable " +:+ name +:+ " is not set"))
                           (env_var name));
           if is_empty (trim value)
           then throw (Message ("environment variable " +:+ name +:+ " is empty"))
           else mret value
       | None => throw (Message "provide the provider key with --api-key-env NAME or --stdin")
       end.

Definition print_setup (preset : ModelProviderPreset) (m : ModelProvider) (gateway_command : string)
  : CLI unit :=
  let local := ("http://" +:+ mo_listen m +:+ "/v1")%string in
  report (obj [ ("provider", JStr (mp_id preset)); ("secret_ref", JStr (mo_secret_ref m));
                ("policy_id", JStr (mo_policy_id m)); ("consumer", JStr (mo_consumer m));
                ("upstream_base_url", JStr (mo_base_url m)); ("local_base_url", JStr local);
                ("gateway_command", JStr gateway_command) ])
    [ "model provider configured: " +:+ mp_id preset; "secret_ref: " +:+ mo_secret_ref m;
      "policy_id: " +:+ mo_policy_id m; "consumer: " +:+ mo_consumer m;
      "local_base_url: " +:+ local; "gateway command:"; gateway_command;
      "set unmodified OpenAI-compatible clients to:"; "OPENAI_BASE_URL=" +:+ local;
      "OPENAI_API_KEY=hbse-placeholder" ]%string.

(** The key is stored before the URL is looked at. *)
Definition model_provider_setup (a : SetupArgs) : CLI unit :=
  preset ← lift (ok_or (Message ("unknown model provider preset: " +:+ su_preset a))
                   (model_provider_preset (su_preset a)));
  let m := settle preset a in
  passphrase ← unlock_passphrase (su_passphrase a);
  api_key ← read_model_provider_key (su_api_key_env a) (su_stdin a);
  _ ← on_vault (put_secret (mo_secret_ref m) (as_bytes (trim_line_ends api_key)) passphrase ApiKey);
  host ← lift (http_host_from_base_url (mo_base_url m));
  let path_prefix := http_path_prefix_from_base_url (mo_base_url m) in
  _ ← on_vault (LocalVault_save_policy (model_provider_policy m a host path_prefix) passphrase);
  print_setup preset m
    (model_provider_gateway_command (mo_base_url m) (mo_secret_ref m) (mo_consumer m)
       (su_purpose a) (su_model_discovery_purpose a) (mo_credential_header m)
       (mo_credential_prefix m) (mo_listen m)).

Definition model_provider_command (c : ModelProviderCommand) : CLI unit :=
  match c with
  | ModelProviderList =>
      report (JArr ((λ p, obj (ModelProviderPreset_fields p)) <$> model_provider_presets))
        ((λ p, columns [mp_id p; mp_base_url p; mp_credential_header p; mp_note p])
           <$> model_provider_presets)
  | ModelProviderSetup args => model_provider_setup args
  end.
End commands.

Example base_url_examples :
  http_host_from_base_url "https://api.x.ai/v1" = Ok "api.x.ai" ∧
  http_path_prefix_from_base_url "https://api.groq.com/openai/v1/" = "/openai/v1/" ∧
  http_path_prefix_from_base_url "https://api.perplexity.ai" = "/v1/" ∧
  http_path_prefix_from_base_url "https://h//" = "//" ∧ trim_slashes "//a/b//" = "a/b" ∧
  is_ok (http_host_from_base_url "ftp://h") = false.
Proof. by vm_compute. Qed.
