(* ===== verification/CliBroker.v ===== *)
(** * The commands that talk to a broker (main.rs, broker_daemon.rs)

    [broker_daemon::request] sends a JSON line to the broker's socket and reads one back; the
    broker commands, [hbse resolve], and the removal of a stale socket are made of it. *)

From S2P Require Export CliVault Network.
#[local] Open Scope Z_scope.

(** The errors of [request]: the socket's, and a reply that is not JSON. *)
Inductive RequestError : Type := RequestIo | RequestJson.
#[export] Instance from_cli_request : From RequestError CliError := λ e,
  match e with RequestIo => CliIo | RequestJson => CliJson end.

Record CheckoutArgs : Type := {
  ck_secret_ref : string;
  ck_consumer : string;
  ck_purpose : string;
  ck_delivery_mode : string;
}.
Record ProviderHttpArgs : Type := {
  ph_secret_ref : string;
  ph_consumer : string;
  ph_purpose : string;
  ph_method : string;
  ph_url : string;
  ph_header : list string;
  ph_body : option string;
  ph_credential_header : string;
  ph_credential_prefix : string;
  ph_timeout_seconds : f64;
  ph_max_response_bytes : Z;
}.

(** [BrokerCommand] but for the installation of the service. *)
Inductive BrokerCommand : Type :=
| BrokerStatus
| BrokerUnlock (passphrase mfa_code : option string)
| BrokerMfaVerify (code : string)
| BrokerLock
| BrokerCheckout (args : CheckoutArgs)
| BrokerMaterialize (args : CheckoutArgs) (allow_plaintext : bool)
| BrokerProviderHttp (args : ProviderHttpArgs)
| BrokerCleanupSocket.

Record ResolveArgs : Type := {
  rs_secret_ref : string;
  rs_passphrase : option string;
  rs_broker : bool;
  rs_socket : string;
  rs_consumer : string;
  rs_purpose : string;
  rs_delivery_mode : string;
  rs_allow_plaintext : bool;
  rs_mfa_code : option string;
}.

(** ** Default paths *)

Section paths.
Context `{Host}.

Definition env_var_os (name : string) : option string := oget name environ.

Definition default_store_path : string :=
  match env_var "HBSE_VAULT_PATH" with
  | Some path => path
  | None => match env_var "HOME" with
            | Some home => path_join home ".local/share/hbse/vault.db"
            | None => "vault.db"
            end
  end.

Definition default_runtime_socket_path : string :=
  match env_var_os "HBSE_BROKER_SOCKET" with
  | Some path => path
  | None => match env_var_os "XDG_RUNTIME_DIR" with
            | Some path => path_join path "hbse/broker.sock"
            | None => path_join (default "." (env_var_os "HOME")) ".local/share/hbse/broker.sock"
            end
  end.

Definition user_service_file : string :=
  path_join (match env_var_os "XDG_CONFIG_HOME" with
             | Some path => path
             | None => path_join (default "." (env_var_os "HOME")) ".config"
             end) "systemd/user/hbse-broker.service".
End paths.

Section commands.
Context `{Ext, Host, Disk, Net}.
Abbreviation CLI := (ST Site CliError).
Context (as_json : bool).

(** ** The client *)

Definition request (socket_path : string) (payload : json) : ST Site RequestError json :=
  line ← ask (λ i, socket_exchange i socket_path
           (of_bytes (json_to_vec payload) +:+ String LF "")%string);
  line ← lift (ok_or RequestIo line);
  lift (ok_or RequestJson (json_from_slice (as_bytes line))).

Definition command_payload (command : string) (fields : list (string * json)) : json :=
  obj (("command", JStr command) :: fields).
Definition print_broker_response (value : json) : CLI unit := print_json value.
Definition is_ok_response (value : json) : bool := default false (jget "ok" value ≫= as_bool).
Definition print_secret_field (value : json) : CLI unit :=
  secret ← lift (ok_or (Message "broker response did not include a secret")
                   (jget "secret" value ≫= as_str));
  print secret.
Definition print_broker_materialize_response (value : json) : CLI unit :=
  if is_ok_response value then print_secret_field value else print_broker_response value.

Definition checkout_fields (a : CheckoutArgs) : list (string * json) :=
  [ ("secret_ref", JStr (ck_secret_ref a)); ("consumer", JStr (ck_consumer a));
    ("purpose", JStr (ck_purpose a)); ("delivery_mode", JStr (ck_delivery_mode a)) ].
Definition materialize_payload (a : CheckoutArgs) : json :=
  command_payload "materialize" (checkout_fields a ++ [("raw_export_requested", JBool true)]).
Definition provider_http_payload (a : ProviderHttpArgs) (headers : omap string json) : json :=
  command_payload "provider_http"
    [ ("secret_ref", JStr (ph_secret_ref a)); ("consumer", JStr (ph_consumer a));
      ("purpose", JStr (ph_purpose a)); ("method", JStr (ph_method a)); ("url", JStr (ph_url a));
      ("headers", JObj headers); ("body", opt_str (ph_body a));
      ("credential_header", JStr (ph_credential_header a));
      ("credential_prefix", JStr (ph_credential_prefix a));
      ("timeout_seconds", json_of_f64 (ph_timeout_seconds a));
      ("max_response_bytes", ser_u64 (ph_max_response_bytes a)) ].

(** ** A stale socket *)

Definition find_node (p : string) : ST Site RequestError (option Node) := λ s,
  (Ok (site_files s !! path_key p), s).
Definition cleanup_result (socket : string) (removed : bool) (detail : string) : json := obj [
  ("socket", JStr socket); ("removed", JBool removed); ("detail", JStr detail) ].

Definition cleanup_broker_socket (socket : string) : CLI (bool * string) :=
  node ← try_ (find_node socket);
  match node with
  | None => mret (false, "broker socket does not exist")
  | Some (Socket _) =>
      reply ← attempt (request socket (command_payload "status" []));
      match reply with
      | Ok _ => mret (false, "broker is reachable; socket was not removed")
      | Err _ => _ ← try_ (fs_remove socket); mret (true, "removed stale broker socket")
      | Panic => panic
      end
  | Some _ => mret (false, "path exists but is not a Unix socket; refusing to remove it")
  end.

(** ** The commands *)

Definition broker_command (socket : string) (c : BrokerCommand) : CLI unit :=
  match c with
  | BrokerStatus =>
      r ← try_ (request socket (command_payload "status" [])); print_broker_response r
  | BrokerUnlock passphrase mfa_code =>
      r ← try_ (request socket (command_payload "unlock"
             [ ("passphrase", opt_str (or_env passphrase HBSE_PASSPHRASE));
               ("mfa_code", opt_str mfa_code) ]));
      print_broker_response r
  | BrokerMfaVerify code =>
      r ← try_ (request socket (command_payload "mfa_verify" [("mfa_code", JStr code)]));
      print_broker_response r
  | BrokerLock =>
      r ← try_ (request socket (command_payload "lock" [])); print_broker_response r
  | BrokerCheckout a =>
      r ← try_ (request socket (command_payload "checkout" (checkout_fields a)));
      print_broker_response r
  | BrokerMaterialize a allow_plaintext =>
      _ ← lift (require_plaintext_export_confirmation allow_plaintext);
      r ← try_ (request socket (materialize_payload a));
      print_broker_materialize_response r
  | BrokerProviderHttp a =>
      headers ← lift (parse_headers (ph_header a));
      r ← try_ (request socket (provider_http_payload a headers));
      print_broker_response r
  | BrokerCleanupSocket =>
      result ← cleanup_broker_socket socket;
      let '(removed, detail) := result in
      report as_json (cleanup_result socket removed detail) [detail]
  end.

Definition resolve_args (a : ResolveArgs) : CheckoutArgs := {|
  ck_secret_ref := rs_secret_ref a; ck_consumer := rs_consumer a; ck_purpose := rs_purpose a;
  ck_delivery_mode := rs_delivery_mode a |}.
Definition resolve (a : ResolveArgs) : CLI Z :=
  _ ← guard_ (negb (starts_with (rs_secret_ref a) "secret://"))
        (Message "resolve requires a secret:// reference");
  if rs_broker a then
    _ ← lift (require_plaintext_export_confirmation (rs_allow_plaintext a));
    response ← try_ (request (rs_socket a) (materialize_payload (resolve_args a)));
    if is_ok_response response then ends (print_secret_field response)
    else _ ← print_broker_response response; mret 6
  else
    passphrase ← plaintext_export_passphrase (rs_passphrase a) (rs_allow_plaintext a) (rs_mfa_code a);
    plaintext ← on_vault (get_secret (rs_secret_ref a) passphrase);
    ends (print_plaintext plaintext).
End commands.
