(* ===== verification/CliReports.v ===== *)
(** * Reports on a vault and its surroundings (main.rs)

    [hbse doctor], [hbse setup] and [hbse readiness check]: what they ask of the vault, of the
    files and of the broker, the verdict of the readiness check, and the commands a set-up
    report proposes.  The texts of error messages are arguments. *)

From S2P Require Export CliProviders CliBroker.
#[local] Open Scope Z_scope.

(** What [metadata] tells of the file of the vault: its length and mode. *)
Record FileMeta : Type := { meta_len : Z; meta_mode : Z }.

(** [{:03o}] of the permission bits. *)
Definition octal_digit (z : Z) : string := String (ascii_of_nat (48 + Z.to_nat (z mod 8))) "".
Definition mode_text (mode : Z) : string :=
  let m := Z.land mode 511 in
  (octal_digit (m / 64) +:+ octal_digit (m / 8) +:+ octal_digit m)%string.
Example mode_text_examples : mode_text 33152 = "600" ∧ mode_text 16877 = "755" ∧ mode_text 5 = "005".
Proof. by vm_compute. Qed.

Definition is_uninitialized (e : VaultError) : bool :=
  match e with VStore VaultNotInitialized => true | _ => false end.

Definition readiness_item (area status detail : string) : json := obj [
  ("area", JStr area); ("status", JStr status); ("detail", JStr detail) ].
Definition item_failed (item : json) : bool :=
  bool_decide ((jget "status" item ≫= as_str) = Some "fail").
Definition strict_target (target : string) : bool := has target ["A4"; "A5"].

Section reports.
Context `{Ext, Host, Disk, Net}.
Context (vault_error_text : VaultError → string) (request_error_text : RequestError → string).
(** [PRAGMA integrity_check] and the metadata of the vault's file. *)
Context (integrity_text : nat → option string) (vault_metadata : nat → option FileMeta).
Abbreviation CLI := (ST Site CliError).

(** [vault.status()], an uninitialised vault told from other errors. *)
Definition status_or_none : CLI (option VaultHeader) :=
  r ← attempt (on_vault LocalVault_status : ST Site VaultError VaultHeader);
  match r with
  | Ok header => mret (Some header)
  | Err e => if is_uninitialized e then mret None else throw (CliVault e)
  | Panic => panic
  end.

Definition catalog_value (p : ProviderCatalogEntry) : json := obj [
  ("provider_id", JStr (cat_provider_id p)); ("name", JStr (cat_name p));
  ("assurance_level", JStr (cat_assurance_level p));
  ("hardware_backed", JBool (cat_hardware_backed p));
  ("vault_binding_supported", JBool (cat_vault_binding_supported p));
  ("available", JBool (cat_available p)); ("detail", JStr (cat_detail p));
  ("warning", opt_str (cat_warning p)) ].
Definition sanitized_provider_catalog (tpm_device : string) : CLI json :=
  providers ← on_vault (local_provider_catalog (E:=CliError) tpm_device);
  mret (JArr (catalog_value <$> providers)).

(** The mode of a file, when there is one. *)
Definition mode_check (key : string) (node : option Node) : list (string * json) :=
  match node with Some n => [(key, JStr (mode_text (node_mode n)))] | None => [] end.
Definition exists_check (key : string) (node : option Node) : string * json :=
  (key, JBool (bool_decide (is_Some node))).

(** What the answer of the broker, or its error, says. *)
Definition socket_checks (reply : res RequestError json) : list (string * json) :=
  let flag key status := JBool (default false (jget key status ≫= as_bool)) in
  match reply with
  | Ok status => [ ("reachable", JBool true); ("detail", JStr "broker reachable");
                   ("unlocked", flag "unlocked" status);
                   ("mfa_verified", flag "mfa_verified" status) ]
  | Err e => [ ("reachable", JBool false); ("detail", JStr (request_error_text e)) ]
  | Panic => []
  end.
Definition broker_socket_report (socket : string) : CLI json :=
  node ← try_ (find_node socket);
  reply ← attempt (request socket (command_payload "status" []));
  match reply with
  | Panic => panic
  | _ => mret (obj ([ ("path", JStr socket); exists_check "exists" node ] ++
                    mode_check "mode" node ++ socket_checks reply))
  end.

Definition count {A} (l : list A) : json := ser_u64 (Z.of_nat (length l)).

(** ** doctor *)

Definition surroundings : CLI (list (string * json)) :=
  exists_ ← ask vault_file_exists;
  meta ← ask vault_metadata;
  let socket := default_runtime_socket_path in
  node ← try_ (find_node socket);
  socket_status ← broker_socket_report socket;
  mret ([ ("vault_file_exists", JBool exists_) ] ++
        match meta with
        | Some m => [ ("vault_file_bytes", ser_u64 (meta_len m));
                      ("vault_file_mode", JStr (mode_text (meta_mode m))) ]
        | None => []
        end ++
        [ ("default_broker_socket", JStr socket); exists_check "default_broker_socket_exists" node ] ++
        mode_check "default_broker_socket_mode" node ++
        [ ("default_broker_socket_status", socket_status) ]).

Definition tables_checks (header : VaultHeader) : CLI (list (string * json)) :=
  integrity ← on_vault (integrity_check integrity_text);
  secrets ← on_vault LocalVault_list_secrets;
  policies ← on_vault LocalVault_list_policies;
  tickets ← on_vault LocalVault_list_tickets;
  events ← on_vault LocalVault_list_audit_events;
  fingerprints ← on_vault count_redaction_fingerprints;
  policies' ← on_vault LocalVault_list_policies;
  events' ← on_vault LocalVault_list_audit_events;
  mret [ ("provider", JStr (default "unknown" (binding_str "provider_id" header)));
         ("provider_assurance", JStr (default "unknown" (binding_str "assurance_level" header)));
         ("store_integrity", JStr integrity); ("secrets", count secrets);
         ("policies", count policies); ("tickets", count tickets);
         ("active_tickets", count (List.filter (λ t, negb (tk_revoked t)) tickets));
         ("audit_events", count events); ("redaction_fingerprints", ser_u64 fingerprints);
         ("explicit_policy_configured", JBool (negb (length policies' =? 0)%nat));
         ("audit_present", JBool (negb (length events' =? 0)%nat));
         ("redaction_ready", JBool (0 <? fingerprints)) ].

Definition doctor_report (vault_path : string) : CLI json :=
  around ← surroundings;
  let checks := [ ("schema", JStr "ok"); ("vault_path", JStr vault_path) ] ++ around in
  header ← status_or_none;
  match header with
  | None =>
      catalog ← sanitized_provider_catalog "/dev/tpmrm0";
      mret (obj [("checks", obj (checks ++ [ ("vault", JStr "not_initialized");
                                             ("provider_catalog", catalog) ]))])
  | Some header =>
      tables ← tables_checks header;
      catalog ← sanitized_provider_catalog
                  (default "/dev/tpmrm0" (binding_str "device_path" header));
      mret (obj [("checks", obj (checks ++ [("vault", JStr "initialized")] ++ tables ++
                                 [("provider_catalog", catalog)]))])
  end.

(** ** setup *)

Definition provider_available (providers : list ProviderCatalogEntry) (id : string) : bool :=
  existsb (λ p, String.eqb (cat_provider_id p) id && cat_available p) providers.
Definition recommended_provider (providers : list ProviderCatalogEntry) : string :=
  if provider_available providers TPM2_ESAPI_PROVIDER_ID then "tpm2-direct"
  else if provider_available providers TPM2_PROVIDER_ID then "tpm2"
  else if provider_available providers SYSTEM_FINGERPRINT_PROVIDER_ID then "system-fingerprint"
  else "passphrase".
Definition shell_quote_path (path : string) : string := shell_quote path.
Definition on_vault_command (vault_path rest : string) : string :=
  ("hbse --vault " +:+ shell_quote_path vault_path +:+ rest)%string.
Definition init_command (provider vault_path tpm_device : string) : string :=
  if String.eqb provider "passphrase"
  then on_vault_command vault_path " vault init --provider passphrase"
  else if String.eqb provider "system-fingerprint"
  then on_vault_command vault_path " vault init --provider system-fingerprint"
  else on_vault_command vault_path
         (" vault init --provider " +:+ provider +:+ " --tpm-device " +:+ shell_quote tpm_device)%string.

Definition setup_report (vault_path tpm_device : string) : CLI json :=
  providers ← on_vault (local_provider_catalog (E:=CliError) tpm_device);
  let recommended := recommended_provider providers in
  header ← status_or_none;
  let vault_status := match header with
    | Some h => obj [ ("initialized", JBool true); ("vault_id", JStr (hd_vault_id h));
                      ("namespace_id", JStr (hd_namespace_id h));
                      ("provider_id", opt_str (binding_str "provider_id" h));
                      ("assurance_level", opt_str (binding_str "assurance_level" h)) ]
    | None => obj [("initialized", JBool false)]
    end in
  let socket_path := default_runtime_socket_path in
  broker_status ← broker_socket_report socket_path;
  catalog ← sanitized_provider_catalog tpm_device;
  node ← try_ (find_node socket_path);
  service ← try_ (find_node user_service_file);
  mret (obj [
    ("vault_path", JStr vault_path); ("vault", vault_status);
    ("recommended_provider", JStr recommended); ("provider_catalog", catalog);
    ("broker", obj [
       ("default_socket", JStr socket_path); exists_check "default_socket_exists" node;
       ("default_socket_reachable", JBool (default false (jget "reachable" broker_status ≫= as_bool)));
       ("default_socket_detail", JStr (default "unknown" (jget "detail" broker_status ≫= as_str)));
       exists_check "user_service_file_exists" service ]);
    ("commands", obj [
       ("initialize_vault", JStr (init_command recommended vault_path tpm_device));
       ("install_user_broker_service", JStr (on_vault_command vault_path
          " broker install-service --scope user --enable --start"));
       ("check_readiness", JStr (on_vault_command vault_path " readiness check --verify-audit"));
       ("deep_diagnostics", JStr (on_vault_command vault_path " doctor")) ]) ]).

(** ** What is printed *)

Definition printable_json_value (v : json) : string := default (json_to_string v) (as_str v).
Definition member (key : string) (v : json) : json := default JNull (jget key v).
Definition text_of (key : string) (v : json) : string := printable_json_value (member key v).
Definition truth_of (key : string) (v : json) : bool := default false (as_bool (member key v)).
Definition provider_line (p : json) : string :=
  ("  " +:+ text_of "provider_id" p +:+ " " +:+
   (if truth_of "available" p then "available" else "unavailable") +:+ " " +:+ text_of "detail" p)%string.
Definition as_array (v : json) : option (list json) := match v with JArr l => Some l | _ => None end.
Definition provider_lines (v : json) : list string := provider_line <$> default [] (as_array v).

Definition print_setup_report (v : json) : CLI unit := print_lines (
  [ "vault_path: " +:+ text_of "vault_path" v;
    "vault_initialized: " +:+ bool_text (truth_of "initialized" (member "vault" v));
    "recommended_provider: " +:+ text_of "recommended_provider" v; "providers:" ]%string ++
  provider_lines (member "provider_catalog" v) ++ ["commands:"] ++
  ((λ kv, "  " +:+ kv.1 +:+ ": " +:+ printable_json_value kv.2)%string
     <$> default [] (as_object (member "commands" v)))).

Definition check_lines (kv : string * json) : list string :=
  if String.eqb kv.1 "provider_catalog"
  then "provider_catalog:" :: provider_lines kv.2
  else [ kv.1 +:+ ": " +:+ printable_json_value kv.2 ]%string.
Definition print_checks (v : json) (as_json : bool) : CLI unit :=
  if as_json then print_json v
  else print_lines (default [] (as_object (member "checks" v)) ≫= check_lines).

(** ** readiness *)

(** A check with two outcomes. *)
Definition judged (ok : bool) (area pass_detail fail_status fail_detail : string) : json :=
  if ok then readiness_item area "pass" pass_detail
  else readiness_item area fail_status fail_detail.

Definition release_item (target : string) (release_dir : string) (files : Files)
  (area_file : string * string) : json :=
  let path := path_join release_dir area_file.2 in
  if bool_decide (is_Some (files !! path_key path))
  then readiness_item area_file.1 "pass" (path +:+ " exists")
  else readiness_item area_file.1 (if strict_target target then "fail" else "warn")
         (path +:+ " missing").
Definition add_release_readiness_items (release_dir target : string) : CLI (list json) :=
  files ← try_ get_files;
  mret (release_item target release_dir files <$>
    [ ("SBOM", "sbom.json"); ("Provenance", "provenance.json"); ("Signature", "artifact.sig");
      ("Checklist", "production_checklist.json") ]).

Definition audit_item (verify_audit_ : bool) (passphrase : option string) : CLI json :=
  if verify_audit_ then
    passphrase ← unlock_passphrase passphrase;
    r ← attempt (on_vault (verify_audit passphrase) : ST Site VaultError unit);
    match r with
    | Ok _ => mret (readiness_item "Audit" "pass" "audit chain verifies")
    | Err err => mret (readiness_item "Audit" "fail"
                         ("audit chain verification failed: " +:+ vault_error_text err))
    | Panic => panic
    end
  else mret (readiness_item "Audit" "warn" "audit MAC not verified; pass --verify-audit").

Definition review_items (target : string) : list json :=
  if strict_target target then
    [ readiness_item "Review" "fail" "independent security review evidence is required and cannot be generated automatically";
      readiness_item "Providers" "fail" "real hardware copied-vault tests require external TPM/provider evidence" ]
  else [].

Definition provider_item (header : VaultHeader) : json :=
  let level := default "A0" (binding_str "assurance_level" header) in
  (* [provider_level >= "A1"] on texts *)
  judged (negb (klt level "A1")) "Providers" ("provider assurance visible: " +:+ level)
    "fail" "provider assurance below A1".

Definition readiness_items (header : VaultHeader) (target release_dir : string)
  (verify_audit_ : bool) (passphrase : option string) : CLI (list json) :=
  policies ← on_vault LocalVault_list_policies;
  events ← on_vault LocalVault_list_audit_events;
  fingerprints ← on_vault count_redaction_fingerprints;
  audit ← audit_item verify_audit_ passphrase;
  release ← add_release_readiness_items release_dir target;
  mret ([ readiness_item "Vault" "pass" "vault initialized"; provider_item header;
          judged (negb (length policies =? 0)%nat) "Policy" "at least one explicit policy exists"
            "fail" "no explicit policies configured";
          judged (negb (length events =? 0)%nat) "Audit" "audit events exist"
            "fail" "no audit events recorded";
          judged (0 <? fingerprints) "Redaction" "secret fingerprints exist"
            "warn" "no active secret fingerprints yet";
          audit ] ++ release ++ review_items target).

Definition readiness_value (target : string) (items : list json) : json := obj [
  ("target", JStr target); ("passed", JBool (forallb (λ i, negb (item_failed i)) items));
  ("items", JArr items) ].
Definition readiness_report (target release_dir : string) (verify_audit_ : bool)
  (passphrase : option string) : CLI json :=
  header ← status_or_none;
  match header with
  | None => mret (readiness_value target [readiness_item "Vault" "fail" "vault is not initialized"])
  | Some header =>
      items ← readiness_items header target release_dir verify_audit_ passphrase;
      mret (readiness_value target items)
  end.
Definition readiness_check (target release_dir : string) (verify_audit_ : bool)
  (passphrase : option string) : CLI Z :=
  v ← readiness_report target release_dir verify_audit_ passphrase;
  _ ← print_json v;
  mret (if truth_of "passed" v then 0 else 1).
End reports.
