(* ===== verification/CliRelease.v ===== *)
(** * hbse release (main.rs over release.rs)

    The four commands on release evidence: writing it, making a key pair, signing, verifying. *)

From S2P Require Export CliVault.
#[local] Open Scope Z_scope.

Inductive ReleaseCommand : Type :=
| ReleaseEvidenceCommand (output_dir project_root version : string)
| ReleaseKeygen (private_key public_key : string) (encrypted : bool) (key_passphrase_env : string)
| ReleaseSign (release_dir private_key : string) (public_key_out : option string)
    (artifact : list string) (version key_passphrase_env : string)
| ReleaseVerify (release_dir : string) (public_key : option string).

Section release.
Context `{Ext, Host, Disk, Signing}.
Abbreviation CLI := (ST Site CliError).

Definition keygen_passphrase (encrypted : bool) (name : string) : res CliError (option string) :=
  if encrypted
  then Some <$> ok_or (Message (name +:+ " required when --encrypted is set")) (env_var name)
  else Ok None.

Definition signed_summary (manifest : ArtifactManifest) (signature : ReleaseSignature) : json := obj
  [ ("mode", JStr (sig_mode signature)); ("manifest", JStr (sig_manifest signature));
    ("public_key_sha256", JStr (sig_public_key_sha256 signature));
    ("artifact_count", ser_u64 (Z.of_nat (length (man_artifacts manifest)))) ].

(** A verification that does not pass ends with 1. *)
Definition release_command (c : ReleaseCommand) : CLI Z :=
  match c with
  | ReleaseEvidenceCommand output_dir project_root version =>
      ends (evidence ← try_ (generate_release_evidence output_dir project_root version);
            print_json (obj (ReleaseEvidence_fields evidence)))
  | ReleaseKeygen private_key public_key encrypted key_passphrase_env =>
      ends (passphrase ← lift (keygen_passphrase encrypted key_passphrase_env);
            result ← try_ (generate_signing_keypair private_key public_key passphrase);
            print_json (obj (ReleaseKeygenResult_fields result)))
  | ReleaseSign release_dir private_key public_key_out artifact version key_passphrase_env =>
      ends (signed ← try_ (sign_release_artifacts release_dir artifact private_key public_key_out
                             (env_var key_passphrase_env) version);
            print_json (signed_summary signed.1 signed.2))
  | ReleaseVerify release_dir public_key =>
      verification ← try_ (verify_release_evidence release_dir public_key);
      _ ← print_json (obj (ReleaseVerification_fields verification));
      mret (if rv_passed verification then 0 else 1)
  end.
End release.
