(* ===== verification/CliMain.v ===== *)
(** * The program hbse (main.rs)

    The command line as clap hands it over, the one branch [run] takes for it, and the exit
    code [main] ends with. *)

From S2P Require Export CliReports CliRun CliRelease.
#[local] Open Scope Z_scope.

Record DotenvRunArgs : Type := {
  dr_path : string;
  dr_consumer : string;
  dr_purpose : string;
  dr_command : list string;
}.
(** What [broker install-service] takes beside the path of the vault. *)
Record InstallArgs : Type := {
  ia_scope : string;
  ia_unit_dir : option string;
  ia_socket : option string;
  ia_idle_timeout_seconds : f64;
  ia_broker_executable : option string;
  ia_service_user : option string;
  ia_enable : bool;
  ia_start : bool;
  ia_dry_run : bool;
}.
Record ReadinessArgs : Type := {
  rd_target : string;
  rd_release_dir : string;
  rd_verify_audit : bool;
  rd_passphrase : option string;
}.

Inductive Command : Type :=
| CVersion
| CVault (c : VaultCommand)
| CSecret (c : SecretCommand)
| CAudit (c : AuditCommand)
| CPolicy (c : PolicyCommand)
| CConfig (c : ConfigCommand)
| CTicket (c : TicketCommand)
| CRotation (c : RotationCommand)
| CProvider (c : ProviderCommand)
| CModelProvider (c : ModelProviderCommand)
| CMfa (c : MfaCommand)
| CBroker (socket : string) (c : BrokerCommand)
| CInstallService (args : InstallArgs)
| CDotenvScan (path : string)
| CDotenvRun (args : DotenvRunArgs)
| CRelease (c : ReleaseCommand)
| CRun (args : RunArgs)
| CResolve (args : ResolveArgs)
| CDoctor
| CSetup (tpm_device : string)
| CLockdown (why : string) (passphrase : option string)
| CReadiness (args : ReadinessArgs).

Record Cli : Type := {
  cli_vault : string;
  cli_json : bool;
  cli_command : Command;
}.

Section main.
Context `{Ext, Host, Disk, Net, Signing}.
Abbreviation CLI := (ST Site CliError).
Context (vault_error_text : VaultError → string) (request_error_text : RequestError → string)
  (integrity_text : nat → option string) (vault_metadata : nat → option FileMeta)
  (f64_display : f64 → string) (version : string).

(** [DotenvCommand::Scan]. *)
Definition findings_value (findings : list DotenvFinding) : json :=
  obj [("findings", JArr (finding_to_value <$> findings))].
Definition dotenv_scan (path : string) (as_json : bool) : CLI Z :=
  findings ← on_vault (scan_dotenv path);
  match findings with
  | [] => ends (report as_json (findings_value []) ["dotenv: ok"])
  | _ => _ ← print_json (findings_value findings);
         mret (if existsb is_raw_finding findings then 8 else 0)
  end.

Definition install_service (vault_path : string) (a : InstallArgs) : CLI unit :=
  result ← try_ (install_broker_service f64_display {|
    opt_scope := ia_scope a; opt_unit_dir := ia_unit_dir a;
    opt_broker_executable := ia_broker_executable a; opt_vault_path := vault_path;
    opt_socket_path := ia_socket a; opt_idle_timeout_seconds := ia_idle_timeout_seconds a;
    opt_service_user := ia_service_user a; opt_enable := ia_enable a; opt_start := ia_start a;
    opt_dry_run := ia_dry_run a |});
  print_json (obj (SystemdInstallResult_fields result)).

Definition run (cli : Cli) : CLI Z :=
  let as_json := cli_json cli in
  let vault := cli_vault cli in
  match cli_command cli with
  | CVersion => ends (println version)
  | CVault c => ends (vault_command vault as_json c)
  | CSecret c => ends (secret_command as_json c)
  | CAudit c => ends (audit_command as_json c)
  | CPolicy c => ends (policy_command as_json c)
  | CConfig c => ends (config_command as_json c)
  | CTicket c => ends (ticket_command as_json c)
  | CRotation c => ends (rotation_command as_json c)
  | CProvider c => provider_command as_json c
  | CModelProvider c => ends (model_provider_command as_json c)
  | CMfa c => ends (mfa_command as_json c)
  | CBroker socket c => ends (broker_command as_json socket c)
  | CInstallService args => ends (install_service vault args)
  | CDotenvScan path => dotenv_scan path as_json
  | CDotenvRun a => dotenv_run (dr_path a) (dr_consumer a) (dr_purpose a) (dr_command a)
  | CRelease c => release_command c
  | CRun args => run_with_secrets args
  | CResolve args => resolve args
  | CDoctor =>
      checks ← doctor_report request_error_text integrity_text vault_metadata vault;
      ends (print_checks checks as_json)
  | CSetup tpm_device =>
      v ← setup_report request_error_text vault tpm_device;
      ends (if as_json then print_json v else print_setup_report v)
  | CLockdown why passphrase => ends (lockdown as_json why passphrase)
  | CReadiness a => readiness_check vault_error_text (rd_target a) (rd_release_dir a)
                      (rd_verify_audit a) (rd_passphrase a)
  end.

(** [main]: an error is reported and ends the program with 1, a panic with 101. *)
Definition exit_code (cli : Cli) (s : Site) : Z :=
  match (run cli s).1 with Ok code => code | Err _ => 1 | Panic => 101 end.
End main.
