(* ===== verification/CliSteps.v ===== *)
(** * Commands as sequences of vault operations (main.rs over vault.rs)

    A command is a sequence of steps that leave the tables alone and of vault operations; the
    last operation may change the header.  [run_kept] composes them for every command line. *)

From S2P Require Export CliMain CliSpec.
#[local] Open Scope Z_scope.

(** ** Steps that leave the tables alone *)

Definition same_tables (s s' : Site) : Prop := db (site_world s') = db (site_world s).
#[export] Instance same_tables_preorder : PreOrder same_tables.
Proof. split; [by intros s|intros s1 s2 s3 H1 H2; unfold same_tables in *; congruence]. Qed.

Lemma tables_on_vault {E F A} `{From F E} (m : ST World F A) :
  keeps same_db m → keeps same_tables (on_vault m : ST Site E A).
Proof.
  intros Hm s. specialize (Hm (site_world s)). unfold on_vault, same_tables.
  destruct (m (site_world s)) as [r w]. by destruct Hm.
Qed.
Lemma tables_ask {E A} (f : nat → A) : keeps same_tables (ask f : ST Site E A).
Proof. by intros s. Qed.
Lemma tables_print {E} text : keeps same_tables (print text : ST Site E unit).
Proof. by intros s. Qed.
Lemma tables_record {E} child : keeps same_tables (record_child child : ST Site E unit).
Proof. by intros s. Qed.
#[export] Hint Resolve tables_ask tables_print tables_record : keeps.
#[export] Hint Extern 1 (keeps same_tables (println _)) => apply tables_print : keeps.
#[export] Hint Extern 1 (keeps same_tables (on_vault _)) =>
  apply tables_on_vault; solve [auto with keeps typeclass_instances] : keeps.

Section files.
Context `{Ext, Disk}.
Lemma tables_on_files {A} (f : Files → option (A * Files)) : keeps same_tables (on_files f).
Proof. intros s. unfold on_files, same_tables. by destruct (f (site_files s)) as [[]|]. Qed.
#[local] Hint Resolve tables_on_files : keeps.
Lemma tables_fs_op {A} (f : Files → option (A * Files)) : keeps same_tables (fs_op f).
Proof. unfold fs_op. keeps_auto. Qed.
#[local] Hint Resolve tables_fs_op : keeps.
Lemma tables_get_files : keeps same_tables get_files.
Proof. by intros s. Qed.
Lemma tables_exists p : keeps same_tables (fs_exists p).
Proof. by intros s. Qed.
#[local] Hint Resolve tables_get_files : keeps.
Lemma tables_create_dir_all p : keeps same_tables (create_dir_all p).
Proof.
  unfold create_dir_all. generalize (path_key p) as todo, (@nil string) as made.
  induction todo as [|c todo IH]; intros made; cbn [create_dirs]; [apply keeps_ret, _|].
  cbv zeta. apply keeps_bind; [apply _| |intros; apply IH]. unfold create_dir. keeps_auto.
Qed.
Lemma tables_set_data p f : keeps same_tables (set_data p f).
Proof. apply tables_on_files. Qed.
#[local] Hint Resolve tables_set_data : keeps.
Lemma tables_write_all p data : keeps same_tables (write_all p data).
Proof. unfold write_all. keeps_auto. Qed.
Lemma tables_fs_write p data : keeps same_tables (fs_write p data).
Proof.
  unfold fs_write. apply keeps_bind; [apply _|apply tables_fs_op|intros; apply tables_write_all].
Qed.
Lemma tables_fs_read p : keeps same_tables (fs_read p).
Proof. apply tables_fs_op. Qed.
Lemma tables_fs_remove p : keeps same_tables (fs_remove p).
Proof. apply tables_fs_op. Qed.
Lemma tables_fs_rename p q : keeps same_tables (fs_rename p q).
Proof. apply tables_fs_op. Qed.
Lemma tables_set_permissions p mode : keeps same_tables (set_permissions p mode).
Proof. apply tables_fs_op. Qed.
Lemma tables_open_truncate p mode : keeps same_tables (open_truncate p mode).
Proof. apply tables_fs_op. Qed.
End files.
#[export] Hint Resolve tables_on_files tables_fs_op tables_get_files tables_exists
  tables_create_dir_all tables_write_all tables_fs_write tables_fs_read tables_fs_remove
  tables_fs_rename tables_set_permissions tables_open_truncate : keeps.

(** ** Operations that leave the settings alone

    The header and the configuration are the rows of one table. *)

Definition same_settings (w w' : World) : Prop := vault_metadata (db w') = vault_metadata (db w).
#[export] Instance same_settings_timeless : Timeless same_settings.
Proof.
  split; [split; [by intros w|intros w1 w2 w3 H1 H2; unfold same_settings in *; congruence]|].
  intros w w' [Hd _]. unfold same_settings. by rewrite Hd.
Qed.

(** A write of what was read: the world of the one is that of the other. *)
Lemma keeps_get_put {A} (R : World → World → Prop) (g : Db → ST World StoreError A) :
  (∀ w, R w (g (db w) w).2) → keeps R (get_db ≫= g).
Proof. intros Hg w. apply Hg. Qed.

Section reads.
Context `{Ext} (R : World → World → Prop) {HR : Timeless R}.
Lemma keeps_latest_version s : keeps R (latest_version s).
Proof. unfold latest_version. keeps_auto. Qed.
Lemma keeps_load_version s v : keeps R (load_secret_version s v).
Proof. unfold load_secret_version. keeps_auto. Qed.
Lemma keeps_list_secrets : keeps R list_secrets.
Proof. unfold list_secrets. keeps_auto. Qed.
Lemma keeps_list_policies : keeps R list_policies.
Proof. unfold list_policies. keeps_auto. Qed.
Lemma keeps_list_tickets : keeps R list_tickets.
Proof. unfold list_tickets. keeps_auto. Qed.
Lemma keeps_list_jobs : keeps R list_rotation_jobs.
Proof. unfold list_rotation_jobs. keeps_auto. Qed.
Lemma keeps_list_events : keeps R list_audit_events.
Proof. unfold list_audit_events. keeps_auto. Qed.
Lemma keeps_load_ticket id : keeps R (load_ticket id).
Proof. unfold load_ticket. keeps_auto. Qed.
Lemma keeps_count_fingerprints : keeps R count_redaction_fingerprints.
Proof. unfold count_redaction_fingerprints. keeps_auto. Qed.
Lemma keeps_plaintext_export : keeps R plaintext_export_enabled.
Proof. unfold plaintext_export_enabled, get_metadata. keeps_auto. Qed.
#[local] Hint Resolve keeps_list_secrets keeps_list_policies keeps_list_tickets keeps_list_jobs
  keeps_list_events keeps_load_ticket : keeps.
Lemma keeps_vault_status : keeps R LocalVault_status.
Proof. unfold LocalVault_status. keeps_auto. Qed.
Lemma keeps_vault_secrets : keeps R LocalVault_list_secrets.
Proof. unfold LocalVault_list_secrets. keeps_auto. Qed.
Lemma keeps_vault_policies : keeps R LocalVault_list_policies.
Proof. unfold LocalVault_list_policies. keeps_auto. Qed.
Lemma keeps_vault_tickets : keeps R LocalVault_list_tickets.
Proof. unfold LocalVault_list_tickets. keeps_auto. Qed.
Lemma keeps_vault_jobs : keeps R LocalVault_list_rotation_jobs.
Proof. unfold LocalVault_list_rotation_jobs. keeps_auto. Qed.
Lemma keeps_vault_events : keeps R LocalVault_list_audit_events.
Proof. unfold LocalVault_list_audit_events. keeps_auto. Qed.
Lemma keeps_vault_ticket id : keeps R (LocalVault_load_ticket id).
Proof. unfold LocalVault_load_ticket. keeps_auto. Qed.
Lemma keeps_vault_latest s : keeps R (LocalVault_load_latest_secret s).
Proof. unfold LocalVault_load_latest_secret. keeps_auto. Qed.
Lemma keeps_vault_evaluate r : keeps R (LocalVault_evaluate_policy r).
Proof. unfold LocalVault_evaluate_policy. keeps_auto. Qed.
End reads.
#[export] Hint Resolve keeps_latest_version keeps_load_version keeps_list_secrets
  keeps_list_policies keeps_list_tickets keeps_list_jobs keeps_list_events keeps_load_ticket
  keeps_count_fingerprints keeps_plaintext_export keeps_vault_status keeps_vault_secrets
  keeps_vault_policies keeps_vault_tickets keeps_vault_jobs keeps_vault_events keeps_vault_ticket
  keeps_vault_latest keeps_vault_evaluate : keeps.

Section settings.
Context `{Ext}.
Ltac settings_write :=
  apply keeps_bind; [apply _|auto with keeps typeclass_instances|intros _];
  apply keeps_get_put; intros w; repeat case_match; done.
Lemma settings_save_record r : keeps same_settings (save_secret_record r).
Proof.
  unfold save_secret_record. apply keeps_bind; [apply _|auto with keeps typeclass_instances|intros _].
  apply keeps_get_put. intros w. destruct (metadata_of _ _); [|done].
  unfold mbind, st_bind, lift. by destruct (sql_u64 _).
Qed.
Lemma settings_insert_audit e : keeps same_settings (insert_audit_row e).
Proof. apply keeps_get_put. intros w. by case_match. Qed.
#[local] Hint Resolve settings_save_record settings_insert_audit : keeps.
Lemma settings_append build :
  (∀ l, keeps same_settings (build l)) → keeps same_settings (append_audit_event build).
Proof. intros Hb. unfold append_audit_event. keeps_auto. Qed.
Lemma settings_save_policy p : keeps same_settings (save_policy p).
Proof. unfold save_policy. settings_write. Qed.
Lemma settings_save_ticket t : keeps same_settings (save_ticket t).
Proof. unfold save_ticket. settings_write. Qed.
Lemma settings_save_current t t' : keeps same_settings (save_ticket_if_current t t').
Proof. unfold save_ticket_if_current. settings_write. Qed.
Lemma settings_save_fingerprint s v f : keeps same_settings (save_redaction_fingerprint s v f).
Proof.
  unfold save_redaction_fingerprint.
  apply keeps_bind; [apply _|auto with keeps typeclass_instances|intros _].
  apply keeps_get_put. intros w. unfold mbind, st_bind, lift. by destruct (sql_u64 _).
Qed.
Lemma settings_audit h k t s d md : keeps same_settings (append_audit h k t s d md).
Proof.
  unfold append_audit. apply keeps_bind; [apply _|apply keeps_lift, _|intros key].
  apply keeps_try, settings_append. intros l. unfold AuditManager_append. keeps_auto.
Qed.
#[local] Hint Resolve settings_save_policy settings_save_ticket settings_save_current
  settings_save_fingerprint settings_audit : keeps.

Lemma settings_verify_totp p code : keeps same_settings (verify_totp_mfa p code).
Proof. unfold verify_totp_mfa. keeps_auto. Qed.
Lemma settings_put s pt p t : keeps same_settings (put_secret s pt p t).
Proof. unfold put_secret, encrypt_version, next_version, save_fingerprint. keeps_auto. Qed.
Lemma settings_issue r p : keeps same_settings (issue_ticket r p).
Proof. unfold issue_ticket, issue_denied. keeps_auto. Qed.
Lemma settings_consume id r p : keeps same_settings (consume_ticket_for_secret id r p).
Proof.
  unfold consume_ticket_for_secret, active_policy_for_ticket, ensure_ticket_secret_is_current.
  keeps_auto.
Qed.
End settings.
#[export] Hint Resolve settings_verify_totp settings_put settings_issue settings_consume : keeps.

(** ** Commands as steps *)

Section steps.
Context {X : Ext} {HS : Host} {D : Disk} {N : Net} {G : Signing} {HC : CodecLaws} {HT : ChronoLaws}
  {HH : HashLaws}.
Context (kh : KeyHierarchy) (v0 : View) (d0 : Db).

(** Where a command ends: the tables represent a view that extends the one it started on. *)
Definition kept (s : Site) : Prop := inv kh v0 (site_world s).
(** On its way, the settings are those it started on. *)
Definition settled (s : Site) : Prop :=
  kept s ∧ vault_metadata (db (site_world s)) = vault_metadata d0.

(** Whatever these settings unlock under a pass phrase is the vault's own root key. *)
Definition sound (p : string) : Prop :=
  ∀ d v, represents d v → vault_metadata d = vault_metadata d0 → unlock_sound kh d (Some p).
Definition phrase_ok (value : option string) : Prop :=
  ∀ s p s', settled s → unlock_passphrase value s = (Ok p, s') → sound p.

(** Whatever its outcome [m] leads from [P] to [Q], and its results satisfy [R]. *)
Definition step {E A} (P : Site → Prop) (m : ST Site E A) (Q : Site → Prop) (R : A → Prop) : Prop :=
  ∀ s, P s → Q (m s).2 ∧ ∀ a, (m s).1 = Ok a → R a.

Lemma step_bind {E A B} P (m : ST Site E A) Q R (f : A → ST Site E B) Q' R' :
  step P m Q R → (∀ a, R a → step Q (f a) Q' R') → (∀ s, Q s → Q' s) →
  step P (m ≫= f) Q' R'.
Proof.
  intros Hm Hf HQ s Hs. destruct (Hm s Hs) as [H1 H2]. unfold mbind, st_bind.
  destruct (m s) as [[a|e|] s1]; simpl in *; [by apply Hf; auto|split; [auto|discriminate]..].
Qed.

Lemma settled_kept s : settled s → kept s.
Proof. by intros []. Qed.
Lemma settled_same s s' : same_tables s s' → settled s → settled s'.
Proof.
  intros Hd [(v & Hv) Hm]. unfold same_tables in Hd. split; [exists v|]; by rewrite Hd.
Qed.
Lemma kept_same s s' : same_tables s s' → kept s → kept s'.
Proof. intros Hd (v & Hv). exists v. by rewrite Hd. Qed.

Lemma step_quiet {E A} (m : ST Site E A) (R : A → Prop) :
  keeps same_tables m → (∀ s a s', settled s → m s = (Ok a, s') → R a) → step settled m settled R.
Proof.
  intros Hk HR s Hs. split; [by eapply settled_same; [apply Hk|]|]. intros a Ha.
  destruct (m s) as [r s'] eqn:Hrun. simpl in Ha. subst r. by eapply HR.
Qed.
Lemma quiet_kept {E A} (m : ST Site E A) : keeps same_tables m → step settled m kept (λ _, True).
Proof. intros Hk s Hs. split; [|done]. eapply kept_same; [apply Hk|by apply settled_kept]. Qed.

(** The two ways a command goes on: by a step that leaves the settings, or by its last. *)
Lemma step_then {E A B} (m : ST Site E A) R (f : A → ST Site E B) R' :
  step settled m settled R → (∀ a, R a → step settled (f a) kept R') → step settled (m ≫= f) kept R'.
Proof. intros Hm Hf. eapply step_bind; [exact Hm|exact Hf|apply settled_kept]. Qed.
Lemma step_skip {E A B} (m : ST Site E A) (f : A → ST Site E B) R' :
  keeps same_tables m → (∀ a, step settled (f a) kept R') → step settled (m ≫= f) kept R'.
Proof. intros Hm Hf. apply (step_then _ (λ _, True)); [by apply step_quiet|auto]. Qed.
Lemma step_last {E A B} (m : ST Site E A) R (f : A → ST Site E B) :
  step settled m kept R → (∀ a, keeps same_tables (f a)) → step settled (m ≫= f) kept (λ _, True).
Proof.
  intros Hm Hf. eapply step_bind; [exact Hm| |done].
  intros a _ s Hs. split; [|done]. by eapply kept_same; [apply Hf|].
Qed.
Lemma step_any {E A} P (m : ST Site E A) Q R : step P m Q R → step P m Q (λ _, True).
Proof. intros Hm s Hs. split; [by apply Hm|done]. Qed.

(** Before its first operation, a command is where it started. *)
Definition start (s0 s : Site) : Prop :=
  settled s ∧ site_files s = site_files s0 ∧ db (site_world s) = db (site_world s0).
Lemma start_quiet {E A} s0 (m : ST Site E A) (R : A → Prop) :
  keeps same_tables m → keeps same_files m →
  (∀ s a s', start s0 s → m s = (Ok a, s') → R a) → step (start s0) m (start s0) R.
Proof.
  intros Hk Hf HR s Hs. split.
  - destruct Hs as (Hs & Hfs & Hd). split; [by eapply settled_same; [apply Hk|]|].
    specialize (Hk s). specialize (Hf s). unfold same_tables in Hk. unfold same_files in Hf.
    split; congruence.
  - intros a Ha. destruct (m s) as [r s'] eqn:Hrun. simpl in Ha. subst r. by eapply HR.
Qed.
Lemma start_bind {E A B} s0 (m : ST Site E A) R (f : A → ST Site E B) R' :
  step (start s0) m (start s0) R → (∀ a, R a → step (start s0) (f a) kept R') →
  step (start s0) (m ≫= f) kept R'.
Proof.
  intros Hm Hf. eapply step_bind; [exact Hm|exact Hf|]. intros s [Hs _]. by apply settled_kept.
Qed.
Lemma start_step {E A} s0 (m : ST Site E A) Q R : step settled m Q R → step (start s0) m Q R.
Proof. intros Hm s [Hs _]. by apply Hm. Qed.
Lemma kept_step {E A} (m : ST Site E A) : keeps same_tables m → step kept m kept (λ _, True).
Proof. intros Hk s Hs. split; [|done]. by eapply kept_same; [apply Hk|]. Qed.

(** *** Vault operations *)

Lemma done_world {A} (m : ST World VaultError A) w : (done_ m w).2 = (m w).2.
Proof. unfold done_, mbind, st_bind. by destruct (m w) as [[]]. Qed.

Lemma op_at {F A} `{From VaultError F} o (m : ST World VaultError A) s :
  (∀ w, (run_op o w).2 = (m w).2) → settled s →
  (∀ v, represents (db (site_world s)) v → op_ok kh v (db (site_world s)) o) →
  kept (on_vault m s : res F A * Site).2.
Proof.
  intros Hrun [(v & Hrep & Hinv & Hg) _] Hok.
  destruct (run_op_starts kh v (db (site_world s)) o Hrep Hinv (Hok v Hrep) (site_world s) eq_refl)
    as [(v' & Hrep' & Hinv' & Hg') _].
  rewrite Hrun in Hrep'. exists v'. unfold on_vault.
  destruct (m (site_world s)) as [r w]. split; [done|]. split; [done|]. by trans v.
Qed.
Lemma op_last {F A} `{From VaultError F} o (m : ST World VaultError A) :
  (∀ w, (run_op o w).2 = (m w).2) →
  (∀ s v, settled s → represents (db (site_world s)) v → op_ok kh v (db (site_world s)) o) →
  step settled (on_vault m : ST Site F A) kept (λ _, True).
Proof. intros Hrun Hok s Hs. split; [|done]. apply (op_at o); auto. Qed.
Lemma op_step {F A} `{From VaultError F} o (m : ST World VaultError A) :
  (∀ w, (run_op o w).2 = (m w).2) → keeps same_settings m →
  (∀ s v, settled s → represents (db (site_world s)) v → op_ok kh v (db (site_world s)) o) →
  step settled (on_vault m : ST Site F A) settled (λ _, True).
Proof.
  intros Hrun Hk Hok s Hs. destruct (op_last o m Hrun Hok s Hs) as [Hkept _].
  split; [|done]. split; [exact Hkept|]. destruct Hs as [_ <-]. specialize (Hk (site_world s)).
  unfold on_vault. by destruct (m (site_world s)).
Qed.

(** *** What commands are made of *)

Lemma tables_print_lines text : keeps same_tables (print_lines text).
Proof.
  induction text as [|line text IH]; [apply keeps_ret, _|].
  apply keeps_bind; [apply _|apply tables_print|intros; apply IH].
Qed.
Lemma tables_print_json v : keeps same_tables (print_json v).
Proof. apply tables_print. Qed.
Hint Resolve tables_print_lines tables_print_json : keeps.
Lemma tables_report j v text : keeps same_tables (report j v text).
Proof. unfold report. keeps_auto. Qed.
Lemma tables_vault_status h j : keeps same_tables (print_vault_status h j).
Proof. unfold print_vault_status. keeps_auto. Qed.
Lemma tables_secret_update j r a : keeps same_tables (print_secret_update j r a).
Proof. apply tables_report. Qed.
Lemma tables_rotation_job j job : keeps same_tables (print_rotation_job j job).
Proof. apply tables_report. Qed.
Lemma tables_plaintext b : keeps same_tables (print_plaintext b).
Proof. apply tables_print. Qed.
Lemma tables_unlock value : keeps same_tables (unlock_passphrase value).
Proof. unfold unlock_passphrase. keeps_auto. Qed.
Lemma tables_stdin : keeps same_tables read_stdin.
Proof. unfold read_stdin. keeps_auto. Qed.
Hint Resolve tables_report tables_vault_status tables_secret_update tables_rotation_job
  tables_plaintext tables_unlock tables_stdin : keeps.
Lemma tables_secret_value value stdin : keeps same_tables (read_secret_value value stdin).
Proof. unfold read_secret_value. keeps_auto. Qed.
Lemma tables_text_input file stdin : keeps same_tables (read_text_input file stdin).
Proof. unfold read_text_input. keeps_auto. Qed.
Hint Resolve tables_secret_value tables_text_input : keeps.
Lemma tables_own_request a b c d e f g h : keeps same_tables (own_request a b c d e f g h).
Proof. unfold own_request, current_executable_path, current_executable_sha256. keeps_auto. Qed.
Hint Resolve tables_own_request : keeps.
Lemma tables_build_request a b c d e f g : keeps same_tables (build_access_request a b c d e f g).
Proof. unfold build_access_request. keeps_auto. Qed.
Hint Resolve tables_build_request : keeps.
Lemma tables_write_text p text : keeps same_tables (write_text p text).
Proof. unfold write_text, make_parent. keeps_auto. Qed.
Hint Resolve tables_write_text : keeps.

(** The pass phrase a command unlocks with. *)
Lemma step_unlock value : phrase_ok value → step settled (unlock_passphrase value) settled sound.
Proof. intros Hp. apply step_quiet; [auto with keeps|exact Hp]. Qed.

Lemma files_unlock value : keeps same_files (unlock_passphrase value).
Proof. unfold unlock_passphrase. keeps_auto. Qed.
Lemma start_unlock s0 value :
  phrase_ok value → step (start s0) (unlock_passphrase value) (start s0) sound.
Proof.
  intros Hv. apply start_quiet; [auto with keeps|apply files_unlock|]. intros s p s' [Hs _]. by apply Hv.
Qed.

(** A request of this process is one a Rust value can hold. *)
Lemma step_request secret_ref args raw :
  0 <= geteuid <= u32_max →
  (∀ n, flag_body_bytes (ra_http args) = Some n → 0 <= n <= u64_max) →
  step settled (args_request secret_ref args raw) settled AccessRequest_wf.
Proof.
  intros Huid Hb. apply step_quiet; [apply tables_build_request|].
  intros s r s' _ Hrun. unfold args_request, build_access_request, own_request in Hrun.
  do 4 (apply st_bind_ok_inv in Hrun as (? & ? & _ & Hrun)). injection Hrun as <- _.
  split; [exact Hb|]. by intros n [= <-].
Qed.

(** An operation unlocked with a sound pass phrase, the last or not. *)
Ltac op_ok Hp :=
  let s := fresh "s" in let Hm := fresh "Hm" in
  let Hrep := fresh "Hrep" in
  intros s ? [_ Hm] Hrep; split; [split; [by eapply Hp|try done]|done].
Ltac op_world := first [by apply done_world|by intros].

Lemma step_demand p code why :
  sound p → step settled (demand_mfa p code why) settled (λ _, True).
Proof.
  intros Hp. unfold demand_mfa. eapply step_bind; [apply (step_quiet _ (λ _, True)); [keeps_auto|done]| |done].
  intros enrolled _. destruct enrolled; [|by apply (step_quiet _ (λ _, True)); [apply keeps_ret, _|]].
  eapply step_bind; [apply (step_quiet _ (λ _, True)); [keeps_auto|done]| |done]. intros c _.
  apply (op_step (VerifyTotp p c)); [op_world|auto with keeps|op_ok Hp].
Qed.

(** The pass phrase that comes out of a gate was the one that went in. *)
Lemma step_same {E A B} P (m : ST Site E A) Q (R : B → Prop) b :
  step P m Q (λ _, True) → R b → step P (_ ← m; mret b) Q R.
Proof.
  intros Hm Ha. eapply step_bind; [exact Hm| |done]. intros _ _ s Hs.
  split; [done|]. by intros a' [= <-].
Qed.
Lemma step_export_gate value allow code :
  phrase_ok value → step settled (plaintext_export_passphrase value allow code) settled sound.
Proof.
  intros Hv. unfold plaintext_export_passphrase.
  do 3 (eapply step_bind; [apply (step_quiet _ (λ _, True)); [keeps_auto|done]|intros ? _|done]).
  eapply step_bind; [by apply step_unlock|intros p Hp|done]. apply step_same; [by apply step_demand|done].
Qed.
Lemma step_config_gate value code :
  phrase_ok value → step settled (config_change_passphrase value code) settled sound.
Proof.
  intros Hv. unfold config_change_passphrase.
  eapply step_bind; [by apply step_unlock|intros p Hp|done]. apply step_same; [by apply step_demand|done].
Qed.

Abbreviation keeps_vault m := (step settled m kept (λ _, True)).

(** A command that unlocks and ends with one operation. *)
Lemma unlocked_op {A B} value (m : string → ST Site CliError A) (f : A → ST Site CliError B) :
  phrase_ok value → (∀ p, sound p → keeps_vault (m p)) → (∀ a, keeps same_tables (f a)) →
  keeps_vault (p ← unlock_passphrase value; a ← m p; f a).
Proof.
  intros Hv Hm Hf. eapply step_then; [by apply step_unlock|]. intros p Hp. by eapply step_last; [apply Hm|].
Qed.
Ltac skip := eapply step_skip; [solve [keeps_auto]|intros ?].
Ltac last_op o Hp := apply (op_last o); [op_world|op_ok Hp].

(** The pass phrase an operation of a command unlocks with, for commands that have one. *)
Definition opens (phrase : option (option string)) : Prop :=
  ∀ value, phrase = Some value → phrase_ok value.
Ltac opened Hv := intros Hv; try specialize (Hv _ eq_refl).

Definition secret_phrase (c : SecretCommand) : option (option string) :=
  match c with
  | SecretPut _ _ _ _ p | SecretGet _ p _ _ | SecretDisable _ p | SecretDestroy _ p _ => Some p
  | SecretInspect _ | SecretList => None
  end.
Lemma secret_keeps j c : opens (secret_phrase c) → keeps_vault (secret_command j c).
Proof.
  destruct c as [r value stdin t p|r p allow code|r|r p|r p why|]; cbn [secret_command secret_phrase]; opened Hv.
  - eapply step_then; [by apply step_unlock|intros ph Hp]. do 2 skip.
    eapply step_last; [last_op (Put r (as_bytes a) ph a0) Hp|intros; keeps_auto].
  - eapply step_then; [by apply step_export_gate|intros ph Hp].
    eapply step_last; [last_op (Get r ph) Hp|intros; keeps_auto].
  - apply quiet_kept. keeps_auto.
  - apply unlocked_op; [done|intros ph Hp; last_op (Disable r ph) Hp|intros; keeps_auto].
  - skip. apply unlocked_op; [done|intros ph Hp; last_op (Destroy r ph) Hp|intros; keeps_auto].
  - apply quiet_kept. keeps_auto.
Qed.

Definition audit_phrase (c : AuditCommand) : option (option string) :=
  match c with AuditVerify p => Some p | _ => None end.
Lemma audit_keeps j c : opens (audit_phrase c) → keeps_vault (audit_command j c).
Proof.
  destruct c as [t limit|dest t|p]; cbn [audit_command audit_phrase]; opened Hv.
  - apply quiet_kept. keeps_auto.
  - apply quiet_kept. keeps_auto.
  - eapply step_then; [by apply step_unlock|intros ph Hp].
    eapply step_last; [last_op (VerifyAudit ph) Hp|intros; keeps_auto].
Qed.

(** A policy that was read holds a date RFC 3339 can print, if it holds one. *)
Definition dates_ok (fs : Files) (file : option string) (stdin : bool) : Prop :=
  ∀ s q s', site_files s = fs → read_policy file stdin s = (Ok q, s') → AccessPolicy_wf q.
Lemma tables_read_policy file stdin : keeps same_tables (read_policy file stdin).
Proof. unfold read_policy. keeps_auto. Qed.
Hint Resolve tables_read_policy : keeps.

Lemma files_read_policy file stdin : keeps same_files (read_policy file stdin).
Proof. unfold read_policy, read_text_input, read_stdin. keeps_auto. Qed.
Definition policy_phrase (c : PolicyCommand) : option (option string) :=
  match c with PolicyPut _ _ p => Some p | _ => None end.
Lemma policy_keeps s0 j c :
  opens (policy_phrase c) → (∀ file stdin p, c = PolicyPut file stdin p → dates_ok (site_files s0) file stdin) →
  step (start s0) (policy_command j c) kept (λ _, True).
Proof.
  destruct c as [file stdin p| |dest|file stdin|r args]; cbn [policy_command policy_phrase];
    opened Hv; intros Hd.
  - specialize (Hd _ _ _ eq_refl).
    eapply start_bind; [by apply start_unlock|intros ph Hp]. apply (start_bind _ _ AccessPolicy_wf).
    { apply start_quiet; [keeps_auto|apply files_read_policy|]. intros s q s' (_ & Hf & _). by apply Hd. }
    intros q Hq. apply start_step. eapply step_last; [last_op (Save q ph) Hp|intros; keeps_auto].
  - apply start_step, quiet_kept. keeps_auto.
  - apply start_step, quiet_kept. keeps_auto.
  - apply start_step, quiet_kept. keeps_auto.
  - apply start_step, quiet_kept. unfold args_request. keeps_auto.
Qed.

Definition config_phrase (c : ConfigCommand) : option (option string) :=
  match c with ExportEnable p _ _ | ExportDisable p _ => Some p | ExportStatus => None end.
Lemma config_keeps j c : opens (config_phrase c) → keeps_vault (config_command j c).
Proof.
  destruct c as [|p code a|p code]; cbn [config_command config_phrase]; opened Hv.
  - apply quiet_kept. keeps_auto.
  - eapply step_then; [by apply step_config_gate|intros ph Hp].
    eapply step_last; [last_op (SetExport ph true a) Hp|intros; keeps_auto].
  - eapply step_then; [by apply step_config_gate|intros ph Hp].
    eapply step_last; [last_op (SetExport ph false true) Hp|intros; keeps_auto].
Qed.

(** The pass phrase and the arguments of a ticket command. *)
Definition ticket_phrase (c : TicketCommand) : option (option string) :=
  match c with
  | TicketIssue _ _ p | TicketRevoke _ p | TicketValidate _ _ p | TicketRenew _ _ p
  | TicketConsume _ _ p _ _ => Some p
  | TicketList | TicketInspect _ => None
  end.
Definition ticket_args (c : TicketCommand) : option RequestArgs :=
  match c with
  | TicketIssue _ a _ | TicketValidate _ a _ | TicketRenew _ a _ | TicketConsume _ a _ _ _ => Some a
  | _ => None
  end.
Definition args_ok (args : RequestArgs) : Prop :=
  ∀ n, flag_body_bytes (ra_http args) = Some n → 0 <= n <= u64_max.

Lemma step_ticket_request id args raw :
  0 <= geteuid <= u32_max → args_ok args →
  step settled (ticket_request_for id args raw) settled AccessRequest_wf.
Proof.
  intros Hu Ha. unfold ticket_request_for.
  eapply step_bind; [apply (step_quiet _ (λ _, True)); [keeps_auto|done]| |done].
  intros t _. by apply step_request.
Qed.

Lemma ticket_keeps j c :
  0 <= geteuid <= u32_max → opens (ticket_phrase c) →
  (∀ a, ticket_args c = Some a → args_ok a) → keeps_vault (ticket_command j c).
Proof.
  intros Hu.
  destruct c as [|id|r args p|id p|id args p|id args p|id args p allow code];
    cbn [ticket_command ticket_phrase ticket_args]; opened Hv; intros Ha.
  - apply quiet_kept. keeps_auto.
  - apply quiet_kept. keeps_auto.
  - eapply step_then; [by apply step_unlock|intros ph Hp].
    eapply step_then; [by apply step_request; [|apply Ha]|intros q Hq].
    eapply step_last; [last_op (Issue q ph) Hp|intros; keeps_auto].
  - apply unlocked_op; [done|intros ph Hp; last_op (Revoke id ph) Hp|intros; keeps_auto].
  - eapply step_then; [by apply step_unlock|intros ph Hp].
    eapply step_then; [by apply step_ticket_request; [|apply Ha]|intros q Hq].
    eapply step_last; [last_op (Validate id q ph) Hp|intros; keeps_auto].
  - eapply step_then; [by apply step_unlock|intros ph Hp].
    eapply step_then; [by apply step_ticket_request; [|apply Ha]|intros q Hq].
    eapply step_last; [last_op (Renew id q ph) Hp|intros; keeps_auto].
  - eapply step_then; [by apply step_export_gate|intros ph Hp].
    eapply step_then; [by apply step_ticket_request; [|apply Ha]|intros q Hq].
    eapply step_last; [last_op (Consume id q ph) Hp|intros; keeps_auto].
Qed.

Definition rotation_phrase (c : RotationCommand) : option (option string) :=
  match c with
  | RotationStart _ _ _ _ p | RotationVerify _ p | RotationPromote _ p | RotationRollback _ p => Some p
  | RotationList => None
  end.
Lemma rotation_keeps j c : opens (rotation_phrase c) → keeps_vault (rotation_command j c).
Proof.
  destruct c as [r value stdin t p|id p|id p|id p|]; 
    cbn [rotation_command rotation_phrase]; opened Hv.
  - eapply step_then; [by apply step_unlock|intros ph Hp]. do 2 skip.
    eapply step_last; [last_op (StartRotation r (as_bytes a) ph a0) Hp|intros; keeps_auto].
  - apply unlocked_op; [done|intros ph Hp; last_op (VerifyRotation id ph) Hp|intros; keeps_auto].
  - apply unlocked_op; [done|intros ph Hp; last_op (PromoteRotation id ph) Hp|intros; keeps_auto].
  - apply unlocked_op; [done|intros ph Hp; last_op (RollbackRotation id ph) Hp|intros; keeps_auto].
  - apply quiet_kept. keeps_auto.
Qed.

Lemma tables_ok {A} (m : ST World VaultError A) :
  keeps same_db m → keeps same_db (ok_ (F:=CliError) m).
Proof. intros Hm. unfold ok_. keeps_auto. Qed.
Hint Extern 2 (keeps same_db (ok_ _)) => apply tables_ok; solve [auto with keeps typeclass_instances] : keeps.

Definition mfa_phrase (c : MfaCommand) : option (option string) :=
  match c with EnrollTotpCommand _ _ p _ | VerifyTotpCommand _ p => Some p | MfaStatus => None end.
Lemma mfa_keeps j c : opens (mfa_phrase c) → keeps_vault (mfa_command j c).
Proof.
  destruct c as [issuer account p show|code p|]; cbn [mfa_command mfa_phrase]; opened Hv.
  - unfold enroll_totp. eapply step_then; [by apply step_unlock|intros ph Hp]. skip.
    eapply step_last; [last_op (EnrollTotp ph issuer a) Hp|intros; keeps_auto].
  - apply unlocked_op; [done|intros ph Hp; last_op (VerifyTotp ph code) Hp|intros; keeps_auto].
  - apply quiet_kept. keeps_auto.
Qed.

(** *** vault *)

(** An initialiser finds the vault there and touches nothing. *)
Lemma settled_header s : settled s → is_Some (oget "vault_header" (vault_metadata (db (site_world s)))).
Proof.
  intros [(v & Hrep & [(h & Hh & _) _] & _) _]. rewrite (rp_header _ _ Hrep), Hh. by eexists.
Qed.
Lemma init_keeps i ns : keeps_vault (on_vault (run_init i ns) : ST Site CliError VaultHeader).
Proof.
  intros s Hs. split; [|done]. apply (kept_same s); [|by apply settled_kept].
  destruct (run_init_refused i ns (site_world s) (settled_header s Hs)) as [_ Hd].
  unfold on_vault, same_tables. by destruct (run_init i ns (site_world s)).
Qed.

Section backups.
Lemma tables_private_parent {E} `{From IoError E} p : keeps same_tables (private_parent (E:=E) p).
Proof. unfold private_parent, harden_dir_permissions. keeps_auto. Qed.
Hint Resolve tables_private_parent : keeps.
Lemma tables_create_backup dest : keeps same_tables (create_backup dest).
Proof.
  unfold create_backup, checkpoint_database, read_database, create_private_file. keeps_auto.
Qed.
Lemma tables_restore_backup source dest : keeps same_tables (restore_backup source dest).
Proof. unfold restore_backup, harden_file_permissions. keeps_auto. Qed.
Lemma tables_package_read p : keeps same_tables (RecoveryPackage_read p).
Proof. unfold RecoveryPackage_read. keeps_auto. Qed.
Lemma tables_package_write pkg p : keeps same_tables (RecoveryPackage_write pkg p).
Proof. unfold RecoveryPackage_write. keeps_auto. Qed.
End backups.
Hint Resolve tables_create_backup tables_restore_backup tables_package_read
  tables_package_write : keeps.

(** What a package in a file opens to is the vault's own root key. *)
Definition package_ok (fs : Files) (path : string) : Prop :=
  ∀ s pkg s' secret rk, site_files s = fs → RecoveryPackage_read path s = (Ok pkg, s') →
    RecoveryManager_unwrap_root_key pkg secret = Ok rk → rk = kh_root_key kh.

Definition vault_phrase (c : VaultCommand) : option (option string) :=
  match c with VaultRecoveryCreate _ p _ _ _ => Some p | _ => None end.
Lemma files_package_read p : keeps same_files (RecoveryPackage_read p).
Proof. unfold RecoveryPackage_read. keeps_auto. Qed.
Lemma vault_keeps s0 path j c :
  opens (vault_phrase c) →
  (∀ p a b np nps dev, c = VaultRecover p a b np nps dev → package_ok (site_files s0) p) →
  (∀ source, c ≠ VaultRestore source) →
  step (start s0) (vault_command path j c) kept (λ _, True).
Proof.
  destruct c as [ns provider dev p| |dest|source|dest p rs mn show|file rs mn|file rs mn np nps dev];
    cbn [vault_command vault_phrase]; opened Hv; intros Hpkg Hr.
  - apply start_step. unfold vault_init. eapply step_last; [|intros; keeps_auto].
    destruct (String.eqb provider "passphrase"); [skip; apply (init_keeps (InitPassphrase _))|].
    destruct (String.eqb provider "tpm2"); [apply (init_keeps (InitTpm2 _))|].
    destruct (_ || _); [apply (init_keeps (InitTpm2Esapi _))|].
    destruct (String.eqb _ _); [apply (init_keeps InitSystemFingerprint)|].
    apply quiet_kept. keeps_auto.
  - apply start_step, quiet_kept. keeps_auto.
  - apply start_step, quiet_kept. keeps_auto.
  - by destruct (Hr source).
  - apply start_step. unfold recovery_create, not_both. eapply step_then; [by apply step_unlock|intros ph Hp]. do 2 skip.
    eapply step_last; [last_op (CreatePackage (Some ph) a0) Hp|intros; keeps_auto].
  - apply start_step, quiet_kept. unfold recovery_inspect, not_both. keeps_auto.
  - unfold recover, not_both. specialize (Hpkg _ _ _ _ _ _ eq_refl).
    eapply start_bind; [apply (start_quiet _ _ (λ _, True)); [keeps_auto..|done]|intros _ _].
    apply (start_bind _ _ (λ pkg, ∀ secret rk,
      RecoveryManager_unwrap_root_key pkg secret = Ok rk → rk = kh_root_key kh)).
    { apply start_quiet; [keeps_auto|apply keeps_try, files_package_read|].
      intros s pkg s' (_ & Hf & _) Hrun%try_ok_inv. intros ??. by eapply Hpkg. }
    intros pkg Hp. apply start_step. skip. eapply step_last; [|intros; keeps_auto].
    apply (op_last (Recover pkg a np nps dev)); [op_world|]. intros s v [_ Hm] _. split; [by split|]. exact (Hp a).
Qed.

(** *** lockdown *)

Lemma lockdown_keeps j why p s0 :
  phrase_ok p → Z.of_nat (length (tickets (db (site_world s0)))) <= u64_max →
  step (start s0) (lockdown j why p) kept (λ _, True).
Proof.
  intros Hv Hn. unfold lockdown. eapply start_bind; [by apply start_unlock|intros ph Hp].
  apply (step_bind _ _ kept (λ _, True)); [|intros a _; apply kept_step; keeps_auto|done].
  intros s (Hs & _ & Hd). split; [|done]. apply (op_at (RevokeAll ph why)); [op_world|done|].
  intros v Hrep. split; [|done]. split; [by eapply Hp, Hs|]. rewrite <-Hd, (rp_tickets _ _ Hrep) in Hn.
  unfold map_values in Hn. by rewrite length_fmap in Hn.
Qed.

(** *** provider, model-provider, broker, resolve and the service *)

Lemma tables_report_value {A} j (f : A → json) (g : A → list string) (a : A) :
  keeps same_tables (report j (f a) (g a)).
Proof. apply tables_report. Qed.

Definition provider_phrase (c : ProviderCommand) : option (option string) :=
  match c with ProviderEnroll _ p _ _ => Some p | _ => None end.
Lemma provider_keeps j c : opens (provider_phrase c) → keeps_vault (provider_command j c).
Proof.
  destruct c as [dev|dev|dev|dev| | |provider p np dev]; 
    cbn [provider_command provider_phrase]; opened Hv;
    try (apply quiet_kept; unfold ends, status_exit; keeps_auto; fail).
  eapply step_then; [by apply step_unlock|intros ph Hp].
  eapply step_last; [last_op (Rewrap (Some ph) provider np dev) Hp|intros; unfold ends; keeps_auto].
Qed.

Lemma model_provider_keeps j c :
  (∀ a, c = ModelProviderSetup a → phrase_ok (su_passphrase a) ∧ 0 <= su_max_body_bytes a <= u64_max) →
  keeps_vault (model_provider_command j c).
Proof.
  destruct c as [|a]; intros Hv; cbn [model_provider_command]; [apply quiet_kept; keeps_auto|].
  destruct (Hv a eq_refl) as [Hph Hb]. unfold model_provider_setup. skip. cbv zeta.
  eapply step_then; [by apply step_unlock|intros ph Hp]. unfold read_model_provider_key. skip.
  eapply step_then.
  { apply (op_step (Put (mo_secret_ref (settle a0 a)) (as_bytes (trim_line_ends a1)) ph ApiKey));
      [op_world|auto with keeps|op_ok Hp]. }
  intros n _. skip. eapply step_last; [|intros; unfold print_setup; keeps_auto].
  last_op (Save (model_provider_policy (settle a0 a) a a2
    (http_path_prefix_from_base_url (mo_base_url (settle a0 a)))) ph) Hp.
  split; simpl; try done; try (unfold u64_max, u32_max; lia). by intros n' [= <-].
Qed.

Lemma tables_request socket payload : keeps same_tables (request socket payload).
Proof. unfold request. keeps_auto. Qed.
Lemma tables_find_node p : keeps same_tables (find_node p).
Proof. by intros s. Qed.
Hint Resolve tables_request tables_find_node : keeps.
Lemma broker_keeps j socket c : keeps_vault (broker_command j socket c).
Proof.
  apply quiet_kept.
  destruct c; cbn [broker_command];
    unfold print_broker_response, print_broker_materialize_response, print_secret_field,
      cleanup_broker_socket; keeps_auto.
Qed.

Lemma resolve_keeps a : phrase_ok (rs_passphrase a) → keeps_vault (resolve a).
Proof.
  intros Hv. unfold resolve. skip. destruct (rs_broker a).
  - apply quiet_kept. unfold ends, print_secret_field, print_broker_response. keeps_auto.
  - eapply step_then; [by apply step_export_gate|intros ph Hp].
    eapply step_last; [last_op (Get (rs_secret_ref a) ph) Hp|intros; unfold ends; keeps_auto].
Qed.

Lemma install_keeps f path a : keeps_vault (install_service f path a).
Proof.
  apply quiet_kept.
  unfold install_service, install_broker_service, install_units, run_systemctl,
    default_broker_executable. keeps_auto.
Qed.

(** *** run and dotenv *)

Lemma step_materialization secret_ref consumer purpose mode mfa :
  0 <= geteuid <= u32_max →
  step settled (materialization_request secret_ref consumer purpose mode mfa) settled AccessRequest_wf.
Proof.
  intros Huid. apply step_quiet; [unfold materialization_request, provider_assurance; keeps_auto|].
  intros s r s' _ Hrun. unfold materialization_request, own_request in Hrun.
  do 4 (apply st_bind_ok_inv in Hrun as (? & ? & _ & Hrun)). injection Hrun as <- _.
  split; [done|]. by intros n [= <-].
Qed.
Lemma step_take consumer purpose ph mfa mode secret_ref :
  0 <= geteuid <= u32_max → sound ph →
  step settled (take_secret consumer purpose ph mfa mode secret_ref) settled (λ _, True).
Proof.
  intros Hu Hp. unfold take_secret.
  eapply step_bind; [by apply step_materialization|intros r Hr|done].
  eapply step_bind; [apply (op_step (Issue r ph)); [op_world|auto with keeps|op_ok Hp]|intros t _|done].
  apply (op_step (Consume (tk_ticket_id t) r ph)); [op_world|auto with keeps|op_ok Hp].
Qed.

Section loops.
Context (take : DeliveryMode → string → ST Site CliError bytes).
Hypothesis Htake : ∀ mode r, step settled (take mode r) settled (λ _, True).
Abbreviation on m := (step settled m settled (λ _, True)).
Lemma quiet_on {A} (m : ST Site CliError A) : keeps same_tables m → on m.
Proof. intros Hk. by apply step_quiet. Qed.
Lemma on_bind {A B} (m : ST Site CliError A) (f : A → ST Site CliError B) :
  on m → (∀ a, on (f a)) → on (m ≫= f).
Proof. intros Hm Hf. eapply step_bind; [exact Hm|by intros|done]. Qed.
Ltac on_step := first
  [ apply Htake | apply quiet_on; solve [keeps_auto] | apply on_bind; [|intros ?] ].
Lemma on_give_each give todo g : (∀ n r g, on (give n r g)) → on (give_each give todo g).
Proof.
  intros Hg. revert g. induction todo as [|[n r] todo IH]; intros g; cbn [give_each].
  - apply quiet_on, keeps_ret, _.
  - apply on_bind; [apply Hg|apply IH].
Qed.
Lemma on_give_all give values g : (∀ n r g, on (give n r g)) → on (give_all give values g).
Proof. intros Hg. unfold give_all. apply on_bind; [by repeat on_step|intros]. by apply on_give_each. Qed.
Lemma on_gives n r g :
  on (give_secret_env take n r g) ∧ on (give_secret_file take n r g) ∧
  on (give_secret_fd take n r g) ∧ on (give_reference take n r g).
Proof.
  unfold give_secret_env, give_secret_file, give_secret_fd, give_reference, must_be_ref,
    new_tempfile, check_io, make_fd_inheritable.
  split_and!; repeat on_step.
Qed.
Lemma on_stdin o : on (stdin_secret take o).
Proof. unfold stdin_secret, must_be_ref. destruct o; repeat on_step. Qed.
End loops.

Lemma tables_exec command child_env stdin files fds :
  keeps same_tables (exec_child command child_env stdin files fds).
Proof. unfold exec_child. keeps_auto. Qed.
Hint Resolve tables_exec : keeps.

Lemma run_keeps a :
  0 <= geteuid <= u32_max → phrase_ok None → keeps_vault (run_with_secrets a).
Proof.
  intros Hu Hv. unfold run_with_secrets. cbv zeta. skip.
  eapply step_then; [by apply step_unlock|intros ph Hp]. set (take := take_secret _ _ _).
  eapply step_then.
  { unfold verify_code. destruct (run_mfa_code a) as [c|]; [|by apply quiet_on, keeps_ret, _].
    apply on_bind; [|intros; by apply quiet_on, keeps_ret, _].
    apply (op_step (VerifyTotp ph c)); [op_world|auto with keeps|op_ok Hp]. }
  intros mfa _. skip.
  assert (∀ mode r, step settled (take mfa mode r) settled (λ _, True)) as Ht by (intros; by apply step_take).
  do 3 (eapply step_then; [apply on_give_all; intros; by apply on_gives|intros ? _]).
  eapply step_then; [by apply on_stdin|intros stdin _]. apply quiet_kept. keeps_auto.
Qed.

Lemma dotenv_run_keeps path consumer purpose command :
  0 <= geteuid <= u32_max → phrase_ok None → keeps_vault (dotenv_run path consumer purpose command).
Proof.
  intros Hu Hv. unfold dotenv_run. cbv zeta. skip.
  eapply step_skip; [unfold scan_dotenv, read_dotenv; apply tables_on_vault; keeps_auto|intros findings].
  destruct (existsb _ _); [apply quiet_kept, keeps_ret, _|].
  eapply step_skip; [unfold parse_dotenv, read_dotenv; apply tables_on_vault; keeps_auto|intros values].
  destruct (split_dotenv_values values) as [plain refs].
  eapply step_then; [by apply step_unlock|intros ph Hp].
  eapply step_then; [|intros g _; apply quiet_kept; keeps_auto].
  apply on_give_each. intros. apply on_gives. intros. by apply step_take.
Qed.

(** *** release *)

Section release_steps.
Lemma keeps_mapM {W E A B} (R : W → W → Prop) `{!PreOrder R} (f : A → ST W E B) l :
  (∀ a, keeps R (f a)) → keeps R (st_mapM f l).
Proof.
  intros Hf. induction l as [|a l IH]; cbn [st_mapM]; [apply keeps_ret, _|].
  apply keeps_bind; [apply _|apply Hf|intros b]. apply keeps_bind; [apply _|apply IH|].
  intros bs. apply keeps_ret, _.
Qed.
Lemma tables_is_file p : keeps same_tables (fs_is_file p).
Proof. by intros s. Qed.
Lemma tables_canonicalize p : keeps same_tables (canonicalize p).
Proof. apply tables_fs_op. Qed.
Lemma tables_file_and_mode p : keeps same_tables (file_and_mode p).
Proof. apply tables_fs_op. Qed.
Lemma tables_read_dir p : keeps same_tables (read_dir p).
Proof. apply tables_fs_op. Qed.
Lemma tables_file_type p : keeps same_tables (file_type_is_dir p).
Proof. apply tables_fs_op. Qed.
Hint Resolve tables_is_file tables_canonicalize tables_file_and_mode tables_read_dir
  tables_file_type : keeps.
Lemma tables_read_string p : keeps same_tables (read_to_string p).
Proof. unfold read_to_string. keeps_auto. Qed.
Lemma tables_copy p q : keeps same_tables (fs_copy p q).
Proof. unfold fs_copy. keeps_auto. Qed.
Lemma tables_collect fuel current : keeps same_tables (collect_source_paths fuel current).
Proof.
  revert current. induction fuel as [|fuel IH]; intros current; cbn [collect_source_paths]; [keeps_auto|].
  apply keeps_bind; [apply _|apply tables_read_dir|intros names].
  apply keeps_bind; [apply _| |intros; apply keeps_ret, _]. apply keeps_mapM; [apply _|intros name].
  unfold collect_entry. cbv zeta. apply keeps_bind; [apply _|apply tables_file_type|intros dir].
  destruct dir; [destruct (is_skipped name); [apply keeps_ret, _|apply IH]|keeps_auto].
Qed.
Hint Resolve tables_read_string tables_copy tables_collect : keeps.
Lemma tables_source_digest root : keeps same_tables (source_digest root).
Proof.
  unfold source_digest. do 2 (apply keeps_bind; [apply _|auto with keeps|intros ?]).
  apply keeps_bind; [apply _| |intros; apply keeps_ret, _]. apply keeps_mapM; [apply _|intros path].
  unfold read_entry. keeps_auto.
Qed.
Lemma tables_components root : keeps same_tables (project_components root).
Proof. unfold project_components, cargo_lock_components. keeps_auto. Qed.
Lemma tables_parent_dir p : keeps same_tables (make_parent_dir p).
Proof. unfold make_parent_dir. keeps_auto. Qed.
Hint Resolve tables_source_digest tables_components tables_parent_dir : keeps.
Lemma tables_evidence output root version : keeps same_tables (write_evidence output root version).
Proof.
  unfold write_evidence, rustc_version, write_pretty_json, write_openapi_evidence,
    write_proto_evidence, copy_openapi, canonical. keeps_auto.
Qed.
Lemma tables_entries paths seen : keeps same_tables (artifact_entries paths seen).
Proof.
  revert seen. induction paths as [|p paths IH]; intros seen; cbn [artifact_entries]; [keeps_auto|].
  unfold artifact_entry. keeps_auto.
Qed.
Hint Resolve tables_evidence tables_entries : keeps.
Lemma tables_verify root pk : keeps same_tables (verify_release_evidence root pk).
Proof.
  assert (∀ name, keeps same_tables (file_check root name)) as Hf by (intros; unfold file_check; keeps_auto).
  assert (∀ name, keeps same_tables (json_check root name)) as Hj.
  { intros name. unfold json_check, judge, parse_file. keeps_auto. }
  assert (∀ item, keeps same_tables (artifact_check item)) as Ha by (intros; unfold artifact_check; keeps_auto).
  unfold verify_release_evidence, signature_checks, read_signature, verify_ed25519_signature,
    verify_manifest_artifact_hashes, key_checks. pose proof @keeps_mapM as Hm. keeps_auto.
Qed.
Hint Resolve tables_verify : keeps.
Lemma tables_release c : keeps same_tables (release_command c).
Proof.
  destruct c; cbn [release_command]; unfold ends, generate_release_evidence, generate_signing_keypair,
    private_key_pem, write_private_file, sign_release_artifacts, artifact_manifest, recorded_source_digest;
    keeps_auto.
Qed.
End release_steps.

(** *** Reports *)

Section report_lemmas.
Context (vet : VaultError → string) (ret : RequestError → string)
  (itx : nat → option string) (meta : nat → option FileMeta).
Lemma tables_status_or_none : keeps same_tables status_or_none.
Proof. unfold status_or_none. keeps_auto. Qed.
Lemma tables_socket_report socket : keeps same_tables (broker_socket_report ret socket).
Proof. unfold broker_socket_report. keeps_auto. Qed.
Lemma tables_catalog dev : keeps same_tables (sanitized_provider_catalog dev).
Proof. unfold sanitized_provider_catalog. keeps_auto. Qed.
Hint Resolve tables_status_or_none tables_socket_report tables_catalog : keeps.
Lemma tables_tables_checks h : keeps same_tables (tables_checks itx h).
Proof.
  unfold tables_checks. apply keeps_bind; [apply _| |intros; keeps_auto].
  apply tables_on_vault. unfold integrity_check. keeps_auto.
Qed.
Hint Resolve tables_tables_checks : keeps.
Lemma tables_doctor path : keeps same_tables (doctor_report ret itx meta path).
Proof. unfold doctor_report, surroundings. keeps_auto. Qed.
Lemma tables_setup path dev : keeps same_tables (setup_report ret path dev).
Proof. unfold setup_report. keeps_auto. Qed.

Lemma attempt_step {E F A} P (m : ST Site E A) Q R :
  step P m Q R → step P (attempt m : ST Site F (res E A)) Q (λ _, True).
Proof. intros Hm s Hs. split; [|done]. unfold attempt. destruct (Hm s Hs) as [Hq _]. revert Hq. by destruct (m s) as [[] s1]. Qed.

Lemma readiness_keeps target dir b p :
  (b = true → phrase_ok p) → keeps_vault (readiness_check vet target dir b p).
Proof.
  intros Hv. unfold readiness_check. eapply step_last; [|intros; keeps_auto].
  unfold readiness_report. skip. destruct a as [h|]; [|apply quiet_kept, keeps_ret, _].
  eapply step_last; [|intros; apply keeps_ret, _]. unfold readiness_items. do 3 skip.
  eapply step_last; [|intros; unfold add_release_readiness_items; keeps_auto].
  unfold audit_item. destruct b; [|apply quiet_kept, keeps_ret, _].
  eapply step_then; [by apply step_unlock, Hv|intros ph Hp].
  eapply step_last; [eapply attempt_step; last_op (VerifyAudit ph) Hp|intros; keeps_auto].
Qed.
End report_lemmas.

(** ** Every command *)

Definition cli_phrase (c : Command) : option (option string) :=
  match c with
  | CVault c => vault_phrase c
  | CSecret c => secret_phrase c
  | CAudit c => audit_phrase c
  | CPolicy c => policy_phrase c
  | CConfig c => config_phrase c
  | CTicket c => ticket_phrase c
  | CRotation c => rotation_phrase c
  | CProvider c => provider_phrase c
  | CModelProvider (ModelProviderSetup a) => Some (su_passphrase a)
  | CMfa c => mfa_phrase c
  | CDotenvRun _ | CRun _ => Some None
  | CResolve a => Some (rs_passphrase a)
  | CLockdown _ p => Some p
  | CReadiness a => if rd_verify_audit a then Some (rd_passphrase a) else None
  | _ => None
  end.

(** The arguments are values of their Rust types, a policy that is read has a date that can be
    printed, a package that is read is the vault's own; and it is not a restoration, which puts
    another vault in the place of this one. *)
Definition cli_ok (s : Site) (c : Command) : Prop :=
  match c with
  | CVault (VaultRestore _) => False
  | CVault (VaultRecover path _ _ _ _ _) => package_ok (site_files s) path
  | CPolicy (PolicyPut file stdin _) => dates_ok (site_files s) file stdin
  | CTicket c => ∀ a, ticket_args c = Some a → args_ok a
  | CModelProvider (ModelProviderSetup a) => 0 <= su_max_body_bytes a <= u64_max
  | CLockdown _ _ => Z.of_nat (length (tickets (db (site_world s)))) <= u64_max
  | _ => True
  end.

Lemma run_kept vet ret itx meta fd version cli s :
  0 <= geteuid <= u32_max → settled s → opens (cli_phrase (cli_command cli)) →
  cli_ok s (cli_command cli) → kept (run vet ret itx meta fd version cli s).2.
Proof.
  intros Hu Hs Hv Hok. assert (start s s) as Hst by (by split).
  assert (∀ m : ST Site CliError unit, step (start s) m kept (λ _, True) → kept (ends m s).2) as Hends.
  { intros m Hm. unfold ends. refine (proj1 (step_bind (start s) m kept (λ _, True) _ kept (λ _, True) Hm _ _ s Hst));
      [intros _ _; apply kept_step, keeps_ret, _|done]. }
  assert (∀ m : ST Site CliError Z, keeps_vault m → kept (m s).2) as Hstep by (intros m Hm; by apply Hm).
  assert (∀ m : ST Site CliError Z, keeps same_tables m → kept (m s).2) as Hquiet
    by (intros m Hm; apply Hstep; by apply quiet_kept).
  unfold run. cbv zeta. destruct (cli_command cli) as
    [|c|c|c|c|c|c|c|c|c|c|socket c|a|path|a|args|a|a| |dev|why p|a]; cbn [cli_phrase cli_ok] in *;
    try (specialize (Hv _ eq_refl)).
  - apply Hquiet. unfold ends. keeps_auto.
  - apply Hends, vault_keeps; [done| |].
    + intros p a b np nps dev' ->. apply Hok.
    + by intros source ->.
  - by apply Hends, start_step, secret_keeps.
  - by apply Hends, start_step, audit_keeps.
  - apply Hends, policy_keeps; [done|]. by intros file stdin p ->.
  - by apply Hends, start_step, config_keeps.
  - by apply Hends, start_step, ticket_keeps.
  - by apply Hends, start_step, rotation_keeps.
  - by apply Hstep, provider_keeps.
  - apply Hends, start_step, model_provider_keeps. intros a ->. split; [by apply Hv|done].
  - by apply Hends, start_step, mfa_keeps.
  - apply Hends, start_step, broker_keeps.
  - apply Hends, start_step, install_keeps.
  - apply Hquiet. unfold dotenv_scan, ends.
    apply keeps_bind; [apply _| |intros findings; destruct findings; keeps_auto].
    unfold scan_dotenv, read_dotenv. apply tables_on_vault. keeps_auto.
  - by apply Hstep, dotenv_run_keeps.
  - apply Hquiet, tables_release.
  - by apply Hstep, run_keeps.
  - by apply Hstep, resolve_keeps.
  - apply Hquiet. apply keeps_bind; [apply _|apply tables_doctor|intros v; unfold ends, print_checks; keeps_auto].
  - apply Hquiet. apply keeps_bind; [apply _|apply tables_setup|intros v; unfold ends, print_setup_report; keeps_auto].
  - by apply Hends, lockdown_keeps.
  - apply Hstep, readiness_keeps. intros Hb. rewrite Hb in Hv. by apply Hv.
Qed.
End steps.
