(* ===== verification/CliExport.v ===== *)
(** * Plaintext on the command line (main.rs)

    The commands that print a secret from the vault itself, [secret get], [ticket consume] and
    [resolve] without a broker: what they print, and what must hold before they do. *)

From S2P Require Export CliSteps.
From S2P Require Import Toy.
#[local] Open Scope Z_scope.

(** ** What was printed *)

Definition same_out (s s' : Site) : Prop := site_out s' = site_out s.
#[export] Instance same_out_preorder : PreOrder same_out.
Proof. split; [by intros s|intros s1 s2 s3 H1 H2; unfold same_out in *; congruence]. Qed.

Lemma out_on_vault {E F A} `{From F E} (m : ST World F A) : keeps same_out (on_vault m : ST Site E A).
Proof. intros s. unfold on_vault, same_out. by destruct (m (site_world s)). Qed.
#[export] Hint Resolve out_on_vault : keeps.
#[export] Hint Extern 1 (keeps same_out (ask _)) => apply out_on_vault : keeps.

(** The flag and the code of a command that prints a secret from the vault. *)
Definition export_terms (c : Command) : option (bool * option string) :=
  match c with
  | CSecret (SecretGet _ _ allow code) => Some (allow, code)
  | CTicket (TicketConsume _ _ _ allow code) => Some (allow, code)
  | CResolve a => if rs_broker a then None else Some (rs_allow_plaintext a, rs_mfa_code a)
  | _ => None
  end.

Section export.
Context {X : Ext} {HS : Host} {D : Disk} {N : Net} {G : Signing} {HC : CodecLaws} {HT : ChronoLaws}
  {HH : HashLaws}.

(** A code the vault accepts, for a second factor on tables with view [v]. *)
Definition accepted (v : View) (code : option string) : Prop :=
  ∃ c p w w', code = Some c ∧ represents (db w) v ∧ verify_totp_mfa p c w = (Ok tt, w').
Record consented (v : View) (allow : bool) (code : option string) : Prop := {
  co_flag : allow = true;
  co_switch : v_config v PLAINTEXT_EXPORT_CONFIG_KEY = Some "enabled";
  co_mfa : totp_enrolled v → accepted v code;
}.
(** The bytes an active record of [v] decrypts to. *)
Definition stored_secret (v : View) (pt : bytes) : Prop :=
  ∃ kh rec, decrypt_secret kh rec = Ok pt ∧ rec_status rec = Active ∧
    oget (rec_secret_ref rec, rec_secret_version rec) (v_records v) = Some rec.

Lemma out_unlock value : keeps same_out (unlock_passphrase value).
Proof. unfold unlock_passphrase. keeps_auto. Qed.
#[local] Hint Resolve out_unlock : keeps.
Lemma out_gate value allow code : keeps same_out (plaintext_export_passphrase value allow code).
Proof. unfold plaintext_export_passphrase, demand_mfa. keeps_auto. Qed.
Lemma out_request id args raw : keeps same_out (ticket_request_for id args raw).
Proof.
  unfold ticket_request_for, args_request, build_access_request, own_request,
    current_executable_path, current_executable_sha256. keeps_auto.
Qed.

Lemma plaintext_enabled_inv b w w' v :
  represents (db w) v → plaintext_export_enabled w = (Ok b, w') →
  represents (db w') v ∧ (b = true → v_config v PLAINTEXT_EXPORT_CONFIG_KEY = Some "enabled").
Proof.
  intros Hrep Hrun. unfold plaintext_export_enabled in Hrun.
  apply st_bind_ok_inv in Hrun as (o & w1 & Hrun & Hr).
  apply (try_call_inv (GetMetadata PLAINTEXT_EXPORT_CONFIG_KEY) _ _ _ v Hrep) in Hrun as [Ho Hrep1];
    [|done].
  injection Ho as <-. injection Hr as <- <-. split; [done|]. apply bool_decide_eq_true_1.
Qed.

(** The gate: nothing printed, the terms met, and the same policies and records behind it. *)
Lemma gate_inv value allow code s p s' v :
  represents (db (site_world s)) v →
  plaintext_export_passphrase value allow code s = (Ok p, s') →
  consented v allow code ∧ ∃ v', represents (db (site_world s')) v' ∧ same_terms v v'.
Proof.
  intros Hrep Hrun. unfold plaintext_export_passphrase in Hrun.
  apply st_bind_ok_inv in Hrun as ([] & s1 & Ha & Hrun). apply lift_ok_inv in Ha as [Ha <-].
  assert (allow = true) as -> by (by destruct allow).
  apply st_bind_ok_inv in Hrun as (en & s2 & He & Hrun). apply on_vault_ok_inv in He as (He & _).
  apply (plaintext_enabled_inv _ _ _ v Hrep) in He as [Hrep2 Hen].
  apply st_bind_ok_inv in Hrun as ([] & s3 & Hg & Hrun).
  unfold guard_ in Hg. destruct en; [|done]. injection Hg as <-.
  apply st_bind_ok_inv in Hrun as (ph & s4 & Hu & Hrun).
  pose proof (quiet_unlock_passphrase value s2) as [Hd4 _]. rewrite Hu in Hd4. cbn [snd] in Hd4.
  rewrite <-Hd4 in Hrep2. clear Hu Hd4.
  apply st_bind_ok_inv in Hrun as ([] & s5 & Hm & Hrun). injection Hrun as <- <-.
  unfold demand_mfa in Hm. apply st_bind_ok_inv in Hm as (b & s6 & Hb & Hm).
  apply on_vault_ok_inv in Hb as (Hb & _). apply (totp_enrolled_inv _ _ _ v Hrep2) in Hb as [Hrep6 Hb].
  destruct b.
  - apply st_bind_ok_inv in Hm as (c & s7 & Hc & Hm). apply lift_ok_inv in Hc as [Hc%ok_or_ok_inv <-].
    apply on_vault_ok_inv in Hm as (Hm & _).
    destruct (verify_totp_inv _ _ _ _ v Hrep6 Hm) as (v' & Hrep' & Ht).
    split; [|by exists v']. split; [done|auto|]. intros _. by exists c, ph, (site_world s6), (site_world s5).
  - injection Hm as <-. split; [|by exists v]. split; [done|auto|]. intros ?%Hb. done.
Qed.

Lemma stored_same_terms v v' pt : same_terms v v' → stored_secret v' pt → stored_secret v pt.
Proof. intros (_ & _ & Hr & _) (kh & rec & Hd & Ha & Hg). exists kh, rec. by rewrite <-Hr. Qed.

Lemma get_stored secret_ref p w pt w' v :
  represents (db w) v → get_secret secret_ref p w = (Ok pt, w') → stored_secret v pt.
Proof.
  intros Hrep Hrun. unfold get_secret in Hrun.
  apply st_bind_ok_inv in Hrun as ([h kh] & w1 & Hu & Hrun).
  apply (unlock_inv _ _ _ _ _ v Hrep) in Hu as (Hrep1 & _). cbn beta iota in Hrun.
  apply st_bind_ok_inv in Hrun as (rec & w2 & Hl & Hrun).
  apply (try_call_inv (LoadLatestSecret _) _ _ _ v Hrep1 I) in Hl as [Ho Hrep2].
  cbn [spec fst] in Ho. apply ok_or_ok_inv in Ho.
  destruct (last _) as [[n rec']|] eqn:Hlast; [|done]. injection Ho as ->.
  pose proof (rep_last_filed _ _ Hrep1 _ _ _ Hlast) as [Hkey _]. cbn [fst snd] in Hkey.
  destruct (negb _) eqn:Ha.
  { by apply st_bind_ok_inv in Hrun as (? & ? & _ & Hrun). }
  apply negb_false_iff, bool_decide_eq_true_1 in Ha.
  apply st_bind_ok_inv in Hrun as (pt' & w3 & Hd & Hrun). apply lift_ok_inv in Hd as [Hd <-].
  apply st_bind_ok_inv in Hrun as (? & ? & _ & Hrun). injection Hrun as <- _.
  exists kh, rec. split; [by destruct (decrypt_secret kh rec); try done; injection Hd as ->|].
  split; [done|]. rewrite <-Hkey. apply last_versions_spec in Hlast as [? _]; [done|].
  apply (vk_records _ (rp_ok _ _ Hrep1)).
Qed.

(** A command that passes the gate, takes a plaintext from the vault and prints it. *)
Definition prints {A} (f : bytes → ST Site CliError A) : Prop :=
  ∀ pt s, site_out (f pt s).2 = site_out s ++ [from_utf8_lossy pt].
Definition exported (v : View) (allow : bool) (code : option string) (s s' : Site) : Prop :=
  consented v allow code ∧ ∃ pt, stored_secret v pt ∧ site_out s' = site_out s ++ [from_utf8_lossy pt].

Lemma export_inv {A} value allow code (m : string → ST Site CliError bytes) (f : bytes → ST Site CliError A)
    s r s' v :
  prints f → (∀ p, keeps same_out (m p)) →
  (∀ p s1 pt s2 v1, represents (db (site_world s1)) v1 → m p s1 = (Ok pt, s2) → stored_secret v1 pt) →
  represents (db (site_world s)) v →
  (p ← plaintext_export_passphrase value allow code; pt ← m p; f pt) s = (r, s') →
  site_out s' ≠ site_out s → exported v allow code s s'.
Proof.
  intros Hf Hk Hm Hrep Hrun Hout.
  apply (keeps_bind_cases same_out) in Hrun as [?|(p & s1 & Hs1 & Hg & Hrun)]; [done| |apply out_gate].
  destruct (gate_inv _ _ _ _ _ _ v Hrep Hg) as (Hc & v1 & Hrep1 & Ht).
  apply (keeps_bind_cases same_out) in Hrun as [Hs2|(pt & s2 & Hs2 & Hp & Hrun)]; [| |apply Hk].
  { destruct Hout. by rewrite Hs2, Hs1. }
  split; [done|]. exists pt. split; [eapply stored_same_terms, Hm; eauto|].
  pose proof (Hf pt s2) as Hpr. rewrite Hrun in Hpr. cbn [snd] in Hpr. by rewrite Hpr, Hs2, Hs1.
Qed.

Lemma prints_plaintext : prints print_plaintext.
Proof. by intros pt s. Qed.
Lemma ends_site (m : ST Site CliError unit) s r s' :
  ends m s = (r, s') → ∃ r', m s = (r', s').
Proof. unfold ends, mbind, st_bind. destruct (m s) as [[a|e|] s1]; intros [= _ <-]; eauto. Qed.

Lemma stored_get secret_ref p s1 pt s2 v1 :
  represents (db (site_world s1)) v1 →
  on_vault (get_secret secret_ref p) s1 = (Ok pt, s2 : Site) :> res CliError bytes * Site → stored_secret v1 pt.
Proof. intros Hrep (Hg & _)%on_vault_ok_inv. by eapply get_stored. Qed.
Lemma stored_consume id args p s1 pt s2 v1 :
  represents (db (site_world s1)) v1 →
  (request ← ticket_request_for id args true; on_vault (consume_ticket_for_secret id request p)) s1
    = (Ok pt, s2) → stored_secret v1 pt.
Proof.
  intros Hrep (q & s3 & Hq & Hrun)%st_bind_ok_inv.
  assert (keeps quiet (ticket_request_for id args true)) as Hk.
  { unfold ticket_request_for, args_request, build_access_request.
    pose proof quiet_own_request. keeps_auto. }
  specialize (Hk s1). rewrite Hq in Hk. destruct Hk as [Hd _]. cbn [snd] in Hd. rewrite <-Hd in Hrep.
  apply on_vault_ok_inv in Hrun as (Hrun & _).
  apply (consume_inv _ _ _ _ _ _ v1 Hrep) in Hrun as (kh & t & t' & i & v' & _ & _ & Hm & _).
  destruct (ma_record _ _ _ _ _ _ Hm) as (rec & Hd' & Ha & _ & _ & Hg). by exists kh, rec.
Qed.
End export.

(** ** Properties *)

(** C23: no plaintext is printed from the vault without consent.  If [hbse secret get],
    [hbse ticket consume] or [hbse resolve] without a broker printed anything, on any store and
    whatever failed on the way, then --allow-plaintext was given, the switch for plaintext
    exports was on, a code the vault accepts was given if a second factor is enrolled, and
    what was printed is one text, that of the bytes an active stored record decrypts to.  No
    policy is consulted for [secret get] and [resolve]. *)
Theorem plaintext_needs_consent {X : Ext} {HS : Host} {D : Disk} {N : Net} {G : Signing}
    {HC : CodecLaws} {HT : ChronoLaws} {HH : HashLaws} vet ret itx meta fd version cli allow code
    s r s' v :
  export_terms (cli_command cli) = Some (allow, code) → represents (db (site_world s)) v →
  run vet ret itx meta fd version cli s = (r, s') → site_out s' ≠ site_out s →
  exported v allow code s s'.
Proof.
  intros Hc Hrep Hrun Hout. unfold run in Hrun. cbv zeta in Hrun.
  destruct (cli_command cli) as [|c|c|c|c|c|c|c|c|c|c|socket c|a|path|a|c|a|a| |dev|why p|a]; try done.
  - destruct c; try done. injection Hc as <- <-. apply ends_site in Hrun as [r' Hrun].
    eapply export_inv; [apply prints_plaintext| |apply stored_get|exact Hrep|exact Hrun|exact Hout].
    intros. apply out_on_vault.
  - destruct c as [| | | | | |id args value al co]; try done. injection Hc as <- <-.
    apply ends_site in Hrun as [r' Hrun].
    eapply (export_inv value al co (λ p, request ← ticket_request_for id args true;
      on_vault (consume_ticket_for_secret id request p)));
      [apply prints_plaintext| |apply stored_consume|exact Hrep| |exact Hout].
    + intros. apply keeps_bind; [apply _|apply out_request|intros; apply out_on_vault].
    + rewrite <-Hrun. cbn [ticket_command]. unfold mbind, st_bind.
      destruct (plaintext_export_passphrase value al co s) as [[p|e|] s1]; [|done..].
      by destruct (ticket_request_for id args true s1) as [[q|e|] s2].
  - cbn [export_terms] in Hc. destruct (rs_broker a) eqn:Hb; [done|]. injection Hc as <- <-.
    unfold resolve in Hrun. rewrite Hb in Hrun.
    apply (keeps_bind_cases same_out) in Hrun as [?|([] & s1 & _ & Hg & Hrun)];
      [done| |apply keeps_guard, _].
    unfold guard_ in Hg. destruct (negb _); [done|]. injection Hg as <-.
    eapply (export_inv _ _ _ _ (λ pt, ends (print_plaintext pt)));
      [by intros pt s1| |apply stored_get|exact Hrep|exact Hrun|exact Hout].
    intros. apply out_on_vault.
Qed.

Definition show_secret : Cli := {|
  cli_vault := "/home/alice/vault"; cli_json := false;
  cli_command := CSecret (SecretGet "secret://default/api" None true None) |}.
(** A run that ended well and printed one text. *)
Definition printed (run : res CliError Z * Site) : bool :=
  match run with (Ok 0, s) => (length (site_out s) =? 1)%nat | _ => false end.
Lemma show_secret_prints : printed (run (λ _, "") (λ _, "") (λ _, None) (λ _, None) (λ _, "60") "0.1.0"
  show_secret ticket_site) = true.
Proof. vm_compute. reflexivity. Qed.

Lemma plaintext_needs_consent_witness : ∃ v s',
  run (λ _, "") (λ _, "") (λ _, None) (λ _, None) (λ _, "60") "0.1.0" show_secret ticket_site
    = (Ok 0, s') ∧ exported v true None ticket_site s'.
Proof.
  destruct ticket_vault as (kh & v & Hr). pose proof show_secret_prints as Hp.
  destruct (run (λ _, "") (λ _, "") (λ _, None) (λ _, None) (λ _, "60") "0.1.0" show_secret ticket_site)
    as [r s'] eqn:Hrun.
  assert (r = Ok 0 ∧ site_out s' ≠ site_out ticket_site) as [-> Hout].
  { clear Hrun. destruct r as [[| |]| |]; try discriminate Hp. split; [reflexivity|].
    intros Ho. simpl in Hp. rewrite Ho in Hp. discriminate Hp. }
  exists v, s'. split; [reflexivity|].
  exact (plaintext_needs_consent _ _ _ _ _ _ show_secret true None ticket_site (Ok 0) s' v eq_refl
    (lv_rep _ _ _ (rd_live _ _ _ _ Hr)) Hrun Hout).
Defined.
