(* ===== verification/CliInvariant.v ===== *)
(** * Every command keeps the vault (main.rs over vault.rs)

    The composition of the whole program with its vault: from tables that are well-formed, any
    command line, with any outcome, any failure of the store, the disk or a child on the way,
    leaves well-formed tables that only grew. *)

From S2P Require Export CliSteps.
From S2P Require Import Toy.
#[local] Open Scope Z_scope.

(** The pass phrase of a vault, given or found in the environment, opens it and nothing else. *)
Section bound.
Context {X : Ext} {HS : Host} {D : Disk} {N : Net} {G : Signing} {HC : CodecLaws} {HT : ChronoLaws}
  {HH : HashLaws} {HA : AeadLaws} {HE : EnvLaws} {HN : NoFaults}.
Context (kh : KeyHierarchy) (p : string) (w : World) (v : View) (Hr : ready kh p w v).

Lemma settings_header d v' :
  represents d v' → vault_metadata d = vault_metadata (db w) → v_header v' = v_header v.
Proof using HC Hr.
  intros Hd Hm. pose proof (rp_header _ _ Hd) as H1. rewrite Hm, (rp_header _ _ (lv_rep _ _ _ (rd_live _ _ _ _ Hr))) in H1.
  pose proof (vk_header _ (rp_ok _ _ Hd)) as Hwf'.
  pose proof (vk_header _ (rp_ok _ _ (lv_rep _ _ _ (rd_live _ _ _ _ Hr)))) as Hwf.
  destruct (v_header v) as [h|], (v_header v') as [h'|]; try discriminate; [|done].
  injection H1 as H1. f_equal. symmetry. eapply to_string_inj; eauto.
Qed.
Lemma bound_sound : sound kh (db w) p.
Proof using All.
  intros d v' Hd Hm w1 h1 k1 w2 Hdb Hrun. destruct Hr as [_ (h & Hh & Ho)].
  destruct (unlock_opens kh p w1 v' h) as (w3 & Hu & _);
    [by rewrite Hdb|by rewrite (settings_header d v')|done|].
  rewrite Hu in Hrun. by injection Hrun as _ <- _.
Qed.
Lemma bound_phrase value : passphrase_or_env value = Ok p → phrase_ok kh v (db w) value.
Proof using All.
  intros Hp s q s' [(v' & Hd & _) Hm] Hrun. unfold unlock_passphrase in Hrun.
  apply st_bind_ok_inv in Hrun as (h' & s1 & Hst & Hrun).
  destruct Hr as [_ (h & Hh & Hvid & b & Hb & _ & Hw)].
  assert (h' = h) as ->.
  { destruct (exec_refines LoadHeader (site_world s) v' Hd I (no_fault _)) as (d' & Heq & _).
    simpl in Heq. rewrite (settings_header _ _ Hd Hm), Hh in Heq.
    unfold on_vault, LocalVault_status in Hst. rewrite (try_ok _ _ _ _ Heq) in Hst. by injection Hst as <- _. }
  assert (binding_str "provider_id" h = Some PASSPHRASE_PROVIDER_ID) as Hid.
  { eapply binding_provider; [exact Hb|]. by rewrite Hvid. }
  cbv zeta in Hrun. rewrite Hid in Hrun. cbn in Hrun. rewrite Hp in Hrun. injection Hrun as <- _.
  exact bound_sound.
Qed.
End bound.

(** ** Properties *)

(** C6: no command line breaks the vault, but a restoration or a recovery from a package that is
    not the vault's own.  From tables that represent a typed view whose audit log verifies, any
    other command of the program leaves tables that represent a typed view again, whose audit log
    verifies under the same key and extends the old one, and in which every secret version,
    policy, ticket, rotation job and fingerprint is still filed: whatever the command prints or
    exits with, whichever file, child, socket or provider fails, and wherever in its sequence of
    vault operations it stops.  What is asked of the command ([opens], [cli_ok]): the pass phrases
    it could unlock with open this vault's own root key; it is not a restoration, which puts
    another vault in place of this one; the recovery package it reads, if it reads one, holds this
    vault's own root key (another one is accepted, see [foreign_package_accepted]); the dates of a
    policy it reads from a file or from its input are ones that can be printed and read again; its
    sizes are values of their Rust types; and, as the tables are kept apart from the files here,
    the files it writes are not the vault's own. *)
Theorem commands_keep_vault {X : Ext} {HS : Host} {D : Disk} {N : Net} {G : Signing} {HC : CodecLaws}
    {HT : ChronoLaws} {HH : HashLaws} vet ret itx meta fd version kh v cli s :
  0 <= geteuid <= u32_max → represents (db (site_world s)) v → vault_inv kh v →
  opens kh v (db (site_world s)) (cli_phrase (cli_command cli)) →
  cli_ok kh s (cli_command cli) →
  ∃ v', represents (db (site_world (run vet ret itx meta fd version cli s).2)) v' ∧
    vault_inv kh v' ∧ grows v v'.
Proof.
  intros Hu Hrep Hinv Hv Hok. apply (run_kept kh v (db (site_world s))); [done| |done..].
  split; [|done]. by exists v.
Qed.

Definition incident : Cli := {|
  cli_vault := "/home/alice/vault"; cli_json := true;
  cli_command := CLockdown "incident" None |}.

Lemma commands_keep_vault_witness : ∃ kh v v',
  represents (db (site_world (run (λ _, "") (λ _, "") (λ _, None) (λ _, None) (λ _, "60") "0.1.0" incident ticket_site).2)) v' ∧ vault_inv kh v' ∧ grows v v'.
Proof.
  destruct ticket_vault as (kh & v & Hr). exists kh, v.
  apply (commands_keep_vault (λ _, "") (λ _, "") (λ _, None) (λ _, None) (λ _, "60") "0.1.0" kh v incident ticket_site toy_uid (lv_rep _ _ _ (rd_live _ _ _ _ Hr))
    (lv_inv _ _ _ (rd_live _ _ _ _ Hr))).
  - intros value [= <-]. apply (bound_phrase kh "correct horse" ticket_world v Hr). vm_compute. reflexivity.
  - vm_compute. discriminate.
Defined.
