(* ===== verification/Broker.v ===== *)
(** * The broker daemon: requests (broker_daemon.rs)

    The state of the broker, the access request it makes of a client's JSON and of the peer the
    kernel names, and the HTTP request it sends for a client with the secret injected.  A
    computation runs over the [World] of the vault, the [BrokerState] and the list of the
    HTTP requests sent so far. *)

From S2P Require Export Vault Network.
#[local] Open Scope Z_scope.

Inductive BrokerError : Type :=
| BIo | BJson | BVault (e : VaultError) | BLocked | BUnknownCommand (command : string)
| BMissingField (field : string) | BUnsupportedProvider (provider : string) | BInvalidHttpUrl
| BRequestContainsSecret | BResponseTooLarge | BHttp (text : string)
| BRemoteHttpGatewayNotAllowed | BRequestBodyTooLarge.

#[export] Instance from_vault : From VaultError BrokerError := BVault.

Record BrokerState : Type := {
  idle_timeout_seconds : f64;
  unlocked_passphrase : option string;
  unlocked : bool;
  mfa_verified : bool;
  broker_session_id : option string;
  last_activity : option Z;
}.

(** [BrokerState::new]; the vault's path is the store of the [World]. *)
Definition BrokerState_new (idle_timeout_seconds : f64) : BrokerState := {|
  idle_timeout_seconds := idle_timeout_seconds; unlocked_passphrase := None; unlocked := false;
  mfa_verified := false; broker_session_id := None; last_activity := None |}.

Record PeerIdentity : Type := {
  peer_pid : Z;
  peer_uid : Z;
  peer_gid : Z;
  peer_exe_path : option string;
  peer_comm : option string;
  peer_exe_sha256 : option string;
}.

Definition ser_i32 (z : Z) : json := JNum (if 0 <=? z then JPos z else JNeg z).
Definition peer_to_value (p : PeerIdentity) : json := obj [
  ("pid", ser_i32 (peer_pid p)); ("uid", ser_u64 (peer_uid p)); ("gid", ser_u64 (peer_gid p));
  ("exe_path", opt_str (peer_exe_path p)); ("comm", opt_str (peer_comm p));
  ("exe_sha256", opt_str (peer_exe_sha256 p)) ].

(** ** Computations of the broker *)

Record Broker : Type := {
  br_world : World;
  br_state : BrokerState;
  br_sent : list HttpCall;
}.

Abbreviation BROKER := (ST Broker BrokerError).

Definition on_world {E A} `{From E BrokerError} (m : ST World E A) : BROKER A := λ b,
  let '(r, w) := m (br_world b) in
  (res_try r, {| br_world := w; br_state := br_state b; br_sent := br_sent b |}).
Definition ask_world {A} (f : nat → A) : BROKER A := on_world (query (E:=BrokerError) f).
Definition get_state : BROKER BrokerState := λ b, (Ok (br_state b), b).
Definition put_state (s : BrokerState) : BROKER unit := λ b,
  (Ok tt, {| br_world := br_world b; br_state := s; br_sent := br_sent b |}).
Definition modify (f : BrokerState → BrokerState) : BROKER unit :=
  s ← get_state; put_state (f s).

(** ** Fields of a request *)

Definition str_field (value : json) (field : string) : res BrokerError string :=
  ok_or (BMissingField field) (get_str field value).

Definition broker_parse_delivery_mode (value : string) : res BrokerError DeliveryMode :=
  if String.eqb value "brokered_http" then Ok BrokeredHttp
  else if String.eqb value "brokered_operation" then Ok BrokeredOperation
  else if String.eqb value "callback" then Ok Callback
  else if String.eqb value "pipe" then Ok Pipe
  else if String.eqb value "fd" then Ok Fd
  else if String.eqb value "temp_file" then Ok TempFile
  else if String.eqb value "child_env" then Ok ChildEnv
  else if String.eqb value "raw" then Ok Raw
  else if String.eqb value "terminal_print" then Ok TerminalPrint
  else Err (BUnknownCommand ("delivery_mode:" +:+ value)).

Definition uid_consumer (peer : PeerIdentity) : string := ("uid:" +:+ dec (peer_uid peer))%string.

(** [a.or_else(|| b)]. *)
Definition or_else {A} (a b : option A) : option A := match a with Some _ => a | None => b end.

(** ** URLs *)

Record ParsedHttpUrl : Type := { url_scheme : string; url_host : string; url_path : string }.

Definition parse_http_url (url : string) : res BrokerError ParsedHttpUrl :=
  match split_once "://" url with
  | None => Err BInvalidHttpUrl
  | Some (scheme, rest) =>
      if negb (String.eqb scheme "http") && negb (String.eqb scheme "https")
      then Err BInvalidHttpUrl else
      let '(authority, path_part) := default (rest, EmptyString) (split_once "/" rest) in
      if is_empty authority then Err BInvalidHttpUrl else
      Ok {| url_scheme := scheme; url_host := to_ascii_lowercase authority;
            url_path := ("/" +:+ path_part)%string |}
  end.

Section broker.
Context `{Ext, Net}.

(** ** Secrets in text *)

Definition base64_decode (value : string) : res BrokerError bytes :=
  ok_or (BHttp ("invalid base64 request body: " +:+ base64_error_text value))
    (base64_std_decode value).
Definition base64_encode (value : bytes) : string := base64_std_encode value.

(** The private copy of the function of redaction.rs; [percent_encode] is that of mfa.rs. *)
Definition broker_secret_representations (secret : bytes) : list string :=
  let values := [base64_encode secret; b64url_no_padding secret] in
  let values := match from_utf8 secret with
                | Some text => values ++ [text; percent_encode text]
                | None => values
                end in
  List.filter (λ value, negb (is_empty value)) (dedup_by String.eqb (sort_by klt values)).

Definition contains_secret (value : string) (secret : bytes) : bool :=
  existsb (contains value) (broker_secret_representations secret).

Definition broker_marker : string := "[REDACTED:hbse-secret]".
Definition broker_redact_known_secret (value : string) (secret : bytes) : string * bool :=
  let redacted := redact_representations broker_marker
                    (longest_first (broker_secret_representations secret)) value in
  (redacted, negb (String.eqb redacted value)).

Definition header_lines (headers : omap string json) : list string :=
  filter_map (λ kv, match as_str kv.2 with
                   | Some value => Some (kv.1 +:+ ": " +:+ value)%string
                   | None => None
                   end) headers.

Definition assert_no_secret_leak (secret : bytes) (url : string) (headers : omap string json)
  (body : option bytes) : res BrokerError unit :=
  if existsb (λ value, contains_secret value secret) (url :: header_lines headers)
  then Err BRequestContainsSecret else
  match body with
  | Some body => if contains_secret (from_utf8_lossy body) secret
                 then Err BRequestContainsSecret else Ok tt
  | None => Ok tt
  end.

Definition is_multipart_request (headers : omap string json) : bool :=
  existsb (λ kv, eq_ignore_ascii_case kv.1 "content-type" &&
                 default false ((λ value, starts_with (to_ascii_lowercase value)
                                            "multipart/form-data") <$> as_str kv.2)) headers.

(** The loop over the segments of the path. *)
Fixpoint json_path (current : json) (segments : list string) : option json :=
  match segments with
  | [] => Some current
  | segment :: segments => current ← jget segment current; json_path current segments
  end.
Definition json_string_path (value : json) (path : string) : res BrokerError string :=
  current ← ok_or (BHttp ("credential JSON field not found: " +:+ path))
              (json_path value (split_char "." path));
  ok_or (BHttp ("credential JSON field is not a string: " +:+ path)) (as_str current).

(** ** The peer *)

Definition broker_hex_sha256 (value : bytes) : string :=
  concat_str (hex_byte false <$> sha256 value).

Definition linux_process_identity (pid : Z)
  : BROKER (option string * option string * option string) :=
  let proc := ("/proc/" +:+ dec pid)%string in
  exe_path ← ask_world (λ i, read_link i (proc +:+ "/exe"));
  comm ← ask_world (λ i, trim <$> read_file i (proc +:+ "/comm"));
  exe_sha256 ← match exe_path with
               | Some path => ask_world (λ i, broker_hex_sha256 <$> read_bytes i path)
               | None => mret None
               end;
  mret (exe_path, comm, exe_sha256).

(** A client's connection: its first line, when it could be read, and the credentials the
    kernel holds of its peer. *)
Record Connection : Type := {
  cn_line : option string;
  cn_creds : option (Z * Z * Z);
}.

Definition peer_identity (cn : Connection) : BROKER PeerIdentity :=
  creds ← lift (ok_or BIo (cn_creds cn));
  let '(pid, uid, gid) := creds in
  identity ← linux_process_identity pid;
  let '(exe_path, comm, exe_sha256) := identity in
  mret {| peer_pid := pid; peer_uid := uid; peer_gid := gid; peer_exe_path := exe_path;
          peer_comm := comm; peer_exe_sha256 := exe_sha256 |}.

Definition access_request (value : json) (peer : PeerIdentity)
  (raw_export_requested mfa_verified : bool) (broker_session_id : option string)
  : BROKER AccessRequest :=
  mode ← lift (str_field value "delivery_mode");
  delivery_mode ← lift (broker_parse_delivery_mode mode);
  secret_ref ← lift (str_field value "secret_ref");
  purpose ← lift (str_field value "purpose");
  now ← on_world (Utc_now (E:=BrokerError));
  mret {|
    req_secret_ref := secret_ref;
    req_consumer := default (uid_consumer peer) (get_str "consumer" value);
    req_purpose := purpose;
    req_delivery_mode := delivery_mode;
    req_provider_assurance := default "A1" (get_str "provider_assurance" value);
    req_raw_export_requested := raw_export_requested;
    req_http_host := get_str "http_host" value;
    req_http_scheme := get_str "http_scheme" value;
    req_http_method := to_ascii_uppercase <$>
      (or_else (jget "http_method" value) (jget "method" value) ≫= as_str);
    req_http_path := get_str "http_path" value;
    req_http_request_body_bytes := jget "http_request_body_bytes" value ≫= as_u64;
    req_os_uid := Some (peer_uid peer);
    req_executable_path := peer_exe_path peer;
    req_executable_sha256 := peer_exe_sha256 peer;
    req_mfa_verified := mfa_verified;
    req_broker_session_id := broker_session_id;
    req_now := now |}.

(** ** A brokered HTTP request *)

Record BrokeredHttpResponse : Type := {
  resp_status_code : Z;
  resp_headers : omap string json;
  resp_body : string;
  resp_body_base64 : option string;
  resp_redacted : bool;
}.

(** The request the client asked for, as the policy sees it. *)
Definition http_access (request : json) (peer : PeerIdentity) (secret_ref purpose method : string)
  (parsed : ParsedHttpUrl) (body : option bytes) (mfa_verified : bool)
  (broker_session_id : option string) (now : Z) : AccessRequest := {|
  req_secret_ref := secret_ref;
  req_consumer := default (uid_consumer peer) (get_str "consumer" request);
  req_purpose := purpose;
  req_delivery_mode := BrokeredHttp;
  req_provider_assurance := default "A1" (get_str "provider_assurance" request);
  req_raw_export_requested := false;
  req_http_host := Some (url_host parsed);
  req_http_scheme := Some (url_scheme parsed);
  req_http_method := Some method;
  req_http_path := Some (url_path parsed);
  req_http_request_body_bytes := Some (Z.of_nat (length (default [] body)));
  req_os_uid := Some (peer_uid peer);
  req_executable_path := peer_exe_path peer;
  req_executable_sha256 := peer_exe_sha256 peer;
  req_mfa_verified := mfa_verified;
  req_broker_session_id := broker_session_id;
  req_now := now |}.

Definition request_body (request : json) : res BrokerError (option bytes) :=
  match get_str "body_base64" request with
  | Some encoded => body ← base64_decode encoded; mret (Some body)
  | None => mret (as_bytes <$> get_str "body" request)
  end.

(** The credential, and the members of the secret the client maps to further headers. *)
Definition credential_of (request : json) (secret : bytes) : res BrokerError string :=
  match get_str "credential_json_field" request with
  | Some field =>
      secret_json ← ok_or BJson (json_from_slice secret);
      json_string_path secret_json field
  | None => mret (from_utf8_lossy secret)
  end.
Fixpoint json_headers (secret_json : json) (extra : list (string * json))
  (headers : omap string json) : res BrokerError (omap string json) :=
  match extra with
  | [] => Ok headers
  | (header, field) :: extra =>
      match as_str field with
      | None => json_headers secret_json extra headers
      | Some field =>
          value ← json_string_path secret_json field;
          json_headers secret_json extra (oput header (JStr value) headers)
      end
  end.

(** The headers with the credential injected. *)
Definition injected_headers (request : json) (secret : bytes) (headers : omap string json)
  : res BrokerError (omap string json) :=
  let credential_header := default "Authorization" (get_str "credential_header" request) in
  let credential_prefix := default "Bearer " (get_str "credential_prefix" request) in
  credential ← credential_of request secret;
  let headers := oput credential_header (JStr (credential_prefix +:+ credential)) headers in
  match jget "credential_json_headers" request ≫= as_object with
  | Some extra =>
      secret_json ← ok_or BJson (json_from_slice secret);
      json_headers secret_json extra headers
  | None => mret headers
  end.

Definition as_f64 (v : json) : option f64 :=
  match v with JNum n => Some (number_as_f64 n) | _ => None end.
Definition default_max_response_bytes : Z := 10 * 1024 * 1024.

(** The calls on the agent's request: every string header, then the body; a multipart body is
    sent from a reader behind an explicit length ([send_multipart_bytes]). *)
Definition http_call (method url : string) (timeout : option Z) (headers : omap string json)
  (body : option bytes) : HttpCall :=
  let set := filter_map (λ kv, pair kv.1 <$> as_str kv.2) headers in
  match body with
  | Some body =>
      if is_multipart_request headers then
        {| call_method := method; call_url := url; call_timeout := timeout;
           call_headers := set ++ [("Content-Length", dec (Z.of_nat (length body)))];
           call_body := SendReader body |}
      else
        {| call_method := method; call_url := url; call_timeout := timeout; call_headers := set;
           call_body := SendBytes body |}
  | None => {| call_method := method; call_url := url; call_timeout := timeout;
               call_headers := set; call_body := CallNoBody |}
  end.

(** Sending is recorded in the list of sent requests. *)
Definition send (c : HttpCall) : BROKER HttpResult := λ b,
  (Ok (http_send (tick (br_world b)) c),
   {| br_world := {| tick := S (tick (br_world b)); db := db (br_world b) |};
      br_state := br_state b; br_sent := br_sent b ++ [c] |}).

Definition redacted_headers (reply : HttpReply) (secret : bytes) : omap string json * bool :=
  fold_left (λ acc key,
    match reply_header reply key with
    | Some value =>
        let '(redacted, changed) := broker_redact_known_secret value secret in
        (oput key (JStr redacted) acc.1, acc.2 || changed)
    | None => acc
    end) (reply_header_names reply) ([], false).

(** [take(limit).read_to_end]: a broken body is an error when it ends before the limit. *)
Definition read_body (reply : HttpReply) (limit : Z) : res BrokerError bytes :=
  if reply_broken reply && (Z.of_nat (length (reply_body reply)) <? limit) then Err BIo
  else Ok (take (Z.to_nat limit) (reply_body reply)).

(** The reply as the client gets it; [max_response_bytes + 1] wraps in a release build. *)
Definition http_response (request : json) (reply : HttpReply) (secret : bytes)
  : res BrokerError BrokeredHttpResponse :=
  let max_response_bytes :=
    default default_max_response_bytes (jget "max_response_bytes" request ≫= as_u64) in
  let response_body_base64 := default false (get_bool "response_body_base64" request) in
  let '(headers, headers_changed) := redacted_headers reply secret in
  body_bytes ← read_body reply (u64_wrap (max_response_bytes + 1));
  if max_response_bytes <? Z.of_nat (length body_bytes) then Err BResponseTooLarge else
  if response_body_base64 then
    mret {| resp_status_code := reply_status reply; resp_headers := headers;
            resp_body := EmptyString; resp_body_base64 := Some (base64_encode body_bytes);
            resp_redacted := headers_changed |}
  else
    let '(body, body_changed) := broker_redact_known_secret (from_utf8_lossy body_bytes) secret in
    mret {| resp_status_code := reply_status reply; resp_headers := headers; resp_body := body;
            resp_body_base64 := None; resp_redacted := headers_changed || body_changed |}.

Definition brokered_http_request (passphrase : string) (request : json) (peer : PeerIdentity)
  (mfa_verified : bool) (broker_session_id : option string) : BROKER BrokeredHttpResponse :=
  url ← lift (str_field request "url");
  let method := to_ascii_uppercase (default "GET" (get_str "method" request)) in
  parsed ← lift (parse_http_url url);
  body ← lift (request_body request);
  purpose ← lift (str_field request "purpose");
  secret_ref ← lift (str_field request "secret_ref");
  now ← on_world (Utc_now (E:=BrokerError));
  let access := http_access request peer secret_ref purpose method parsed body mfa_verified
                  broker_session_id now in
  ticket ← on_world (issue_ticket access passphrase);
  secret ← on_world (consume_ticket_for_secret (tk_ticket_id ticket) access passphrase);
  let headers := default [] (jget "headers" request ≫= as_object) in
  _ ← lift (assert_no_secret_leak secret url headers body);
  headers ← lift (injected_headers request secret headers);
  let timeout := default f64_zero (jget "timeout_seconds" request ≫= as_f64) in
  timeout ← (if f64_positive timeout
             then duration ← lift (Duration_from_secs_f64 timeout); mret (Some duration)
             else mret None);
  result ← send (http_call method url timeout headers body);
  reply ← match result with
          | HttpOk reply | HttpStatus reply => mret reply
          | HttpTransport text => throw (BHttp text)
          end;
  lift (http_response request reply secret).

(** ** Locking and unlocking *)

Definition locked (s : BrokerState) : BrokerState := {|
  idle_timeout_seconds := idle_timeout_seconds s; unlocked_passphrase := None; unlocked := false;
  mfa_verified := false; broker_session_id := None; last_activity := None |}.
Definition with_passphrase (p : option string) (s : BrokerState) : BrokerState := {|
  idle_timeout_seconds := idle_timeout_seconds s; unlocked_passphrase := p;
  unlocked := unlocked s; mfa_verified := mfa_verified s;
  broker_session_id := broker_session_id s; last_activity := last_activity s |}.
Definition with_mfa (m : bool) (s : BrokerState) : BrokerState := {|
  idle_timeout_seconds := idle_timeout_seconds s; unlocked_passphrase := unlocked_passphrase s;
  unlocked := unlocked s; mfa_verified := m;
  broker_session_id := broker_session_id s; last_activity := last_activity s |}.
Definition with_session (id : string) (s : BrokerState) : BrokerState := {|
  idle_timeout_seconds := idle_timeout_seconds s; unlocked_passphrase := unlocked_passphrase s;
  unlocked := true; mfa_verified := mfa_verified s;
  broker_session_id := Some id; last_activity := last_activity s |}.
Definition with_activity (t : Z) (s : BrokerState) : BrokerState := {|
  idle_timeout_seconds := idle_timeout_seconds s; unlocked_passphrase := unlocked_passphrase s;
  unlocked := unlocked s; mfa_verified := mfa_verified s;
  broker_session_id := broker_session_id s; last_activity := Some t |}.

(** [SystemTime::now()] reads the clock of [Utc::now()]. *)
Definition SystemTime_now : BROKER Z := on_world (Utc_now (E:=BrokerError)).

Definition mark_activity : BROKER unit := now ← SystemTime_now; modify (with_activity now).

Definition expire_idle_unlock : BROKER unit :=
  s ← get_state;
  if negb (unlocked s) || f64_not_positive (idle_timeout_seconds s) then mret tt else
  match last_activity s with
  | None => mret tt
  | Some last_activity =>
      now ← SystemTime_now;
      (* [elapsed] is an error when the clock went backwards *)
      if now <? last_activity then mret tt else
      timeout ← lift (Duration_from_secs_f64 (idle_timeout_seconds s));
      if timeout <? now - last_activity then put_state (locked s) else mret tt
  end.

Definition require_unlocked : BROKER BrokerState :=
  _ ← expire_idle_unlock;
  s ← get_state;
  if unlocked s then mret s else throw BLocked.

Definition validate_unlock (passphrase : option string) : BROKER unit :=
  header ← on_world LocalVault_status;
  let provider_id := default EmptyString (get_str "provider_id" (hd_provider_binding header)) in
  if String.eqb provider_id PASSPHRASE_PROVIDER_ID
  then on_world (verify_audit (default EmptyString passphrase))
  else if String.eqb provider_id TPM2_PROVIDER_ID || String.eqb provider_id TPM2_ESAPI_PROVIDER_ID
  then on_world (verify_audit EmptyString)
  else if String.eqb provider_id SYSTEM_FINGERPRINT_PROVIDER_ID
  then on_world (verify_audit EmptyString)
  else throw (BUnsupportedProvider provider_id).

Definition validate_mfa (code : string) : BROKER unit :=
  s ← get_state;
  on_world (verify_totp_mfa (default EmptyString (unlocked_passphrase s)) code).

(** ** The commands *)

Definition system_time_millis (t : Z) : option string :=
  if t <? 0 then None else Some (dec (t / nanos_per_milli)).

Definition status_command : BROKER json :=
  s ← get_state;
  mret (obj [ ("ok", JBool true); ("unlocked", JBool (unlocked s));
              ("mfa_verified", JBool (mfa_verified s));
              ("idle_timeout_seconds", json_of_f64 (idle_timeout_seconds s));
              ("last_activity", opt_str (last_activity s ≫= system_time_millis)) ]).

Definition unlock_command (request : json) : BROKER json :=
  let passphrase := get_str "passphrase" request in
  _ ← validate_unlock passphrase;
  _ ← modify (with_mfa false);
  _ ← modify (with_passphrase passphrase);
  _ ← match get_str "mfa_code" request with
      | Some code =>
          verified ← attempt (validate_mfa code);
          match verified with
          | Ok _ => modify (with_mfa true)
          | Err err => _ ← modify (with_passphrase None); throw err
          | Panic => panic
          end
      | None => mret tt
      end;
  id ← on_world (Uuid_new_v4 (E:=BrokerError));
  _ ← modify (with_session id);
  _ ← mark_activity;
  s ← get_state;
  mret (obj [ ("ok", JBool true); ("unlocked", JBool true);
              ("mfa_verified", JBool (mfa_verified s)) ]).

Definition mfa_verify_command (request : json) : BROKER json :=
  _ ← require_unlocked;
  code ← lift (str_field request "mfa_code");
  _ ← validate_mfa code;
  _ ← modify (with_mfa true);
  _ ← mark_activity;
  mret (obj [("ok", JBool true); ("unlocked", JBool true); ("mfa_verified", JBool true)]).

Definition lock_command : BROKER json :=
  _ ← modify locked;
  mret (obj [("ok", JBool true); ("unlocked", JBool false)]).

(** [state.unlocked_passphrase.as_deref().unwrap_or_default()]. *)
Definition state_passphrase (s : BrokerState) : string :=
  default EmptyString (unlocked_passphrase s).

Definition checkout_command (request : json) (peer : PeerIdentity) : BROKER json :=
  s ← require_unlocked;
  access ← access_request request peer false (mfa_verified s) (broker_session_id s);
  ticket ← on_world (issue_ticket access (state_passphrase s));
  _ ← mark_activity;
  mret (obj [("ok", JBool true); ("ticket", to_value ticket); ("peer", peer_to_value peer)]).

Definition materialize_command (request : json) (peer : PeerIdentity) : BROKER json :=
  s ← require_unlocked;
  let raw_export_requested := default false (get_bool "raw_export_requested" request) in
  access ← access_request request peer raw_export_requested (mfa_verified s) (broker_session_id s);
  ticket ← on_world (issue_ticket access (state_passphrase s));
  secret ← on_world (consume_ticket_for_secret (tk_ticket_id ticket) access (state_passphrase s));
  _ ← mark_activity;
  mret (obj [ ("ok", JBool true); ("secret", JStr (from_utf8_lossy secret));
              ("peer", peer_to_value peer) ]).

Definition provider_http_command (request : json) (peer : PeerIdentity) : BROKER json :=
  s ← require_unlocked;
  response ← brokered_http_request (state_passphrase s) request peer (mfa_verified s)
               (broker_session_id s);
  _ ← mark_activity;
  mret (obj [ ("ok", JBool true); ("status_code", ser_u64 (resp_status_code response));
              ("headers", JObj (resp_headers response)); ("body", JStr (resp_body response));
              ("body_base64", opt_str (resp_body_base64 response));
              ("redacted", JBool (resp_redacted response)); ("peer", peer_to_value peer) ]).

Definition dispatch (command : string) (request : json) (peer : PeerIdentity) : BROKER json :=
  if String.eqb command "status" then status_command
  else if String.eqb command "unlock" then unlock_command request
  else if String.eqb command "mfa_verify" then mfa_verify_command request
  else if String.eqb command "lock" then lock_command
  else if String.eqb command "checkout" then checkout_command request peer
  else if String.eqb command "materialize" then materialize_command request peer
  else if String.eqb command "provider_http" then provider_http_command request peer
  else throw (BUnknownCommand command).

Definition handle_connection (cn : Connection) : BROKER json :=
  _ ← expire_idle_unlock;
  line ← lift (ok_or BIo (cn_line cn));
  request ← lift (ok_or BJson (json_from_slice (as_bytes (trim_end line))));
  peer ← peer_identity cn;
  command ← lift (str_field request "command");
  dispatch command request peer.

Definition error_code (err : BrokerError) : string :=
  match err with
  | BLocked => "LOCKED"
  | BUnknownCommand _ => "UNKNOWN_COMMAND"
  | BMissingField _ => "BAD_REQUEST"
  | BUnsupportedProvider _ => "UNSUPPORTED_PROVIDER"
  | BInvalidHttpUrl => "BAD_REQUEST"
  | BRequestContainsSecret => "SECRET_LEAK_BLOCKED"
  | BResponseTooLarge => "RESPONSE_TOO_LARGE"
  | BHttp _ => "HTTP_ERROR"
  | BRemoteHttpGatewayNotAllowed => "REMOTE_HTTP_GATEWAY_NOT_ALLOWED"
  | BRequestBodyTooLarge => "REQUEST_BODY_TOO_LARGE"
  | BVault _ => "VAULT_ERROR"
  | BIo => "IO_ERROR"
  | BJson => "JSON_ERROR"
  end.

(** The body of [serve]'s loop: the answer to one connection, for the texts [message] of the
    errors. *)
Definition answer (message : BrokerError → string) (cn : Connection) : BROKER json :=
  outcome ← attempt (handle_connection cn);
  match outcome with
  | Ok value => mret value
  | Err err => mret (obj [ ("ok", JBool false);
                 ("error", obj [("code", JStr (error_code err)); ("message", JStr (message err))]) ])
  | Panic => panic
  end.
End broker.
