(* ===== verification/Gateway.v ===== *)
(** * The broker's HTTP gateway (broker_daemon.rs)

    A local HTTP listener that forwards the requests of /v1/* paths through
    [brokered_http_request], under a fixed configuration: the listening address, the reading of
    a request, the URL of the upstream, and the answers. *)

From S2P Require Export Broker.
#[local] Open Scope Z_scope.

Record HttpGatewayConfig : Type := {
  cfg_listen : string;
  cfg_upstream_base_url : string;
  cfg_secret_ref : string;
  cfg_consumer : string;
  cfg_purpose : string;
  cfg_model_discovery_purpose : string;
  cfg_credential_header : string;
  cfg_credential_prefix : string;
  cfg_timeout_seconds : f64;
  cfg_max_response_bytes : Z;
  cfg_max_request_body_bytes : Z;
  cfg_allow_remote : bool;
}.

Record HttpGatewayRequest : Type := {
  gw_method : string;
  gw_path : string;
  gw_forward_headers : omap string json;
  gw_body : option string;
}.

Record HttpGatewayResponse : Type := {
  gr_status_code : Z;
  gr_headers : list (string * string);
  gr_body : bytes;
}.

(** ** Reading a request *)

(** What a peer sends before it closes; a broken stream ends in a read error. *)
Record Stream : Type := { st_bytes : bytes; st_broken : bool }.

Definition newline : byte := x0a.
Definition crlf_chars : list string := [str_of_codes [13]; str_of_codes [10]]%N.
Definition crlf : string := str_of_codes [13; 10]%N.

(** The bytes up to and including the first line feed, and the rest. *)
Fixpoint take_line (b : bytes) : bytes * bytes :=
  match b with
  | [] => ([], [])
  | c :: b => if Byte.eqb c newline then ([c], b)
              else let '(line, rest) := take_line b in (c :: line, rest)
  end.

Definition utf8_line (line : bytes) : res BrokerError string := ok_or BIo (from_utf8 line).

(** [BufRead::read_line]. *)
Definition read_line (s : Stream) : res BrokerError (string * Stream) :=
  let '(line, rest) := take_line (st_bytes s) in
  if st_broken s && negb (has newline line) then Err BIo else
  text ← utf8_line line;
  mret (text, {| st_bytes := rest; st_broken := st_broken s |}).

(** One round of the loop over the header lines: [None] ends it. *)
Definition header_line (max_body_bytes : Z) (headers : omap string json) (content_length : Z)
  (line : string) : res BrokerError (option (omap string json * Z)) :=
  let trimmed := trim_end_chars crlf_chars line in
  if is_empty trimmed then Ok None else
  match split_once ":" trimmed with
  | None => Ok (Some (headers, content_length))
  | Some (name, value) =>
      let name := trim name in
      let value := trim value in
      if eq_ignore_ascii_case name "content-length" then
        let content_length := default 0 (parse_u64 value) in
        if max_body_bytes <? content_length then Err BRequestBodyTooLarge
        else Ok (Some (headers, content_length))
      else if has (to_ascii_lowercase name)
                ["authorization"; "host"; "connection"; "transfer-encoding"]
      then Ok (Some (headers, content_length))
      else Ok (Some (oput name (JStr value) headers, content_length))
  end.

(** The loop, over the bytes that are left; [line] is the line read so far. *)
Fixpoint read_headers (max_body_bytes : Z) (broken : bool) (b line : bytes)
    (headers : omap string json) (content_length : Z)
  : res BrokerError (omap string json * Z * bytes) :=
  match b with
  | [] =>
      if broken then Err BIo else
      text ← utf8_line line;
      next ← header_line max_body_bytes headers content_length text;
      let '(headers, content_length) := default (headers, content_length) next in
      mret (headers, content_length, [])
  | c :: b =>
      if Byte.eqb c newline then
        text ← utf8_line (line ++ [c]);
        next ← header_line max_body_bytes headers content_length text;
        match next with
        | None => mret (headers, content_length, b)
        | Some (headers, content_length) =>
            read_headers max_body_bytes broken b [] headers content_length
        end
      else read_headers max_body_bytes broken b (line ++ [c]) headers content_length
  end.

Definition read_http_gateway_request (stream : Stream) (max_body_bytes : Z)
  : res BrokerError HttpGatewayRequest :=
  r ← read_line stream;
  let '(request_line, stream) := r in
  let parts := split_whitespace request_line in
  method ← ok_or (BMissingField "http_method") (parts !! 0%nat);
  path ← ok_or (BMissingField "http_path") (parts !! 1%nat);
  r ← read_headers max_body_bytes (st_broken stream) (st_bytes stream) [] [] 0;
  let '(headers, content_length, rest) := r in
  (* [read_exact] *)
  _ ← (if Z.of_nat (length rest) <? content_length then Err BIo else Ok tt);
  let body := take (Z.to_nat content_length) rest in
  mret {| gw_method := to_ascii_uppercase method; gw_path := path;
          gw_forward_headers := headers;
          gw_body := match body with [] => None | _ => Some (from_utf8_lossy body) end |}.

(** ** The upstream and the answers *)

Definition http_gateway_upstream_url (base_url request_path : string) : string :=
  let base := trim_end_chars ["/"] base_url in
  if ends_with base "/v1" && starts_with request_path "/v1/"
  then (base +:+ trim_start_matches "/v1" request_path)%string
  else (base +:+ request_path)%string.

Definition http_reason (status_code : Z) : string :=
  if status_code =? 200 then "OK"
  else if status_code =? 400 then "Bad Request"
  else if status_code =? 403 then "Forbidden"
  else if status_code =? 404 then "Not Found"
  else if status_code =? 413 then "Payload Too Large"
  else if status_code =? 423 then "Locked"
  else if status_code =? 500 then "Internal Server Error"
  else if status_code =? 502 then "Bad Gateway"
  else "OK".

Definition header_text (kv : string * string) : string := (kv.1 +:+ ": " +:+ kv.2 +:+ crlf)%string.

(** What [write_http_gateway_response] writes. *)
Definition http_gateway_response_bytes (response : HttpGatewayResponse) : bytes :=
  let has_content_type :=
    existsb (λ kv, eq_ignore_ascii_case kv.1 "content-type") (gr_headers response) in
  as_bytes ("HTTP/1.1 " +:+ dec (gr_status_code response) +:+ " " +:+
            http_reason (gr_status_code response) +:+ crlf +:+
            concat_str (header_text <$> gr_headers response) +:+
            (if has_content_type then EmptyString
             else header_text ("Content-Type", "application/json")) +:+
            "Content-Length: " +:+ dec (Z.of_nat (length (gr_body response))) +:+ crlf +:+
            "Connection: close" +:+ crlf +:+ crlf)%string ++ gr_body response.

Definition json_content_type : list (string * string) := [("Content-Type", "application/json")].

Section gateway.
Context `{Ext, Net}.

Definition validate_http_gateway_listen (config : HttpGatewayConfig) : res BrokerError unit :=
  if cfg_allow_remote config then Ok tt else
  match parse_socket_addr (cfg_listen config) with
  | inl err => Err (BHttp ("invalid HTTP gateway listen address: " +:+ err))
  | inr (ip, _) => if is_loopback ip then Ok tt else Err BRemoteHttpGatewayNotAllowed
  end.

Definition http_gateway_peer_identity : BROKER PeerIdentity :=
  exe_path ← ask_world (λ i, path ← current_exe i; from_utf8 (as_bytes path));
  exe_sha256 ← ask_world (λ i, path ← current_exe i; broker_hex_sha256 <$> read_bytes i path);
  mret {| peer_pid := process_id; peer_uid := effective_uid; peer_gid := effective_gid;
          peer_exe_path := exe_path; peer_comm := Some "hbse-http-gateway";
          peer_exe_sha256 := exe_sha256 |}.

(** The answers that need no secret: the health check, and paths outside /v1/. *)
Definition gateway_local (request : HttpGatewayRequest) : option HttpGatewayResponse :=
  if String.eqb (gw_method request) "GET" && String.eqb (gw_path request) "/health" then
    Some {| gr_status_code := 200; gr_headers := json_content_type;
            gr_body := json_to_vec (obj [("ok", JBool true)]) |}
  else if negb (starts_with (gw_path request) "/v1/") then
    Some {| gr_status_code := 404; gr_headers := json_content_type;
            gr_body := json_to_vec (obj [("error",
              obj [("message", JStr "HBSE HTTP gateway only proxies /v1/* paths");
                   ("type", JStr "not_found")])]) |}
  else None.

(** The request to [brokered_http_request]. *)
Definition gateway_request (config : HttpGatewayConfig) (request : HttpGatewayRequest) : json :=
  obj [ ("command", JStr "provider_http");
        ("secret_ref", JStr (cfg_secret_ref config));
        ("consumer", JStr (cfg_consumer config));
        ("purpose", JStr (if starts_with (gw_path request) "/v1/models"
                          then cfg_model_discovery_purpose config else cfg_purpose config));
        ("method", JStr (gw_method request));
        ("url", JStr (http_gateway_upstream_url (cfg_upstream_base_url config) (gw_path request)));
        ("headers", JObj (gw_forward_headers request));
        ("body", opt_str (gw_body request));
        ("credential_header", JStr (cfg_credential_header config));
        ("credential_prefix", JStr (cfg_credential_prefix config));
        ("timeout_seconds", json_of_f64 (cfg_timeout_seconds config));
        ("max_response_bytes", ser_u64 (cfg_max_response_bytes config)) ].

(** The headers passed on to the client. *)
Definition gateway_headers (headers : omap string json) : list (string * string) :=
  List.filter (λ kv, negb (has (to_ascii_lowercase kv.1)
                        ["content-length"; "transfer-encoding"; "connection"]))
    (filter_map (λ kv, pair kv.1 <$> as_str kv.2) headers).

(** The work of a forwarded request between its two critical sections, on the snapshot of the
    state the first one took. *)
Definition gateway_forward (config : HttpGatewayConfig) (request : HttpGatewayRequest)
  (peer : PeerIdentity) (s : BrokerState) : BROKER BrokeredHttpResponse :=
  brokered_http_request (state_passphrase s) (gateway_request config request) peer
    (mfa_verified s) (broker_session_id s).

Definition handle_http_gateway_connection (stream : Stream) (config : HttpGatewayConfig)
  : BROKER HttpGatewayResponse :=
  request ← lift (read_http_gateway_request stream (cfg_max_request_body_bytes config));
  match gateway_local request with
  | Some response => mret response
  | None =>
      peer ← http_gateway_peer_identity;
      s ← require_unlocked;
      response ← gateway_forward config request peer s;
      _ ← mark_activity;
      mret {| gr_status_code := resp_status_code response;
              gr_headers := gateway_headers (resp_headers response);
              gr_body := as_bytes (resp_body response) |}
  end.

Definition gateway_error_status (err : BrokerError) : Z :=
  match err with
  | BLocked => 423
  | BVault _ => 403
  | BRequestContainsSecret => 400
  | BRequestBodyTooLarge => 413
  | BResponseTooLarge => 502
  | _ => 500
  end.

(** The body of [serve_http_gateway]'s loop, for the texts [message] of the errors. *)
Definition gateway_answer (message : BrokerError → string) (stream : Stream)
  (config : HttpGatewayConfig) : BROKER bytes :=
  outcome ← attempt (handle_http_gateway_connection stream config);
  match outcome with
  | Ok response => mret (http_gateway_response_bytes response)
  | Err err => mret (http_gateway_response_bytes
                 {| gr_status_code := gateway_error_status err; gr_headers := json_content_type;
                    gr_body := json_to_vec (obj [("error",
                      obj [("message", JStr (message err));
                           ("type", JStr "hbse_gateway_error")])]) |})
  | Panic => panic
  end.
End gateway.
