(* ===== verification/BrokerLogic.v ===== *)
(** * Reasoning about the broker

    What the computations of the broker leave alone, whatever their outcome: [asks] for those
    that only draw, [unsent] for those that send no HTTP request; and the inversion of a
    connection's handling down to its command. *)

From S2P Require Export Gateway VaultTickets.
#[local] Open Scope Z_scope.

(** Only time has passed. *)
Definition asks (b b' : Broker) : Prop :=
  same_db (br_world b) (br_world b') ∧ br_state b' = br_state b ∧ br_sent b' = br_sent b.
(** No request was sent and the broker's state is the same; the vault may have changed. *)
Definition works (b b' : Broker) : Prop := br_state b' = br_state b ∧ br_sent b' = br_sent b.
(** No request was sent. *)
Definition unsent (b b' : Broker) : Prop := br_sent b' = br_sent b.
(** The broker's state is the same. *)
Definition same_state (b b' : Broker) : Prop := br_state b' = br_state b.
(** Time has passed, and the broker may have locked itself. *)
Definition wakes (b b' : Broker) : Prop :=
  same_db (br_world b) (br_world b') ∧ br_sent b' = br_sent b ∧
  (br_state b' = br_state b ∨ unlocked (br_state b) = true ∧ br_state b' = locked (br_state b)).

#[export] Instance asks_preorder : PreOrder asks.
Proof.
  split; [done|]. intros b1 b2 b3 (H1 & H2 & H3) (H4 & H5 & H6).
  split; [by etrans|]. split; congruence.
Qed.
#[export] Instance works_preorder : PreOrder works.
Proof. split; [done|]. intros b1 b2 b3 [H1 H2] [H3 H4]. split; congruence. Qed.
#[export] Instance unsent_preorder : PreOrder unsent.
Proof. split; [done|]. unfold unsent. intros b1 b2 b3. congruence. Qed.
#[export] Instance same_state_preorder : PreOrder same_state.
Proof. split; [done|]. unfold same_state. intros b1 b2 b3. congruence. Qed.

Lemma asks_works b b' : asks b b' → works b b'.
Proof. by intros (_ & ? & ?). Qed.
Lemma works_unsent b b' : works b b' → unsent b b'.
Proof. by intros [_ ?]. Qed.
Lemma wakes_unsent b b' : wakes b b' → unsent b b'.
Proof. by intros (_ & ? & _). Qed.
Lemma works_same_state b b' : works b b' → same_state b b'.
Proof. by intros [? _]. Qed.

Lemma keeps_weaken {W E A} (R R' : W → W → Prop) (m : ST W E A) :
  (∀ w w', R w w' → R' w w') → keeps R m → keeps R' m.
Proof. intros HR Hm w. apply HR, Hm. Qed.

(** The outcomes of a sequence: the second half's, or the first half's failure. *)
Lemma st_bind_panic {W E A B} (m : ST W E A) (f : A → ST W E B) w w' :
  m w = (Panic, w') → (m ≫= f) w = (Panic, w').
Proof. intros Hm. unfold mbind, st_bind. by rewrite Hm. Qed.

(** The three outcomes [attempt] turns into values, or does not. *)
Section attempts.
Context {W E F A : Type} (m : ST W E A) (w w' : W).
Lemma attempt_ok a : m w = (Ok a, w') → attempt (F:=F) m w = (Ok (Ok a), w').
Proof. intros Hm. unfold attempt. by rewrite Hm. Qed.
Lemma attempt_err e : m w = (Err e, w') → attempt (F:=F) m w = (Ok (Err e), w').
Proof. intros Hm. unfold attempt. by rewrite Hm. Qed.
Lemma attempt_panic : m w = (Panic, w') → attempt (F:=F) m w = (Panic, w').
Proof. intros Hm. unfold attempt. by rewrite Hm. Qed.
End attempts.

Section logic.
Context `{Ext, Net}.

Lemma on_world_inv {E A} `{From E BrokerError} (m : ST World E A) b r b' :
  on_world m b = (r, b') →
  ∃ w', b' = {| br_world := w'; br_state := br_state b; br_sent := br_sent b |} ∧
    ∃ r', m (br_world b) = (r', w') ∧ r = res_try r'.
Proof.
  unfold on_world. destruct (m (br_world b)) as [r' w']. intros [= <- <-]. eauto.
Qed.

Lemma on_world_ok_inv {E A} `{From E BrokerError} (m : ST World E A) b a b' :
  on_world m b = (Ok a, b') →
  m (br_world b) = (Ok a, br_world b') ∧ br_state b' = br_state b ∧ br_sent b' = br_sent b.
Proof.
  intros (w' & -> & r' & Hm & Hr)%on_world_inv. destruct r' as [a'|e|]; [|done..].
  by injection Hr as <-.
Qed.

Lemma keeps_on_world_asks {E A} `{From E BrokerError} (m : ST World E A) :
  keeps same_db m → keeps asks (on_world m).
Proof.
  intros Hm b. specialize (Hm (br_world b)). unfold on_world.
  destruct (m (br_world b)) as [r w]. split; [exact Hm|by split].
Qed.
Lemma keeps_on_world_works {E A} `{From E BrokerError} (m : ST World E A) :
  keeps works (on_world m).
Proof. intros b. unfold on_world. by destruct (m (br_world b)). Qed.

Lemma keeps_ask {A} (f : nat → A) : keeps asks (ask_world f).
Proof. apply keeps_on_world_asks, keeps_query; [apply _|done]. Qed.
Lemma keeps_SystemTime_now : keeps asks SystemTime_now.
Proof. apply keeps_on_world_asks, keeps_now; [apply _|done]. Qed.
Lemma keeps_get_state R `{!Reflexive R} : keeps R get_state.
Proof. intros b. simpl. reflexivity. Qed.
Lemma keeps_put_state s : keeps unsent (put_state s).
Proof. done. Qed.
Lemma keeps_modify f : keeps unsent (modify f).
Proof. done. Qed.

#[local] Hint Resolve keeps_ask keeps_SystemTime_now keeps_put_state keeps_modify
  keeps_on_world_works : keeps.
#[local] Hint Extern 1 (keeps _ get_state) => apply keeps_get_state; apply _ : keeps.

Lemma keeps_peer_identity cn : keeps asks (peer_identity cn).
Proof. unfold peer_identity, linux_process_identity. keeps_auto. Qed.

Lemma keeps_access_request value peer raw mfa session :
  keeps asks (access_request value peer raw mfa session).
Proof. unfold access_request. keeps_auto. Qed.

Lemma keeps_gateway_peer : keeps asks http_gateway_peer_identity.
Proof. unfold http_gateway_peer_identity. keeps_auto. Qed.

(** A reading of the clock leaves the next instant to the rest. *)
Definition ticked (b : Broker) : Broker := {|
  br_world := {| tick := S (tick (br_world b)); db := db (br_world b) |};
  br_state := br_state b; br_sent := br_sent b |}.
Lemma asks_ticked b : asks b (ticked b).
Proof. split; [|done]. split; simpl; [done|lia]. Qed.
Lemma system_now_bind {A} (f : Z → BROKER A) b :
  (SystemTime_now ≫= f) b = f (utc_now (tick (br_world b))) (ticked b).
Proof. done. Qed.
Lemma ask_bind {A B} (f : nat → A) (g : A → BROKER B) b :
  (ask_world f ≫= g) b = g (f (tick (br_world b))) (ticked b).
Proof. done. Qed.
Lemma get_state_bind {A} (f : BrokerState → BROKER A) b : (get_state ≫= f) b = f (br_state b) b.
Proof. done. Qed.

(** ** The idle timeout *)

Lemma from_secs_f64_nonneg {E} x n : Duration_from_secs_f64 (E:=E) x = Ok n → 0 <= n.
Proof.
  unfold Duration_from_secs_f64. destruct x as [s|s| |[] m e]; try done; [by intros [= <-]|].
  case_match; [|done]. intros [= <-]. unfold round_half_even.
  assert (0 <= Zpos m * nanos_per_second) as Hm by (unfold nanos_per_second; lia).
  case_match.
  - apply Z.mul_nonneg_nonneg; [done|]. apply Z.pow_nonneg. lia.
  - pose proof (Z.div_pos (Zpos m * nanos_per_second) (2 ^ (- e)) Hm
      ltac:(apply Z.pow_pos_nonneg; [lia|]; apply Z.leb_gt in H2; lia)).
    repeat case_match; lia.
Qed.

(** The clock shows that the idle timeout has passed. *)
Definition idle_expired (b : Broker) : Prop :=
  ∃ t d, f64_not_positive (idle_timeout_seconds (br_state b)) = false ∧
    last_activity (br_state b) = Some t ∧
    Duration_from_secs_f64 (E:=BrokerError) (idle_timeout_seconds (br_state b)) = Ok d ∧
    d < utc_now (tick (br_world b)) - t.

Lemma expire_locked b : unlocked (br_state b) = false → expire_idle_unlock b = (Ok tt, b).
Proof.
  intros Hu. unfold expire_idle_unlock. rewrite get_state_bind.
  by rewrite Hu.
Qed.

Lemma expire_idle b :
  unlocked (br_state b) = true → idle_expired b →
  ∃ b', expire_idle_unlock b = (Ok tt, b') ∧ br_state b' = locked (br_state b) ∧
    same_db (br_world b) (br_world b') ∧ br_sent b' = br_sent b.
Proof.
  intros Hu (t & d & Hpos & Ht & Hd & Hlt). unfold expire_idle_unlock.
  rewrite get_state_bind, Hu, Hpos, Ht. cbn [negb orb].
  pose proof (from_secs_f64_nonneg _ _ Hd) as Hnn.
  rewrite system_now_bind.
  rewrite (proj2 (Z.ltb_ge _ _)) by lia. rewrite Hd, st_lift_ok.
  rewrite (proj2 (Z.ltb_lt _ _)) by lia. eexists. split; [reflexivity|]. simpl.
  split; [done|]. split; [|done]. split; simpl; [done|lia].
Qed.

Lemma wakes_expire b : wakes b (expire_idle_unlock b).2.
Proof.
  unfold expire_idle_unlock. rewrite get_state_bind.
  destruct (unlocked (br_state b)) eqn:Hu; cbn [negb orb]; [|split; [done|]; split; [done|by left]].
  destruct (f64_not_positive _); [split; [done|]; split; [done|by left]|].
  destruct (last_activity _) as [t|]; [|split; [done|]; split; [done|by left]].
  rewrite system_now_bind.
  assert (same_db (br_world b) {| tick := S (tick (br_world b)); db := db (br_world b) |}) as Hsame
    by (split; simpl; [done|lia]).
  case_match; [split; [done|]; split; [done|by left]|].
  unfold lift, mbind, st_bind. destruct (Duration_from_secs_f64 _) as [d|e|];
    [|split; [done|]; split; [done|by left]..].
  case_match; (split; [done|]; split; [done|]); [by right|by left].
Qed.

Lemma expire_ok_state b b' :
  expire_idle_unlock b = (Ok tt, b') → unlocked (br_state b') = true → br_state b' = br_state b.
Proof.
  intros Hrun Hu. pose proof (wakes_expire b) as (_ & _ & [Hs|[_ Hs]]); rewrite Hrun in Hs; [done|].
  simpl in Hs. by rewrite Hs in Hu.
Qed.

Lemma keeps_expire_unsent : keeps unsent expire_idle_unlock.
Proof. intros b. apply wakes_unsent, wakes_expire. Qed.

(** [require_unlocked] is for an unlocked state only. *)
Lemma require_unlocked_inv b s b' :
  require_unlocked b = (Ok s, b') →
  unlocked s = true ∧ s = br_state b ∧ br_state b' = br_state b ∧
  same_db (br_world b) (br_world b') ∧ br_sent b' = br_sent b.
Proof.
  unfold require_unlocked. intros Hrun.
  apply st_bind_ok_inv in Hrun as ([] & b1 & He & Hrun).
  rewrite get_state_bind in Hrun.
  destruct (unlocked (br_state b1)) eqn:Hu; [|done]. injection Hrun as <- <-.
  pose proof (expire_ok_state _ _ He Hu) as Hs.
  pose proof (wakes_expire b) as (Hd & Hsent & _). rewrite He in Hd, Hsent. by rewrite Hs in *.
Qed.

Lemma require_unlocked_locked b :
  unlocked (br_state b) = false → require_unlocked b = (Err BLocked, b).
Proof.
  intros Hu. unfold require_unlocked. rewrite (st_bind_ok _ _ _ _ _ (expire_locked b Hu)).
  rewrite get_state_bind. by rewrite Hu.
Qed.

(** ** A connection down to its command *)

Definition request_of (cn : Connection) : option json :=
  line ← cn_line cn; json_from_slice (as_bytes (trim_end line)).

(** The peer of a connection as the kernel names it, asked from the [t]-th draw on: the process,
    user and group of the socket's credentials, and of that process what /proc links as its
    executable, its command name, and the SHA-256 of the contents of that executable. *)
Record kernel_peer (cn : Connection) (t : nat) (peer : PeerIdentity) : Prop := {
  kp_creds : cn_creds cn = Some (peer_pid peer, peer_uid peer, peer_gid peer);
  kp_proc : ∃ i, (t <= i)%nat ∧
    peer_exe_path peer = read_link i (("/proc/" +:+ dec (peer_pid peer)) +:+ "/exe")%string ∧
    peer_comm peer = trim <$> read_file (S i) (("/proc/" +:+ dec (peer_pid peer)) +:+ "/comm")%string ∧
    peer_exe_sha256 peer =
      (path ← peer_exe_path peer; contents ← read_bytes (S (S i)) path;
       Some (concat_str (hex_byte false <$> sha256 contents)));
}.

(** What was asked, by whom, in which state. *)
Record received (cn : Connection) (b : Broker) (command : string) (request : json)
    (peer : PeerIdentity) (b1 : Broker) : Prop := {
  rv_request : request_of cn = Some request;
  rv_command : get_str "command" request = Some command;
  rv_peer : kernel_peer cn (tick (br_world b)) peer;
  rv_wakes : wakes b b1;
}.

Lemma wakes_tick b b1 : wakes b b1 → (tick (br_world b) <= tick (br_world b1))%nat.
Proof. by intros ([_ ?] & _). Qed.

Lemma peer_identity_inv cn b peer b' :
  peer_identity cn b = (Ok peer, b') → kernel_peer cn (tick (br_world b)) peer ∧ asks b b'.
Proof.
  intros Hrun. pose proof (keeps_peer_identity cn b) as Hk. rewrite Hrun in Hk. split; [|done].
  unfold peer_identity in Hrun. apply st_bind_ok_inv in Hrun as ([[pid uid] gid] & b1 & Hc & Hrun).
  apply lift_ok_inv in Hc as [Hc <-]. apply ok_or_ok_inv in Hc. unfold linux_process_identity in Hrun.
  rewrite st_bind_assoc, ask_bind, st_bind_assoc, ask_bind in Hrun.
  cbn [ticked br_world tick] in Hrun.
  destruct (read_link _ _) as [path|] eqn:Hlink; [rewrite st_bind_assoc, ask_bind in Hrun|];
    injection Hrun as <- _; (split; [exact Hc|]); exists (tick (br_world b)); cbn; by rewrite Hlink.
Qed.
Lemma kernel_peer_weaken cn t t' peer : (t <= t')%nat → kernel_peer cn t' peer → kernel_peer cn t peer.
Proof. intros Ht [Hc (i & Hi & Hrest)]. split; [done|]. exists i. split; [lia|done]. Qed.

Lemma wakes_asks b b1 b2 : wakes b b1 → asks b1 b2 → wakes b b2.
Proof.
  intros (H1 & H2 & H3) (H4 & H5 & H6). split; [by etrans|]. split; [congruence|].
  rewrite H5. exact H3.
Qed.

(** Either the connection gets as far as its command, or nothing happened but an expiry. *)
Lemma handle_cases cn b r b' :
  handle_connection cn b = (r, b') →
  (∃ command request peer b1, received cn b command request peer b1 ∧
     dispatch command request peer b1 = (r, b')) ∨
  (wakes b b' ∧ ∀ v, r ≠ Ok v).
Proof.
  intros Hrun. unfold handle_connection in Hrun. pose proof (wakes_expire b) as Hw.
  apply st_bind_cases in Hrun as [([] & b1 & He & Hrun)|(o & He & _ & Hne)]; rewrite He in Hw;
    [|by right]. simpl in Hw.
  apply st_bind_cases in Hrun as [(line & b2 & Hl & Hrun)|(o & [= _ <-] & _ & Hne)]; [|by right].
  apply lift_ok_inv in Hl as [Hline%ok_or_ok_inv <-].
  apply st_bind_cases in Hrun as [(request & b2 & Hl & Hrun)|(o & [= _ <-] & _ & Hne)]; [|by right].
  apply lift_ok_inv in Hl as [Hreq%ok_or_ok_inv <-].
  assert (request_of cn = Some request) as Hof by (unfold request_of; by rewrite Hline).
  pose proof (keeps_peer_identity cn b1) as Hk.
  apply st_bind_cases in Hrun as [(peer & b2 & Hp & Hrun)|(o & Hp & _ & Hne)]; rewrite Hp in Hk;
    pose proof (wakes_asks _ _ _ Hw Hk) as Hw2; [|by right].
  apply peer_identity_inv in Hp as [Hcreds _].
  apply (kernel_peer_weaken _ _ _ _ (wakes_tick _ _ Hw)) in Hcreds.
  apply st_bind_cases in Hrun as [(command & b3 & Hl & Hrun)|(o & [= _ <-] & _ & Hne)]; [|by right].
  apply lift_ok_inv in Hl as [Hc%ok_or_ok_inv <-].
  left. by exists command, request, peer, b2.
Qed.
End logic.

#[export] Hint Resolve keeps_ask keeps_SystemTime_now keeps_put_state keeps_modify
  keeps_on_world_works keeps_peer_identity keeps_access_request keeps_gateway_peer
  keeps_expire_unsent : keeps.
#[export] Hint Extern 1 (keeps _ get_state) => apply keeps_get_state; apply _ : keeps.
