(* ===== verification/BrokerState.v ===== *)
(** * The lock of the broker (broker_daemon.rs)

    The broker's state as a machine: what a locked broker holds, how it comes to be unlocked and
    its second factor verified, that it answers no request for a secret while locked or idle
    for too long, and what a failed unlock leaves behind.  The socket thread handles a
    connection under the state's mutex; the gateway thread takes the mutex twice around a
    request, and the steps interleave. *)

From S2P Require Export BrokerLogic.
From S2P Require Import Toy.
From stdpp Require Import relations.
#[local] Open Scope Z_scope.

(** A locked broker holds no pass phrase, no verified factor and no session; an unlocked one has
    a session and the time of its last activity. *)
Record broker_ok (s : BrokerState) : Prop := {
  ok_locked : unlocked s = false →
    unlocked_passphrase s = None ∧ mfa_verified s = false ∧ broker_session_id s = None;
  ok_unlocked : unlocked s = true → is_Some (broker_session_id s) ∧ is_Some (last_activity s);
}.

Section state.
Context `{Ext, Net}.

(** The commands that need an unlocked broker. *)
Definition guarded_commands : list string := ["mfa_verify"; "checkout"; "materialize"; "provider_http"].

(** ** Steps *)

Inductive broker_step : Broker → Broker → Prop :=
(** The socket thread answers a connection. *)
| step_connection b cn message resp b' :
    answer message cn b = (Ok resp, b') → broker_step b b'
(** The gateway thread takes its snapshot of an unlocked state. *)
| step_gateway_enter b s b' : require_unlocked b = (Ok s, b') → broker_step b b'
| step_gateway_locked b b' : require_unlocked b = (Err BLocked, b') → broker_step b b'
(** It works outside the mutex; other processes use the vault. *)
| step_work b b' : same_state b b' → broker_step b b'
(** It marks the activity. *)
| step_gateway_leave b b' : mark_activity b = (Ok tt, b') → broker_step b b'.

Lemma broker_ok_new t : broker_ok (BrokerState_new t).
Proof. by split. Qed.
Lemma broker_ok_locked s : broker_ok (locked s).
Proof. by split. Qed.
Lemma broker_ok_activity t s : broker_ok s → broker_ok (with_activity t s).
Proof. intros [Hl Hu]. split; simpl; [done|]. intros Hun. split; [by apply Hu|eauto]. Qed.
Lemma broker_ok_mfa s : unlocked s = true → broker_ok s → broker_ok (with_mfa true s).
Proof. intros Hun [Hl Hu]. split; simpl; [congruence|done]. Qed.

Lemma broker_ok_wakes b b' : wakes b b' → broker_ok (br_state b) → broker_ok (br_state b').
Proof. by intros (_ & _ & [->|[_ ->]]) Hok; [|apply broker_ok_locked]. Qed.

Lemma mark_activity_run b : mark_activity b = (Ok tt, {|
  br_world := br_world (ticked b);
  br_state := with_activity (utc_now (tick (br_world b))) (br_state b);
  br_sent := br_sent b |}).
Proof. done. Qed.

(** ** What the commands do to the state *)

(** The outcomes of a command that only asks and works after it found the broker unlocked. *)
Definition guarded_step (s s' : BrokerState) : Prop :=
  s' = s ∨ (unlocked s = true ∧ s' = locked s) ∨
  (unlocked s = true ∧ ∃ t, s' = with_activity t s).

Lemma require_unlocked_cases b r b' :
  require_unlocked b = (r, b') →
  wakes b b' ∧ ∀ s, r = Ok s → unlocked s = true ∧ s = br_state b ∧ br_state b' = br_state b.
Proof.
  intros Hrun. split.
  - unfold require_unlocked in Hrun. pose proof (wakes_expire b) as Hw.
    apply st_bind_cases in Hrun as [([] & b1 & He & Hrun)|(o & He & _)]; rewrite He in Hw; [|done].
    rewrite get_state_bind in Hrun. destruct (unlocked _); by injection Hrun as _ <-.
  - intros s ->. apply require_unlocked_inv in Hrun as (? & ? & ? & _). done.
Qed.

(** Work that keeps the state but for the mark of an activity at its end. *)
Definition marks {A} (m : BROKER A) : Prop := ∀ b,
  br_state (m b).2 = br_state b ∨ ∃ t, br_state (m b).2 = with_activity t (br_state b).

Lemma marks_bind {A B} (m : BROKER A) (f : A → BROKER B) :
  keeps same_state m → (∀ a, marks (f a)) → marks (m ≫= f).
Proof.
  intros Hm Hf b. specialize (Hm b). destruct ((m ≫= f) b) as [r b'] eqn:Hrun.
  apply st_bind_cases in Hrun as [(a & b1 & Ha & Hrun)|(o & Ha & _)]; rewrite Ha in Hm; [|by left].
  specialize (Hf a b1). rewrite Hrun in Hf. unfold same_state in Hm. simpl in *. by rewrite <-Hm.
Qed.

Lemma marks_end {A} (a : A) : marks (_ ← mark_activity; mret a).
Proof. intros b. right. by eexists. Qed.

Lemma guarded_bind {A} (f : BrokerState → BROKER A) b r b' :
  (∀ s, marks (f s)) → (s ← require_unlocked; f s) b = (r, b') →
  guarded_step (br_state b) (br_state b').
Proof.
  intros Hf Hrun. apply st_bind_cases in Hrun as [(s & b1 & Hq & Hrun)|(o & Hq & _)].
  - apply require_unlocked_cases in Hq as [_ Hok]. destruct (Hok s eq_refl) as (Hun & -> & Hs1).
    specialize (Hf (br_state b) b1). rewrite Hrun in Hf. simpl in Hf. rewrite Hs1 in Hf.
    destruct Hf as [|Ht]; [by left|right; right; by split].
  - apply require_unlocked_cases in Hq as [(_ & _ & [|[? ?]]) _]; [by left|right; left; by split].
Qed.

Lemma keeps_world_state {E A} `{From E BrokerError} (m : ST World E A) : keeps same_state (on_world m).
Proof. eapply keeps_weaken, keeps_on_world_works. apply works_same_state. Qed.
Lemma keeps_asks_state {A} (m : BROKER A) : keeps asks m → keeps same_state m.
Proof. apply keeps_weaken. by intros ?? []%asks_works. Qed.
#[local] Hint Resolve keeps_world_state : keeps.
#[local] Hint Extern 1 (keeps same_state (access_request _ _ _ _ _)) =>
  apply keeps_asks_state, keeps_access_request : keeps.

Lemma keeps_send R `{!Reflexive R} c :
  (∀ b b', br_state b' = br_state b → R b b') → keeps R (send c).
Proof. intros HR b. by apply HR. Qed.

Lemma keeps_http_state p request peer mfa session :
  keeps same_state (brokered_http_request p request peer mfa session).
Proof.
  unfold brokered_http_request. keeps_auto. by apply keeps_send; [apply _|].
Qed.
#[local] Hint Resolve keeps_http_state : keeps.

Ltac marks_auto :=
  repeat first [apply marks_end | apply marks_bind; [solve [keeps_auto]|intros ?]].

Lemma guarded_dispatch command request peer b r b' :
  command ∈ ["checkout"; "materialize"; "provider_http"] →
  dispatch command request peer b = (r, b') → guarded_step (br_state b) (br_state b').
Proof.
  rewrite !elem_of_cons, elem_of_nil. intros [->|[->|[->|[]]]]; apply guarded_bind; intros s; marks_auto.
Qed.

Lemma broker_ok_guarded s s' : guarded_step s s' → broker_ok s → broker_ok s'.
Proof.
  intros [->|[[_ ->]|[_ [t ->]]]] Hok; [done|apply broker_ok_locked|by apply broker_ok_activity].
Qed.
(** ** Unlocking *)

Definition set_state (s : BrokerState) (b : Broker) : Broker :=
  {| br_world := br_world b; br_state := s; br_sent := br_sent b |}.
(** The state an unlock command validates a second factor in. *)
Definition unlocking (p : option string) (s : BrokerState) : BrokerState :=
  with_passphrase p (with_mfa false s).

Lemma modify_bind {A} f (g : unit → BROKER A) b :
  (modify f ≫= g) b = g tt (set_state (f (br_state b)) b).
Proof. done. Qed.

Lemma keeps_validate_unlock p : keeps works (validate_unlock p).
Proof. unfold validate_unlock. keeps_auto. Qed.
Lemma keeps_validate_mfa code : keeps works (validate_mfa code).
Proof. unfold validate_mfa. keeps_auto. Qed.

Record unlock_success (request : json) (b b1 : Broker) (s' : BrokerState) : Prop := {
  us_state : ∃ id t m, s' = with_activity t (with_session id (with_mfa m
                              (unlocking (get_str "passphrase" request) (br_state b)))) ∧
    (m = true → ∃ code b2, get_str "mfa_code" request = Some code ∧
       validate_mfa code (set_state (unlocking (get_str "passphrase" request) (br_state b)) b1)
         = (Ok tt, b2));
}.

(** What an unlock command can come to, short of a panic. *)
Lemma unlock_cases request b r b' :
  unlock_command request b = (r, b') → r ≠ Panic →
  (br_state b' = br_state b ∧ ∀ v, r ≠ Ok v) ∨
  ∃ b1, validate_unlock (get_str "passphrase" request) b = (Ok tt, b1) ∧
    ((∃ code e b2, get_str "mfa_code" request = Some code ∧
        validate_mfa code (set_state (unlocking (get_str "passphrase" request) (br_state b)) b1)
          = (Err e, b2) ∧
        r = Err e ∧ br_state b' = unlocking None (br_state b)) ∨
     unlock_success request b b1 (br_state b')).
Proof.
  intros Hrun Hp. unfold unlock_command in Hrun.
  set (p := get_str "passphrase" request) in *. pose proof (keeps_validate_unlock p b) as Hk.
  apply st_bind_cases in Hrun as [([] & b1 & Hv & Hrun)|(o & Hv & _ & Hne)]; rewrite Hv in Hk;
    destruct Hk as [Hs _]; simpl in Hs; [|by left].
  right. exists b1. split; [done|]. rewrite !modify_bind in Hrun. cbn [set_state br_state] in Hrun.
  rewrite Hs in Hrun. change (with_passphrase p (with_mfa false ?s)) with (unlocking p s) in Hrun.
  set (b2 := set_state (unlocking p (br_state b)) _) in Hrun.
  assert (b2 = set_state (unlocking p (br_state b)) b1) as Hb2 by done. rewrite <-Hb2.
  destruct (get_str "mfa_code" request) as [code|] eqn:Hcode.
  - rewrite st_bind_assoc in Hrun. pose proof (keeps_validate_mfa code b2) as [Hs2 _].
    destruct (validate_mfa code b2) as [[[]|e|] b3] eqn:Hm; simpl in Hs2.
    + right. rewrite (st_bind_ok _ _ _ _ _ (attempt_ok _ _ _ _ Hm)) in Hrun.
      rewrite modify_bind in Hrun.
      split. injection Hrun as _ <-. eexists _, _, true. split.
      * simpl. rewrite Hs2. done.
      * intros _. by exists code, b3.
    + left. rewrite (st_bind_ok _ _ _ _ _ (attempt_err _ _ _ _ Hm)) in Hrun.
      rewrite st_bind_assoc, modify_bind in Hrun. injection Hrun as <- <-.
      exists code, e, b3. split; [done|]. split; [done|]. split; [done|]. simpl. by rewrite Hs2.
    + exfalso. apply Hp. rewrite (st_bind_panic _ _ _ _ (attempt_panic _ _ _ Hm)) in Hrun.
      congruence.
  - right. split. injection Hrun as _ <-. eexists _, _, false. by split.
Qed.

Lemma unlock_success_ok request b b1 s' : unlock_success request b b1 s' → broker_ok s'.
Proof. intros [(id & t & m & -> & _)]. split; simpl; [done|]. eauto. Qed.

Lemma broker_ok_refused s : broker_ok s → broker_ok (unlocking None s).
Proof. intros [Hl Hu]. split; simpl; [|done]. intros Hn. by destruct (Hl Hn) as (_ & _ & ?). Qed.

Lemma mfa_verify_cases request b r b' :
  mfa_verify_command request b = (r, b') →
  br_state b' = br_state b ∨ (unlocked (br_state b) = true ∧ br_state b' = locked (br_state b)) ∨
  (unlocked (br_state b) = true ∧ ∃ t code b1 b2, br_state b1 = br_state b ∧
     db (br_world b1) = db (br_world b) ∧ get_str "mfa_code" request = Some code ∧ validate_mfa code b1 = (Ok tt, b2) ∧
     br_state b' = with_activity t (with_mfa true (br_state b))).
Proof.
  intros Hrun. apply st_bind_cases in Hrun as [(s & b1 & Hq & Hrun)|(o & Hq & _)];
    apply require_unlocked_cases in Hq as [Hw Hok].
  2: { destruct Hw as (_ & _ & Hw). destruct Hw; auto. }
  destruct (Hok s eq_refl) as (Hun & -> & Hs1). destruct Hw as ([Hd1 _] & _).
  apply st_bind_cases in Hrun as [(code & b2 & Hl & Hrun)|(o & [= _ <-] & _)]; [|by left].
  apply lift_ok_inv in Hl as [Hc%ok_or_ok_inv <-]. pose proof (keeps_validate_mfa code b1) as [Hs2 _].
  apply st_bind_cases in Hrun as [([] & b3 & Hm & Hrun)|(o & Hm & _)]; rewrite Hm in Hs2; simpl in Hs2;
    [|left; congruence].
  right. right. split; [done|]. injection Hrun as _ <-. exists (utc_now (tick (br_world b3))), code, b1, b3.
  do 4 (split; [done|]). simpl. by rewrite Hs2, Hs1.
Qed.

(** Every command keeps the state well-formed. *)
Lemma dispatch_ok command request peer b r b' :
  dispatch command request peer b = (r, b') → r ≠ Panic → broker_ok (br_state b) →
  broker_ok (br_state b').
Proof.
  intros Hrun Hp Hok. unfold dispatch in Hrun.
  destruct (String.eqb_spec command "status") as [->|_]; [by injection Hrun as _ <-|].
  destruct (String.eqb_spec command "unlock") as [->|_].
  { destruct (unlock_cases _ _ _ _ Hrun Hp)
      as [[-> _]|(b1 & _ & [(code & e & b2 & _ & _ & _ & ->)|Hs])]; [done| |].
    - by apply broker_ok_refused.
    - by eapply unlock_success_ok. }
  destruct (String.eqb_spec command "mfa_verify") as [->|_].
  { apply mfa_verify_cases in Hrun as [->|[[_ ->]|(Hu & t & code & b1 & b2 & _ & _ & _ & _ & ->)]];
      [done|apply broker_ok_locked|by apply broker_ok_activity, broker_ok_mfa]. }
  destruct (String.eqb_spec command "lock") as [->|_].
  { injection Hrun as _ <-. apply broker_ok_locked. }
  assert (∀ c, c ∈ ["checkout"; "materialize"; "provider_http"] →
    dispatch c request peer b = (r, b') → broker_ok (br_state b')) as Hg.
  { intros c Hc Hd. eapply broker_ok_guarded; [by eapply guarded_dispatch|done]. }
  repeat (match type of Hrun with context [String.eqb command ?c] =>
    destruct (String.eqb_spec command c) as [->|_]; [apply (Hg c); [set_solver|done]|] end).
  by injection Hrun as _ <-.
Qed.

Lemma handle_ok cn b r b' :
  handle_connection cn b = (r, b') → r ≠ Panic → broker_ok (br_state b) → broker_ok (br_state b').
Proof.
  intros Hrun Hp Hok. apply handle_cases in Hrun as [(c & request & peer & b1 & Hrv & Hd)|[Hw _]].
  - apply (dispatch_ok _ _ _ _ _ _ Hd Hp). by eapply broker_ok_wakes, Hok; apply Hrv.
  - by eapply broker_ok_wakes.
Qed.

Lemma answer_inv message cn b resp b' :
  answer message cn b = (Ok resp, b') →
  ∃ r, handle_connection cn b = (r, b') ∧ r ≠ Panic.
Proof.
  intros Hrun. unfold answer in Hrun. apply st_bind_ok_inv in Hrun as (o & b1 & Ha & Hrun).
  unfold attempt in Ha. destruct (handle_connection cn b) as [[v|e|] b2]; [| |done];
    injection Ha as <- <-.
  - injection Hrun as _ <-. by eexists.
  - injection Hrun as _ <-. by eexists.
Qed.

Lemma broker_ok_step b b' : broker_step b b' → broker_ok (br_state b) → broker_ok (br_state b').
Proof.
  intros [b0 cn message resp b1 Ha|b0 s b1 Hq|b0 b1 Hq|b0 b1 Hs|b0 b1 Hm] Hok.
  - apply answer_inv in Ha as (r & Hh & Hp). by eapply handle_ok.
  - apply require_unlocked_cases in Hq as [Hw _]. by eapply broker_ok_wakes.
  - apply require_unlocked_cases in Hq as [Hw _]. by eapply broker_ok_wakes.
  - by rewrite Hs.
  - rewrite mark_activity_run in Hm. injection Hm as <-. by apply broker_ok_activity.
Qed.
(** ** A broker that is locked, or about to lock itself *)

Definition asleep (b : Broker) : Prop := unlocked (br_state b) = false ∨ idle_expired b.

Lemma expire_asleep b :
  asleep b → ∃ b1, expire_idle_unlock b = (Ok tt, b1) ∧ unlocked (br_state b1) = false ∧
    same_db (br_world b) (br_world b1) ∧ br_sent b1 = br_sent b.
Proof.
  intros Ha. destruct (unlocked (br_state b)) eqn:Hu.
  - destruct Ha as [Ha|Ha]; [congruence|]. destruct (expire_idle b Hu Ha) as (b1 & He & Hs & Hd & Hn).
    exists b1. by rewrite Hs.
  - exists b. split; [by apply expire_locked|]. done.
Qed.

Lemma peer_identity_run cn b :
  is_Some (cn_creds cn) → ∃ peer b1, peer_identity cn b = (Ok peer, b1).
Proof.
  intros [[[pid uid] gid] Hc]. unfold peer_identity. rewrite Hc. cbn [ok_or]. rewrite st_lift_ok.
  unfold linux_process_identity. rewrite st_bind_assoc, ask_bind, st_bind_assoc, ask_bind.
  destruct (read_link _ _) as [path|]; [rewrite st_bind_assoc, ask_bind|]; by eexists _, _.
Qed.

Lemma guarded_locked command request peer b :
  unlocked (br_state b) = false → command ∈ guarded_commands →
  dispatch command request peer b = (Err BLocked, b).
Proof.
  intros Hu. unfold guarded_commands. rewrite !elem_of_cons, elem_of_nil.
  intros [->|[->|[->|[->|[]]]]]; apply st_bind_err, require_unlocked_locked, Hu.
Qed.

(** ** Earning the flags *)

(** The pass phrase opens the vault, or the vault's provider needs none. *)
Definition opens_vault (p : option string) (d : Db) : Prop :=
  ∃ w header w1 w2, db w = d ∧ LocalVault_status w = (Ok header, w1) ∧
    let passphrase := String.eqb (default EmptyString
                        (get_str "provider_id" (hd_provider_binding header)))
                        PASSPHRASE_PROVIDER_ID in
    verify_audit (if passphrase then default EmptyString p else EmptyString) w1 = (Ok tt, w2).

Lemma validate_unlock_inv p b b1 :
  validate_unlock p b = (Ok tt, b1) → opens_vault p (db (br_world b)).
Proof.
  intros Hrun. unfold validate_unlock in Hrun.
  apply st_bind_ok_inv in Hrun as (header & b2 & Hl & Hrun). apply on_world_ok_inv in Hl as (Hl & _ & _).
  exists (br_world b), header, (br_world b2), (br_world b1). split; [done|]. split; [done|]. cbv zeta.
  destruct (String.eqb _ PASSPHRASE_PROVIDER_ID); [by apply on_world_ok_inv in Hrun as [? _]|].
  destruct (_ || _); [by apply on_world_ok_inv in Hrun as [? _]|].
  destruct (String.eqb _ SYSTEM_FINGERPRINT_PROVIDER_ID); [by apply on_world_ok_inv in Hrun as [? _]|done].
Qed.

Lemma validate_mfa_inv code b b1 :
  validate_mfa code b = (Ok tt, b1) →
  verify_totp_mfa (state_passphrase (br_state b)) code (br_world b) = (Ok tt, br_world b1).
Proof.
  intros Hrun. unfold validate_mfa in Hrun. rewrite get_state_bind in Hrun.
  by apply on_world_ok_inv in Hrun as [? _].
Qed.

(** Unlocking is a reading of the vault. *)
Lemma same_db_verify_audit p : keeps same_db (verify_audit p).
Proof.
  assert (keeps same_db list_audit_events) by (unfold list_audit_events; keeps_auto).
  unfold verify_audit. keeps_auto.
Qed.
Lemma same_db_status : keeps same_db LocalVault_status.
Proof. apply keeps_try. auto with keeps typeclass_instances. Qed.
Lemma validate_unlock_db p : keeps asks (validate_unlock p).
Proof.
  unfold validate_unlock. pose proof (λ p, keeps_on_world_asks _ (same_db_verify_audit p)).
  pose proof (keeps_on_world_asks _ same_db_status). keeps_auto.
Qed.

(** How a step comes to leave the broker unlocked, or its second factor verified: on the tables
    the broker serves, under the pass phrase that came with the unlock, or that it holds. *)
Definition earned_unlock (cn : Connection) (b : Broker) : Prop :=
  ∃ request, request_of cn = Some request ∧ get_str "command" request = Some "unlock" ∧
    opens_vault (get_str "passphrase" request) (db (br_world b)).
Definition accepts_code (b : Broker) (passphrase code : string) : Prop :=
  ∃ w w', db w = db (br_world b) ∧ verify_totp_mfa passphrase code w = (Ok tt, w').
Definition earned_mfa (cn : Connection) (b : Broker) : Prop :=
  ∃ request code, request_of cn = Some request ∧ get_str "mfa_code" request = Some code ∧
    ((get_str "command" request = Some "unlock" ∧
      accepts_code b (default EmptyString (get_str "passphrase" request)) code) ∨
     (get_str "command" request = Some "mfa_verify" ∧ unlocked (br_state b) = true ∧
      accepts_code b (default EmptyString (unlocked_passphrase (br_state b))) code)).

Record earns (cn : Connection) (b : Broker) (r : res BrokerError json) (s' : BrokerState) : Prop := {
  en_unlocked : unlocked s' = true → unlocked (br_state b) = true ∨ earned_unlock cn b;
  en_mfa : mfa_verified s' = true → mfa_verified (br_state b) = true ∨ earned_mfa cn b;
  (* a factor verified before does not outlive an unlock *)
  en_fresh : ∀ request v, request_of cn = Some request →
    get_str "command" request = Some "unlock" → r = Ok v → mfa_verified s' = true → earned_mfa cn b;
}.

Lemma earns_wakes cn b b' r : wakes b b' → (∀ v, r ≠ Ok v) → earns cn b r (br_state b').
Proof.
  intros (_ & _ & Hs) Hr. split; [| |intros request v _ _ Hv; by destruct (Hr v)];
    destruct Hs as [->|[_ ->]]; simpl; intros ?; first [done|by left].
Qed.

(** A command but unlock that keeps the flags, or locks. *)
Lemma earns_other cn b r s' request command :
  request_of cn = Some request → get_str "command" request = Some command → command ≠ "unlock" →
  (unlocked s' = true → unlocked (br_state b) = true) →
  (mfa_verified s' = true → mfa_verified (br_state b) = true) → earns cn b r s'.
Proof.
  intros Hreq Hc Hne Hu Hm. split; [by left; auto|by left; auto|].
  intros rq v Hrq Hcmd. rewrite Hreq in Hrq. injection Hrq as <-. congruence.
Qed.

Lemma unlock_earns cn b b1 r b' request :
  request_of cn = Some request → get_str "command" request = Some "unlock" → wakes b b1 →
  unlock_command request b1 = (r, b') → r ≠ Panic → earns cn b r (br_state b').
Proof.
  intros Hreq Hc Hw Hd Hp. pose proof Hw as ([Hdb _] & _ & Hws).
  assert (∀ s', unlocked s' = unlocked (br_state b1) → unlocked s' = true →
            unlocked (br_state b) = true) as Hkeep.
  { intros s' ->. by destruct Hws as [->|[? ->]]. }
  assert (∀ s', mfa_verified s' = mfa_verified (br_state b1) → mfa_verified s' = true →
            mfa_verified (br_state b) = true) as Hkeepm.
  { intros s' ->. by destruct Hws as [->|[? ->]]. }
  destruct (unlock_cases _ _ _ _ Hd Hp) as [[Hs Hr]|(b2 & Hv & Hcases)].
  { rewrite Hs. split; [left; by eapply Hkeep|left; by eapply Hkeepm|].
    intros rq v _ _ Hv. by destruct (Hr v). }
  pose proof (validate_unlock_db (get_str "passphrase" request) b1) as ([Hd2 _] & _).
  rewrite Hv in Hd2. simpl in Hd2.
  destruct Hcases as [(code & e & b3 & _ & _ & -> & ->)|[(id & t & m & -> & Hmfa)]].
  { split; [left; by eapply Hkeep|discriminate|discriminate]. }
  assert (m = true → earned_mfa cn b) as Hm.
  { intros Ht. destruct (Hmfa Ht) as (code & b3 & Hcode & Hval%validate_mfa_inv).
    exists request, code. do 2 (split; [done|]). left. split; [done|].
    eexists _, _. split; [|exact Hval]. simpl. by rewrite Hd2. }
  split; [intros _; right|by right; apply Hm|by intros; apply Hm].
  exists request. do 2 (split; [done|]). rewrite <-Hdb. by eapply validate_unlock_inv.
Qed.

Lemma handle_earns cn b r b' :
  handle_connection cn b = (r, b') → r ≠ Panic → earns cn b r (br_state b').
Proof.
  intros Hrun Hp.
  apply handle_cases in Hrun as [(c & request & peer & b1 & [Hreq Hc Hcr Hw] & Hd)|[Hw Hr]].
  2: by apply earns_wakes.
  pose proof Hw as ([Hdb _] & _ & Hws).
  assert (∀ s', guarded_step (br_state b1) s' → c ≠ "unlock" → earns cn b r s') as Hother.
  { intros s' Hg Hne. apply (earns_other _ _ _ _ request c); [done..| |];
      destruct Hg as [->|[[_ ->]|[_ [t ->]]]]; simpl; try done; by destruct Hws as [->|[_ ->]]. }
  unfold dispatch in Hd.
  destruct (String.eqb_spec c "status") as [->|_].
  { injection Hd as _ <-. by apply Hother; [left|]. }
  destruct (String.eqb_spec c "unlock") as [->|Hne]; [by eapply unlock_earns|].
  destruct (String.eqb_spec c "mfa_verify") as [->|_].
  { apply mfa_verify_cases in Hd
      as [Hs|[Hs|(Hun & t & code & b2 & b3 & Hs2 & Hd2 & Hcode & Hval & Hs)]].
    - by apply Hother; [left|].
    - by apply Hother; [right; left|].
    - assert (br_state b1 = br_state b) as Hb1.
      { destruct Hws as [?|[_ Hl]]; [done|]. by rewrite Hl in Hun. }
      apply validate_mfa_inv in Hval. rewrite Hs, Hb1. rewrite Hb1 in Hun.
      split; simpl; [by left| |].
      + intros _. right. exists request, code. do 2 (split; [done|]). right. do 2 (split; [done|]).
        eexists _, _. split; [|by rewrite Hs2, Hb1 in Hval]. by rewrite Hd2.
      + intros rq v Hrq Hcmd. rewrite Hreq in Hrq. injection Hrq as <-. congruence. }
  destruct (String.eqb_spec c "lock") as [->|_].
  { injection Hd as _ <-. by apply (earns_other _ _ _ _ request "lock"). }
  assert (∀ c', c' ∈ ["checkout"; "materialize"; "provider_http"] → c = c' →
    dispatch c' request peer b1 = (r, b') → earns cn b r (br_state b')) as Hg.
  { intros c' Hc' -> Hd'. apply Hother; [by eapply guarded_dispatch|done]. }
  repeat (match type of Hd with context [String.eqb c ?k] =>
    destruct (String.eqb_spec c k) as [->|_]; [apply (Hg k); [set_solver|done|done]|] end).
  injection Hd as _ <-. by apply Hother; [left|].
Qed.
End state.

(** ** A broker to evaluate on *)

(** A client's line, from process 4242 of user 1000. *)
Definition sample_connection (l : list (string * json)) : Connection := {|
  cn_line := Some (json_to_string (obj l)); cn_creds := Some (4242, 1000, 1000) |}.
Definition sample_broker (t : f64) : Broker := {|
  br_world := ticket_world; br_state := BrokerState_new t; br_sent := [] |}.
Definition unlock_request : list (string * json) :=
  [("command", JStr "unlock"); ("passphrase", JStr "correct horse")].
Definition unlocked_broker : Broker :=
  (handle_connection (sample_connection unlock_request) (sample_broker f64_zero)).2.

Lemma err_run {W E A} (m : ST W E A) w :
  match (m w).1 with Err _ => true | _ => false end = true → ∃ e w', m w = (Err e, w').
Proof. destruct (m w) as [[]]; [discriminate|by eauto|discriminate]. Qed.

Lemma unlocked_broker_run : ∃ resp,
  handle_connection (sample_connection unlock_request) (sample_broker f64_zero)
    = (Ok resp, unlocked_broker).
Proof.
  destruct (ok_run (handle_connection (sample_connection unlock_request)) (sample_broker f64_zero))
    as (resp & b & Hr); [vm_compute; reflexivity|]. exists resp. unfold unlocked_broker.
  rewrite Hr. reflexivity.
Qed.

(** ** Properties *)

(** C11: a locked broker holds nothing. From a new broker, through any interleaving of answered
    connections, with any content, of the gateway's critical sections and of work outside the
    mutex, a locked broker has no pass phrase, no verified second factor and no session, and
    an unlocked one has a session and a time of last activity to expire by. *)
Theorem locked_holds_nothing {X : Ext} {NX : Net} t b b' :
  br_state b = BrokerState_new t → rtc broker_step b b' → broker_ok (br_state b').
Proof.
  intros Hb Hs. assert (broker_ok (br_state b)) as Hok by (rewrite Hb; apply broker_ok_new).
  clear Hb. induction Hs as [|b1 b2 b3 Hstep _ IH]; [done|]. apply IH. by eapply broker_ok_step.
Qed.

Lemma locked_holds_nothing_witness :
  unlocked (br_state unlocked_broker) = true ∧ broker_ok (br_state unlocked_broker).
Proof.
  destruct unlocked_broker_run as (resp & Hr). split; [vm_compute; reflexivity|].
  apply (locked_holds_nothing f64_zero (sample_broker f64_zero)); [reflexivity|]. apply rtc_once.
  apply (step_connection _ (sample_connection unlock_request) (λ _, EmptyString) resp).
  unfold answer. exact (st_bind_ok _ _ _ _ _ (attempt_ok _ _ _ _ Hr)).
Defined.

(** C13: a locked broker gives nothing out, and neither does one left idle. When the broker is
    locked, or its idle timeout has passed on the clock, any well-formed request for a second
    factor check, a ticket, a secret or a brokered HTTP call is the locked error; no table
    has changed, no HTTP request was sent, and the broker is locked. *)
Theorem asleep_denies {X : Ext} {NX : Net} cn b request command :
  asleep b → request_of cn = Some request → is_Some (cn_creds cn) →
  get_str "command" request = Some command → command ∈ guarded_commands →
  ∃ b', handle_connection cn b = (Err BLocked, b') ∧ db (br_world b') = db (br_world b) ∧
    br_sent b' = br_sent b ∧ unlocked (br_state b') = false.
Proof.
  intros Ha Hreq Hcr Hcmd Hin. destruct (expire_asleep b Ha) as (b1 & He & Hu & [Hd _] & Hn).
  destruct (peer_identity_run cn b1 Hcr) as (peer & b2 & Hpe).
  pose proof (keeps_peer_identity cn b1) as ([Hd2 _] & Hs2 & Hn2). rewrite Hpe in Hd2, Hs2, Hn2.
  exists b2. split; [|simpl in *; split; [congruence|]; split; congruence].
  unfold handle_connection. rewrite (st_bind_ok _ _ _ _ _ He). unfold request_of in Hreq.
  destruct (cn_line cn) as [line|]; [|done]. cbn [ok_or]. rewrite st_lift_ok. simpl in Hreq.
  rewrite Hreq. cbn [ok_or]. rewrite st_lift_ok, (st_bind_ok _ _ _ _ _ Hpe).
  unfold str_field. rewrite Hcmd. cbn [ok_or]. rewrite st_lift_ok.
  apply guarded_locked; [|done]. simpl in Hs2. by rewrite Hs2.
Qed.

Lemma asleep_denies_witness : ∃ b',
  handle_connection (sample_connection [("command", JStr "materialize")]) (sample_broker f64_zero)
    = (Err BLocked, b') ∧ unlocked (br_state b') = false.
Proof.
  destruct (asleep_denies (sample_connection [("command", JStr "materialize")])
              (sample_broker f64_zero) (obj [("command", JStr "materialize")]) "materialize")
    as (b' & Hr & _ & _ & Hu).
  - left. reflexivity.
  - vm_compute. reflexivity.
  - eexists. reflexivity.
  - vm_compute. reflexivity.
  - vm_compute. do 2 constructor 2. constructor.
  - exists b'. exact (conj Hr Hu).
Defined.

(** C17: the flags are earned. When a connection, short of a panic, leaves the broker unlocked
    that was locked, it carried an unlock command and the audit log of the broker's own tables
    was verified under its pass phrase (under none, where the vault's provider needs none). When
    it leaves the second factor verified that was not, it carried a code that the TOTP check of
    those tables accepted: under the pass phrase that came with the unlock command, or, for an
    mfa_verify command to an unlocked broker, under the one the broker holds.  And after a
    successful unlock the factor is verified only if that very command's code was accepted. *)
Theorem flags_are_earned {X : Ext} {NX : Net} cn b r b' :
  handle_connection cn b = (r, b') → r ≠ Panic →
  (unlocked (br_state b') = true → unlocked (br_state b) = true ∨ earned_unlock cn b) ∧
  (mfa_verified (br_state b') = true → mfa_verified (br_state b) = true ∨ earned_mfa cn b) ∧
  (∀ request v, request_of cn = Some request → get_str "command" request = Some "unlock" →
     r = Ok v → mfa_verified (br_state b') = true → earned_mfa cn b).
Proof. intros Hrun Hp. by destruct (handle_earns cn b r b' Hrun Hp). Qed.

Lemma flags_are_earned_witness :
  earned_unlock (sample_connection unlock_request) (sample_broker f64_zero).
Proof.
  destruct unlocked_broker_run as (resp & Hr).
  destruct (flags_are_earned _ _ _ _ Hr ltac:(discriminate)) as (Hu & _ & _).
  destruct Hu as [Hu|Hu]; [vm_compute; reflexivity|discriminate Hu|exact Hu].
Defined.

(** A refused unlock does not lock. When an unlock command's pass phrase is accepted and its
    second factor is refused, the command is the error, the stored pass phrase and the
    verified factor are cleared, but a broker that was unlocked stays unlocked, in the same
    session and with the same activity: it goes on serving wherever the vault's provider
    needs no pass phrase. *)
Theorem refused_unlock_stays_unlocked {X : Ext} {NX : Net} request code e b b1 b2 :
  validate_unlock (get_str "passphrase" request) b = (Ok tt, b1) →
  get_str "mfa_code" request = Some code →
  validate_mfa code (set_state (unlocking (get_str "passphrase" request) (br_state b)) b1)
    = (Err e, b2) →
  ∃ b', unlock_command request b = (Err e, b') ∧
    br_state b' = unlocking None (br_state b) ∧ unlocked (br_state b') = unlocked (br_state b) ∧
    broker_session_id (br_state b') = broker_session_id (br_state b).
Proof.
  intros Hv Hcode Hm. destruct (unlock_command request b) as [r b'] eqn:Hrun. exists b'.
  pose proof (keeps_validate_unlock (get_str "passphrase" request) b) as [Hs _]. rewrite Hv in Hs.
  simpl in Hs. unfold unlock_command in Hrun. rewrite (st_bind_ok _ _ _ _ _ Hv) in Hrun.
  rewrite !modify_bind in Hrun. cbn [set_state br_state] in Hrun. rewrite Hs, Hcode in Hrun.
  rewrite st_bind_assoc in Hrun.
  rewrite (st_bind_ok _ _ _ _ _ (attempt_err _ _ _ _ Hm)) in Hrun.
  rewrite st_bind_assoc, modify_bind in Hrun. injection Hrun as <- <-.
  pose proof (keeps_validate_mfa code
    (set_state (unlocking (get_str "passphrase" request) (br_state b)) b1)) as [Hs2 _].
  rewrite Hm in Hs2. simpl in *. by rewrite Hs2.
Qed.

Definition refused_request : json :=
  obj [("command", JStr "unlock"); ("passphrase", JStr "correct horse"); ("mfa_code", JStr "123456")].

Lemma refused_unlock_stays_unlocked_witness : ∃ e b',
  unlock_command refused_request unlocked_broker = (Err e, b') ∧
  unlocked (br_state b') = true ∧ unlocked_passphrase (br_state b') = None.
Proof.
  destruct (ok_run (validate_unlock (get_str "passphrase" refused_request)) unlocked_broker)
    as ([] & b1 & Hv); [vm_compute; reflexivity|].
  assert (b1 = (validate_unlock (get_str "passphrase" refused_request) unlocked_broker).2) as Hb1
    by (rewrite Hv; reflexivity).
  destruct (err_run (validate_mfa "123456")
              (set_state (unlocking (get_str "passphrase" refused_request)
                                    (br_state unlocked_broker)) b1))
    as (e & b2 & Hm); [rewrite Hb1; vm_compute; reflexivity|].
  destruct (refused_unlock_stays_unlocked refused_request "123456" e unlocked_broker b1 b2 Hv
              eq_refl Hm) as (b' & Hr & Hs & Hu & _).
  exists e, b'. split; [exact Hr|]. split; [rewrite Hu; vm_compute; reflexivity|].
  rewrite Hs. reflexivity.
Defined.
