(* ===== verification/BrokerSecrets.v ===== *)
(** * What leaves the broker (broker_daemon.rs)

    The composition of the broker with the vault: a secret is handed to a client, or injected in
    an HTTP request, only through a ticket that a policy grants to the peer the kernel names,
    for the very URL that is then called; the reply is redacted, unless the client asks for
    it in base64; and a denied host is denied as written, without its port. *)

From S2P Require Export BrokerState.
From S2P Require Import Toy.
#[local] Open Scope Z_scope.

(** The part of an access request that is not the client's to say. *)
Record about_peer (a : AccessRequest) (peer : PeerIdentity) (s : BrokerState) : Prop := {
  ap_uid : req_os_uid a = Some (peer_uid peer);
  ap_path : req_executable_path a = peer_exe_path peer;
  ap_hash : req_executable_sha256 a = peer_exe_sha256 peer;
  ap_mfa : req_mfa_verified a = mfa_verified s;
  ap_session : req_broker_session_id a = broker_session_id s;
}.

Section secrets.
Context {X : Ext} {NX : Net} {HC : CodecLaws} {HT : ChronoLaws} {HH : HashLaws}.

(** The values of a request are in the ranges of their types: a [u32] user, [u64] sizes. *)
Record request_ok (cn : Connection) (request : json) : Prop := {
  rq_uid pid uid gid : cn_creds cn = Some (pid, uid, gid) → 0 <= uid <= u32_max;
  rq_bytes n : jget "http_request_body_bytes" request ≫= as_u64 = Some n → 0 <= n <= u64_max;
  rq_body body : request_body request = Ok body → Z.of_nat (length (default [] body)) <= u64_max;
}.

Lemma awake_state b b1 : wakes b b1 → unlocked (br_state b1) = true → br_state b1 = br_state b.
Proof. intros (_ & _ & [Hs|[_ Hs]]) Hu; [done|]. by rewrite Hs in Hu. Qed.

Lemma access_request_inv request peer raw mfa session b access b' :
  access_request request peer raw mfa session b = (Ok access, b') →
  asks b b' ∧ req_os_uid access = Some (peer_uid peer) ∧
  req_executable_path access = peer_exe_path peer ∧
  req_executable_sha256 access = peer_exe_sha256 peer ∧ req_mfa_verified access = mfa ∧
  req_broker_session_id access = session ∧ req_raw_export_requested access = raw ∧
  req_http_request_body_bytes access = (jget "http_request_body_bytes" request ≫= as_u64) ∧
  get_str "secret_ref" request = Some (req_secret_ref access) ∧
  get_str "purpose" request = Some (req_purpose access) ∧
  req_consumer access = default ("uid:" +:+ dec (peer_uid peer))%string (get_str "consumer" request) ∧
  ∃ mode, get_str "delivery_mode" request = Some mode ∧
    broker_parse_delivery_mode mode = Ok (req_delivery_mode access).
Proof.
  intros Hrun. pose proof (keeps_access_request request peer raw mfa session b) as Hk.
  rewrite Hrun in Hk. split; [exact Hk|]. unfold access_request in Hrun.
  apply st_bind_ok_inv in Hrun as (mode & b1 & Hl & Hrun).
  apply lift_ok_inv in Hl as [Hmode%ok_or_ok_inv <-].
  apply st_bind_ok_inv in Hrun as (dm & b1 & Hl & Hrun). apply lift_ok_inv in Hl as [Hdm <-].
  apply st_bind_ok_inv in Hrun as (sr & b1 & Hl & Hrun).
  apply lift_ok_inv in Hl as [Hsr%ok_or_ok_inv <-].
  apply st_bind_ok_inv in Hrun as (pu & b1 & Hl & Hrun).
  apply lift_ok_inv in Hl as [Hpu%ok_or_ok_inv <-].
  apply st_bind_ok_inv in Hrun as (now & b1 & _ & Hrun). injection Hrun as <- _.
  split_and!; try done. by exists mode.
Qed.

(** Issuing a ticket and using it at once. *)
Lemma released_inv access p t secret b b1 b2 v :
  represents (db (br_world b)) v → AccessRequest_wf access →
  on_world (issue_ticket access p) b = (Ok t, b1) →
  on_world (consume_ticket_for_secret (tk_ticket_id t) access p) b1 = (Ok secret, b2) →
  released v access t secret ∧ br_state b2 = br_state b ∧ br_sent b2 = br_sent b ∧
  ∃ v1 v' t', filed [t] v v1 ∧ represents (db (br_world b2)) v' ∧ used v1 v' t t'.
Proof.
  intros Hrep Hwf Hi Hc. apply on_world_ok_inv in Hi as (Hi & Hs1 & Hn1).
  apply on_world_ok_inv in Hc as (Hc & Hs2 & Hn2).
  destruct (issue_consume_inv _ _ _ _ _ _ _ v Hrep Hwf Hi Hc) as (Hrel & Hv).
  split; [done|]. split; [congruence|]. split; [congruence|done].
Qed.

Lemma materialize_inv cn request peer b resp b' v :
  represents (db (br_world b)) v → request_ok cn request →
  cn_creds cn = Some (peer_pid peer, peer_uid peer, peer_gid peer) →
  materialize_command request peer b = (Ok resp, b') →
  unlocked (br_state b) = true ∧ ∃ access t t' v1 v' secret,
    about_peer access peer (br_state b) ∧
    get_str "secret_ref" request = Some (req_secret_ref access) ∧
    get_str "purpose" request = Some (req_purpose access) ∧
    (∃ mode, get_str "delivery_mode" request = Some mode ∧
       broker_parse_delivery_mode mode = Ok (req_delivery_mode access)) ∧
    req_consumer access = default ("uid:" +:+ dec (peer_uid peer))%string (get_str "consumer" request) ∧
    req_raw_export_requested access = default false (get_bool "raw_export_requested" request) ∧
    released v access t secret ∧ filed [t] v v1 ∧ represents (db (br_world b')) v' ∧
    used v1 v' t t' ∧
    resp = obj [ ("ok", JBool true); ("secret", JStr (from_utf8_lossy secret));
                 ("peer", peer_to_value peer) ].
Proof.
  intros Hrep Hok Hcr Hrun. unfold materialize_command in Hrun.
  apply st_bind_ok_inv in Hrun as (s & b1 & Hq & Hrun).
  apply require_unlocked_inv in Hq as (Hu & -> & Hs1 & [Hd1 _] & _). split; [done|].
  apply st_bind_ok_inv in Hrun as (access & b2 & Ha & Hrun).
  apply access_request_inv in Ha as (([Hd2 _] & Hs2 & _) & Huid & Hpath & Hhash & Hmfa & Hses & Hraw & Hbytes & Hsr & Hpu & Hco & Hmode).
  assert (represents (db (br_world b2)) v) as Hrep2 by (by rewrite Hd2, Hd1).
  assert (AccessRequest_wf access) as Hwf.
  { split; [rewrite Hbytes; apply Hok|]. rewrite Huid. intros n [= <-]. by eapply rq_uid. }
  apply st_bind_ok_inv in Hrun as (t & b3 & Hi & Hrun).
  apply st_bind_ok_inv in Hrun as (secret & b4 & Hc & Hrun).
  destruct (released_inv _ _ _ _ _ _ _ v Hrep2 Hwf Hi Hc)
    as (Hrel & _ & _ & v1 & v' & t' & Hf & Hrep4 & Hused).
  injection Hrun as <- <-. exists access, t, t', v1, v', secret.
  split; [by split|]. by split_and!.
Qed.
(** ** Brokered HTTP requests *)

(** A URL taken apart: the host is the authority, in lower case, as it is written. *)
Definition url_parts (url scheme host path : string) : Prop :=
  ∃ authority rest, url = (scheme +:+ "://" +:+ authority +:+ rest)%string ∧
    (scheme = "http" ∨ scheme = "https") ∧ authority ≠ EmptyString ∧
    no_char "/" authority = true ∧ host = to_ascii_lowercase authority ∧
    ((rest = EmptyString ∧ path = "/") ∨ (∃ r, rest = String "/" r ∧ path = rest)).

Definition body_sent (b : HttpBody) : option bytes :=
  match b with CallNoBody => None | SendBytes b | SendReader b => Some b end.

(** The access request that speaks of a call: what it asks for, and of the call that is made its
    URL, method and size of body; the rest is the peer's and the broker's. *)
Record asks_for (secret_ref consumer purpose : string) (peer : PeerIdentity) (mfa : bool)
    (session : option string) (c : HttpCall) (a : AccessRequest) : Prop := {
  af_secret : req_secret_ref a = secret_ref;
  af_consumer : req_consumer a = consumer;
  af_purpose : req_purpose a = purpose;
  af_mode : req_delivery_mode a = BrokeredHttp;
  af_raw : req_raw_export_requested a = false;
  af_url : ∃ scheme host path, url_parts (call_url c) scheme host path ∧
    req_http_scheme a = Some scheme ∧ req_http_host a = Some host ∧ req_http_path a = Some path;
  af_method : req_http_method a = Some (call_method c);
  af_bytes : req_http_request_body_bytes a =
    Some (Z.of_nat (length (default [] (body_sent (call_body c)))));
  af_uid : req_os_uid a = Some (peer_uid peer);
  af_path : req_executable_path a = peer_exe_path peer;
  af_hash : req_executable_sha256 a = peer_exe_sha256 peer;
  af_mfa : req_mfa_verified a = mfa;
  af_session : req_broker_session_id a = session;
  af_now : ∃ i, req_now a = utc_now i;
}.

(** No form of the secret occurs in a text. *)
Definition no_trace (secret : bytes) (text : string) : Prop := ∀ q, q ≠ EmptyString →
  q = base64_std_encode secret ∨ q = b64url_no_padding secret ∨
  (∃ t, from_utf8 secret = Some t ∧ (q = t ∨ q = percent_encode t)) → contains text q = false.

(** What the sending of an HTTP request rests on: the client's request, as the policy granted
    it for the call that is made, and no sign of the secret in what the client wrote. *)
Record http_granted (v : View) (request : json) (peer : PeerIdentity) (mfa : bool)
    (session : option string) (secret : bytes) (c : HttpCall) (access : AccessRequest)
    (t : SecretAccessTicket) : Prop := {
  hg_url : get_str "url" request = Some (call_url c);
  hg_method : call_method c = to_ascii_uppercase (default "GET" (get_str "method" request));
  hg_body : request_body request = Ok (body_sent (call_body c));
  hg_asked : ∃ secret_ref purpose, get_str "secret_ref" request = Some secret_ref ∧
    get_str "purpose" request = Some purpose ∧
    asks_for secret_ref (default ("uid:" +:+ dec (peer_uid peer))%string (get_str "consumer" request))
      purpose peer mfa session c access;
  hg_released : released v access t secret;
  hg_clean : let headers := default [] (jget "headers" request ≫= as_object) in
    no_trace secret (call_url c) ∧
    (∀ name value, (name, JStr value) ∈ headers →
       no_trace secret (name +:+ ": " +:+ value)%string) ∧
    (∀ body, body_sent (call_body c) = Some body → no_trace secret (from_utf8_lossy body)) ∧
    ∃ injected timeout, injected_headers request secret headers = Ok injected ∧
      c = http_call (call_method c) (call_url c) timeout injected (body_sent (call_body c));
}.

Lemma split_once_before a s x y : split_once (String a "") s = Some (x, y) → no_char a x = true.
Proof.
  revert x. induction s as [|b s IH]; intros x; cbn [split_once]; [done|].
  destruct (String.prefix (String a "") (String b s)) eqn:Hp; [by intros [= <- _]|].
  destruct (split_once (String a "") s) as [[x' y']|]; [|done]. intros [= <- <-].
  unfold no_char in *. cbn [all_chars id]. rewrite (IH x' eq_refl), andb_true_r.
  apply negb_true_iff, Ascii.eqb_neq. intros ->. cbn [String.prefix] in Hp.
  destruct (ascii_dec a a); [|done]. by destruct s.
Qed.
Lemma split_once_none a s : split_once (String a "") s = None → no_char a s = true.
Proof.
  induction s as [|b s IH]; cbn [split_once]; [done|].
  destruct (String.prefix (String a "") (String b s)) eqn:Hp; [done|].
  destruct (split_once (String a "") s) as [[x' y']|]; [done|]. intros _.
  unfold no_char in *. cbn [all_chars]. rewrite (IH eq_refl), andb_true_r.
  apply negb_true_iff, Ascii.eqb_neq. intros ->. cbn [String.prefix] in Hp.
  destruct (ascii_dec a a); [|done]. by destruct s.
Qed.

(** [parse_http_url] takes a URL apart. *)
Lemma parse_http_url_parts url parsed :
  parse_http_url url = Ok parsed →
  url_parts url (url_scheme parsed) (url_host parsed) (url_path parsed).
Proof.
  unfold parse_http_url. destruct (split_once "://" url) as [[scheme rest]|] eqn:Hs; [|done].
  apply split_once_Some in Hs as ->.
  destruct (String.eqb_spec scheme "http") as [Hh|Hh], (String.eqb_spec scheme "https") as [Hh'|Hh'];
    cbn [negb andb]; try done;
  (destruct (split_once "/" rest) as [[authority path_part]|] eqn:Hr; cbn [default from_option id];
   [destruct (is_empty authority) eqn:He|destruct (is_empty rest) eqn:He]; [done| |done|];
   intros [= <-]; cbn [url_scheme url_host url_path]);
  first [exists authority, (String "/" path_part)|exists rest, EmptyString].
  all: try (pose proof Hr as Hr'; apply split_once_Some in Hr').
  all: split; [by rewrite ?Hr', ?str_app_nil_r|]; split; [by auto|].
  all: split; [by intros ->|].
  all: split; [first [by eapply split_once_before|by apply split_once_none]|]; split; [done|].
  all: first [left; by split|right; by eexists].
Qed.

Lemma http_call_inv method url timeout headers body :
  call_url (http_call method url timeout headers body) = url ∧
  call_method (http_call method url timeout headers body) = method ∧
  body_sent (call_body (http_call method url timeout headers body)) = body.
Proof. unfold http_call. by repeat case_match. Qed.

Lemma no_trace_inv value secret : contains_secret value secret = false → no_trace secret value.
Proof.
  intros Hc q Hne Hq. unfold contains_secret in Hc. apply not_true_iff_false. intros Hin.
  apply not_true_iff_false in Hc. apply Hc, existsb_exists. exists q. split; [|done].
  apply list_elem_of_In. pose proof (proj2 (representation_iff secret q)) as Hr.
  unfold longest_first in Hr. rewrite elem_of_sort_by in Hr. apply Hr. by split.
Qed.
Lemma header_lines_elem name value headers :
  (name, JStr value) ∈ headers → (name +:+ ": " +:+ value)%string ∈ header_lines headers.
Proof.
  induction headers as [|[k x] l IH]; [set_solver|]. unfold header_lines in *.
  cbn [filter_map foldr fst snd]. intros [[= <- <-]|Hin]%elem_of_cons; [by left|].
  destruct (as_str x); [right|]; by apply IH.
Qed.
Lemma leak_inv secret url headers body :
  assert_no_secret_leak secret url headers body = Ok tt →
  no_trace secret url ∧
  (∀ name value, (name, JStr value) ∈ headers → no_trace secret (name +:+ ": " +:+ value)%string) ∧
  (∀ b, body = Some b → no_trace secret (from_utf8_lossy b)).
Proof.
  unfold assert_no_secret_leak. destruct (existsb _ _) eqn:He; [done|]. intros Hb.
  assert (∀ x, x ∈ url :: header_lines headers → no_trace secret x) as Hall.
  { intros x Hx. apply no_trace_inv, not_true_iff_false. intros Hc. apply not_true_iff_false in He.
    apply He, existsb_exists. exists x. split; [by apply list_elem_of_In|done]. }
  split; [apply Hall; by left|]. split.
  - intros name value Hin. apply Hall. right. by apply header_lines_elem.
  - intros b ->. apply no_trace_inv. by destruct (contains_secret _ _).
Qed.

(** A prefix that sends nothing: either it ends the computation, or the rest does the sending. *)
Lemma unsent_bind {A B} (m : BROKER A) (f : A → BROKER B) b r b' :
  keeps unsent m → (m ≫= f) b = (r, b') → br_sent b' ≠ br_sent b →
  ∃ a b1, m b = (Ok a, b1) ∧ br_sent b1 = br_sent b ∧ f a b1 = (r, b').
Proof.
  intros Hk Hrun Hne. specialize (Hk b).
  apply st_bind_cases in Hrun as [(a & b1 & Ha & Hrun)|(o & Ha & _)]; rewrite Ha in Hk; [eauto|done].
Qed.

Lemma unsent_lift {A B} (o : res BrokerError A) (f : A → BROKER B) b r b' :
  (lift o ≫= f) b = (r, b') → br_sent b' ≠ br_sent b → ∃ a, o = Ok a ∧ f a b = (r, b').
Proof.
  intros Hrun Hne. apply unsent_bind in Hrun as (a & b1 & Hl & _ & Hrun); [|apply keeps_lift, _|done].
  apply lift_ok_inv in Hl as [-> <-]. eauto.
Qed.

Lemma keeps_world_unsent {E A} `{From E BrokerError} (m : ST World E A) : keeps unsent (on_world m).
Proof. eapply keeps_weaken, keeps_on_world_works. apply works_unsent. Qed.

Lemma http_sent_inv p request peer mfa session b r b' v cn :
  represents (db (br_world b)) v → request_ok cn request →
  cn_creds cn = Some (peer_pid peer, peer_uid peer, peer_gid peer) →
  brokered_http_request p request peer mfa session b = (r, b') → br_sent b' ≠ br_sent b →
  ∃ c secret access t, br_sent b' = br_sent b ++ [c] ∧
    http_granted v request peer mfa session secret c access t.
Proof.
  intros Hrep Hok Hcr Hrun Hne. unfold brokered_http_request in Hrun.
  apply unsent_lift in Hrun as (url & Hurl%ok_or_ok_inv & Hrun); [|done].
  apply unsent_lift in Hrun as (parsed & Hparsed & Hrun); [|done].
  apply unsent_lift in Hrun as (body & Hbody & Hrun); [|done].
  apply unsent_lift in Hrun as (purpose & Hpu%ok_or_ok_inv & Hrun); [|done].
  apply unsent_lift in Hrun as (sref & Hsr%ok_or_ok_inv & Hrun); [|done].
  apply unsent_bind in Hrun as (now & b1 & Hnow & Hn1 & Hrun); [|apply keeps_world_unsent|done].
  apply on_world_ok_inv in Hnow as (Hnow & _ & _). injection Hnow as <- Hw1.
  rewrite <-Hn1 in Hne. cbv zeta in Hrun.
  set (access := http_access _ _ _ _ _ _ _ _ _ _) in Hrun.
  assert (represents (db (br_world b1)) v) as Hrep1 by (rewrite <-Hw1; exact Hrep).
  assert (AccessRequest_wf access) as Hwf.
  { split; simpl; intros n [= <-]; [|by eapply rq_uid]. split; [lia|by eapply rq_body]. }
  apply unsent_bind in Hrun as (t & b2 & Hi & Hn2 & Hrun); [|apply keeps_world_unsent|done].
  rewrite <-Hn2 in Hne.
  apply unsent_bind in Hrun as (secret & b3 & Hc & Hn3 & Hrun); [|apply keeps_world_unsent|done].
  rewrite <-Hn3 in Hne.
  destruct (released_inv _ _ _ _ _ _ _ v Hrep1 Hwf Hi Hc) as (Hrel & _).
  apply unsent_lift in Hrun as ([] & Hleak%leak_inv & Hrun); [|done].
  apply unsent_lift in Hrun as (headers & Hinj & Hrun); [|done].
  apply unsent_bind in Hrun as (timeout & b4 & _ & Hn4 & Hrun); [|keeps_auto|done].
  match type of Hrun with context [http_call ?m ?u ?t ?h ?bd] =>
    pose proof (http_call_inv m u t h bd) as (Hcu & Hcm & Hcb) end.
  set (c := http_call _ _ _ _ _) in Hrun, Hcu, Hcm, Hcb. exists c, secret, access, t. split.
  - erewrite (st_bind_ok (send c)) in Hrun by reflexivity.
    assert (br_sent b' = br_sent b4 ++ [c]) as ->; [|congruence].
    match type of Hrun with ?m ?bb = _ => assert (keeps unsent m) as Hk by keeps_auto;
      specialize (Hk bb); rewrite Hrun in Hk; exact Hk end.
  - split; rewrite ?Hcu, ?Hcb, ?Hcm; try done.
    + exists sref, purpose. split; [done|]. split; [done|].
      split; try done; rewrite ?Hcu, ?Hcb, ?Hcm; try done; [|by eexists].
      eexists _, _, _. split; [by apply parse_http_url_parts|done].
    + destruct Hleak as (H1 & H2 & H3). do 3 (split; [done|]). by exists headers, timeout.
Qed.

Lemma unsent_dispatch command request peer :
  command ≠ "provider_http" → keeps unsent (dispatch command request peer).
Proof.
  intros Hne. unfold dispatch. rewrite (proj2 (String.eqb_neq command "provider_http") Hne).
  pose proof @keeps_world_unsent as Hw.
  assert (keeps unsent require_unlocked) as Hq.
  { unfold require_unlocked. keeps_auto. }
  assert (keeps unsent mark_activity) as Hm by done.
  assert (∀ code, keeps unsent (validate_mfa code)) as Hv.
  { intros code b. apply works_unsent, keeps_validate_mfa. }
  assert (∀ p, keeps unsent (validate_unlock p)) as Hu.
  { intros p b. apply works_unsent, keeps_validate_unlock. }
  assert (∀ v p raw mfa session, keeps unsent (access_request v p raw mfa session)) as Ha.
  { intros v p raw mfa session b. apply works_unsent, asks_works, keeps_access_request. }
  unfold status_command, unlock_command, mfa_verify_command, lock_command, checkout_command,
    materialize_command.
  repeat first [solve [auto] | solve [eauto with keeps typeclass_instances] | case_match
    | apply keeps_bind; [apply _| |intros ?] | apply keeps_attempt].
Qed.
End secrets.

(** ** Requests to evaluate on *)

Definition http_request : list (string * json) :=
  [ ("command", JStr "provider_http"); ("secret_ref", JStr "secret://default/api");
    ("consumer", JStr "cli"); ("purpose", JStr "deploy"); ("method", JStr "post");
    ("url", JStr "https://api.example/v1/chat"); ("body", JStr "hello") ].

Definition materialize_request : list (string * json) :=
  [ ("command", JStr "materialize"); ("secret_ref", JStr "secret://default/api");
    ("consumer", JStr "cli"); ("purpose", JStr "deploy"); ("delivery_mode", JStr "terminal_print") ].

Lemma request_ok_sample l :
  jget "http_request_body_bytes" (obj l) = None →
  (∀ body, request_body (obj l) = Ok body → Z.of_nat (length (default [] body)) <= u64_max) →
  request_ok (sample_connection l) (obj l).
Proof.
  intros Hb Hbody. split; [|by rewrite Hb|done]. intros pid uid gid [= <- <- <-]. unfold u32_max. lia.
Qed.

Lemma sample_vault_rep : ∃ v, represents (db (br_world unlocked_broker)) v.
Proof.
  destruct ticket_vault as (kh & v & Hr). exists v.
  assert (db (br_world unlocked_broker) = db ticket_world) as -> by (vm_compute; reflexivity).
  exact (lv_rep _ _ _ (rd_live _ _ _ _ Hr)).
Qed.

Lemma unlocked_broker_sent : br_sent unlocked_broker = [].
Proof. vm_compute. reflexivity. Qed.
Lemma http_sample_request :
  request_of (sample_connection http_request) = Some (obj http_request).
Proof. vm_compute. reflexivity. Qed.
Lemma http_sample_ok : request_ok (sample_connection http_request) (obj http_request).
Proof.
  apply request_ok_sample; [reflexivity|]. intros body [= <-]. vm_compute. discriminate.
Qed.
Lemma http_sample_run : ∃ resp b',
  handle_connection (sample_connection http_request) unlocked_broker = (Ok resp, b') ∧
  length (br_sent b') = 1%nat.
Proof.
  destruct (ok_run (handle_connection (sample_connection http_request)) unlocked_broker)
    as (resp & b' & Hr); [vm_compute; reflexivity|]. exists resp, b'. split; [exact Hr|].
  transitivity (length (br_sent (handle_connection (sample_connection http_request)
    unlocked_broker).2)); [rewrite Hr; reflexivity|vm_compute; reflexivity].
Qed.

(** ** Properties *)

(** C10: a secret is handed only to whom a policy grants it, as the kernel names him. Whenever a
    materialize command returns a secret, on any store and whatever fails in between, the
    broker was unlocked; the access request carried the user of the socket's credentials, the
    executable that /proc links for their process and the digest of that executable's contents,
    and the broker's own second factor and session, whatever the client's JSON says of them; its
    reference, purpose and delivery mode are those the JSON names (the consumer too, or else the
    user); a saved policy grants that request, a ticket was issued for it and used within its
    terms; and the answer is the (lossy) text of the secret. *)
Theorem materialised_for_the_peer {X : Ext} {NX : Net} {HC : CodecLaws} {HT : ChronoLaws}
    {HH : HashLaws} cn b request resp b' v :
  represents (db (br_world b)) v → request_ok cn request → request_of cn = Some request →
  get_str "command" request = Some "materialize" →
  handle_connection cn b = (Ok resp, b') →
  unlocked (br_state b) = true ∧ ∃ peer access t t' v1 v' secret,
    kernel_peer cn (tick (br_world b)) peer ∧ about_peer access peer (br_state b) ∧
    get_str "secret_ref" request = Some (req_secret_ref access) ∧
    get_str "purpose" request = Some (req_purpose access) ∧
    (∃ mode, get_str "delivery_mode" request = Some mode ∧
       broker_parse_delivery_mode mode = Ok (req_delivery_mode access)) ∧
    req_consumer access = default ("uid:" +:+ dec (peer_uid peer))%string (get_str "consumer" request) ∧
    req_raw_export_requested access = default false (get_bool "raw_export_requested" request) ∧
    released v access t secret ∧ filed [t] v v1 ∧ represents (db (br_world b')) v' ∧
    used v1 v' t t' ∧
    resp = obj [ ("ok", JBool true); ("secret", JStr (from_utf8_lossy secret));
                 ("peer", peer_to_value peer) ].
Proof.
  intros Hrep Hok Hreq Hcmd Hrun.
  apply handle_cases in Hrun as [(c & rq & peer & b1 & [Hrq Hc Hcr Hw] & Hd)|[_ Hne]];
    [|by destruct (Hne resp)].
  rewrite Hreq in Hrq. injection Hrq as <-. rewrite Hcmd in Hc. injection Hc as <-.
  change (materialize_command request peer b1 = (Ok resp, b')) in Hd.
  assert (represents (db (br_world b1)) v) as Hrep1 by (destruct Hw as ([-> _] & _); done).
  destruct (materialize_inv cn request peer b1 resp b' v Hrep1 Hok (kp_creds _ _ _ Hcr) Hd)
    as (Hu & access & t & t' & v1 & v' & secret & Hab & H).
  pose proof (awake_state b b1 Hw Hu) as Hs. rewrite Hs in Hu, Hab. split; [done|].
  exists peer, access, t, t', v1, v', secret. by split; [|split].
Qed.

Lemma materialised_for_the_peer_witness : ∃ resp b',
  handle_connection (sample_connection materialize_request) unlocked_broker = (Ok resp, b') ∧
  ∃ v access t secret, released v access t secret ∧ req_os_uid access = Some 1000 ∧
    req_executable_path access = Some "/usr/bin/client".
Proof.
  destruct sample_vault_rep as (v & Hrep).
  destruct (ok_run (handle_connection (sample_connection materialize_request)) unlocked_broker)
    as (resp & b' & Hr); [vm_compute; reflexivity|]. exists resp, b'.
  destruct (materialised_for_the_peer (sample_connection materialize_request) unlocked_broker
              (obj materialize_request) resp b' v Hrep)
    as (_ & peer & access & t & t' & v1 & v' & secret & [Hcr (i & _ & He & _)] & [Huid Hpath _ _ _] &
        _ & _ & _ & _ & _ & Hrel & _).
  - apply request_ok_sample; [reflexivity|]. intros body [= <-]. vm_compute. discriminate.
  - vm_compute. reflexivity.
  - reflexivity.
  - exact Hr.
  - split; [exact Hr|]. exists v, access, t, secret. split; [exact Hrel|].
    rewrite Huid, Hpath, He. injection Hcr as _ <- _. split; reflexivity.
Defined.

(** C9: a credential is given to the HTTP agent only for a call that a policy allows. Whatever
    comes of a connection, if the broker made an HTTP call for it, then it made exactly one, for
    a provider_http command and while unlocked: to the client's URL, by the client's method and
    with the client's body; a saved policy grants a brokered HTTP request for the reference, the
    purpose and the consumer the client names, by the peer as the kernel names it, to the scheme,
    host and path that URL is written with, with that method and that size of body; a ticket was
    issued for it and used within its terms; the URL, headers and body the client gave contain no
    form of the secret; and the call is the client's with the credential injected.  (What the
    agent does with a call is not modelled: it follows redirects, see the header.) *)
Theorem http_sent_within_policy {X : Ext} {NX : Net} {HC : CodecLaws} {HT : ChronoLaws}
    {HH : HashLaws} cn b r b' v :
  represents (db (br_world b)) v → (∀ request, request_of cn = Some request → request_ok cn request) →
  handle_connection cn b = (r, b') → br_sent b' ≠ br_sent b →
  ∃ request peer c secret access t, request_of cn = Some request ∧
    get_str "command" request = Some "provider_http" ∧ unlocked (br_state b) = true ∧
    kernel_peer cn (tick (br_world b)) peer ∧
    http_granted v request peer (mfa_verified (br_state b)) (broker_session_id (br_state b)) secret c
      access t ∧
    br_sent b' = br_sent b ++ [c].
Proof.
  intros Hrep Hok Hrun Hne.
  apply handle_cases in Hrun as [(command & request & peer & b1 & [Hreq Hcmd Hcr Hw] & Hd)|[Hw _]];
    [|by destruct Hne, Hw as (_ & ? & _)].
  pose proof Hw as ([Hdb _] & Hn1 & _). rewrite <-Hn1 in Hne.
  destruct (decide (command = "provider_http")) as [->|Hc].
  2: { pose proof (unsent_dispatch command request peer Hc b1) as Hk. by rewrite Hd in Hk. }
  apply unsent_bind in Hd as (s & b2 & Hq & Hn2 & Hd); [| |done].
  2: { unfold require_unlocked. keeps_auto. }
  apply require_unlocked_inv in Hq as (Hu & -> & Hs2 & [Hdb2 _] & _).
  pose proof (awake_state b b1 Hw Hu) as Hs. rewrite Hs in *. rewrite <-Hn2 in Hne.
  assert (∃ o b3, brokered_http_request (state_passphrase (br_state b)) request peer
            (mfa_verified (br_state b)) (broker_session_id (br_state b)) b2 = (o, b3) ∧
            br_sent b' = br_sent b3) as (o & b3 & Hb & Hn3).
  { apply st_bind_cases in Hd as [(resp & b3 & Hb & Hd)|(o & Hb & _)]; [|by exists o, b'].
    exists (Ok resp), b3. split; [done|]. by injection Hd as _ <-. }
  rewrite Hn3 in Hne. assert (represents (db (br_world b2)) v) as Hrep2 by (by rewrite Hdb2, Hdb).
  destruct (http_sent_inv _ _ _ _ _ _ _ _ v cn Hrep2 (Hok _ Hreq) (kp_creds _ _ _ Hcr) Hb Hne)
    as (c & secret & access & t & Hc & Hg).
  exists request, peer, c, secret, access, t. split_and!; try done. congruence.
Qed.

Lemma http_sent_within_policy_witness : ∃ resp b' c,
  handle_connection (sample_connection http_request) unlocked_broker = (Ok resp, b') ∧
  br_sent b' = [c] ∧ call_url c = "https://api.example/v1/chat" ∧ call_method c = "POST" ∧
  ∃ v access t secret, released v access t secret ∧
    req_secret_ref access = "secret://default/api" ∧ req_purpose access = "deploy" ∧
    req_http_method access = Some "POST" ∧ req_http_request_body_bytes access = Some 5.
Proof.
  destruct sample_vault_rep as (v & Hrep).
  destruct http_sample_run as (resp & b' & Hr & Hlen).
  pose proof http_sample_request as Hof. pose proof http_sample_ok as Hok.
  destruct (http_sent_within_policy (sample_connection http_request) unlocked_broker (Ok resp) b' v Hrep)
    with (2 := Hr) as (request & peer & c & secret & access & t & Hreq & _ & _ & _ & Hg & Hs).
  - rewrite Hof. intros request [= <-]. exact Hok.
  - intros Heq. rewrite Heq, unlocked_broker_sent in Hlen. discriminate Hlen.
  - rewrite Hof in Hreq. injection Hreq as <-.
    destruct Hg as [Hurl Hm Hb (sref & purpose & Hsr & Hpu & [Hasr _ Hapu _ _ _ Ham Han _ _ _ _ _ _])
                    Hrel _].
    injection Hurl as Hurl. injection Hsr as <-. injection Hpu as <-. injection Hb as Hb.
    exists resp, b', c. split; [exact Hr|]. split; [rewrite Hs, unlocked_broker_sent; reflexivity|].
    split; [exact (eq_sym Hurl)|]. rewrite <-Hb in Han. rewrite Hm in Ham.
    split; [exact Hm|]. exists v, access, t, secret.
    split; [exact Hrel|]. split; [exact Hasr|]. split; [exact Hapu|]. split; [exact Ham|exact Han].
Defined.
