(* ===== verification/BrokerHttp.v ===== *)
(** * URLs and replies of brokered HTTP requests (broker_daemon.rs)

    What a reply still contains of the secret, in text and in base64, and what the host of a URL
    is to the policy. *)

From S2P Require Export BrokerSecrets.
From S2P Require Import Toy.
#[local] Open Scope Z_scope.

Lemma split_once_lacks c a b :
  lacks c a = true → split_once (String c EmptyString) (a +:+ String c b)%string = Some (a, b).
Proof.
  intros Ha. induction a as [|d a IH]; simpl.
  - destruct (ascii_dec c c); [|done]. destruct b; reflexivity.
  - unfold lacks in Ha. cbn [all_chars] in Ha. apply andb_true_iff in Ha as [Hd Ha].
    apply negb_true_iff, Ascii.eqb_neq in Hd. destruct (ascii_dec c d) as [->|_]; [done|].
    by rewrite IH.
Qed.

Lemma str_map_app f s t : str_map f (s +:+ t)%string = (str_map f s +:+ str_map f t)%string.
Proof.
  induction s as [|a s IH]; [done|].
  change (String (f a) (str_map f (s +:+ t)) = String (f a) (str_map f s +:+ str_map f t))%string.
  by rewrite IH.
Qed.

Section http.
Context {X : Ext} {NX : Net}.

(** The representations are those of redaction.rs. *)
Lemma broker_representations_eq secret :
  broker_secret_representations secret = secret_representations secret.
Proof. done. Qed.

Lemma broker_redacted_absent value secret q :
  q ∈ broker_secret_representations secret → bracket_free q = true →
  contains broker_marker q = false → contains (broker_redact_known_secret value secret).1 q = false.
Proof.
  intros Hq Hb Hm. apply not_true_iff_false. rewrite <-occurs_contains. unfold broker_redact_known_secret.
  simpl. eapply (redact_representations_absent _ "REDACTED:hbse-secret"); [done|done| | |].
  - by rewrite occurs_contains, Hm.
  - apply Forall_forall. intros r Hr. by apply representation_iff in Hr as [? _].
  - left. unfold longest_first. by apply elem_of_sort_by.
Qed.

(** Every member of the headers is text without [q]. *)
Definition headers_without (q : string) (headers : omap string json) : Prop :=
  ∀ name value, oget name headers = Some value → ∃ text, value = JStr text ∧ contains text q = false.

Lemma redacted_headers_absent reply secret q :
  q ∈ broker_secret_representations secret → bracket_free q = true →
  contains broker_marker q = false → headers_without q (redacted_headers reply secret).1.
Proof.
  intros Hq Hb Hm. unfold redacted_headers.
  match goal with |- headers_without q (fold_left ?f _ _).1 => set (step := f) end.
  assert (∀ names acc, headers_without q acc.1 → headers_without q (fold_left step names acc).1) as Hgen.
  { induction names as [|name names IH]; intros acc Hacc; simpl; [done|]. apply IH.
    unfold step. destruct (reply_header reply name) as [value|]; [|done].
    pose proof (broker_redacted_absent value secret q Hq Hb Hm) as Hv.
    destruct (broker_redact_known_secret value secret) as [redacted changed]. simpl in *.
    intros name' value' Hget. destruct (decide (name' = name)) as [->|Hne].
    - rewrite oget_oput_eq in Hget. injection Hget as <-. by exists redacted.
    - rewrite oget_oput_ne in Hget by done. by apply Hacc in Hget. }
  apply Hgen. intros name value Hget. done.
Qed.

Lemma http_response_inv request reply secret resp :
  http_response request reply secret = Ok resp →
  resp_headers resp = (redacted_headers reply secret).1 ∧
  (resp_body_base64 resp = None →
     ∃ body, resp_body resp = (broker_redact_known_secret (from_utf8_lossy body) secret).1).
Proof.
  unfold http_response. destruct (redacted_headers reply secret) as [headers changed].
  intros Hrun. apply res_bind_ok_inv in Hrun as (body & _ & Hrun).
  destruct (_ <? _); [done|]. destruct (default false _).
  - by injection Hrun as <-.
  - destruct (broker_redact_known_secret (from_utf8_lossy body) secret) as [text c] eqn:Hr.
    injection Hrun as <-. split; [done|]. intros _. exists body. by rewrite Hr.
Qed.
End http.

(** ** Properties *)

(** C18: a reply in text does not echo the secret. In the reply a client gets, no header contains
    a representation of the secret (its text, percent-encoded, base64 or base64url form), and
    neither does a body given as text, when the representation has no bracket and does not
    occur in the marker itself. *)
Theorem reply_is_redacted {X : Ext} {NX : Net} request reply secret resp q :
  http_response request reply secret = Ok resp →
  q ∈ broker_secret_representations secret → bracket_free q = true →
  contains broker_marker q = false →
  headers_without q (resp_headers resp) ∧
  (resp_body_base64 resp = None → contains (resp_body resp) q = false).
Proof.
  intros Hr Hq Hb Hm. apply http_response_inv in Hr as [-> Hbody].
  split; [by apply redacted_headers_absent|]. intros Hn. destruct (Hbody Hn) as [body ->].
  by apply broker_redacted_absent.
Qed.

Definition echo_reply : HttpReply := {|
  reply_status := 200; reply_header_names := ["x-echo"];
  reply_header name := Some "Bearer sk-test"; reply_body := as_bytes "token=sk-test";
  reply_broken := false |}.

Lemma reply_is_redacted_witness : ∃ resp,
  http_response (obj []) echo_reply (as_bytes "sk-test") = Ok resp ∧
  contains (resp_body resp) "sk-test" = false ∧ headers_without "sk-test" (resp_headers resp).
Proof.
  destruct (http_response (obj []) echo_reply (as_bytes "sk-test")) as [resp| |] eqn:Hr;
    [|vm_compute in Hr; discriminate Hr..].
  destruct (reply_is_redacted _ _ _ _ "sk-test" Hr) as [Hh Hb].
  - vm_compute. constructor.
  - reflexivity.
  - reflexivity.
  - exists resp. split; [reflexivity|]. split; [|exact Hh]. apply Hb.
    transitivity (match http_response (obj []) echo_reply (as_bytes "sk-test") with
                  | Ok r => resp_body_base64 r | _ => None end); [by rewrite Hr|reflexivity].
Defined.

(** A reply in base64 is not redacted. When the client asks for the body in base64 and the
    upstream's body is complete and within the limit, the answer is the base64 form of the very
    bytes the upstream sent, whatever the secret: an upstream that echoes the credential
    discloses it to the client. *)
Theorem base64_reply_is_raw {X : Ext} {NX : Net} request reply secret limit :
  get_bool "response_body_base64" request = Some true →
  jget "max_response_bytes" request ≫= as_u64 = Some limit → limit < u64_max →
  reply_broken reply = false → Z.of_nat (length (reply_body reply)) <= limit →
  ∃ resp, http_response request reply secret = Ok resp ∧
    resp_body_base64 resp = Some (base64_std_encode (reply_body reply)).
Proof.
  intros Hb Hl Hlim Hbr Hlen. unfold http_response. rewrite Hb, Hl.
  destruct (redacted_headers reply secret) as [headers changed]. cbn [default from_option id].
  unfold read_body, u64_wrap. rewrite Z.mod_small by (unfold u64_max in Hlim; lia).
  rewrite Hbr. cbn [andb]. rewrite firstn_all2 by lia.
  cbn [mbind res_bind]. rewrite (proj2 (Z.ltb_ge _ _)) by lia. by eexists.
Qed.

Definition base64_request : json :=
  obj [("response_body_base64", JBool true); ("max_response_bytes", ser_u64 1024)].

Lemma base64_reply_is_raw_witness : ∃ resp,
  http_response base64_request echo_reply (as_bytes "sk-test") = Ok resp ∧
  resp_body_base64 resp = Some (base64_std_encode (as_bytes "token=sk-test")).
Proof.
  apply (base64_reply_is_raw base64_request echo_reply (as_bytes "sk-test") 1024);
    [reflexivity|reflexivity|reflexivity|reflexivity|vm_compute; discriminate].
Defined.

(** A denied host is denied as it is written. The policy sees the authority of a URL, with
    its port: under a policy that denies a host and restricts HTTP no further, a request for
    https://host/path is refused, and the one for https://host:port/path, port 443 included,
    passes. *)
Theorem port_defeats_denied_host {X : Ext} {NX : Net} p host port path :
  lacks "/" host = true → lacks "/" port = true → host ≠ EmptyString →
  to_ascii_lowercase host = host → to_ascii_lowercase port = port →
  pol_denied_http_hosts p = [host] → pol_allowed_http_hosts p = [] →
  pol_denied_http_methods p = [] → pol_allowed_http_methods p = [] →
  pol_denied_http_path_prefixes p = [] → pol_allowed_http_path_prefixes p = [] →
  pol_max_http_request_body_bytes p = None →
  ∃ u1 u2, parse_http_url ("https://" +:+ host +:+ "/" +:+ path)%string = Ok u1 ∧
    parse_http_url ("https://" +:+ (host +:+ ":" +:+ port) +:+ "/" +:+ path)%string = Ok u2 ∧
    ∀ request peer sref purpose method body mfa session now,
      let access u := http_access request peer sref purpose method u body mfa session now in
      evaluate_brokered_http p (access u1) = Err (deny p "HTTP host explicitly denied") ∧
      evaluate_brokered_http p (access u2) = Ok tt.
Proof.
  intros Hh Hp Hne Hlh Hlp Hden Hall Hdm Ham Hdp Hap Hmax.
  assert (∀ a, lacks "/" a = true → a ≠ EmptyString →
    parse_http_url ("https://" +:+ a +:+ "/" +:+ path)%string =
    Ok {| url_scheme := "https"; url_host := to_ascii_lowercase a;
          url_path := ("/" +:+ path)%string |}) as Hurl.
  { intros a Ha Hna. unfold parse_http_url.
    replace (split_once "://" ("https://" +:+ a +:+ "/" +:+ path)%string)
      with (Some ("https"%string, (a +:+ "/" +:+ path)%string)).
    2: { cbn. by destruct (a +:+ "/" +:+ path)%string. }
    cbn [String.eqb Ascii.eqb Bool.eqb negb andb].
    change ("/" +:+ path)%string with (String "/" path).
    rewrite (split_once_lacks "/" a path Ha). cbn [default from_option id]. by destruct a. }
  eexists _, _. split; [by apply Hurl|]. split; [apply Hurl|].
  - unfold lacks in *. rewrite !all_chars_app, Hh, Hp. done.
  - by destruct host.
  - assert (to_ascii_lowercase (host +:+ ":" +:+ port) = (host +:+ ":" +:+ port)%string) as Hl.
    { unfold to_ascii_lowercase in *. rewrite !str_map_app, Hlh, Hlp. reflexivity. }
    assert ((host +:+ ":" +:+ port)%string ≠ host) as Hdiff.
    { intros Heq. apply (f_equal String.length) in Heq. rewrite !str_length_app in Heq. simpl in Heq. lia. }
    intros request peer sref purpose method body mfa session now. cbv zeta.
    unfold evaluate_brokered_http. cbn [http_access req_http_host req_http_scheme req_http_method
      req_http_path req_http_request_body_bytes url_host url_scheme url_path].
    rewrite Hlh, Hl, Hden, Hall, Hdm, Ham, Hdp, Hap, Hmax.
    rewrite (bool_decide_eq_true_2 (Some "https"%string = Some "https"%string)) by done.
    cbn [negb]. rewrite andb_false_r. unfold has. split.
    + rewrite bool_decide_eq_true_2 by (by constructor). done.
    + rewrite bool_decide_eq_false_2 by (rewrite list_elem_of_singleton; done). reflexivity.
Qed.

Definition blocklist_policy : AccessPolicy := {|
  pol_policy_id := "blocklist"; pol_secret_refs := ["*"]; pol_allowed_consumers := ["*"];
  pol_denied_consumers := []; pol_allowed_purposes := ["*"]; pol_denied_purposes := [];
  pol_allowed_delivery_modes := [BrokeredHttp]; pol_allowed_http_hosts := [];
  pol_denied_http_hosts := ["evil.example"];
  pol_allowed_http_methods := []; pol_denied_http_methods := [];
  pol_allowed_http_path_prefixes := []; pol_denied_http_path_prefixes := [];
  pol_require_https_for_brokered_http := true; pol_max_http_request_body_bytes := None;
  pol_allowed_os_uids := []; pol_denied_os_uids := []; pol_allowed_executable_paths := [];
  pol_denied_executable_paths := []; pol_allowed_executable_sha256 := [];
  pol_denied_executable_sha256 := []; pol_exportable := false;
  pol_max_ticket_ttl_seconds := 60; pol_max_uses := 1;
  pol_minimum_provider_assurance := "A0";
  pol_require_mfa := false; pol_allow_unbound_plaintext_export := false;
  pol_expires_at := None |}.

Lemma port_defeats_denied_host_witness : ∃ u2,
  parse_http_url "https://evil.example:443/collect" = Ok u2 ∧
  evaluate_brokered_http blocklist_policy
    (http_access JNull {| peer_pid := 1; peer_uid := 1; peer_gid := 1; peer_exe_path := None;
                          peer_comm := None; peer_exe_sha256 := None |}
       "secret://a" "b" "POST" u2 None false None 0) = Ok tt.
Proof.
  destruct (port_defeats_denied_host blocklist_policy "evil.example" "443" "collect")
    as (u1 & u2 & _ & Hu2 & Hev); try reflexivity; [discriminate|].
  exists u2. split; [exact Hu2|]. apply Hev.
Defined.
