(* ===== verification/GatewaySpec.v ===== *)
(** * What the HTTP gateway forwards (broker_daemon.rs)

    The request it reads from a local client: the headers that are dropped, the bound on the
    body; the URL it makes of a path; and that what it sends, it sends within the policy and
    for the secret, consumer and purposes it was configured with. *)

From S2P Require Export BrokerHttp.
From S2P Require Import Toy.
#[local] Open Scope Z_scope.

(** ** Reading *)

(** The headers that describe the local connection or carry a credential. *)
Definition dropped_headers : list string :=
  ["content-length"; "authorization"; "host"; "connection"; "transfer-encoding"].

Definition clean_headers (headers : omap string json) : Prop :=
  ∀ name value, oget name headers = Some value → to_ascii_lowercase name ∉ dropped_headers.

Lemma clean_headers_oput name value headers :
  to_ascii_lowercase name ∉ dropped_headers → clean_headers headers →
  clean_headers (oput name value headers).
Proof.
  intros Hn Hc name' value' Hget. destruct (decide (name' = name)) as [->|Hne]; [done|].
  rewrite oget_oput_ne in Hget by done. by eapply Hc.
Qed.

Lemma header_line_inv max headers cl line headers' cl' :
  header_line max headers cl line = Ok (Some (headers', cl')) →
  clean_headers headers → cl <= max → clean_headers headers' ∧ cl' <= max.
Proof.
  unfold header_line. destruct (is_empty _); [done|].
  destruct (split_once _ _) as [[name value]|]; [|intros [= <- <-]; done].
  destruct (eq_ignore_ascii_case _ _) eqn:Hcl.
  - destruct (max <? _) eqn:Hlt; [done|]. intros [= <- <-]. apply Z.ltb_ge in Hlt. done.
  - unfold has. case_bool_decide as Hin; intros [= <- <-] Hc Hle; [done|]. split; [|done].
    apply clean_headers_oput; [|done]. unfold dropped_headers. rewrite elem_of_cons. intros [Heq|Hd]; [|done].
    unfold eq_ignore_ascii_case in Hcl. rewrite Heq in Hcl. vm_compute in Hcl. discriminate.
Qed.

Lemma read_headers_inv max broken b line headers cl headers' cl' rest :
  read_headers max broken b line headers cl = Ok (headers', cl', rest) →
  clean_headers headers → cl <= max → clean_headers headers' ∧ cl' <= max.
Proof.
  revert line headers cl. induction b as [|c b IH]; intros line headers cl Hrun Hc Hle;
    cbn [read_headers] in Hrun.
  - destruct broken; [done|]. apply res_bind_ok_inv in Hrun as (text & _ & Hrun).
    apply res_bind_ok_inv in Hrun as (next & Hn & Hrun).
    destruct next as [[h l]|]; injection Hrun as <- <- _; [|done]. by eapply header_line_inv.
  - destruct (Byte.eqb c newline); [|by eapply IH].
    apply res_bind_ok_inv in Hrun as (text & _ & Hrun).
    apply res_bind_ok_inv in Hrun as (next & Hn & Hrun).
    destruct next as [[h l]|]; [|by injection Hrun as <- <- _].
    destruct (header_line_inv _ _ _ _ _ _ Hn Hc Hle). by eapply IH.
Qed.

(** ** The URL *)

Lemma trim_start_go_fuel p s n :
  p ≠ EmptyString → (String.length s <= n)%nat →
  trim_start_matches_go n p s = trim_start_matches p s.
Proof.
  intros Hp. unfold trim_start_matches. assert (∀ m n s, (String.length s <= m)%nat →
    (String.length s <= n)%nat → trim_start_matches_go m p s = trim_start_matches_go n p s) as Hall.
  { clear s n. induction m as [|m IH]; intros n s Hm Hn.
    - destruct s; [|simpl in Hm; lia]. destruct n; [done|]. cbn.
      destruct (Text.strip_prefix p EmptyString) as [s'|] eqn:Hs; [|done].
      apply Text.strip_prefix_Some in Hs. by destruct p.
    - destruct n as [|n].
      + destruct s; [|simpl in Hn; lia]. cbn.
        destruct (Text.strip_prefix p EmptyString) as [s'|] eqn:Hs; [|done].
        apply Text.strip_prefix_Some in Hs. by destruct p.
      + cbn. destruct (Text.strip_prefix p s) as [s'|] eqn:Hs; [|done].
        apply Text.strip_prefix_Some in Hs as ->. rewrite str_length_app in *.
        assert (1 <= String.length p)%nat by (destruct p; [done|simpl; lia]).
        apply IH; lia. }
  intros Hn. by apply Hall.
Qed.

Lemma trim_start_app p s :
  p ≠ EmptyString → trim_start_matches p (p +:+ s)%string = trim_start_matches p s.
Proof.
  intros Hp. unfold trim_start_matches at 1. rewrite str_length_app.
  destruct p as [|a p]; [done|]. cbn [String.length Nat.add trim_start_matches_go].
  rewrite Text.strip_prefix_app. apply trim_start_go_fuel; [done|lia].
Qed.

Lemma trim_start_none p s : starts_with s p = false → trim_start_matches p s = s.
Proof.
  intros Hs. unfold trim_start_matches. destruct (String.length s); [done|]. cbn.
  unfold Text.strip_prefix. unfold starts_with in Hs. by rewrite Hs.
Qed.

(** ** Sending *)

Section gateway.
Context {X : Ext} {NX : Net} {HC : CodecLaws} {HT : ChronoLaws} {HH : HashLaws}.

(** The gateway as a peer of the broker. *)
Definition gateway_peer : Connection := {|
  cn_line := None; cn_creds := Some (process_id, effective_uid, effective_gid) |}.

(** The peer of a forwarded request is this process, as it finds itself from the [t]-th draw on. *)
Record own_process (t : nat) (peer : PeerIdentity) : Prop := {
  op_creds : (peer_pid peer, peer_uid peer, peer_gid peer) =
             (process_id, effective_uid, effective_gid);
  op_exe : ∃ i, (t <= i)%nat ∧
    peer_exe_path peer = (path ← current_exe i; from_utf8 (as_bytes path)) ∧
    peer_exe_sha256 peer =
      (path ← current_exe (S i); contents ← read_bytes (S i) path;
       Some (concat_str (hex_byte false <$> sha256 contents)));
}.
Lemma gateway_peer_inv b peer b' :
  http_gateway_peer_identity b = (Ok peer, b') → own_process (tick (br_world b)) peer.
Proof.
  intros Hp. unfold http_gateway_peer_identity in Hp. rewrite !ask_bind in Hp.
  injection Hp as <- _. split; [done|]. exists (tick (br_world b)). split; [lia|]. cbn. split; [done|].
  by destruct (current_exe _).
Qed.

(** The members of the request that the gateway makes. *)
Lemma gateway_request_members config request :
  let get k := jget k (gateway_request config request) in
  get "secret_ref" = Some (JStr (cfg_secret_ref config)) ∧
  get "consumer" = Some (JStr (cfg_consumer config)) ∧
  get "purpose" = Some (JStr (if starts_with (gw_path request) "/v1/models"
                              then cfg_model_discovery_purpose config else cfg_purpose config)) ∧
  get "method" = Some (JStr (gw_method request)) ∧
  get "url" = Some (JStr (http_gateway_upstream_url (cfg_upstream_base_url config) (gw_path request))) ∧
  get "body" = Some (opt_str (gw_body request)) ∧ get "body_base64" = None.
Proof. split_and!; reflexivity. Qed.

(** What a call of the gateway is and was granted for, by its configuration and the request read. *)
Record gateway_call (config : HttpGatewayConfig) (request : HttpGatewayRequest) (c : HttpCall)
    (access : AccessRequest) : Prop := {
  gc_url : call_url c = http_gateway_upstream_url (cfg_upstream_base_url config) (gw_path request);
  gc_method : call_method c = to_ascii_uppercase (gw_method request);
  gc_body : body_sent (call_body c) = as_bytes <$> gw_body request;
  gc_secret : req_secret_ref access = cfg_secret_ref config;
  gc_consumer : req_consumer access = cfg_consumer config;
  gc_purpose : req_purpose access =
    if starts_with (gw_path request) "/v1/models" then cfg_model_discovery_purpose config
    else cfg_purpose config;
}.
Lemma gateway_call_inv v config request peer mfa session secret c access t :
  http_granted v (gateway_request config request) peer mfa session secret c access t →
  gateway_call config request c access.
Proof.
  intros [Hurl Hm Hb (sr & pu & Hsr & Hpu & [Ha1 Ha2 Ha3 _ _ _ _ _ _ _ _ _ _ _]) _ _].
  destruct (gateway_request_members config request) as (M1 & M2 & M3 & M4 & M5 & M6 & M7).
  unfold request_body, get_str in *. rewrite M7, M6 in Hb. rewrite M5 in Hurl. rewrite M4 in Hm.
  rewrite M3 in Hpu. rewrite M2 in Ha2. rewrite M1 in Hsr. cbn in *. injection Hb as Hb.
  injection Hurl as Hurl. injection Hsr as <-. injection Hpu as <-.
  split; [done|done| |done..]. rewrite <-Hb. by destruct (gw_body request).
Qed.

Lemma gateway_sent_inv stream config b r b' v :
  represents (db (br_world b)) v →
  (∀ request, read_http_gateway_request stream (cfg_max_request_body_bytes config) = Ok request →
     request_ok gateway_peer (gateway_request config request)) →
  handle_http_gateway_connection stream config b = (r, b') → br_sent b' ≠ br_sent b →
  ∃ request peer c secret access t,
    read_http_gateway_request stream (cfg_max_request_body_bytes config) = Ok request ∧
    gateway_local request = None ∧ unlocked (br_state b) = true ∧
    own_process (tick (br_world b)) peer ∧
    http_granted v (gateway_request config request) peer (mfa_verified (br_state b))
      (broker_session_id (br_state b)) secret c access t ∧
    br_sent b' = br_sent b ++ [c].
Proof.
  intros Hrep Hok Hrun Hne. unfold handle_http_gateway_connection in Hrun.
  apply unsent_lift in Hrun as (request & Hreq & Hrun); [|done].
  destruct (gateway_local request) as [resp|] eqn:Hl; [by injection Hrun as _ <-|].
  pose proof (keeps_gateway_peer b) as ([Hd1 _] & Hs1 & Hn1).
  apply unsent_bind in Hrun as (peer & b1 & Hp & _ & Hrun); [| |done].
  2: { intros b0. apply works_unsent, asks_works, keeps_gateway_peer. }
  rewrite Hp in Hd1, Hs1, Hn1. simpl in Hd1, Hs1, Hn1. rewrite <-Hn1 in Hne.
  apply unsent_bind in Hrun as (s & b2 & Hq & Hn2 & Hrun); [| |done].
  2: { unfold require_unlocked. keeps_auto. }
  apply require_unlocked_inv in Hq as (Hu & -> & Hs2 & [Hd2 _] & _). rewrite <-Hn2 in Hne.
  assert (∃ o b3, gateway_forward config request peer (br_state b1) b2 = (o, b3) ∧
            br_sent b' = br_sent b3) as (o & b3 & Hb & Hn3).
  { apply st_bind_cases in Hrun as [(resp & b3 & Hb & Hd)|(o & Hb & _)]; [|by exists o, b'].
    exists (Ok resp), b3. split; [done|]. by injection Hd as _ <-. }
  rewrite Hn3 in Hne. assert (represents (db (br_world b2)) v) as Hrep2 by (by rewrite Hd2, Hd1).
  apply gateway_peer_inv in Hp as Hown.
  assert (cn_creds gateway_peer = Some (peer_pid peer, peer_uid peer, peer_gid peer)) as Hcr
    by (by rewrite (op_creds _ _ Hown)).
  unfold gateway_forward in Hb. rewrite Hs1 in *.
  destruct (http_sent_inv _ _ _ _ _ _ _ _ v gateway_peer Hrep2 (Hok _ Hreq) Hcr Hb Hne)
    as (c & secret & access & t & Hc & Hg).
  exists request, peer, c, secret, access, t. split_and!; try done. congruence.
Qed.
End gateway.

(** ** Properties *)

(** C20: the gateway forwards no local credential and bounds what it reads. A request it accepts
    has no Authorization, Host, Connection, Transfer-Encoding or Content-Length header in any
    spelling, and its body is the (lossy) text of at most as many bytes as the configured
    maximum. *)
Theorem forwarded_request_is_clean stream max request :
  0 <= max → read_http_gateway_request stream max = Ok request →
  clean_headers (gw_forward_headers request) ∧
  ∃ body, Z.of_nat (length body) <= max ∧
    gw_body request = match body with [] => None | _ => Some (from_utf8_lossy body) end.
Proof.
  intros Hmax Hrun. unfold read_http_gateway_request in Hrun.
  apply res_bind_ok_inv in Hrun as ([line s] & _ & Hrun).
  apply res_bind_ok_inv in Hrun as (method & _ & Hrun).
  apply res_bind_ok_inv in Hrun as (path & _ & Hrun).
  apply res_bind_ok_inv in Hrun as ([[headers cl] rest] & Hh & Hrun).
  apply res_bind_ok_inv in Hrun as ([] & _ & Hrun). injection Hrun as <-.
  apply read_headers_inv in Hh as [Hc Hle]; [|by intros name value Hget|done].
  split; [done|]. exists (take (Z.to_nat cl) rest). split; [|done].
  rewrite length_take. lia.
Qed.

Definition sample_stream : Stream := {|
  st_bytes := as_bytes ("post /v1/chat HTTP/1.1" +:+ crlf +:+ "authorization: Bearer mine" +:+ crlf +:+
    "X-Tag: a" +:+ crlf +:+ "Content-Length: 5" +:+ crlf +:+ crlf +:+ "hello")%string;
  st_broken := false |}.

Lemma forwarded_request_is_clean_witness : ∃ request,
  read_http_gateway_request sample_stream 1024 = Ok request ∧
  clean_headers (gw_forward_headers request) ∧ gw_body request = Some "hello".
Proof.
  destruct (read_http_gateway_request sample_stream 1024) as [request| |] eqn:Hr;
    [|vm_compute in Hr; discriminate Hr..].
  destruct (forwarded_request_is_clean sample_stream 1024 request ltac:(lia) Hr) as [Hc _].
  exists request. split; [reflexivity|]. split; [exact Hc|]. vm_compute in Hr. injection Hr as <-.
  reflexivity.
Defined.

(** The version prefix of a gateway path is not repeated, however often it is there. Under a
    base URL that ends in /v1, a path /v1 and then any rest that starts with a slash goes to the
    base followed by that rest; but every further leading /v1 is dropped too, so that
    /v1/v1 and the rest, and even /v1/v1beta, go to the same URL as without it. *)
Theorem upstream_drops_every_version base rest :
  ends_with (trim_end_chars ["/"] base) "/v1" = true → starts_with rest "/v1" = false →
  (starts_with rest "/" = true →
     http_gateway_upstream_url base ("/v1" +:+ rest)%string
     = (trim_end_chars ["/"] base +:+ rest)%string) ∧
  http_gateway_upstream_url base ("/v1/v1" +:+ rest)%string
    = (trim_end_chars ["/"] base +:+ rest)%string.
Proof.
  intros Hb Hr. unfold http_gateway_upstream_url. rewrite Hb. cbn [andb].
  assert (∀ s, trim_start_matches "/v1" ("/v1" +:+ s)%string = trim_start_matches "/v1" s) as Happ
    by (intros s; by apply trim_start_app).
  split.
  - intros Hs. assert (starts_with ("/v1" +:+ rest) "/v1/" = true) as ->.
    { destruct rest as [|a rest]; [done|]. unfold starts_with in Hs. cbn in Hs.
      destruct (ascii_dec "/" a) as [<-|]; [|done]. by destruct rest. }
    by rewrite Happ, trim_start_none.
  - assert (starts_with ("/v1/v1" +:+ rest) "/v1/" = true) as -> by (by destruct rest).
    change ("/v1/v1" +:+ rest)%string with ("/v1" +:+ ("/v1" +:+ rest))%string.
    by rewrite !Happ, trim_start_none.
Qed.

Lemma upstream_drops_every_version_witness :
  http_gateway_upstream_url "https://api.example/v1" "/v1/v1beta/models"
    = "https://api.example/v1beta/models".
Proof.
  destruct (upstream_drops_every_version "https://api.example/v1" "beta/models" eq_refl eq_refl)
    as [_ H]. exact H.
Defined.

(** C19: the gateway sends only what its configuration and a policy allow. Whatever comes of a
    connection to the gateway, if it made an HTTP call then it made one, while unlocked, for a
    path under /v1/, to the configured upstream with the path, method and body of the request
    that was read; and a policy grants a brokered HTTP request for the configured secret and
    consumer, for the configured purpose (the purpose of model discovery, for a path under
    /v1/models), by this process, to the scheme, host and path of the URL that is called, with
    that method and size of body; a ticket was issued for it and used.  (What the agent does
    with a call is not modelled: it follows redirects, see the header.) *)
Theorem gateway_sends_within_policy {X : Ext} {NX : Net} {HC : CodecLaws} {HT : ChronoLaws}
    {HH : HashLaws} stream config b r b' v :
  represents (db (br_world b)) v →
  (∀ request, read_http_gateway_request stream (cfg_max_request_body_bytes config) = Ok request →
     request_ok gateway_peer (gateway_request config request)) →
  handle_http_gateway_connection stream config b = (r, b') → br_sent b' ≠ br_sent b →
  ∃ request peer c secret access t,
    read_http_gateway_request stream (cfg_max_request_body_bytes config) = Ok request ∧
    starts_with (gw_path request) "/v1/" = true ∧ unlocked (br_state b) = true ∧
    own_process (tick (br_world b)) peer ∧ gateway_call config request c access ∧
    http_granted v (gateway_request config request) peer (mfa_verified (br_state b))
      (broker_session_id (br_state b)) secret c access t ∧
    br_sent b' = br_sent b ++ [c].
Proof.
  intros Hrep Hok Hrun Hne.
  destruct (gateway_sent_inv _ _ _ _ _ v Hrep Hok Hrun Hne)
    as (request & peer & c & secret & access & t & Hreq & Hl & Hu & Hown & Hg & Hs).
  exists request, peer, c, secret, access, t. split_and!; try done.
  - unfold gateway_local in Hl. destruct (_ && _); [done|].
    by destruct (starts_with (gw_path request) "/v1/").
  - by eapply gateway_call_inv.
Qed.

Definition sample_gateway : HttpGatewayConfig := {|
  cfg_listen := "127.0.0.1:8080"; cfg_upstream_base_url := "https://api.example/v1";
  cfg_secret_ref := "secret://default/api"; cfg_consumer := "cli"; cfg_purpose := "deploy";
  cfg_model_discovery_purpose := "discovery"; cfg_credential_header := "Authorization";
  cfg_credential_prefix := "Bearer "; cfg_timeout_seconds := f64_zero;
  cfg_max_response_bytes := 1024; cfg_max_request_body_bytes := 1024; cfg_allow_remote := false |}.

Lemma sample_gateway_ok request :
  read_http_gateway_request sample_stream (cfg_max_request_body_bytes sample_gateway) = Ok request →
  request_ok gateway_peer (gateway_request sample_gateway request).
Proof.
  intros Hr. vm_compute in Hr. injection Hr as <-. split.
  - intros pid uid gid [= <- <- <-]. unfold u32_max. lia.
  - intros n Hn. vm_compute in Hn. discriminate Hn.
  - intros body Hb. vm_compute in Hb. injection Hb as <-. vm_compute. discriminate.
Qed.

Lemma sample_gateway_run : ∃ resp b',
  handle_http_gateway_connection sample_stream sample_gateway unlocked_broker = (Ok resp, b') ∧
  length (br_sent b') = 1%nat.
Proof.
  destruct (ok_run (handle_http_gateway_connection sample_stream sample_gateway) unlocked_broker)
    as (resp & b' & Hr); [vm_compute; reflexivity|]. exists resp, b'. split; [exact Hr|].
  transitivity (length (br_sent (handle_http_gateway_connection sample_stream sample_gateway
    unlocked_broker).2)); [rewrite Hr; reflexivity|vm_compute; reflexivity].
Qed.

Lemma gateway_sends_within_policy_witness : ∃ resp b' c,
  handle_http_gateway_connection sample_stream sample_gateway unlocked_broker = (Ok resp, b') ∧
  br_sent b' = [c] ∧ call_url c = "https://api.example/v1/chat" ∧
  ∃ v access t secret, released v access t secret ∧ req_purpose access = "deploy" ∧
    req_secret_ref access = "secret://default/api".
Proof.
  destruct sample_vault_rep as (v & Hrep). destruct sample_gateway_run as (resp & b' & Hr & Hlen).
  destruct (gateway_sends_within_policy sample_stream sample_gateway unlocked_broker (Ok resp) b' v
              Hrep sample_gateway_ok Hr)
    as (request & peer & c & secret & access & t & Hreq & _ & _ & _ & [Hurl _ _ Hsr _ Hpu] & Hg & Hs).
  - intros Heq. rewrite Heq, unlocked_broker_sent in Hlen. discriminate Hlen.
  - vm_compute in Hreq. injection Hreq as <-.
    exists resp, b', c. split; [exact Hr|]. split; [rewrite Hs, unlocked_broker_sent; reflexivity|].
    split; [exact Hurl|]. exists v, access, t, secret.
    split; [exact (hg_released _ _ _ _ _ _ _ _ _ Hg)|]. split; [exact Hpu|exact Hsr].
Defined.
