(* ===== verification/Serve.v ===== *)
(** * The broker as a process (broker_daemon.rs, bin/hbse-broker.rs)

    What comes before and around the answers: the arguments of hbse-broker, the local socket that
    is made and closed to others, the check of the gateway's address, and the two threads.  They
    are run over a list of events, a prefix of what the listeners give in the order a scheduler
    takes it: a whole connection of the socket's thread, which holds the mutex throughout, or the
    next piece of the gateway's thread, which takes the mutex twice for each connection. *)

From S2P Require Export Files Gateway BrokerState.
From S2P Require Import Toy.
#[local] Open Scope Z_scope.

#[export] Instance from_broker_io : From IoError BrokerError := λ _, BIo.

(** ** The arguments *)

(** [Cli] of hbse-broker. *)
Record BrokerArgs : Type := {
  ba_vault : string;
  ba_socket : string;
  ba_idle_timeout_seconds : f64;
  ba_http_listen : option string;
  ba_http_upstream_base_url : option string;
  ba_http_secret_ref : option string;
  ba_http_consumer : string;
  ba_http_purpose : string;
  ba_http_model_discovery_purpose : string;
  ba_http_credential_header : string;
  ba_http_credential_prefix : string;
  ba_http_timeout_seconds : f64;
  ba_http_max_response_bytes : Z;
  ba_http_max_request_body_bytes : Z;
  ba_http_allow_remote : bool;
}.

(** The configuration of the gateway, or the exit code of an argument that is missing. *)
Definition gateway_config (a : BrokerArgs) : Z + option HttpGatewayConfig :=
  match ba_http_listen a with
  | None => inr None
  | Some listen =>
      match ba_http_upstream_base_url a with
      | None => inl 2
      | Some upstream_base_url =>
          match ba_http_secret_ref a with
          | None => inl 2
          | Some secret_ref => inr (Some {|
              cfg_listen := listen; cfg_upstream_base_url := upstream_base_url;
              cfg_secret_ref := secret_ref; cfg_consumer := ba_http_consumer a;
              cfg_purpose := ba_http_purpose a;
              cfg_model_discovery_purpose := ba_http_model_discovery_purpose a;
              cfg_credential_header := ba_http_credential_header a;
              cfg_credential_prefix := ba_http_credential_prefix a;
              cfg_timeout_seconds := ba_http_timeout_seconds a;
              cfg_max_response_bytes := ba_http_max_response_bytes a;
              cfg_max_request_body_bytes := ba_http_max_request_body_bytes a;
              cfg_allow_remote := ba_http_allow_remote a |})
          end
      end
  end.

(** What the listener gives the loop: an error, or a connection that can be handled and whose
    answer can be written or not. *)
Inductive Arrival : Type :=
| NotAccepted
| Accepted (cn : Connection) (writable : bool).

(** Where the gateway's thread is: between connections, before or after the forwarding of a
    request, with the snapshot it took of the state, about to write, or ended. *)
Inductive GatewayThread : Type :=
| Listening
| Forwarding (request : HttpGatewayRequest) (peer : PeerIdentity) (snapshot : BrokerState)
    (writable : bool)
| Forwarded (response : BrokeredHttpResponse) (writable : bool)
| Writing (response : bytes) (writable : bool)
| Stopped.
(** The gateway's thread, and whether it has poisoned the mutex: by a panic while it held it. *)
Record Threads : Type := { th_gateway : GatewayThread; th_poisoned : bool }.

(** The events of a run: a round of the socket's loop; what the gateway's listener gives its
    thread, if that is listening; the next piece of the gateway's thread, if it has one. *)
Inductive Event : Type :=
| Local (a : Arrival)
| GatewayAccept (a : option (Stream * bool))
| GatewayResume.
(** What was written, and to whom. *)
Inductive Answer : Type := ToClient (response : json) | ToGateway (response : bytes).

(** The state of the process. *)
Record Daemon : Type := { dm_site : Site; dm_broker : Broker }.

Section serve.
Context `{Ext, Net, Disk} (message : BrokerError → string) (tcp_bind : nat → string → bool).
(** What SQLite finds in place of the tables when its file at a path has been removed. *)
Context (unlinked : string → Db → Db).

(** ** The socket *)

(** [UnixListener::bind]: a socket where there is nothing, in a directory that is there. *)
Definition bind_socket (p : string) : ST Site IoError unit := fs_op (λ fs,
  match fs !! path_key p with
  | Some _ => None
  | None => if has_dir fs (removelast (path_key p))
            then Some (tt, <[path_key p := Socket (created_mode 511)]> fs) else None
  end).

(** The files of a database: the tables, and the journal beside them. *)
Definition database_files (vault_path : string) : list (list string) :=
  path_key <$> [vault_path; (vault_path +:+ "-wal")%string; (vault_path +:+ "-shm")%string].
Definition unlink_database (vault_path p : string) : ST Site IoError unit := λ s,
  (Ok tt, if bool_decide (path_key p ∈ database_files vault_path)
          then set_world {| tick := tick (site_world s); db := unlinked p (db (site_world s)) |} s
          else s).
(** [fs::remove_file], which does not spare the vault's own files. *)
Definition remove_file (vault_path p : string) : ST Site IoError unit :=
  _ ← fs_remove p;
  unlink_database vault_path p.

(** The first part of [serve_with_http_gateway]. *)
Definition prepare_socket (vault_path socket_path : string) : ST Site BrokerError unit :=
  _ ← match parent socket_path with
      | Some parent => try_ (create_dir_all parent)
      | None => mret tt
      end;
  exists_ ← try_ (fs_exists socket_path);
  _ ← (if exists_ : bool then try_ (remove_file vault_path socket_path) else mret tt);
  _ ← try_ (bind_socket socket_path);
  try_ (set_permissions socket_path 384).

Definition prepare_gateway (http_gateway : option HttpGatewayConfig) : ST Site BrokerError unit :=
  match http_gateway with
  | None => mret tt
  | Some config =>
      _ ← lift (validate_http_gateway_listen config);
      bound ← ask (λ i, tcp_bind i (cfg_listen config));
      guard_ (negb bound) BIo
  end.
Definition prepare (vault_path socket_path : string) (http_gateway : option HttpGatewayConfig)
  : ST Site BrokerError unit :=
  _ ← prepare_socket vault_path socket_path; prepare_gateway http_gateway.

(** ** The gateway's thread *)

Definition gateway_error_bytes (err : BrokerError) : bytes :=
  http_gateway_response_bytes
    {| gr_status_code := gateway_error_status err; gr_headers := json_content_type;
       gr_body := json_to_vec (obj [("error",
         obj [("message", JStr (message err)); ("type", JStr "hbse_gateway_error")])]) |}.

(** A connection up to the end of its first critical section. *)
Definition gateway_open (config : HttpGatewayConfig) (stream : Stream)
  : BROKER (HttpGatewayResponse + HttpGatewayRequest * PeerIdentity * BrokerState) :=
  request ← lift (read_http_gateway_request stream (cfg_max_request_body_bytes config));
  match gateway_local request with
  | Some response => mret (inl response)
  | None =>
      peer ← http_gateway_peer_identity;
      s ← require_unlocked;
      mret (inr (request, peer, s))
  end.
(** A piece of the thread ends in its next place; an error of the connection, in its answer. *)
Definition gateway_piece {A} (m : BROKER A) (next : A → bool → GatewayThread) (writable : bool)
  : BROKER GatewayThread :=
  outcome ← attempt m;
  match outcome with
  | Ok a => mret (next a writable)
  | Err err => mret (Writing (gateway_error_bytes err) writable)
  | Panic => panic
  end.
Definition gateway_opened
  (o : HttpGatewayResponse + HttpGatewayRequest * PeerIdentity * BrokerState) (writable : bool)
  : GatewayThread :=
  match o with
  | inl response => Writing (http_gateway_response_bytes response) writable
  | inr (request, peer, s) => Forwarding request peer s writable
  end.
Definition gateway_reply (response : BrokeredHttpResponse) : bytes :=
  http_gateway_response_bytes {|
    gr_status_code := resp_status_code response; gr_headers := gateway_headers (resp_headers response);
    gr_body := as_bytes (resp_body response) |}.

(** The panic of a spawned thread is its own end: [None]. *)
Definition spawned {A} (m : BROKER A) : BROKER (option A) := λ b,
  match m b with
  | (Ok a, b) => (Ok (Some a), b)
  | (Err e, b) => (Err e, b)
  | (Panic, b) => (Ok None, b)
  end.

(** The one panic in a first piece, over an idle timeout that is no duration, is in the critical
    section. *)
Definition gateway_accept (config : HttpGatewayConfig) (t : Threads) (a : option (Stream * bool))
  : BROKER Threads :=
  match th_gateway t, a with
  | Listening, Some (stream, writable) =>
      g ← spawned (gateway_piece (gateway_open config stream) gateway_opened writable);
      mret match g with
           | Some g => {| th_gateway := g; th_poisoned := th_poisoned t |}
           | None => {| th_gateway := Stopped; th_poisoned := true |}
           end
  | Listening, None => mret {| th_gateway := Stopped; th_poisoned := th_poisoned t |}
  | _, _ => mret t
  end.

Definition gateway_resume (config : HttpGatewayConfig) (t : Threads) : BROKER (Threads * list Answer) :=
  let at_ g := {| th_gateway := g; th_poisoned := th_poisoned t |} in
  match th_gateway t with
  | Forwarding request peer s writable =>
      g ← spawned (gateway_piece (gateway_forward config request peer s) Forwarded writable);
      mret (at_ (default Stopped g), [])
  | Forwarded response writable =>
      _ ← mark_activity; mret (at_ (Writing (gateway_reply response) writable), [])
  | Writing response writable =>
      mret (if writable : bool then (at_ Listening, [ToGateway response]) else (at_ Stopped, []))
  | Listening | Stopped => mret (t, [])
  end.

(** ** The loops *)

(** One round of the socket's loop: the answer, and whether it could be written. *)
Definition serve_one (poisoned : bool) (a : Arrival) : BROKER json :=
  match a with
  | NotAccepted => throw BIo
  | Accepted cn writable =>
      if poisoned : bool then throw (BHttp "broker state lock poisoned") else
      response ← answer message cn;
      if writable : bool then mret response else throw BIo
  end.
(** The two threads, by the events of the run; the answers that were written, in order.  The end
    of the socket's loop is the end of the process. *)
Fixpoint serve_events (config : option HttpGatewayConfig) (t : Threads) (events : list Event)
  : BROKER (list Answer) :=
  match events with
  | [] => mret []
  | Local a :: events =>
      response ← serve_one (th_poisoned t) a;
      rest ← serve_events config t events;
      mret (ToClient response :: rest)
  | GatewayAccept a :: events =>
      t ← match config with Some config => gateway_accept config t a | None => mret t end;
      serve_events config t events
  | GatewayResume :: events =>
      r ← match config with Some config => gateway_resume config t | None => mret (t, []) end;
      rest ← serve_events config r.1 events;
      mret (r.2 ++ rest)
  end.

(** [serve_http_gateway] alone, a connection after the other: an error of [accept] or of a write
    ends it. *)
Fixpoint serve_http_gateway (config : HttpGatewayConfig) (arrivals : list (option (Stream * bool)))
  : BROKER (list bytes) :=
  match arrivals with
  | [] => mret []
  | None :: _ => throw BIo
  | Some (stream, writable) :: arrivals =>
      response ← gateway_answer message stream config;
      _ ← guard_ (negb writable) BIo;
      rest ← serve_http_gateway config arrivals;
      mret (response :: rest)
  end.

(** [serve_with_http_gateway]: a fresh, locked state over the vault of the site. *)
Definition starting (http_gateway : option HttpGatewayConfig) : Threads := {|
  th_gateway := match http_gateway with Some _ => Listening | None => Stopped end;
  th_poisoned := false |}.
Definition serve_with_http_gateway (vault_path socket_path : string) (idle_timeout_seconds : f64)
  (http_gateway : option HttpGatewayConfig) (events : list Event) (s : Site)
  : res BrokerError (list Answer) * Daemon :=
  let fresh s := {| br_world := site_world s; br_state := BrokerState_new idle_timeout_seconds;
                    br_sent := [] |} in
  match prepare vault_path socket_path http_gateway s with
  | (Ok _, s) =>
      let '(r, b) := serve_events http_gateway (starting http_gateway) events (fresh s) in
      (r, {| dm_site := set_world (br_world b) s; dm_broker := b |})
  | (Err e, s) => (Err e, {| dm_site := s; dm_broker := fresh s |})
  | (Panic, s) => (Panic, {| dm_site := s; dm_broker := fresh s |})
  end.

(** [main] of hbse-broker: the exit code. *)
Definition broker_main (a : BrokerArgs) (events : list Event) (s : Site) : Z :=
  match gateway_config a with
  | inl code => code
  | inr http_gateway =>
      match (serve_with_http_gateway (ba_vault a) (ba_socket a) (ba_idle_timeout_seconds a)
               http_gateway events s).1 with
      | Ok _ => 0 | Err _ => 1 | Panic => 101
      end
  end.
End serve.
