(* ===== verification/BrokerInvariant.v ===== *)
(** * The broker keeps the vault (broker_daemon.rs over vault.rs)

    Every connection of the local socket and every piece of one of the gateway, with any outcome,
    is a sequence of vault operations under the pass phrase the broker holds.  [held] is what they
    keep: the tables still represent a view that extends the first one, the settings are as they
    were, and what the broker holds opens no other root key.  The whole process follows, from the
    making of its socket to the last answer. *)

From S2P Require Export CliInvariant SystemdSpec BrokerSecrets GatewaySpec Serve.
From S2P Require Import Toy.
#[local] Open Scope Z_scope.

Section held.
Context {X : Ext} {NX : Net} {HC : CodecLaws} {HT : ChronoLaws} {HH : HashLaws}.
Context (kh : KeyHierarchy) (v0 : View) (d0 : Db).

Definition keeps_phrase (s : BrokerState) : Prop := sound kh d0 (state_passphrase s).
Definition held_world (w : World) : Prop :=
  inv kh v0 w ∧ vault_metadata (db w) = vault_metadata d0.
Definition held (b : Broker) : Prop := held_world (br_world b) ∧ keeps_phrase (br_state b).

(** Whatever its outcome [m] keeps [held], and its results satisfy [R]. *)
Definition holds {A} (m : BROKER A) (R : A → Prop) : Prop :=
  ∀ b, held b → held (m b).2 ∧ ∀ a, (m b).1 = Ok a → R a.

(** ** Rules *)

Lemma holds_bind {A B} (m : BROKER A) R (f : A → BROKER B) R' :
  holds m R → (∀ a, R a → holds (f a) R') → holds (m ≫= f) R'.
Proof.
  intros Hm Hf b Hb. destruct (Hm b Hb) as [H1 H2]. unfold mbind, st_bind.
  destruct (m b) as [[a|e|] b1]; simpl in *; [by apply Hf; auto|by split..].
Qed.
Lemma holds_any {A} (m : BROKER A) R : holds m R → holds m (λ _, True).
Proof. intros Hm b Hb. split; [by apply Hm|done]. Qed.
Lemma holds_ret {A} (a : A) : holds (mret a) (λ a', a' = a).
Proof. intros b Hb. split; [done|]. by intros a' [= <-]. Qed.
Lemma holds_throw {A} e (R : A → Prop) : holds (throw e) R.
Proof. intros b Hb. by split. Qed.
Lemma holds_panic {A} (R : A → Prop) : holds panic R.
Proof. intros b Hb. by split. Qed.
Lemma holds_lift {A} (r : res BrokerError A) : holds (lift r) (λ a, r = Ok a).
Proof. intros b Hb. by split. Qed.
Lemma holds_attempt {A} (m : BROKER A) R : holds m R → holds (attempt m) (λ _, True).
Proof.
  intros Hm b Hb. destruct (Hm b Hb) as [H1 _]. unfold attempt. by destruct (m b) as [[] b1].
Qed.

(** A computation that only asks. *)
Lemma held_asks b b' : asks b b' → held b → held b'.
Proof.
  intros ([Hd _] & Hs & _) [[(v & Hv) Hm] Hp]. split; [|by unfold keeps_phrase; rewrite Hs].
  split; [exists v; by rewrite Hd|by rewrite Hd].
Qed.
Lemma holds_asks {A} (m : BROKER A) : keeps asks m → holds m (λ _, True).
Proof. intros Hk b Hb. split; [|done]. by eapply held_asks; [apply Hk|]. Qed.
Lemma holds_quiet {A} (m : BROKER A) (R : A → Prop) :
  keeps asks m → (∀ b a b', m b = (Ok a, b') → R a) → holds m R.
Proof.
  intros Hk HR b Hb. split; [by eapply held_asks; [apply Hk|]|]. intros a Ha.
  destruct (m b) as [r b'] eqn:Hrun. simpl in Ha. subst r. by eapply HR.
Qed.
Lemma holds_get : holds get_state keeps_phrase.
Proof. intros b Hb. split; [done|]. intros s [= <-]. apply Hb. Qed.
Lemma holds_modify f : (∀ s, keeps_phrase s → keeps_phrase (f s)) → holds (modify f) (λ _, True).
Proof. intros Hf b [Hw Hp]. split; [|done]. split; [done|by apply Hf]. Qed.

(** An operation of the vault under a sound pass phrase. *)
Lemma holds_op {A} o (m : ST World VaultError A) :
  (∀ w, (run_op o w).2 = (m w).2) → keeps same_settings m →
  (∀ w v, held_world w → represents (db w) v → op_ok kh v (db w) o) →
  holds (on_world m) (λ _, True).
Proof.
  intros Hrun Hk Hok b [[(v & Hrep & Hinv & Hg) Hm] Hp]. split; [|done].
  destruct (run_op_starts kh v (db (br_world b)) o Hrep Hinv) with (w := br_world b)
    as [(v' & Hrep' & Hinv' & Hg') _]; [|done|].
  { apply Hok; [|done]. split; [by exists v|done]. }
  rewrite Hrun in Hrep'. specialize (Hk (br_world b)). unfold on_world.
  destruct (m (br_world b)) as [r w]. split; [|done]. split.
  - exists v'. split; [done|]. split; [done|]. by trans v.
  - unfold same_settings in Hk. simpl in Hk. by rewrite <-Hm.
Qed.
Lemma holds_world {E A} `{From E BrokerError} (m : ST World E A) :
  keeps same_db m → holds (on_world m) (λ _, True).
Proof. intros Hk. by apply holds_asks, keeps_on_world_asks. Qed.

(** ** The operations of the broker *)

Lemma op_phrase o p :
  op_passphrase o = Some p → sound kh d0 p →
  match o with Recover _ _ _ _ _ => False | _ => True end →
  match o with
  | Save q _ => AccessPolicy_wf q
  | Issue r _ | Renew _ r _ => AccessRequest_wf r
  | RevokeAll _ _ => False
  | _ => True
  end →
  ∀ w v, held_world w → represents (db w) v → op_ok kh v (db w) o.
Proof.
  intros Ho Hp Hnr Ha w v [_ Hm] Hrep. pose proof (Hp _ _ Hrep Hm) as Hu.
  destruct o; cbn [op_passphrase] in Ho; simplify_eq; try done; by split.
Qed.

Lemma settings_verify_audit p : keeps same_settings (verify_audit p).
Proof. unfold verify_audit. keeps_auto. Qed.

Lemma holds_issue access p :
  AccessRequest_wf access → sound kh d0 p → holds (on_world (issue_ticket access p)) (λ _, True).
Proof.
  intros Hwf Hp. apply (holds_op (Issue access p)); [apply done_world|apply settings_issue|].
  by apply (op_phrase _ p).
Qed.
Lemma holds_consume id access p :
  sound kh d0 p → holds (on_world (consume_ticket_for_secret id access p)) (λ _, True).
Proof.
  intros Hp. apply (holds_op (Consume id access p)); [apply done_world|apply settings_consume|].
  by apply (op_phrase _ p).
Qed.
Lemma holds_verify_audit p : sound kh d0 p → holds (on_world (verify_audit p)) (λ _, True).
Proof.
  intros Hp. apply (holds_op (VerifyAudit p)); [done|apply settings_verify_audit|].
  by apply (op_phrase _ p).
Qed.
Lemma holds_verify_totp p code : sound kh d0 p → holds (on_world (verify_totp_mfa p code)) (λ _, True).
Proof.
  intros Hp. apply (holds_op (VerifyTotp p code)); [done|apply settings_verify_totp|].
  by apply (op_phrase _ p).
Qed.
Lemma holds_now : holds SystemTime_now (λ _, True).
Proof. apply holds_asks, keeps_SystemTime_now. Qed.
Lemma holds_activity : holds mark_activity (λ _, True).
Proof.
  eapply holds_bind; [apply holds_now|intros now _]. by apply holds_modify.
Qed.
Lemma holds_status : holds (on_world LocalVault_status) (λ _, True).
Proof. apply holds_world, keeps_vault_status, _. Qed.

(** ** The lock *)

Context (Hempty : sound kh d0 EmptyString).

Lemma keeps_phrase_locked s : keeps_phrase (locked s).
Proof using All. exact Hempty. Qed.

Lemma holds_expire : holds expire_idle_unlock (λ _, True).
Proof using All.
  intros b [Hw Hp]. destruct (wakes_expire b) as ([Hd _] & _ & Hs). split; [|done]. split.
  - destruct Hw as [(v & Hv) Hm]. split; [exists v; by rewrite Hd|by rewrite Hd].
  - unfold keeps_phrase in *. destruct Hs as [->|[_ ->]]; [done|exact Hempty].
Qed.
Lemma holds_require : holds require_unlocked keeps_phrase.
Proof using All.
  eapply holds_bind; [apply holds_expire|intros _ _]. eapply holds_bind; [apply holds_get|intros s Hs].
  destruct (unlocked s); [|apply holds_throw]. intros b Hb. split; [done|]. by intros s' [= <-].
Qed.

Lemma holds_validate_unlock passphrase :
  sound kh d0 (default EmptyString passphrase) → holds (validate_unlock passphrase) (λ _, True).
Proof using All.
  intros Hp. eapply holds_bind; [apply holds_status|intros header _]. cbv zeta.
  destruct (String.eqb _ PASSPHRASE_PROVIDER_ID); [by apply holds_verify_audit|].
  destruct (_ || _); [by apply holds_verify_audit|].
  destruct (String.eqb _ SYSTEM_FINGERPRINT_PROVIDER_ID); [by apply holds_verify_audit|apply holds_throw].
Qed.
Lemma holds_validate_mfa code : holds (validate_mfa code) (λ _, True).
Proof. eapply holds_bind; [apply holds_get|intros s Hs]. by apply holds_verify_totp. Qed.

(** ** The commands *)

Lemma holds_unlock request :
  sound kh d0 (default EmptyString (get_str "passphrase" request)) →
  holds (unlock_command request) (λ _, True).
Proof using All.
  intros Hp. unfold unlock_command. cbv zeta.
  eapply holds_bind; [by apply holds_validate_unlock|intros _ _].
  eapply holds_bind; [by apply holds_modify|intros _ _].
  eapply holds_bind; [by apply holds_modify|intros _ _].
  eapply (holds_bind _ (λ _, True)); [|intros _ _].
  { destruct (get_str "mfa_code" request) as [code|]; [|eapply holds_any, holds_ret].
    eapply holds_bind; [eapply holds_attempt, holds_validate_mfa|intros verified _].
    destruct verified; [by apply holds_modify| |apply holds_panic].
    eapply holds_bind; [apply holds_modify|intros _ _; apply holds_throw].
    intros s _. exact Hempty. }
  eapply holds_bind; [apply holds_asks; keeps_auto|intros id _].
  eapply holds_bind; [by apply holds_modify|intros _ _].
  eapply holds_bind; [apply holds_activity|intros _ _].
  eapply holds_bind; [apply holds_get|intros s _]. eapply holds_any, holds_ret.
Qed.
Lemma holds_mfa_verify request : holds (mfa_verify_command request) (λ _, True).
Proof using All.
  unfold mfa_verify_command. eapply holds_bind; [apply holds_require|intros s Hs].
  eapply holds_bind; [apply holds_lift|intros code _].
  eapply holds_bind; [apply holds_validate_mfa|intros _ _].
  eapply holds_bind; [by apply holds_modify|intros _ _].
  eapply holds_bind; [apply holds_activity|intros _ _]. eapply holds_any, holds_ret.
Qed.
Lemma holds_lock : holds lock_command (λ _, True).
Proof using All.
  eapply holds_bind; [apply holds_modify|intros _ _; eapply holds_any, holds_ret].
  intros s _. exact Hempty.
Qed.

(** ** Requests of a peer

    The values of a request are in the ranges of their types, and so is the user the kernel names. *)

Context (cn : Connection) (request : json) (peer : PeerIdentity) (Hok : request_ok cn request)
  (Hpeer : cn_creds cn = Some (peer_pid peer, peer_uid peer, peer_gid peer)).

Lemma holds_access raw mfa session :
  holds (access_request request peer raw mfa session) AccessRequest_wf.
Proof using Hok Hpeer.
  apply holds_quiet; [apply keeps_access_request|]. intros b access b' Hrun.
  apply access_request_inv in Hrun as (_ & Huid & _ & _ & _ & _ & _ & Hbytes & _).
  split; [rewrite Hbytes; apply Hok|]. rewrite Huid. intros n [= <-]. by eapply rq_uid.
Qed.
Lemma holds_checkout : holds (checkout_command request peer) (λ _, True).
Proof using All.
  unfold checkout_command. eapply holds_bind; [apply holds_require|intros s Hs].
  eapply holds_bind; [apply holds_access|intros access Ha].
  eapply holds_bind; [by apply holds_issue|intros t _].
  eapply holds_bind; [apply holds_activity|intros _ _]. eapply holds_any, holds_ret.
Qed.
Lemma holds_materialize : holds (materialize_command request peer) (λ _, True).
Proof using All.
  unfold materialize_command. eapply holds_bind; [apply holds_require|intros s Hs]. cbv zeta.
  eapply holds_bind; [apply holds_access|intros access Ha].
  eapply holds_bind; [by apply holds_issue|intros t _].
  eapply holds_bind; [by apply holds_consume|intros secret _].
  eapply holds_bind; [apply holds_activity|intros _ _]. eapply holds_any, holds_ret.
Qed.

Lemma holds_send c : holds (send c) (λ _, True).
Proof.
  intros b [[(v & Hv) Hm] Hp]. split; [|done]. split; [|exact Hp]. split; [by exists v|exact Hm].
Qed.
Lemma holds_http p mfa session :
  sound kh d0 p → holds (brokered_http_request p request peer mfa session) (λ _, True).
Proof using HC HT HH Hok Hpeer.
  intros Hp. unfold brokered_http_request.
  eapply holds_bind; [apply holds_lift|intros url _]. cbv zeta.
  eapply holds_bind; [apply holds_lift|intros parsed _].
  eapply holds_bind; [apply holds_lift|intros body Hbody]. cbv beta in Hbody.
  eapply holds_bind; [apply holds_lift|intros purpose _].
  eapply holds_bind; [apply holds_lift|intros secret_ref _].
  eapply holds_bind; [apply holds_now|intros now _].
  eapply holds_bind; [apply holds_issue; [|done]|intros t _].
  { split; simpl; intros n [= <-]; [|by eapply rq_uid]. split; [lia|by eapply rq_body]. }
  eapply holds_bind; [by apply holds_consume|intros secret _].
  eapply holds_bind; [apply holds_lift|intros _ _].
  eapply holds_bind; [apply holds_lift|intros headers _].
  eapply holds_bind; [apply holds_asks; keeps_auto|intros duration _].
  eapply holds_bind; [apply holds_send|intros result _].
  eapply holds_bind; [apply holds_asks; keeps_auto|intros reply _]. eapply holds_any, holds_lift.
Qed.
Lemma holds_provider_http : holds (provider_http_command request peer) (λ _, True).
Proof using All.
  unfold provider_http_command. eapply holds_bind; [apply holds_require|intros s Hs].
  eapply holds_bind; [by apply holds_http|intros response _].
  eapply holds_bind; [apply holds_activity|intros _ _]. eapply holds_any, holds_ret.
Qed.

Lemma holds_dispatch command :
  sound kh d0 (default EmptyString (get_str "passphrase" request)) →
  holds (dispatch command request peer) (λ _, True).
Proof using All.
  intros Hp. unfold dispatch. repeat (destruct (String.eqb command _)).
  - unfold status_command. eapply holds_bind; [apply holds_get|intros s _]. eapply holds_any, holds_ret.
  - by apply holds_unlock.
  - apply holds_mfa_verify.
  - apply holds_lock.
  - apply holds_checkout.
  - apply holds_materialize.
  - apply holds_provider_http.
  - apply holds_throw.
Qed.
End held.

(** ** Connections *)

Section connections.
Context {X : Ext} {NX : Net} {HC : CodecLaws} {HT : ChronoLaws} {HH : HashLaws}.
Context (kh : KeyHierarchy) (v0 : View) (d0 : Db) (Hempty : sound kh d0 EmptyString).
Abbreviation holds := (holds kh v0 d0).

(** What is known of a connection: its request is one a Rust value can hold, and the pass phrase
    it brings, if it brings one, opens no other root key under the settings. *)
Definition connection_ok (cn : Connection) : Prop :=
  ∀ request, request_of cn = Some request →
    request_ok cn request ∧ ∀ p, get_str "passphrase" request = Some p → sound kh d0 p.

Lemma holds_handle cn : connection_ok cn → holds (handle_connection cn) (λ _, True).
Proof using All.
  intros Hcn. unfold handle_connection. eapply holds_bind; [by apply holds_expire|intros _ _].
  eapply holds_bind; [apply holds_lift|intros line Hline%ok_or_ok_inv].
  eapply holds_bind; [apply holds_lift|intros request Hreq%ok_or_ok_inv].
  destruct (Hcn request) as [Hok Hp]; [unfold request_of; by rewrite Hline|].
  eapply (holds_bind _ _ _ _ (λ peer, cn_creds cn = Some (peer_pid peer, peer_uid peer, peer_gid peer)));
    [|intros peer Hpeer].
  { apply holds_quiet; [apply keeps_peer_identity|]. intros b peer b' Hrun.
    by apply peer_identity_inv in Hrun as [[Hc _] _]. }
  eapply holds_bind; [apply holds_lift|intros command _]. eapply holds_dispatch; [done..|].
  destruct (get_str "passphrase" request) as [p|]; [by apply Hp|done].
Qed.
Lemma holds_answer message cn : connection_ok cn → holds (answer message cn) (λ _, True).
Proof using All.
  intros Hcn. unfold answer. eapply holds_bind; [by eapply holds_attempt, holds_handle|intros o _].
  destruct o; [eapply holds_any, holds_ret..|apply holds_panic].
Qed.

(** A connection of the gateway, piece by piece. *)
Definition gateway_stream_ok (config : HttpGatewayConfig) (stream : Stream) : Prop :=
  ∀ request, read_http_gateway_request stream (cfg_max_request_body_bytes config) = Ok request →
    request_ok gateway_peer (gateway_request config request).

(** What the gateway's thread holds between its pieces. *)
Definition thread_ok (config : HttpGatewayConfig) (g : GatewayThread) : Prop :=
  match g with
  | Forwarding request peer s _ =>
      keeps_phrase kh d0 s ∧ request_ok gateway_peer (gateway_request config request) ∧
      cn_creds gateway_peer = Some (peer_pid peer, peer_uid peer, peer_gid peer)
  | _ => True
  end.

Lemma holds_spawned {A} (m : BROKER A) R :
  holds m R → holds (spawned m) (λ o, ∀ a, o = Some a → R a).
Proof.
  intros Hm b Hb. destruct (Hm b Hb) as [H1 H2]. unfold spawned.
  destruct (m b) as [[a|e|] b1]; simpl in *; (split; [done|]); try done.
  - intros o [= <-] a' [= <-]. by apply H2.
  - intros o [= <-] a'. done.
Qed.
Lemma holds_attempts {A} (m : BROKER A) R :
  holds m R → holds (attempt (F:=BrokerError) m) (λ o, ∀ a, o = Ok a → R a).
Proof.
  intros Hm b Hb. destruct (Hm b Hb) as [H1 H2]. unfold attempt.
  destruct (m b) as [[a|e|] b1]; simpl in *; (split; [done|]); try done.
  - intros o [= <-] a' [= <-]. by apply H2.
  - intros o [= <-] a'. done.
Qed.
Lemma holds_conseq {A} (m : BROKER A) (R R' : A → Prop) :
  holds m R → (∀ a, R a → R' a) → holds m R'.
Proof. intros Hm HR b Hb. destruct (Hm b Hb). split; [done|]. auto. Qed.
Lemma holds_value {A} (a : A) (R : A → Prop) : R a → holds (mret a) R.
Proof. intros HR. eapply holds_conseq; [apply holds_ret|]. by intros ? ->. Qed.

Lemma holds_piece {A} config (m : BROKER A) (R : A → Prop) next writable message :
  holds m R → (∀ a, R a → thread_ok config (next a writable)) →
  holds (gateway_piece message m next writable) (thread_ok config).
Proof.
  intros Hm Hn. unfold gateway_piece. eapply holds_bind; [by apply holds_attempts|intros o Ho].
  destruct o as [a|err|]; [|by apply holds_value|apply holds_panic].
  apply holds_value, Hn. by apply Ho.
Qed.
Lemma holds_open config stream :
  gateway_stream_ok config stream →
  holds (gateway_open config stream) (λ o, ∀ writable, thread_ok config (gateway_opened o writable)).
Proof using All.
  intros Hok. unfold gateway_open. eapply holds_bind; [apply holds_lift|intros request Hreq].
  cbv beta in Hreq. destruct (gateway_local request); [by apply holds_value|].
  eapply (holds_bind _ _ _ _ (λ peer, cn_creds gateway_peer = Some (peer_pid peer, peer_uid peer, peer_gid peer)));
    [|intros peer Hpeer].
  { apply holds_quiet; [apply keeps_gateway_peer|]. intros b peer b' Hrun.
    apply gateway_peer_inv in Hrun as [Hc _]. by rewrite Hc. }
  eapply holds_bind; [by apply holds_require|intros s Hs]. apply holds_value. intros writable. simpl. auto.
Qed.
Lemma holds_accept message config t a :
  thread_ok config (th_gateway t) →
  (∀ stream writable, a = Some (stream, writable) → gateway_stream_ok config stream) →
  holds (gateway_accept message config t a) (λ t, thread_ok config (th_gateway t)).
Proof using All.
  intros Ht Ha. unfold gateway_accept.
  destruct (th_gateway t) eqn:Hg; try (apply holds_value; by rewrite Hg).
  destruct a as [[stream writable]|]; [|by apply holds_value].
  eapply holds_bind; [apply holds_spawned; eapply holds_piece|intros g Hg'].
  - apply holds_open. by eapply Ha.
  - intros o Ho. apply Ho.
  - apply holds_value. destruct g as [g|]; [by apply Hg'|done].
Qed.
Lemma holds_resume message config t :
  thread_ok config (th_gateway t) →
  holds (gateway_resume message config t) (λ r, thread_ok config (th_gateway r.1)).
Proof using All.
  intros Ht. unfold gateway_resume. cbv zeta.
  destruct (th_gateway t) as [|request peer s writable|response writable|response writable|] eqn:Hg.
  - apply holds_value. cbn [fst]. by rewrite Hg.
  - destruct Ht as (Hs & Hok & Hc). eapply holds_bind; [apply holds_spawned; eapply holds_piece|intros g Hg'].
    + unfold gateway_forward. by apply (holds_http kh v0 d0 gateway_peer).
    + by intros.
    + apply holds_value. destruct g as [g|]; [by apply Hg'|done].
  - eapply holds_bind; [apply holds_activity|intros _ _]. by apply holds_value.
  - apply holds_value. by destruct writable.
  - apply holds_value. cbn [fst]. by rewrite Hg.
Qed.

(** ** The two threads *)

Definition event_ok (gateway : option HttpGatewayConfig) (e : Event) : Prop :=
  match e with
  | Local (Accepted cn _) => connection_ok cn
  | GatewayAccept (Some (stream, _)) => ∀ config, gateway = Some config → gateway_stream_ok config stream
  | _ => True
  end.

Lemma holds_one message poisoned a :
  (∀ cn writable, a = Accepted cn writable → connection_ok cn) →
  holds (serve_one message poisoned a) (λ _, True).
Proof using All.
  intros Ha. destruct a as [|cn writable]; [apply holds_throw|]. cbn [serve_one].
  destruct poisoned; [apply holds_throw|].
  eapply holds_bind; [apply holds_answer; by eapply Ha|intros response _].
  destruct writable; [eapply holds_any, holds_ret|apply holds_throw].
Qed.
Lemma holds_events message gateway t events :
  Forall (event_ok gateway) events →
  (∀ config, gateway = Some config → thread_ok config (th_gateway t)) →
  holds (serve_events message gateway t events) (λ _, True).
Proof using All.
  intros Hall. revert t. induction Hall as [|e events He _ IH]; intros t Ht; [eapply holds_any, holds_ret|].
  destruct e as [a|a|]; cbn [serve_events].
  - eapply holds_bind; [apply holds_one; by intros cn writable ->|intros response _].
    eapply holds_bind; [by apply IH|intros rest _]. eapply holds_any, holds_ret.
  - eapply (holds_bind _ _ _ _ (λ t, ∀ config, gateway = Some config → thread_ok config (th_gateway t)));
      [|intros t' Ht'; by apply IH].
    destruct gateway as [config|]; [|by apply holds_value].
    eapply holds_conseq; [apply holds_accept|]; [by apply Ht| |by intros t' Ht' config' [= <-]].
    intros stream writable ->. by apply He.
  - eapply (holds_bind _ _ _ _ (λ r, ∀ config, gateway = Some config → thread_ok config (th_gateway r.1)));
      [|intros r Hr].
    { destruct gateway as [config|]; [|by apply holds_value].
      eapply holds_conseq; [apply holds_resume|]; [by apply Ht|by intros r Hr config' [= <-]]. }
    eapply holds_bind; [by apply IH|intros rest _]. eapply holds_any, holds_ret.
Qed.
End connections.

(** The pieces of the gateway's thread, taken one after the other, are a connection's answer as
    [gateway_answer] has it in one. *)
Lemma pieces_answer {X : Ext} {NX : Net} message config stream b response b' :
  gateway_answer message stream config b = (Ok response, b') →
  serve_events message (Some config) (starting (Some config))
    [GatewayAccept (Some (stream, true)); GatewayResume; GatewayResume; GatewayResume] b
  = (Ok [ToGateway response], b').
Proof.
  unfold gateway_answer, handle_http_gateway_connection. cbn [serve_events starting th_gateway].
  unfold gateway_accept, gateway_piece, gateway_open. cbn [th_gateway].
  unfold spawned, attempt, mbind, st_bind, mret, st_ret, lift, throw.
  destruct (read_http_gateway_request _ _) as [request|e|]; cbn; [|by intros [= <- <-]|done].
  destruct (gateway_local request) as [local|]; cbn; [by intros [= <- <-]|].
  destruct (http_gateway_peer_identity b) as [[peer|e|] b1]; cbn; [|by intros [= <- <-]|done].
  destruct (require_unlocked b1) as [[s|e|] b2]; cbn; [|by intros [= <- <-]|done].
  unfold gateway_resume, gateway_piece, spawned, attempt, mbind, st_bind, mret, st_ret. cbn.
  destruct (gateway_forward config request peer s b2) as [[resp|e|] b3]; cbn;
    [|by intros [= <- <-]|done]. by intros [= <- <-].
Qed.

(** The lock, over the loop. *)
Lemma answer_no_err {X : Ext} {NX : Net} message cn b e b' : answer message cn b ≠ (Err e, b').
Proof. unfold answer, attempt, mbind, st_bind. by destruct (handle_connection cn b) as [[] b1]. Qed.
Lemma broker_ok_one {X : Ext} {NX : Net} message poisoned a b r b' :
  serve_one message poisoned a b = (r, b') → r ≠ Panic → broker_ok (br_state b) → broker_ok (br_state b').
Proof.
  intros Hrun Hp Hok. destruct a as [|cn writable]; [by injection Hrun as _ <-|].
  cbn [serve_one] in Hrun. destruct poisoned; [by injection Hrun as _ <-|].
  unfold mbind, st_bind in Hrun. destruct (answer message cn b) as [[v|e|] b1] eqn:Ha.
  - apply answer_inv in Ha as (r' & Hh & Hr'). pose proof (handle_ok _ _ _ _ Hh Hr' Hok).
    destruct writable; by injection Hrun as _ <-.
  - by apply answer_no_err in Ha.
  - by injection Hrun as <- _.
Qed.

(** The pieces of the gateway's thread unlock nothing. *)
Definition keeps_lock (b b' : Broker) : Prop := broker_ok (br_state b) → broker_ok (br_state b').
#[local] Instance keeps_lock_preorder : PreOrder keeps_lock.
Proof. split; [by intros b H|by intros b1 b2 b3 H1 H2 H; apply H2, H1]. Qed.
Lemma keeps_lock_state {A} (m : BROKER A) : keeps same_state m → keeps keeps_lock m.
Proof. intros Hm b Hok. by rewrite (Hm b : br_state _ = _). Qed.
Lemma keeps_lock_ret {A} (a : A) : keeps keeps_lock (mret a : BROKER A).
Proof. by intros b Hok. Qed.
Lemma keeps_lock_require {X : Ext} {NX : Net} : keeps keeps_lock require_unlocked.
Proof.
  intros b Hok. destruct (require_unlocked b) as [r b'] eqn:Hr.
  apply require_unlocked_cases in Hr as [Hw _]. by eapply broker_ok_wakes.
Qed.
Lemma keeps_lock_activity {X : Ext} {NX : Net} : keeps keeps_lock mark_activity.
Proof.
  intros b Hok. destruct (mark_activity b) as [r b'] eqn:Hr.
  rewrite mark_activity_run in Hr. injection Hr as _ <-. by apply broker_ok_activity.
Qed.
Lemma keeps_lock_spawned {A} (m : BROKER A) : keeps keeps_lock m → keeps keeps_lock (spawned m).
Proof. intros Hm b. specialize (Hm b). unfold spawned. by destruct (m b) as [[] b']. Qed.
Lemma keeps_lock_piece {X : Ext} {NX : Net} {A} message (m : BROKER A) next writable :
  keeps keeps_lock m → keeps keeps_lock (gateway_piece message m next writable).
Proof.
  intros Hm b. specialize (Hm b). unfold gateway_piece, attempt, mbind, st_bind.
  by destruct (m b) as [[] b'].
Qed.
Lemma keeps_lock_open {X : Ext} {NX : Net} config stream : keeps keeps_lock (gateway_open config stream).
Proof.
  unfold gateway_open. apply keeps_bind; [apply _|by intros b Hok|intros request].
  destruct (gateway_local request); [apply keeps_lock_ret|].
  apply keeps_bind; [apply _|apply keeps_lock_state, keeps_asks_state, keeps_gateway_peer|intros peer].
  apply keeps_bind; [apply _|apply keeps_lock_require|intros st; apply keeps_lock_ret].
Qed.
Lemma keeps_lock_accept {X : Ext} {NX : Net} message config t a :
  keeps keeps_lock (gateway_accept message config t a).
Proof.
  unfold gateway_accept. destruct (th_gateway t); try apply keeps_lock_ret.
  destruct a as [[stream writable]|]; [|apply keeps_lock_ret].
  apply keeps_bind; [apply _|apply keeps_lock_spawned, keeps_lock_piece, keeps_lock_open|intros g].
  apply keeps_lock_ret.
Qed.
Lemma keeps_lock_resume {X : Ext} {NX : Net} message config t :
  keeps keeps_lock (gateway_resume message config t).
Proof.
  unfold gateway_resume. cbv zeta. destruct (th_gateway t) as [|request peer st writable|resp writable|resp writable|];
    try apply keeps_lock_ret.
  - apply keeps_bind; [apply _| |intros g; apply keeps_lock_ret].
    apply keeps_lock_spawned, keeps_lock_piece, keeps_lock_state. unfold gateway_forward. apply keeps_http_state.
  - apply keeps_bind; [apply _|apply keeps_lock_activity|intros []; apply keeps_lock_ret].
Qed.
Lemma broker_ok_events {X : Ext} {NX : Net} message gateway events t b r b' :
  serve_events message gateway t events b = (r, b') → r ≠ Panic → broker_ok (br_state b) →
  broker_ok (br_state b').
Proof.
  revert t b r b'. induction events as [|e events IH]; intros t b r b' Hrun Hp Hok;
    [by injection Hrun as _ <-|].
  destruct e as [a|a|]; cbn [serve_events] in Hrun; unfold mbind, st_bind in Hrun.
  - destruct (serve_one message _ a b) as [[v|e|] b1] eqn:H1;
      [|injection Hrun as <- <-; by eapply broker_ok_one|injection Hrun as <- <-; done].
    assert (broker_ok (br_state b1)) as Hb1 by by eapply broker_ok_one.
    destruct (serve_events message gateway t events b1) as [[l|e|] b2] eqn:H2;
      injection Hrun as <- <-; [by eapply IH..|done].
  - destruct gateway as [config|]; [|by apply (IH t b r b')].
    pose proof (keeps_lock_accept message config t a b Hok) as Hb1.
    destruct (gateway_accept message config t a b) as [[t'|e|] b1];
      [by eapply IH|by injection Hrun as <- <-..].
  - destruct gateway as [config|].
    + pose proof (keeps_lock_resume message config t b Hok) as Hb1.
      destruct (gateway_resume message config t b) as [[[t' l]|e|] b1]; [|by injection Hrun as <- <-..].
      cbn [fst snd] in Hrun.
      destruct (serve_events message (Some config) t' events b1) as [[l'|e|] b2] eqn:H2;
        injection Hrun as <- <-; [by eapply IH..|done].
    + unfold mret, st_ret in Hrun. cbn [fst snd] in Hrun.
      destruct (serve_events message None t events b) as [[l'|e|] b2] eqn:H2;
        injection Hrun as <- <-; [by eapply IH..|done].
Qed.

(** A client that is gone when its answer is written ends the loop, and with it the process. *)
Lemma hang_up_ends_broker {X : Ext} {NX : Net} message gateway t cn events b resp b1 :
  th_poisoned t = false → answer message cn b = (Ok resp, b1) →
  serve_events message gateway t (Local (Accepted cn false) :: events) b = (Err BIo, b1).
Proof.
  intros Ht Ha. cbn [serve_events serve_one]. rewrite Ht. unfold mbind, st_bind. by rewrite Ha.
Qed.

(** ** The socket *)

Section socket.
Context {X : Ext} {NX : Net} {D : Disk}.
Context (tcp_bind : nat → string → bool) (unlinked : string → Db → Db).

Lemma keeps_fs_remove k p : path_key p ≠ k → keeps (same_at k) (fs_remove p).
Proof.
  intros Hk. apply keeps_fs_op. intros fs a fs'.
  destruct (fs !! path_key p) as [[]|]; try done; intros [= _ <-]; by apply lookup_delete_ne.
Qed.
Lemma keeps_bind_socket k p : path_key p ≠ k → keeps (same_at k) (bind_socket p).
Proof.
  intros Hk. apply keeps_fs_op. intros fs a fs'. destruct (fs !! path_key p); [done|].
  destruct (has_dir _ _); [|done]. intros [= _ <-]. by apply lookup_insert_ne.
Qed.
Lemma bind_socket_ok_inv p s s' :
  bind_socket p s = (Ok tt, s') → ∃ mode, site_files s' !! path_key p = Some (Socket mode).
Proof.
  intros (Ho & _)%fs_op_ok_inv. destruct (site_files s !! path_key p); [done|].
  destruct (has_dir _ _); [|done]. injection Ho as <-. rewrite lookup_insert_eq. eauto.
Qed.

Lemma files_prepare_gateway gateway : keeps same_files (prepare_gateway tcp_bind gateway).
Proof. unfold prepare_gateway. keeps_auto. Qed.
Lemma keeps_remove_file k vault p : path_key p ≠ k → keeps (same_at k) (remove_file unlinked vault p).
Proof.
  intros Hk. apply keeps_bind; [apply _|by apply keeps_fs_remove|intros _ s].
  unfold unlink_database. by case_bool_decide.
Qed.
(** What the process makes ready touches nothing that is there but the file at the socket's path. *)
Lemma still_prepare k vault socket gateway :
  k ≠ path_key socket → keeps (still_at k) (prepare tcp_bind unlinked vault socket gateway).
Proof.
  intros Hk. unfold prepare, prepare_socket.
  repeat (apply keeps_bind; [apply _| |intros ?]).
  - destruct (parent socket); [apply keeps_try, still_create_dir_all|apply keeps_ret, _].
  - apply keeps_try. by intros s n.
  - case_match; [|apply keeps_ret, _].
    apply keeps_try, still_same, keeps_remove_file. congruence.
  - apply keeps_try, still_same, keeps_bind_socket. congruence.
  - apply keeps_try, still_same, keeps_set_permissions. congruence.
  - apply still_files, files_prepare_gateway.
Qed.

(** Who may connect: the owner of the socket, and whom the gateway's address lets in. *)
Definition closed_to_others (socket : string) (gateway : option HttpGatewayConfig) (fs : Files) : Prop :=
  fs !! path_key socket = Some (Socket mode_0600) ∧
  ∀ config, gateway = Some config → cfg_allow_remote config = true ∨
    ∃ ip port, parse_socket_addr (cfg_listen config) = inr (ip, port) ∧ is_loopback ip = true.
Lemma prepare_ok_inv vault socket gateway s s' :
  prepare tcp_bind unlinked vault socket gateway s = (Ok tt, s') → closed_to_others socket gateway (site_files s').
Proof.
  intros Hrun. unfold prepare in Hrun. apply st_bind_ok_inv in Hrun as ([] & s1 & Hs & Hg). split.
  - unfold prepare_socket in Hs. do 3 apply st_bind_ok_inv in Hs as (? & ? & _ & Hs).
    apply st_bind_ok_inv in Hs as ([] & s2 & Hb%try_ok_inv & Hs%try_ok_inv).
    apply bind_socket_ok_inv in Hb as (mode & Hb).
    apply set_permissions_ok_inv in Hs as (n & Hn & Hs). rewrite Hb in Hn. injection Hn as <-.
    pose proof (files_prepare_gateway gateway s1) as Hf. rewrite Hg in Hf. unfold same_files in Hf.
    simpl in Hf. rewrite Hf, Hs, lookup_insert_eq. done.
  - intros config ->. unfold prepare_gateway in Hg.
    apply st_bind_ok_inv in Hg as ([] & s2 & Hv & _). unfold lift in Hv. injection Hv as Hv _.
    unfold validate_http_gateway_listen in Hv. destruct (cfg_allow_remote config); [by left|right].
    destruct (parse_socket_addr _) as [|[ip port]]; [done|]. exists ip, port. by destruct (is_loopback ip).
Qed.
Lemma tables_remove_file vault p :
  path_key p ∉ database_files vault → keeps same_tables (remove_file unlinked vault p).
Proof.
  intros Hp. apply keeps_bind; [apply _|apply tables_fs_remove|intros _ s].
  unfold unlink_database. by rewrite bool_decide_eq_false_2.
Qed.
Lemma tables_prepare vault socket gateway :
  path_key socket ∉ database_files vault →
  keeps same_tables (prepare tcp_bind unlinked vault socket gateway).
Proof.
  intros Hp. pose proof (tables_remove_file vault socket Hp) as Hr.
  unfold prepare, prepare_socket, prepare_gateway, bind_socket. keeps_auto.
Qed.
End socket.

(** ** Properties *)

(** C12: the broker, as a process, keeps the vault. Let it be started on tables that represent a
    typed view whose audit log verifies, with a socket that is not to take the place of one of the
    vault's own files. Let any connections arrive, at the socket and at the gateway, in any order,
    and let the gateway's thread do its pieces, each up to or from where it holds the mutex, and
    the forwarding in between as one piece, anywhere between the connections of the socket; the requests are values of the Rust types, and
    neither the pass phrases they bring nor the empty one open another root key. Whatever is
    answered, refused, lost on the way, fails or panics, then: the tables represent a view again,
    whose log verifies under the same key and extends the old one, and in which everything filed
    is still filed; a locked broker holds nothing (short of a panic of the socket's loop); no file
    that was there is changed but the one at the path of the socket; and if it came as far as
    serving, the socket is the owner's alone, and the gateway listens where its configuration or
    loopback allows. *)
Theorem broker_keeps_vault {X : Ext} {NX : Net} {HS : Host} {D : Disk} {G : Signing} {HC : CodecLaws}
    {HT : ChronoLaws} {HH : HashLaws} message tcp_bind unlinked vault socket idle gateway events kh v s r d :
  represents (db (site_world s)) v → vault_inv kh v →
  path_key socket ∉ database_files vault →
  sound kh (db (site_world s)) EmptyString →
  Forall (event_ok kh (db (site_world s)) gateway) events →
  serve_with_http_gateway message tcp_bind unlinked vault socket idle gateway events s = (r, d) →
  (∃ v', represents (db (site_world (dm_site d))) v' ∧ vault_inv kh v' ∧ grows v v') ∧
  (r ≠ Panic → broker_ok (br_state (dm_broker d))) ∧
  (∀ k n, k ≠ path_key socket → site_files s !! k = Some n → site_files (dm_site d) !! k = Some n) ∧
  ((prepare tcp_bind unlinked vault socket gateway s).1 = Ok tt →
     closed_to_others socket gateway (site_files (dm_site d))).
Proof.
  intros Hrep Hinv Hsock Hempty Hall Hrun. unfold serve_with_http_gateway in Hrun. cbv zeta in Hrun.
  pose proof (tables_prepare tcp_bind unlinked vault socket gateway Hsock s) as Ht.
  pose proof (λ k n Hk, still_prepare tcp_bind unlinked k vault socket gateway Hk s n) as Hf.
  destruct (prepare tcp_bind unlinked vault socket gateway s) as [[[]|e|] s1] eqn:Hp;
    unfold same_tables in Ht; cbn [snd] in Ht, Hf.
  - set (b0 := {| br_world := site_world s1; br_state := BrokerState_new idle; br_sent := [] |}) in Hrun.
    assert (held kh v (db (site_world s)) b0) as H0.
    { split; [|exact Hempty]. split; [|by simpl; rewrite Ht]. exists v. simpl. by rewrite Ht. }
    pose proof (holds_events kh v _ Hempty message gateway (starting gateway) events Hall
      ltac:(by intros config ->) b0 H0) as [[[Hv' _] _] _].
    pose proof (broker_ok_events message gateway events (starting gateway) b0) as Hlock.
    destruct (serve_events message gateway _ events b0) as [o b1]. injection Hrun as <- <-. cbn [snd] in Hv'.
    split; [exact Hv'|]. split; [intros Ho; by apply (Hlock o b1); [| |apply broker_ok_new]|].
    split; [intros k n Hk; by apply Hf|]. intros _. exact (prepare_ok_inv tcp_bind unlinked _ _ _ s s1 Hp).
  - injection Hrun as <- <-. split; [exists v; cbn [dm_site]; by rewrite Ht|]. split; [intros _; apply broker_ok_new|].
    split; [intros k n Hk; by apply Hf|done].
  - injection Hrun as <- <-. split; [exists v; cbn [dm_site]; by rewrite Ht|]. split; [intros _; apply broker_ok_new|].
    split; [intros k n Hk; by apply Hf|done].
Qed.

(** A socket at the path of the vault itself: its file is removed, and the broker serves what
    SQLite makes of that. *)
Lemma socket_over_vault {X : Ext} {NX : Net} {D : Disk} tcp_bind unlinked vault s s' :
  prepare tcp_bind unlinked vault vault None s = (Ok tt, s') → (∃ n, site_files s !! path_key vault = Some n) →
  db (site_world s') = unlinked vault (db (site_world s)).
Proof.
  intros Hrun [n Hn]. unfold prepare in Hrun. apply st_bind_ok_inv in Hrun as ([] & s1 & Hs & Hg).
  injection Hg as <-. unfold prepare_socket in Hs. apply st_bind_ok_inv in Hs as ([] & s2 & Hd & Hs).
  assert (db (site_world s2) = db (site_world s) ∧ site_files s2 !! path_key vault = Some n) as [Hdb Hn2].
  { destruct (parent vault); [|by injection Hd as <-]. apply try_ok_inv in Hd.
    pose proof (tables_create_dir_all s0 s) as H1. pose proof (still_create_dir_all (path_key vault) s0 s n Hn) as H2.
    rewrite Hd in H1, H2. done. }
  apply st_bind_ok_inv in Hs as (found & s3 & He%try_ok_inv & Hs).
  injection He as <- <-. rewrite Hn2 in Hs. cbn in Hs.
  apply st_bind_ok_inv in Hs as ([] & s4 & Hr%try_ok_inv & Hs).
  apply st_bind_ok_inv in Hs as ([] & s5 & (_ & Hb & _)%try_ok_inv%fs_op_ok_inv & (_ & Hp & _)%try_ok_inv%fs_op_ok_inv).
  unfold remove_file in Hr. apply st_bind_ok_inv in Hr as ([] & s6 & (_ & H6 & _)%fs_op_ok_inv & Hu).
  unfold unlink_database in Hu. rewrite bool_decide_eq_true_2 in Hu by apply list_elem_of_here.
  injection Hu as <-. rewrite Hp, Hb. simpl. by rewrite H6, Hdb.
Qed.

(** A pass phrase that a vault refuses is one that opens no other root key. *)
Lemma refused_phrase_sound {X : Ext} {HC : CodecLaws} {HT : ChronoLaws} {HH : HashLaws} {HN : NoFaults}
    kh p q w v :
  ready kh p w v → is_ok (load_header w).1 = true →
  (∀ h w1 w1', (load_header w).1 = Ok h → load_header w1 = (Ok h, w1') →
     is_ok (unlock (Some q) w1).1 = false) →
  sound kh (db w) q.
Proof.
  intros Hr Hok Hno d v' Hd Hm w1 h1 k1 w2 Hdb Hrun.
  destruct (exec_refines LoadHeader w v (lv_rep _ _ _ (rd_live _ _ _ _ Hr)) I (no_fault _)) as (d0 & H0 & _).
  assert (represents (db w1) v') as Hd1 by (by rewrite Hdb).
  destruct (exec_refines LoadHeader w1 v' Hd1 I (no_fault _)) as (d1 & H1 & _).
  cbn [spec exec fst snd] in H0, H1. rewrite (settings_header kh p w v Hr d v' Hd Hm) in H1.
  rewrite H0 in Hok. destruct (v_header v) as [h|]; [|discriminate Hok]. cbn [ok_or] in H0, H1.
  specialize (Hno h _ _ ltac:(by rewrite H0) H1). by rewrite Hrun in Hno.
Qed.

(** The empty pass phrase does not open the vault of the examples. *)
Lemma ticket_header_loads : is_ok (load_header ticket_world).1 = true.
Proof. vm_compute. reflexivity. Qed.
Lemma empty_phrase_fails h w w' :
  (load_header ticket_world).1 = Ok h → load_header w = (Ok h, w') →
  is_ok (unlock (Some "") w).1 = false.
Proof.
  intros Hh Hl. unfold unlock.
  match goal with |- is_ok ((_ ≫= ?k) w).1 = false =>
    assert (match (load_header ticket_world).1 with
            | Ok header => is_ok (k header w').1 | _ => false end = false) as Hk
      by (clear Hh Hl; vm_compute; reflexivity) end.
  rewrite (st_bind_ok _ _ _ _ _ (try_ok _ _ _ _ Hl)). rewrite Hh in Hk. exact Hk.
Qed.
Lemma empty_phrase_refused kh v :
  ready kh "correct horse" ticket_world v → sound kh (db ticket_world) "".
Proof.
  intros Hr. apply (refused_phrase_sound kh "correct horse" "" ticket_world v Hr ticket_header_loads).
  exact empty_phrase_fails.
Qed.

(** A client that unlocks; a connection of the gateway, while it is unlocked, up to the
    forwarding; a client that takes a secret; the rest of the gateway's thread; and a client that
    is gone when it is answered. *)
Definition sample_events : list Event :=
  [ Local (Accepted (sample_connection unlock_request) true);
    GatewayAccept (Some (sample_stream, true));
    Local (Accepted (sample_connection materialize_request) true);
    GatewayResume; GatewayResume; GatewayResume;
    Local (Accepted (sample_connection materialize_request) false) ].
Definition broker_site : Site := {|
  site_world := ticket_world;
  site_files := <[["/"] := Dir 493]> (<[["/"; "run"] := Dir 493]> (<[["/"; "run"; "s"] := File 420 []]> ∅));
  site_out := []; site_children := [] |}.
Definition served_site := serve_with_http_gateway (λ _, "error") (λ _ _, true) (λ _ _, empty_db)
  "/var/vault.hbse" "/run/s" f64_zero (Some sample_gateway) sample_events broker_site.

Lemma unlock_sample_request : request_of (sample_connection unlock_request) = Some (obj unlock_request).
Proof. vm_compute. reflexivity. Qed.
Lemma materialize_sample_request :
  request_of (sample_connection materialize_request) = Some (obj materialize_request).
Proof. vm_compute. reflexivity. Qed.
Lemma sample_events_ok kh v :
  ready kh "correct horse" ticket_world v →
  Forall (event_ok kh (db ticket_world) (Some sample_gateway)) sample_events.
Proof.
  intros Hr.
  assert (connection_ok kh (db ticket_world) (sample_connection materialize_request)) as Hm.
  { intros request Hq. rewrite materialize_sample_request in Hq. injection Hq as <-. split.
    - apply request_ok_sample; [reflexivity|]. intros body [= <-]. vm_compute. discriminate.
    - intros p [=]. }
  repeat first [apply Forall_nil; exact I|apply Forall_cons; split]; try exact I; try exact Hm.
  2: { intros config [= <-]. exact sample_gateway_ok. }
  intros request Hq. rewrite unlock_sample_request in Hq. injection Hq as <-. split.
  - apply request_ok_sample; [reflexivity|]. intros body [= <-]. vm_compute. discriminate.
  - intros p [= <-]. exact (bound_sound kh "correct horse" ticket_world v Hr).
Qed.
Lemma sample_socket_elsewhere : path_key "/run/s" ∉ database_files "/var/vault.hbse".
Proof. apply (bool_decide_eq_true_1 _). vm_compute. reflexivity. Qed.
Lemma served_site_prepared :
  is_ok (prepare (λ _ _, true) (λ _ _, empty_db) "/var/vault.hbse" "/run/s" (Some sample_gateway) broker_site).1 = true.
Proof. vm_compute. reflexivity. Qed.

Lemma broker_keeps_vault_witness : ∃ kh v v',
  represents (db (site_world (dm_site served_site.2))) v' ∧ vault_inv kh v' ∧ grows v v' ∧
  site_files (dm_site served_site.2) !! ["/"; "run"; "s"] = Some (Socket mode_0600).
Proof.
  destruct ticket_vault as (kh & v & Hr). exists kh, v.
  destruct served_site as [r d] eqn:Hd.
  destruct (broker_keeps_vault (λ _, "error") (λ _ _, true) (λ _ _, empty_db) "/var/vault.hbse" "/run/s" f64_zero
    (Some sample_gateway) sample_events kh v broker_site r d
    (lv_rep _ _ _ (rd_live _ _ _ _ Hr)) (lv_inv _ _ _ (rd_live _ _ _ _ Hr)) sample_socket_elsewhere
    (empty_phrase_refused kh v Hr) (sample_events_ok kh v Hr) Hd) as ((v' & Hv') & _ & _ & Hs).
  exists v'. destruct Hv' as (? & ? & ?). split; [assumption|]. split; [assumption|]. split; [assumption|].
  pose proof served_site_prepared as Hp.
  destruct (prepare (λ _ _, true) (λ _ _, empty_db) "/var/vault.hbse" "/run/s" (Some sample_gateway)
    broker_site).1 as [[]|e|] eqn:Ho; [|discriminate Hp..].
  apply (Hs eq_refl).
Defined.
