(* ===== verification/GatewaySetup.v ===== *)
(** * What a set-up model provider serves (main.rs over broker_daemon.rs and policy.rs)

    [hbse model-provider setup] saves a policy and prints the command line of a gateway.  The
    two are written by different code from the same base URL: the policy's host and path
    prefix by main.rs, the upstream URL by the gateway, its host and path by the broker, and
    the decision by the policy engine.  Here they are put together. *)

From S2P Require Export GatewaySpec CliProviders.
From S2P Require Import Toy.
#[local] Open Scope Z_scope.

(** A base URL of the common form: a scheme, a host in lower case, and no path or one without a
    slash at its end.  A host that is called [v1] would be taken for a version. *)
Record plain_base (base scheme host path : string) : Prop := {
  pb_base : base = (scheme +:+ "://" +:+ host +:+ path)%string;
  pb_scheme : scheme = "http" ∨ scheme = "https";
  pb_host : no_char SLASH host = true ∧ host ≠ "" ∧ to_ascii_lowercase host = host ∧ host ≠ "v1";
  pb_path : path = "" ∨ ∃ p, path = String SLASH p ∧ p ≠ "" ∧ trim_slashes p = p;
}.

(** ** Lemmas: the last slash *)

Lemma rsplit_slash_app d n :
  no_char SLASH n = true → rsplit_slash (d +:+ String SLASH n)%string = ((d +:+ "/")%string, n).
Proof.
  intros Hn. assert (rsplit_slash n = ("", n)) as Hnone.
  { clear d. induction n as [|a n IH]; [done|]. unfold no_char in *. cbn [all_chars] in Hn.
    apply andb_true_iff in Hn as [Ha%negb_true_iff Hn]. cbn [rsplit_slash]. rewrite (IH Hn).
    cbn [is_empty negb]. by rewrite Ha. }
  induction d as [|a d IH].
  - rewrite str_app_nil_l. cbn [rsplit_slash]. rewrite Hnone. cbn [is_empty negb].
    by rewrite Ascii.eqb_refl.
  - rewrite str_app_cons. cbn [rsplit_slash]. rewrite IH. by destruct d.
Qed.
Lemma last_slash_inj d d' n n' :
  no_char SLASH n = true → no_char SLASH n' = true →
  (d +:+ String SLASH n = d' +:+ String SLASH n')%string → n = n'.
Proof.
  intros Hn Hn' Heq. apply (f_equal rsplit_slash) in Heq. rewrite !rsplit_slash_app in Heq by done.
  by injection Heq.
Qed.
Lemma ends_with_inv s p : ends_with s p = true → ∃ t, s = (t +:+ p)%string.
Proof.
  unfold ends_with. intros Hp. destruct (Text.strip_suffix p s) as [t|] eqn:Hs.
  - exists t. by apply strip_suffix_Some.
  - unfold Text.strip_suffix, Text.strip_prefix in Hs. by rewrite Hp in Hs.
Qed.
Lemma starts_with_inv s p : starts_with s p = true → ∃ t, s = (p +:+ t)%string.
Proof.
  intros Hp. destruct (Text.strip_prefix p s) as [t|] eqn:Hs; [exists t; by apply Text.strip_prefix_Some|].
  unfold Text.strip_prefix in Hs. unfold starts_with in Hp. by rewrite Hp in Hs.
Qed.
Lemma last_char_suffix x p t a :
  p ≠ "" → (x +:+ p = t +:+ String a "")%string → ∃ u, p = (u +:+ String a "")%string.
Proof.
  intros Hne. revert t. induction x as [|b x IH]; intros t Heq; [by exists t|].
  rewrite str_app_cons in Heq. destruct t as [|c t].
  - rewrite str_app_nil_l in Heq. injection Heq as _ Heq. by destruct x, p.
  - rewrite str_app_cons in Heq. injection Heq as _ Heq. by apply (IH t).
Qed.

(** A text that does not end in a slash is not trimmed. *)
Lemma trim_end_slash_none s :
  (∀ t, s ≠ (t +:+ String SLASH "")%string) → trim_end_chars ["/"] s = s.
Proof.
  intros Hs. unfold trim_end_chars, drop_while_end. destruct (rev (chars s)) as [|c l] eqn:Hr.
  - apply (f_equal (@rev string)) in Hr. rewrite rev_involutive in Hr.
    by rewrite <-(concat_chars s), Hr.
  - cbn [drop_while existsb]. rewrite orb_false_r. destruct (String.eqb_spec c "/") as [->|_].
    + exfalso. apply (Hs (concat_str (rev l))). rewrite <-(concat_chars s), <-(rev_involutive (chars s)), Hr.
      cbn [rev]. unfold concat_str. rewrite foldr_app. cbn [foldr]. rewrite str_app_nil_r.
      induction (rev l) as [|x k IH]; [done|]. cbn [foldr]. by rewrite IH, str_app_assoc.
    + by rewrite <-Hr, rev_involutive, concat_chars.
Qed.
Lemma trim_slashes_end_length s : (String.length (trim_slashes_end s) <= String.length s)%nat.
Proof.
  induction s as [|a s IH]; [done|]. cbn [trim_slashes_end].
  destruct (trim_slashes_end s) as [|b u]; [destruct (Ascii.eqb a SLASH)|]; simpl in *; lia.
Qed.
Lemma trim_slashes_end_last t : trim_slashes_end (t +:+ String SLASH "")%string ≠ (t +:+ String SLASH "")%string.
Proof.
  induction t as [|a t IH].
  - rewrite str_app_nil_l. done.
  - rewrite str_app_cons. cbn [trim_slashes_end]. intros Heq.
    destruct (trim_slashes_end (t +:+ String SLASH "")) as [|b u] eqn:Hu.
    + destruct (Ascii.eqb a SLASH); [done|]. injection Heq as Heq. by destruct t.
    + injection Heq as Heq. done.
Qed.
Lemma trimmed_no_slash p t : trim_slashes p = p → p ≠ (t +:+ String SLASH "")%string.
Proof.
  unfold trim_slashes. intros Hp ->.
  assert (∀ s, ∃ u, s = (u +:+ trim_slashes_start s)%string) as Hstart.
  { clear. induction s as [|a s [u IH]]; [by exists ""|]. cbn [trim_slashes_start].
    destruct (Ascii.eqb a SLASH); [|by exists ""]. exists (String a u). by rewrite str_app_cons, <-IH. }
  set (s := (t +:+ String SLASH "")%string) in *.
  destruct (Hstart s) as [u Hu]. pose proof (trim_slashes_end_length (trim_slashes_start s)) as H1. rewrite Hp in H1.
  apply (f_equal String.length) in Hu as H2. rewrite str_length_app in H2.
  assert (u = "") as -> by (destruct u; [done|simpl in H2; lia]). rewrite str_app_nil_l in Hu.
  rewrite <-Hu in Hp. by apply trim_slashes_end_last in Hp.
Qed.

(** ** Lemmas: a base URL as its three readers see it *)

Section base.
Context {base scheme host path : string} (Hb : plain_base base scheme host path).

Lemma before_path (tail : string) :
  split_once "/" (host +:+ String SLASH tail)%string = Some (host, tail).
Proof using Hb. apply split_once_char, (pb_host _ _ _ _ Hb). Qed.
Lemma before_nothing : split_once "/" host = None.
Proof using Hb.
  destruct (split_once "/" host) as [[x y]|] eqn:Hs; [|done]. apply split_once_Some in Hs.
  destruct (pb_host _ _ _ _ Hb) as (Hn & _). rewrite Hs in Hn. unfold no_char in Hn.
  change ("/" +:+ y)%string with (String SLASH y) in Hn. rewrite all_chars_app in Hn.
  cbn [all_chars] in Hn. by rewrite Ascii.eqb_refl, andb_false_r in Hn.
Qed.
Lemma strip_base : strip_scheme base = Some (host +:+ path)%string.
Proof using Hb.
  destruct Hb as [-> [->| ->] _ _]; unfold strip_scheme.
  - change ("http" +:+ "://" +:+ host +:+ path)%string with ("http://" +:+ (host +:+ path))%string.
    rewrite (Text.strip_prefix_app "http://"). reflexivity.
  - change ("https" +:+ "://" +:+ host +:+ path)%string with ("https://" +:+ (host +:+ path))%string.
    by rewrite (Text.strip_prefix_app "https://").
Qed.
(** main.rs: the host and the path prefix of the policy, and whether it requires HTTPS. *)
Lemma base_host : http_host_from_base_url base = Ok host.
Proof using Hb.
  destruct (pb_host _ _ _ _ Hb) as (_ & Hne & _). unfold http_host_from_base_url. rewrite strip_base.
  cbv zeta. assert (before_slash (host +:+ path) = host) as ->.
  - unfold before_slash. destruct (pb_path _ _ _ _ Hb) as [Hp|(p & Hp & _)]; rewrite Hp.
    + by rewrite str_app_nil_r, before_nothing.
    + by rewrite before_path.
  - by destruct host.
Qed.
Lemma base_prefix :
  http_path_prefix_from_base_url base =
  if is_empty path then "/v1/" else (path +:+ String SLASH "")%string.
Proof using Hb.
  unfold http_path_prefix_from_base_url. rewrite strip_base. cbn [default from_option id]. cbv zeta.
  destruct (pb_path _ _ _ _ Hb) as [Hp|(p & Hp & Hne & Ht)]; rewrite Hp.
  - by rewrite str_app_nil_r, before_nothing.
  - rewrite before_path. cbn [is_empty]. destruct p as [|a p]; [done|]. cbn [is_empty]. by rewrite Ht.
Qed.
Lemma base_https : starts_with base "https://" = true → scheme = "https".
Proof using Hb. by destruct Hb as [-> [->| ->] _ _]. Qed.

(** The broker: a URL under the base. *)
Lemma parse_under tail :
  starts_with (path +:+ tail) "/" = true →
  parse_http_url (base +:+ tail)%string =
    Ok {| url_scheme := scheme; url_host := host; url_path := (path +:+ tail)%string |}.
Proof using Hb.
  intros Ht. destruct (pb_host _ _ _ _ Hb) as (_ & Hne & Hlow & _).
  assert (split_once "://" (base +:+ tail) = Some (scheme, (host +:+ path +:+ tail)%string)) as Hs.
  { rewrite (pb_base _ _ _ _ Hb), !str_app_assoc. generalize (host +:+ path +:+ tail)%string. intros x.
    destruct (pb_scheme _ _ _ _ Hb) as [->| ->]; destruct x; reflexivity. }
  unfold parse_http_url. rewrite Hs.
  assert (negb (String.eqb scheme "http") && negb (String.eqb scheme "https") = false) as ->
    by (by destruct (pb_scheme _ _ _ _ Hb) as [->| ->]).
  assert (∃ u, (path +:+ tail)%string = String SLASH u) as [u Hu].
  { unfold starts_with in Ht. destruct (path +:+ tail)%string as [|a u]; [done|]. exists u.
    cbn [String.prefix] in Ht. by destruct (ascii_dec "/" a) as [<-|]. }
  rewrite Hu, before_path. cbn [default from_option id]. cbv beta iota zeta.
  rewrite Hlow. by destruct host.
Qed.

(** The gateway: the base is not trimmed, and ends in a version only where its path does. *)
Lemma base_untrimmed : trim_end_chars ["/"] base = base.
Proof using Hb.
  apply trim_end_slash_none. intros t Ht. rewrite (pb_base _ _ _ _ Hb) in Ht.
  destruct (pb_host _ _ _ _ Hb) as (Hn & Hne & _). destruct (pb_path _ _ _ _ Hb) as [->|(p & -> & Hp & Htr)].
  - rewrite str_app_nil_r in Ht. change (scheme +:+ "://" +:+ host)%string with
      (scheme +:+ ":/" +:+ String SLASH host)%string in Ht. rewrite <-str_app_assoc in Ht.
    by apply last_slash_inj in Ht.
  - destruct (last_char_suffix (scheme +:+ "://" +:+ host +:+ "/") p t SLASH) as [u Hu]; [done| |].
    + rewrite <-Ht, !str_app_assoc. done.
    + by apply (trimmed_no_slash p u) in Hu.
Qed.
Lemma base_version : path = "" → ends_with base "/v1" = false.
Proof using Hb.
  intros Hp. destruct (ends_with base "/v1") eqn:He; [|done]. apply ends_with_inv in He as [t Ht].
  destruct (pb_host _ _ _ _ Hb) as (Hn & _ & _ & Hv). destruct Hv. rewrite (pb_base _ _ _ _ Hb), Hp, str_app_nil_r in Ht.
  change (scheme +:+ "://" +:+ host)%string with (scheme +:+ ":/" +:+ String SLASH host)%string in Ht.
  rewrite <-str_app_assoc in Ht. change "/v1" with (String SLASH "v1") in Ht. by apply last_slash_inj in Ht.
Qed.

(** The path under the base that the gateway makes of a target. *)
Definition target_path (target : string) : string :=
  if ends_with base "/v1" then trim_start_matches "/v1" target else target.
Lemma upstream_under target :
  starts_with target "/v1/" = true →
  http_gateway_upstream_url base target = (base +:+ target_path target)%string.
Proof using Hb.
  intros Ht. unfold http_gateway_upstream_url, target_path. rewrite base_untrimmed, Ht, andb_true_r.
  by destruct (ends_with base "/v1").
Qed.

(** What the broker makes of a target's URL is under the prefix the policy allows. *)
Lemma under_prefix target :
  starts_with target "/v1/" = true → starts_with (target_path target) "/" = true →
  ∃ rest, (path +:+ target_path target = http_path_prefix_from_base_url base +:+ rest)%string.
Proof using Hb.
  intros Ht Hs. rewrite base_prefix. destruct (pb_path _ _ _ _ Hb) as [Hp|(p & Hp & Hne & _)].
  - unfold target_path. rewrite (base_version Hp), Hp. cbn [is_empty]. rewrite str_app_nil_l.
    by apply starts_with_inv in Ht as [rest ->]; exists rest.
  - apply starts_with_inv in Hs as [rest Hs]. exists rest. rewrite Hp, Hs. cbn [is_empty].
    by rewrite str_app_assoc.
Qed.
End base.

(** The URL of an accepted request, and that the policy's prefix covers it. *)
Lemma upstream_parsed {base scheme host path} target :
  plain_base base scheme host path → starts_with target "/v1/" = true →
  starts_with (@target_path base target) "/" = true →
  ∃ rest, parse_http_url (http_gateway_upstream_url base target) =
    Ok {| url_scheme := scheme; url_host := host;
          url_path := (http_path_prefix_from_base_url base +:+ rest)%string |}.
Proof.
  intros Hb Ht Hs. destruct (under_prefix Hb target Ht Hs) as [rest Hrest]. exists rest.
  rewrite (upstream_under Hb target Ht), (parse_under Hb).
  - by rewrite Hrest.
  - destruct (pb_path _ _ _ _ Hb) as [->|(p & -> & _)]; [done|].
    rewrite str_app_cons. by destruct (p +:+ _)%string.
Qed.

(** ** The policy and the gateway's configuration, of one set-up *)

(** The gateway is started with the arguments of the command line that the set-up prints. *)
Record started_as (m : ModelProvider) (a : SetupArgs) (config : HttpGatewayConfig) : Prop := {
  sa_base : cfg_upstream_base_url config = mo_base_url m;
  sa_secret : cfg_secret_ref config = mo_secret_ref m;
  sa_consumer : cfg_consumer config = mo_consumer m;
  sa_purpose : cfg_purpose config = su_purpose a;
  sa_discovery : cfg_model_discovery_purpose config = su_model_discovery_purpose a;
}.

(** What the gateway accepts of a client and the policy of the set-up is meant to cover. *)
Record served (m : ModelProvider) (a : SetupArgs) (request : HttpGatewayRequest)
    (body : option bytes) (mfa : bool) : Prop := {
  sv_method : gw_method request ∈ ["GET"; "POST"; "DELETE"];
  sv_path : starts_with (gw_path request) "/v1/" = true;
  sv_target : starts_with (@target_path (mo_base_url m) (gw_path request)) "/" = true;
  sv_body : Z.of_nat (length (default [] body)) <= su_max_body_bytes a;
  sv_mfa : su_require_mfa a = true → mfa = true;
}.

Lemma served_method m a request body mfa :
  served m a request body mfa → to_ascii_uppercase (gw_method request) = gw_method request.
Proof. intros [Hm _ _ _ _]. revert Hm. generalize (gw_method request). intros s Hs.
  apply list_elem_of_In in Hs as [<-|[<-|[<-|[]]]]; reflexivity. Qed.

(** The fields of the gateway's request that the decision depends on. *)
Lemma gateway_fields config request :
  get_str "consumer" (gateway_request config request) = Some (cfg_consumer config) ∧
  get_str "provider_assurance" (gateway_request config request) = None ∧
  str_field (gateway_request config request) "secret_ref" = Ok (cfg_secret_ref config) ∧
  str_field (gateway_request config request) "purpose" =
    Ok (if starts_with (gw_path request) "/v1/models"
        then cfg_model_discovery_purpose config else cfg_purpose config) ∧
  get_str "method" (gateway_request config request) = Some (gw_method request) ∧
  str_field (gateway_request config request) "url" =
    Ok (http_gateway_upstream_url (cfg_upstream_base_url config) (gw_path request)).
Proof.
  unfold str_field, get_str, gateway_request.
  split_and!; try (erewrite jget_obj; [|vm_compute; reflexivity|reflexivity]; reflexivity).
  vm_compute. reflexivity.
Qed.

(** The policy of a set-up grants a request to its provider. *)
Lemma setup_grants m a host prefix r :
  req_secret_ref r = mo_secret_ref m → req_consumer r = mo_consumer m →
  (req_purpose r = su_purpose a ∨ req_purpose r = su_model_discovery_purpose a) →
  req_delivery_mode r = BrokeredHttp → req_provider_assurance r = "A1" →
  req_raw_export_requested r = false →
  req_http_host r = Some host →
  (starts_with (mo_base_url m) "https://" = true → req_http_scheme r = Some "https") →
  (∃ method, req_http_method r = Some method ∧
     to_ascii_uppercase method ∈ ["GET"; "POST"; "DELETE"]) →
  (∃ rest, req_http_path r = Some (prefix +:+ rest)%string) →
  (∀ size, req_http_request_body_bytes r = Some size → size <= su_max_body_bytes a) →
  (su_require_mfa a = true → req_mfa_verified r = true) →
  policy_grants (model_provider_policy m a host prefix) r.
Proof.
  intros Hs Hc Hp Hd Ha Hraw Hh Hscheme (method & Hm & Hmem) (rest & Hpath) Hbody Hmfa.
  assert (∀ A (x : A), x ∉ []) as Hnil by (intros A x []%list_elem_of_In).
  assert (∀ A (o : option A), attribute_ok o [] []) as Hnone by (split; [auto|by left]).
  assert (∀ A (x : A), x ∈ [x]) as Hone by (intros; apply list_elem_of_In; by left).
  split.
  - left. cbn. rewrite Hs. apply Hone.
  - done.
  - split; [apply Hnil|left]. cbn. rewrite Hc. apply Hone.
  - split; [apply Hnil|left]. cbn. apply list_elem_of_In. destruct Hp as [->| ->]; [by left|by right; left].
  - cbn. rewrite Hd. apply Hone.
  - apply Hnone.
  - apply Hnone.
  - apply Hnone.
  - intros _. split.
    + exists host. split_and!; [done|exact Hscheme|apply Hnil|right; left; apply Hone].
    + exists method. split_and!; [done|apply Hnil|right; left; exact Hmem].
    + exists (prefix +:+ rest)%string. split_and!; [done| |].
      * by intros ? ? ?%Hnil.
      * right. exists prefix, rest. split; [apply Hone|done].
    + intros limit size [= <-]. apply Hbody.
  - by rewrite Hraw.
  - by rewrite Hraw.
  - rewrite Ha. reflexivity.
  - exact Hmfa.
Qed.

(** C26: what a set-up saves is what the gateway it prints needs. Let a model provider be set up,
    its base URL a plain one, and a gateway be started with the arguments the set-up prints. For
    every GET, POST or DELETE of a path under /v1/ that the base URL takes, with a body within
    the limit, and a second factor where the set-up asked for one: the URL that the gateway
    writes is one the broker parses, and every list of policies that has the saved policy allows
    the request that the broker makes of it, whatever the peer and the time. *)
Theorem setup_policy_serves_gateway {X : Ext} preset a scheme host path config request peer body
    mfa session now policies :
  let m := settle preset a in
  let wire := gateway_request config request in
  plain_base (mo_base_url m) scheme host path → started_as m a config →
  served m a request body mfa →
  (∃ policy_host, http_host_from_base_url (mo_base_url m) = Ok policy_host ∧
     model_provider_policy m a policy_host (http_path_prefix_from_base_url (mo_base_url m)) ∈ policies) →
  ∃ url parsed purpose secret_ref,
    str_field wire "url" = Ok url ∧ parse_http_url url = Ok parsed ∧
    str_field wire "purpose" = Ok purpose ∧ str_field wire "secret_ref" = Ok secret_ref ∧
    decision (evaluate policies (http_access wire peer secret_ref purpose
      (to_ascii_uppercase (default "GET" (get_str "method" wire))) parsed body mfa session now)) = Allow.
Proof.
  intros m wire. subst wire. intros Hb [Hbase Hsec Hcons Hpur Hdisc] Hv (ph & Hph & Hin).
  rewrite (base_host Hb) in Hph. injection Hph as <-.
  destruct (gateway_fields config request) as (Fc & Fa & Fs & Fp & Fm & Fu).
  destruct (upstream_parsed (gw_path request) Hb (sv_path _ _ _ _ _ Hv) (sv_target _ _ _ _ _ Hv)) as [rest Hparse].
  rewrite Hbase in Fu. do 4 eexists. split_and!; [exact Fu|exact Hparse|exact Fp|exact Fs|].
  apply evaluate_allow. exists (model_provider_policy m a host (http_path_prefix_from_base_url (mo_base_url m))).
  split; [exact Hin|]. rewrite Fm. cbn [default from_option id]. rewrite (served_method _ _ _ _ _ Hv).
  apply setup_grants; cbn [http_access req_secret_ref req_consumer req_purpose req_delivery_mode
    req_provider_assurance req_raw_export_requested req_http_host req_http_scheme req_http_method req_http_path
    req_http_request_body_bytes req_mfa_verified url_host url_scheme url_path]; try done.
  - rewrite Hpur, Hdisc. destruct (starts_with _ _); [by right|by left].
  - intros Hh. by rewrite (base_https Hb Hh).
  - exists (gw_method request). split; [done|]. rewrite (served_method _ _ _ _ _ Hv). apply Hv.
  - by exists rest.
  - intros size [= <-]. apply Hv.
  - apply Hv.
Qed.

(** ** The presets *)

(** A base URL whose parts are found by reading it is plain. *)
Definition plain_parts (base : string) : option (string * string * string) :=
  match split_once "://" base with
  | Some (scheme, rest) =>
      match split_once "/" rest with
      | Some (host, p) => Some (scheme, host, String SLASH p)
      | None => Some (scheme, rest, "")
      end
  | None => None
  end.
Definition plain_base_ok (base : string) : bool :=
  match plain_parts base with
  | None => false
  | Some (scheme, host, path) =>
      String.eqb base (scheme +:+ "://" +:+ host +:+ path)%string &&
      (String.eqb scheme "http" || String.eqb scheme "https") &&
      no_char SLASH host && negb (is_empty host) && String.eqb (to_ascii_lowercase host) host &&
      negb (String.eqb host "v1") &&
      match path with
      | "" => true
      | String _ p => negb (is_empty p) && String.eqb (trim_slashes p) p
      end
  end.
Lemma plain_base_ok_sound base :
  plain_base_ok base = true →
  ∃ scheme host path, plain_parts base = Some (scheme, host, path) ∧ plain_base base scheme host path.
Proof.
  unfold plain_base_ok. destruct (plain_parts base) as [[[scheme host] path]|] eqn:Hp; [|done].
  intros H. repeat (apply andb_true_iff in H as [H ?]). exists scheme, host, path. split; [done|].
  rename select (match path with _ => _ end = true) into Hpath.
  repeat match goal with
  | H : String.eqb _ _ = true |- _ => apply String.eqb_eq in H
  | H : _ || _ = true |- _ => apply orb_true_iff in H as [H|H]
  | H : negb _ = true |- _ => apply negb_true_iff in H
  | H : String.eqb _ _ = false |- _ => apply String.eqb_neq in H
  end; (split; [done|by auto|by destruct host|]);
  (destruct path as [|a p]; [by left|right]; exists p;
   unfold plain_parts in Hp; destruct (split_once "://" base) as [[? rest]|]; [|done];
   destruct (split_once "/" rest) as [[? ?]|]; injection Hp; intros; simplify_eq;
   apply andb_true_iff in Hpath as [Hne%negb_true_iff Ht%String.eqb_eq]; by destruct p).
Qed.

(** Every preset of the table is plain, and takes the paths that the gateway's clients ask for. *)
Lemma presets_plain preset :
  preset ∈ model_provider_presets → ∃ scheme host path, plain_base (mp_base_url preset) scheme host path.
Proof.
  intros Hin. destruct (plain_base_ok_sound (mp_base_url preset)) as (scheme & host & path & _ & Hb);
    [|by exists scheme, host, path].
  assert (forallb (λ p, plain_base_ok (mp_base_url p)) model_provider_presets = true) as Hall
    by (vm_compute; reflexivity).
  apply forallb_forall with (x := preset) in Hall; [done|]. by apply list_elem_of_In.
Qed.

Definition sample_setup : SetupArgs := {|
  su_preset := "groq"; su_api_key_env := None; su_stdin := true; su_secret_ref := None;
  su_policy_id := None; su_consumer := None; su_purpose := "chat";
  su_model_discovery_purpose := "discovery"; su_upstream_base_url := None; su_listen := None;
  su_credential_header := None; su_credential_prefix := None; su_max_body_bytes := 1048576;
  su_require_mfa := true; su_passphrase := None |}.
Definition sample_preset : ModelProviderPreset :=
  bearer_preset "groq" "Groq" "https://api.groq.com/openai/v1" "OpenAI-compatible".
Definition sample_model : ModelProvider := settle sample_preset sample_setup.
Definition sample_config : HttpGatewayConfig := {|
  cfg_listen := mo_listen sample_model; cfg_upstream_base_url := mo_base_url sample_model;
  cfg_secret_ref := mo_secret_ref sample_model; cfg_consumer := mo_consumer sample_model;
  cfg_purpose := "chat"; cfg_model_discovery_purpose := "discovery";
  cfg_credential_header := "Authorization"; cfg_credential_prefix := "Bearer ";
  cfg_timeout_seconds := f64_zero; cfg_max_response_bytes := 1024;
  cfg_max_request_body_bytes := 1048576; cfg_allow_remote := false |}.
Definition sample_chat : HttpGatewayRequest := {|
  gw_method := "POST"; gw_path := "/v1/chat/completions"; gw_forward_headers := [];
  gw_body := Some "hello" |}.
Definition sample_setup_policy : AccessPolicy :=
  model_provider_policy sample_model sample_setup "api.groq.com" "/openai/v1/".
Definition sample_peer : PeerIdentity := {|
  peer_pid := 1; peer_uid := 1000; peer_gid := 1000; peer_exe_path := None; peer_comm := None;
  peer_exe_sha256 := None |}.

Lemma setup_policy_serves_gateway_witness : ∃ url parsed purpose secret_ref,
  url = "https://api.groq.com/openai/v1/chat/completions" ∧ purpose = "chat" ∧
  secret_ref = "secret://providers/groq/api-key" ∧
  decision (evaluate [sample_setup_policy]
    (http_access (gateway_request sample_config sample_chat) sample_peer secret_ref purpose "POST"
       parsed (Some (as_bytes "hello")) true None 5)) = Allow.
Proof.
  destruct (setup_policy_serves_gateway sample_preset sample_setup "https" "api.groq.com" "/openai/v1"
    sample_config sample_chat sample_peer (Some (as_bytes "hello")) true None 5 [sample_setup_policy])
    as (url & parsed & purpose & secret_ref & Hu & _ & Hp & Hs & Hd).
  - split; [reflexivity|by right|split_and!; by vm_compute|right]. exists "openai/v1".
    split_and!; by vm_compute.
  - split; reflexivity.
  - split; [apply list_elem_of_In; right; by left|reflexivity|by vm_compute|by vm_compute|done].
  - exists "api.groq.com". split; [by vm_compute|]. apply list_elem_of_In. left. by vm_compute.
  - exists url, parsed, purpose, secret_ref.
    assert (str_field (gateway_request sample_config sample_chat) "url"
              = Ok "https://api.groq.com/openai/v1/chat/completions") as Hu' by (vm_compute; reflexivity).
    assert (str_field (gateway_request sample_config sample_chat) "purpose" = Ok "chat") as Hp'
      by (vm_compute; reflexivity).
    assert (str_field (gateway_request sample_config sample_chat) "secret_ref"
              = Ok "secret://providers/groq/api-key") as Hs' by (vm_compute; reflexivity).
    rewrite Hu' in Hu. rewrite Hp' in Hp. rewrite Hs' in Hs. injection Hu as Hu.
    injection Hp as Hp. injection Hs as Hs. split_and!; [by symmetry..|exact Hd].
Defined.
